(* ===== verification/_CoqProject ===== *)
-Q . S2P
Prelude.v
GoBase.v
Config.v
Decimal.v
Float64.v
Float64Facts.v
FloatBounds.v
Float64Text.v
Json.v
JsonFacts.v
GoTime.v
GoTimeFacts.v
Domain.v
Wire.v
Normalizer.v
WireTypes.v
Runtime.v
Retry.v
FxRate.v
Handlers.v
FanOut.v
Pool.v
OrderBookStore.v
RedisWriter.v
Consumer.v
Pipeline.v
PipelineFacts.v
ConsumerLoop.v
SinkStores.v
KafkaLag.v
Jitter.v
LagCache.v
HttpServer.v
Publisher.v
Ingestion.v
IngestionFacts.v
WsSession.v
Api.v
ApiHealth.v
HealthWire.v
Routes.v
Processor.v
Commands.v
Lifetime.v
ServiceEnds.v
ServiceHealth.v
EndToEnd.v
