(* ===== verification/Prelude.v ===== *)
(** * TradePulse: a verification library

    TradePulse streams trades from an exchange into a small set of Go services (directory src/).
    This library models those services in Rocq and proves what makes them correct.

    ** The program

    - ingestion-service keeps one WebSocket per symbol, normalises every message into a trade event
      and publishes it to the Kafka topic trades.raw.
    - processor-service consumes the topic through a worker pool, enriches each trade, and fans it
      out to an in-memory order book, a Redis writer and a broadcaster.
    - api-service serves the latest trade and the order book of a symbol from Redis, and a health
      report that includes the processor's consumer lag.
    - fx-rate-service polls exchange rates; analytics- and notification-service are skeletons.
    - shared/ holds the domain types and their JSON, configuration, backoff, the ops HTTP server, the
      consumer-lag reader and its cache, and the lifetime of a process.

    ** Conventions

    A Go pair of a value and an error is a [result], a possibly nil error an [option error]; errors
    are compared by [errors.Is] through their chain ([GoBase.error]).  Integers are [Z] with
    [wrap64] where Go's could wrap; float64 is the Standard Library's executable binary64; text is
    a list of bytes; an instant is a number of nanoseconds with a zone.  A sequential function is a
    Rocq function with the same guards in the same order.  A loop that waits for the outside (a
    retry loop, a poll loop, a refresh loop) runs over a script, a list that says what each
    iteration saw; an exhausted script means that the loop is still running ([Retry.Running]), so
    no fuel is involved and the theorems say when the loop ends.  Goroutines that share state are a
    labelled transition system; [trace] is a finite execution, [run] evaluates one, and invariants
    are proved by [trace_invariant] and [trace_history].  Code that is not in the repository is a
    parameter: a class with its laws ([Redis] and [RedisLaws], [Viper] and [ViperLaws],
    [ProducerClient] and [ProducerClientLaws], [GroupOffsets] and [GroupOffsetsLaws], [Errgroup],
    [Unicode], [JSON] and [JSONRoundTrip], [Chi] and [ChiLaws]), a relation (how a topic is read,
    [EndToEnd.reads_topic]) or a function (dialling, pinging, the admin client, the order in which
    Go ranges over a map); each class of laws has an instance.

    ** The files

    Language and standard library: [Prelude] (results, transition systems, lists), [GoBase]
    (integers, strings, errors, channels), [Decimal], [Float64], [Float64Facts], [FloatBounds],
    [Float64Text] (binary64, strconv), [Json], [JsonFacts] (encoding/json), [GoTime], [GoTimeFacts]
    (package time).

    Shared packages: [Config] (shared/config), [Domain], [Wire] and [WireTypes] (shared/domain, its
    struct tags, what decoding can yield), [Runtime] (shared/runtime and errgroup), [Retry]
    (shared/retry), [KafkaLag], [Jitter] and [LagCache] (shared/kafka), [HttpServer]
    (shared/httpserver and shared/version), [Commands] (shared/log, the signals of shared/runtime,
    and cmd/main.go of every service with the ways in which that service can end), [Lifetime] (a
    whole process: the ops server and the service under [runtime.Run], the goroutines of
    [Service.Run] under its own group, the contexts of both, and the clients that are closed),
    [ServiceEnds] (the services of [Lifetime] end as their own models do), [ServiceHealth] (the
    checkers that ingestion- and processor-service register, and what the ops server answers).

    ingestion-service: [Normalizer] (normalizer.go), [Publisher] (publisher.go), [Ingestion] and
    [IngestionFacts] (service.go, worker.go, reconnect.go, health.go), [WsSession] (the inside of
    one session of worker.go: dial, deadlines, control frames, watcher).

    processor-service: [Handlers] (metadata.go, enricher.go, middleware.go), [FanOut], [Pool],
    [OrderBookStore], [RedisWriter], [Consumer] (the files of those names), [Pipeline] and
    [PipelineFacts] (the goroutines of service.go together), [ConsumerLoop] (a consumer step of that
    system is one call of dispatch, and cutting it at its calls adds nothing), [SinkStores] (the
    pipeline with the order-book store and Redis, a write cut at its calls), [Processor] (its setup
    and its end).

    api-service: [Api] (rest/trade.go, orderbook.go, redis.go, respond.go), [ApiHealth]
    (rest/health.go, internal/service.go, internal/server.go).  fx-rate-service: [FxRate].
    Both HTTP servers: [HealthWire] (the JSON of the health reports) and [Routes] (which request
    reaches which handler).

    [EndToEnd] composes ingestion, processor and API.

    ** What is shown

    - End to end, from the WebSocket message to the HTTP reply, over a topic that is read in order only
      within each of its partitions: a request for a symbol is answered with 503 exactly if Redis
      cannot be read, else with 404 exactly if no trade of the symbol was read, else with one of
      them, with one pool worker with the last one ([EndToEnd_serves]); a request for its order
      book, at any time and in any interleaving, with 503, 404 if none is cached, or the book after
      some prefix of them ([EndToEnd_serves_book]).
    - The pipeline: exactly-once delivery to every sink, no deadlock and a bound on the number of
      moves, order with one worker, and by executions what it does not promise: two workers reorder,
      and a shutdown loses trades already marked ([PipelineFacts]).  Its parts: the select loop of
      the fan-out, conservation and backpressure of the pool, the marks of the consumer and which
      refused records a restart reads again.
    - Data: normalisation accepts exactly the acceptable messages; JSON encodings are total on
      well-formed values and inverted by decoding, down to the text of floats and instants; what
      decoding yields is well-typed whatever the text, so the API's answers have a body, with one
      exception ([replies_typed]); the enricher forwards every trade, known to the metadata or not,
      and changes only what it should.
    - Stores: the order-book store refines its specification; a Redis write happens in order, stops
      at the first failure, and is idempotent; the endpoints answer by what is cached.  Among the
      other goroutines the two sinks still do what uninterrupted runs do, the book in Redis only
      advances, and an execution shows that it can stay behind for good ([SinkStores]).
    - Ingestion: the connection map is true in every reachable state, the published records are
      those of the messages, in order, closing the publisher leaves none in flight, and workers never
      fail; a session with its control frames refines a worker's reading phase, and is cut sixty
      seconds after the last ping or pong ([WsSession]).
    - Health and HTTP: which check fails when, under which deadline, and how the two reports differ;
      the readiness of the ingestion service, from its workers, its broker and its deliveries, and
      that of the processor ([ServiceHealth]); the text of the reports is read back unchanged;
      every request of either server reaches the handler it should and no other ([Routes]).
    - Loops and lifetime: reconnect and refresh loops end only when cancelled, with bounded delays;
      how setup errors, panics, signals and failing listeners reach the exit status of each command,
      and that no signal kills a process before main has come to its end ([Commands]).  A process whose context has ended exits after a bounded number of steps, with
      every client closed once by its owner ([process_drains]); the goroutines of that model return
      exactly what the detailed models of the services can ([service_ends_agree]); a public listener
      that fails leaves the process running without its API ([public_failure_strands]).
    - Configuration: for each of the 23 fields, by the name of its variable, its key and its default,
      environment over file over default, and for which keys ([Load_precedence]).

    Where the code falls short of what it or its documentation says, the theorem states what it
    does (for example [public_failure_strands], [LagCache_hides_unknown_lag],
    [normalizeTrade_nonfinite], [PublicAddr_needs_file], [cached_book_lags], [session_alive],
    [drain_not_forced], [onDelivery_torn]).

    ** Not modelled

    The lines that are logged (the logger's settings are) and the metrics page; the WebSocket
    handshake and framing; what the Redis and consumer clients do when they are closed (which client
    each Close method releases is in [Lifetime]); a topic that loses records, or rebalances that
    deliver one twice to the running pipeline; patterns of the mux with a
    method, a host or a wildcard, which the program does not use, and the redirect of unclean paths;
    what chi's middlewares put into the request, which no handler reads.
    [OrderBookStore.Apply] is one step, as only one goroutine calls it.  [Publisher.onDelivery] is
    one step in [Ingestion]; [onDelivery_torn] says what a health check between its halves sees.

    The alert, candle and rate helpers of shared/domain are definitions of [Domain] without theorems
    of their own: nothing in the program calls them yet.  The setup of a service is one step of
    [Lifetime.start]: a signal that arrives before it is over is one that arrives right after it. *)
From Stdlib Require Export Ascii String ZArith Lia.
From stdpp Require Export base tactics option list gmap strings pretty sorting.

(** ** Results: a Go pair [(value, error)] of which exactly one half is meaningful *)

Inductive result (E A : Type) : Type :=
  | Ok (a : A)
  | Err (e : E).
Arguments Ok {E A} a.
Arguments Err {E A} e.

#[export] Instance result_ret {E : Type} : MRet (result E) := fun A a => Ok a.
#[export] Instance result_bind {E : Type} : MBind (result E) :=
  fun A B f r => match r with Ok a => f a | Err e => Err e end.
#[export] Instance result_fmap {E : Type} : FMap (result E) :=
  fun A B f r => match r with Ok a => Ok (f a) | Err e => Err e end.
#[export] Instance result_eq_dec {E A : Type} `{EqDecision E, EqDecision A} :
  EqDecision (result E A).
Proof.
  intros [a|e] [a'|e'].
  - destruct (decide (a = a')); [left | right]; congruence.
  - right. discriminate.
  - right. discriminate.
  - destruct (decide (e = e')); [left | right]; congruence.
Defined.

Definition is_Ok {E A : Type} (r : result E A) : bool :=
  match r with Ok _ => true | Err _ => false end.

Lemma result_bind_Ok {E A B : Type} (r : result E A) (f : A -> result E B) (b : B) :
  (r ≫= f) = Ok b <-> exists a, r = Ok a /\ f a = Ok b.
Proof.
  destruct r; simpl; split; [eauto | by intros (? & [= ->] & ?) | done | by intros (? & ? & ?)].
Qed.

(** ** Tactics *)

(** Split every conjunction and existential of the context. *)
Ltac deex :=
  repeat match goal with
  | H : exists x, _ |- _ => let x1 := fresh x in destruct H as [x1 H]
  | H : _ /\ _ |- _ => let H1 := fresh H in let H2 := fresh H in destruct H as [H1 H2]
  end.

(** Split the conjunctions of the goal, but no equivalence. *)
Ltac conj := repeat match goal with |- _ /\ _ => split end.

(** Turn boolean integer tests of the context and the goal into propositions. *)
Ltac zbool :=
  repeat match goal with
  | H : (_ && _)%bool = true |- _ => let H1 := fresh H in let H2 := fresh H in apply andb_true_iff in H as [H1 H2]
  | H : (_ <? _)%Z = true |- _ => apply Z.ltb_lt in H
  | H : (_ <? _)%Z = false |- _ => apply Z.ltb_ge in H
  | H : (_ <=? _)%Z = true |- _ => apply Z.leb_le in H
  | H : (_ <=? _)%Z = false |- _ => apply Z.leb_gt in H
  | H : (_ =? _)%Z = true |- _ => apply Z.eqb_eq in H
  | H : (_ =? _)%Z = false |- _ => apply Z.eqb_neq in H
  | H : (_ <? _)%nat = true |- _ => apply Nat.ltb_lt in H
  | H : (_ <? _)%nat = false |- _ => apply Nat.ltb_ge in H
  end.

(** Case analysis on the innermost [if] or [match] of the goal. *)
Ltac case_goal :=
  match goal with |- context [match ?x with _ => _ end] =>
    lazymatch x with context [match _ with _ => _ end] => fail | _ => destruct x eqn:? end
  end.

(** Close a permutation goal between appends and conses of the same pieces. *)
Ltac perm :=
  repeat rewrite <- app_assoc; simpl;
  first [ reflexivity | solve_Permutation | (repeat rewrite Permutation_middle; reflexivity) ].

(** ** Labelled transition systems *)

Section LTS.
Context {S L : Type} (step : S -> L -> S -> Prop).

(** A finite execution and the labels it takes. *)
Inductive trace : S -> list L -> S -> Prop :=
  | trace_nil s : trace s [] s
  | trace_cons s l s' ls s'' : step s l s' -> trace s' ls s'' -> trace s (l :: ls) s''.

Lemma trace_app s ls s' ls' s'' :
  trace s ls s' -> trace s' ls' s'' -> trace s (ls ++ ls') s''.
Proof. induction 1; simpl; [done|]. intros. econstructor; eauto. Qed.

Lemma trace_snoc s ls s' l s'' : trace s ls s' -> step s' l s'' -> trace s (ls ++ [l]) s''.
Proof. intros. eapply trace_app; [eassumption|]. econstructor; [eassumption|constructor]. Qed.

(** Rule induction: a property that every step preserves holds after every trace. *)
Lemma trace_invariant (I : S -> Prop) :
  (forall s l s', I s -> step s l s' -> I s') ->
  forall s ls s', trace s ls s' -> I s -> I s'.
Proof. intros Hstep. induction 1; eauto. Qed.

(** The same with the history of labels available to the invariant. *)
Lemma trace_history (I : list L -> S -> Prop) s0 :
  I [] s0 ->
  (forall ls s l s', I ls s -> step s l s' -> I (ls ++ [l]) s') ->
  forall ls s, trace s0 ls s -> I ls s.
Proof.
  intros H0 Hstep ls s Htr.
  enough (forall pre, I pre s0 -> I (pre ++ ls) s) as Hgen by (apply (Hgen []); done).
  clear H0. induction Htr as [|s l s' ls s'' Hs _ IH]; intros pre Hpre.
  - by rewrite app_nil_r.
  - replace (pre ++ l :: ls) with ((pre ++ [l]) ++ ls) by (rewrite <- app_assoc; done).
    eauto.
Qed.

(** Executable transition functions: running one is a trace of the relation it implements. *)
Context (exec : L -> S -> option S).

Fixpoint run (ls : list L) (s : S) : option S :=
  match ls with
  | [] => Some s
  | l :: ls' => match exec l s with Some s' => run ls' s' | None => None end
  end.

Lemma run_trace (exec_sound : forall l s s', exec l s = Some s' -> step s l s') ls s s' :
  run ls s = Some s' -> trace s ls s'.
Proof.
  revert s. induction ls as [|l ls IH]; simpl; intros s Hrun.
  - injection Hrun as <-. constructor.
  - destruct (exec l s) as [s1|] eqn:He; [|done]. econstructor; eauto.
Qed.
Lemma run_app ls ls' s :
  run (ls ++ ls') s = match run ls s with Some s' => run ls' s' | None => None end.
Proof.
  revert s. induction ls as [|l ls IH]; intros s; [done|]. cbn [app run]. destruct (exec l s); [apply IH|done].
Qed.
End LTS.

(** ** Lists *)

(** The number of elements at the end of [l] that all satisfy [p]. *)
Definition trailing {A : Type} (p : A -> bool) (l : list A) : nat :=
  (fix go (r : list A) : nat :=
     match r with [] => 0 | x :: r' => if p x then S (go r') else 0 end) (rev l).

Lemma trailing_nil {A : Type} (p : A -> bool) : trailing p [] = 0.
Proof. reflexivity. Qed.

Lemma trailing_snoc {A : Type} (p : A -> bool) (l : list A) (x : A) :
  trailing p (l ++ [x]) = if p x then S (trailing p l) else 0.
Proof. unfold trailing. rewrite rev_app_distr. reflexivity. Qed.

Lemma trailing_le {A : Type} (p : A -> bool) (l : list A) : trailing p l <= length l.
Proof.
  induction l as [|x l IH] using rev_ind; [done|].
  rewrite trailing_snoc, length_app. simpl. destruct (p x); lia.
Qed.

(** The last element that satisfies [p]. *)
Definition find_last {A : Type} (p : A -> bool) (l : list A) : option A :=
  List.find p (rev l).

Lemma find_last_snoc {A : Type} (p : A -> bool) (l : list A) (x : A) :
  find_last p (l ++ [x]) = if p x then Some x else find_last p l.
Proof. unfold find_last. rewrite rev_app_distr. reflexivity. Qed.

Lemma find_last_app {A : Type} (p : A -> bool) (l l' : list A) :
  find_last p (l ++ l') = match find_last p l' with Some x => Some x | None => find_last p l end.
Proof.
  induction l' as [|x l' IH] using rev_ind; [by rewrite app_nil_r|].
  rewrite app_assoc, !find_last_snoc, IH. by destruct (p x).
Qed.

Lemma omap_cons_eq {A B : Type} (f : A -> option B) x l :
  omap f (x :: l) = match f x with Some y => y :: omap f l | None => omap f l end.
Proof. reflexivity. Qed.

(** Two lists that agree on the elements of every key are permutations of each other. *)
Section ByKey.
Context {A K : Type} `{EqDecision K} (f : A -> K).

Lemma filter_first (P : A -> Prop) `{forall x, Decision (P x)} x k l :
  filter P l = x :: k -> exists l1 l2, l = l1 ++ x :: l2 /\ filter P l1 = [] /\ filter P l2 = k.
Proof.
  induction l as [|y l IH]; [done|]. rewrite filter_cons. destruct (decide (P y)) as [Hy|Hy].
  - intros [= -> <-]. by exists [], l.
  - intros (l1 & l2 & -> & H1 & H2)%IH. exists (y :: l1), l2. by rewrite filter_cons, decide_False.
Qed.

Lemma perm_by_key l l' :
  (forall k, filter (fun x => f x = k) l = filter (fun x => f x = k) l') -> l ≡ₚ l'.
Proof.
  revert l'. induction l as [|x l IH]; intros l' Hf.
  - destruct l' as [|y l']; [done|]. specialize (Hf (f y)). by rewrite filter_cons_True in Hf.
  - pose proof (Hf (f x)) as Hx. rewrite filter_cons_True in Hx by done. symmetry in Hx.
    destruct (filter_first _ _ _ _ Hx) as (l1 & l2 & -> & H1 & H2).
    rewrite <- Permutation_middle. constructor. apply IH. intros k. specialize (Hf k).
    rewrite filter_app in Hf |- *. rewrite !filter_cons in Hf. destruct (decide (f x = k)) as [<-|Hk].
    + by rewrite H1, H2.
    + exact Hf.
Qed.

(** The elements of a key in a list of keyed values. *)
Lemma filter_keyed {B : Type} (g : A -> B) k l :
  filter (fun x => x.1 = k) (map (fun a => (f a, g a)) l) = map (pair k) (map g (filter (fun a => f a = k) l)).
Proof.
  induction l as [|a l IH]; [done|]. cbn [map]. rewrite !filter_cons. cbn [fst].
  destruct (decide (f a = k)) as [<-|]; cbn [map]; by rewrite IH.
Qed.
End ByKey.

(** The first occurrence of every element, in order. *)
Fixpoint nub {A : Type} `{EqDecision A} (l : list A) : list A :=
  match l with
  | [] => []
  | x :: l' => x :: filter (fun y => y <> x) (nub l')
  end.

Lemma elem_of_nub {A : Type} `{EqDecision A} (l : list A) x : x ∈ nub l <-> x ∈ l.
Proof.
  induction l as [|y l IH]; [done|]. cbn [nub]. rewrite !elem_of_cons, list_elem_of_filter, IH.
  destruct (decide (x = y)); tauto.
Qed.

Lemma NoDup_nub {A : Type} `{EqDecision A} (l : list A) : NoDup (nub l).
Proof.
  induction l as [|y l IH]; cbn [nub]; [constructor|]. constructor.
  - rewrite list_elem_of_filter. by intros [? _].
  - by apply NoDup_filter.
Qed.

(** Replacing one element of a list replaces its contribution to a concatenation. *)
Lemma bind_insert_perm {A B : Type} (f : A -> list B) (l : list A) i x y :
  l !! i = Some x -> f x ++ (<[i := y]> l ≫= f) ≡ₚ f y ++ (l ≫= f).
Proof.
  intros Hi. pose proof (lookup_lt_Some _ _ _ Hi) as Hlt.
  rewrite <- (take_drop_middle l i x Hi) at 2. rewrite insert_take_drop by done.
  rewrite !bind_app, !bind_cons. solve_Permutation.
Qed.

Lemma length_filter_insert {A : Type} (P : A -> Prop) `{forall x, Decision (P x)} (l : list A) i x y :
  l !! i = Some x ->
  (if decide (P x) then 1 else 0) + length (filter P (<[i := y]> l)) =
  (if decide (P y) then 1 else 0) + length (filter P l).
Proof.
  intros Hi. pose proof (lookup_lt_Some _ _ _ Hi) as Hlt.
  rewrite <- (take_drop_middle l i x Hi) at 2. rewrite insert_take_drop by done.
  rewrite !filter_app, !filter_cons, !length_app. destruct (decide (P x)), (decide (P y)); simpl; lia.
Qed.

Lemma sum_list_with_insert {A : Type} (f : A -> nat) (l : list A) i x y :
  l !! i = Some x -> sum_list_with f (<[i := y]> l) + f x = sum_list_with f l + f y.
Proof.
  intros Hi. pose proof (lookup_lt_Some _ _ _ Hi) as Hlt.
  rewrite <- (take_drop_middle l i x Hi) at 2. rewrite insert_take_drop by done.
  rewrite !sum_list_with_app. cbn. lia.
Qed.

Create HintDb go.
Create Rewrite HintDb go_rw.
#[export] Hint Rewrite @trailing_nil @trailing_snoc @find_last_snoc : go_rw.
