(* ===== verification/GoBase.v ===== *)
(** * The Go runtime and the standard library, as far as the program uses them

    Machine integers, errors and their wrapping, strings, durations, buffered channels.  None
    of this is code of the repository: it is the language the components below are written in,
    so every other file builds on it and no entry of the manifest maps to it. *)
From S2P Require Import Prelude.
#[local] Open Scope Z_scope.

(** ** Two's-complement integers ([int], [int64] and [time.Duration] are 64 bits wide) *)

Definition int64_min : Z := - 2 ^ 63.
Definition int64_max : Z := 2 ^ 63 - 1.
Definition wrap64 (z : Z) : Z := (z + 2 ^ 63) mod 2 ^ 64 - 2 ^ 63.
Definition in_int64 (z : Z) : Prop := int64_min <= z <= int64_max.
#[export] Instance in_int64_dec z : Decision (in_int64 z) := _.

Lemma wrap64_id z : in_int64 z -> wrap64 z = z.
Proof.
  unfold in_int64, wrap64, int64_min, int64_max. intros Hz.
  rewrite Z.mod_small; lia.
Qed.

Lemma wrap64_range z : in_int64 (wrap64 z).
Proof.
  unfold in_int64, wrap64, int64_min, int64_max.
  pose proof (Z.mod_pos_bound (z + 2 ^ 63) (2 ^ 64) ltac:(lia)). lia.
Qed.

Lemma wrap64_add_l a b : wrap64 (wrap64 a + b) = wrap64 (a + b).
Proof.
  unfold wrap64. f_equal.
  replace ((a + 2 ^ 63) mod 2 ^ 64 - 2 ^ 63 + b + 2 ^ 63) with ((a + 2 ^ 63) mod 2 ^ 64 + b) by lia.
  rewrite Zplus_mod_idemp_l. f_equal. lia.
Qed.

Lemma wrap64_add_r a b : wrap64 (a + wrap64 b) = wrap64 (a + b).
Proof. rewrite Z.add_comm, wrap64_add_l. f_equal. lia. Qed.

Ltac int64_lia := unfold in_int64, int64_min, int64_max in *; lia.
#[export] Hint Resolve wrap64_range : go.

(** ** Durations (nanoseconds) *)

Definition Nanosecond : Z := 1.
Definition Microsecond : Z := 1000 * Nanosecond.
Definition Millisecond : Z := 1000 * Microsecond.
Definition Second : Z := 1000 * Millisecond.
Definition Minute : Z := 60 * Second.
Definition Hour : Z := 60 * Minute.

(** ** Strings *)

Definition isASCII_byte (c : ascii) : bool := (nat_of_ascii c <? 128)%nat.
Fixpoint string_forallb (p : ascii -> bool) (s : string) : bool :=
  match s with
  | EmptyString => true
  | String c s' => p c && string_forallb p s'
  end.
Definition isASCII (s : string) : bool := string_forallb isASCII_byte s.

Fixpoint string_map (f : ascii -> ascii) (s : string) : string :=
  match s with
  | EmptyString => EmptyString
  | String c s' => String (f c) (string_map f s')
  end.

Definition byte_in (lo hi : nat) (c : ascii) : bool :=
  (lo <=? nat_of_ascii c)%nat && (nat_of_ascii c <=? hi)%nat.
Definition upper_byte (c : ascii) : ascii :=
  if byte_in 97 122 c then ascii_of_nat (nat_of_ascii c - 32) else c.
Definition lower_byte (c : ascii) : ascii :=
  if byte_in 65 90 c then ascii_of_nat (nat_of_ascii c + 32) else c.
(** The ASCII bytes [unicode.IsSpace] accepts: tab, newline, vertical tab, form feed,
    carriage return and space. *)
Definition space_byte (c : ascii) : bool := byte_in 9 13 c || byte_in 32 32 c.

Fixpoint trim_left (s : string) : string :=
  match s with
  | String c s' => if space_byte c then trim_left s' else s
  | EmptyString => s
  end.
Fixpoint trim_right (s : string) : string :=
  match s with
  | String c s' =>
      match trim_right s' with
      | EmptyString => if space_byte c then EmptyString else String c EmptyString
      | t => String c t
      end
  | EmptyString => s
  end.

(** The tables of package [unicode]: what [strings] and [strconv] do on a string that has a
    byte outside ASCII.  On ASCII strings those packages take a byte-wise fast path, which is
    written out below; the tables are a parameter. *)
Class Unicode := {
  unicode_ToUpper : string -> string;
  unicode_ToLower : string -> string;
  unicode_TrimSpace : string -> string;
  unicode_Quote : string -> string;
}.

Definition ToUpper `{Unicode} (s : string) : string :=
  if isASCII s then string_map upper_byte s else unicode_ToUpper s.
Definition ToLower `{Unicode} (s : string) : string :=
  if isASCII s then string_map lower_byte s else unicode_ToLower s.
Definition TrimSpace `{Unicode} (s : string) : string :=
  if isASCII s then trim_right (trim_left s) else unicode_TrimSpace s.

(** A concrete instance for examples: leave non-ASCII strings alone. *)
Definition ascii_only : Unicode :=
  {| unicode_ToUpper s := s; unicode_ToLower s := s; unicode_TrimSpace s := s;
     unicode_Quote s := s |}.

Definition dquote : ascii := ascii_of_nat 34.
Definition backslash : ascii := ascii_of_nat 92.
Definition hex_digit (n : nat) : ascii :=
  ascii_of_nat (if (n <? 10)%nat then 48 + n else 87 + n).
Definition quote_byte (c : ascii) : string :=
  let n := nat_of_ascii c in
  if (n =? 34)%nat then String backslash (String dquote "")
  else if (n =? 92)%nat then String backslash (String backslash "")
  else if byte_in 32 126 c then String c ""
  else match n with
  | 7%nat => String backslash "a"
  | 8%nat => String backslash "b"
  | 12%nat => String backslash "f"
  | 10%nat => String backslash "n"
  | 13%nat => String backslash "r"
  | 9%nat => String backslash "t"
  | 11%nat => String backslash "v"
  | _ => String backslash
           (String "x" (String (hex_digit (n / 16)) (String (hex_digit (n mod 16)) "")))
  end.
Fixpoint string_concat_map (f : ascii -> string) (s : string) : string :=
  match s with
  | EmptyString => EmptyString
  | String c s' => (f c ++ string_concat_map f s')%string
  end.
(** [fmt]'s %q verb. *)
Definition Quote `{Unicode} (s : string) : string :=
  (String dquote "" ++
   (if isASCII s then string_concat_map quote_byte s else unicode_Quote s) ++
   String dquote "")%string.

(** [fmt]'s %v verb on a slice of strings. *)
Definition fmt_strings (l : list string) : string :=
  ("[" ++ String.concat " " l ++ "]")%string.

(** ** Errors

    A Go error that is compared by identity is a [Sentinel]; everything else only has a text
    and possibly the error it wraps ([fmt.Errorf] with %w). *)

Inductive sentinel :=
  | ContextCanceled
  | ContextDeadlineExceeded
  | HTTPErrServerClosed
  | RedisNil
  | ErrLagNotConfigured.
#[export] Instance sentinel_eq_dec : EqDecision sentinel.
Proof. solve_decision. Defined.

Inductive error :=
  | Sentinel (s : sentinel)
  | ErrorString (msg : string)
  | Wrapped (msg : string) (inner : error).
#[export] Instance error_eq_dec : EqDecision error.
Proof. solve_decision. Defined.

Definition sentinel_text (s : sentinel) : string :=
  match s with
  | ContextCanceled => "context canceled"
  | ContextDeadlineExceeded => "context deadline exceeded"
  | HTTPErrServerClosed => "http: Server closed"
  | RedisNil => "redis: nil"
  | ErrLagNotConfigured => "not_configured"
  end.

(** The [Error] method. *)
Definition Error (e : error) : string :=
  match e with
  | Sentinel s => sentinel_text s
  | ErrorString msg => msg
  | Wrapped msg _ => msg
  end.

(** [errors.Is(e, s)]: walk the chain of wrapped errors. *)
Fixpoint errors_Is (e : error) (s : sentinel) : bool :=
  match e with
  | Sentinel s' => bool_decide (s' = s)
  | ErrorString _ => false
  | Wrapped _ inner => errors_Is inner s
  end.

(** The same on a possibly nil error. *)
Definition Is (e : option error) (s : sentinel) : bool :=
  match e with Some e => errors_Is e s | None => false end.

(** [fmt.Errorf(prefix + "%w", e)]. *)
Definition Errorf_w (prefix : string) (e : error) : error :=
  Wrapped (prefix ++ Error e)%string e.

Lemma Is_Errorf_w prefix e s : errors_Is (Errorf_w prefix e) s = errors_Is e s.
Proof. reflexivity. Qed.
#[export] Hint Rewrite Is_Errorf_w : go_rw.

(** ** Buffered channels

    A FIFO of bounded capacity.  A send that has no room and a receive that has no element
    block: the transition is not enabled. *)

Record channel (A : Type) := Channel { cap : nat; buf : list A }.
Arguments Channel {A} _ _.
Arguments cap {A} _.
Arguments buf {A} _.

Definition make_chan {A : Type} (n : nat) : channel A := Channel n [].
Definition send {A : Type} (c : channel A) (x : A) : option (channel A) :=
  if (length (buf c) <? cap c)%nat then Some (Channel (cap c) (buf c ++ [x])) else None.
Definition recv {A : Type} (c : channel A) : option (A * channel A) :=
  match buf c with
  | [] => None
  | x :: q => Some (x, Channel (cap c) q)
  end.

(** A channel never holds more than its capacity. *)
Definition chan_ok {A : Type} (c : channel A) : Prop := (length (buf c) <= cap c)%nat.

Lemma send_spec {A : Type} (c c' : channel A) x :
  send c x = Some c' <->
  (length (buf c) < cap c)%nat /\ c' = Channel (cap c) (buf c ++ [x]).
Proof.
  unfold send. destruct (Nat.ltb_spec (length (buf c)) (cap c)); split; intros; deex;
    simplify_eq; (done || lia || auto).
Qed.

Lemma recv_spec {A : Type} (c c' : channel A) x :
  recv c = Some (x, c') <-> buf c = x :: buf c' /\ cap c' = cap c.
Proof.
  unfold recv. destruct c as [n q], c' as [n' q']. simpl.
  destruct q; split; intros; deex; simplify_eq; done.
Qed.

Lemma send_ok {A : Type} (c c' : channel A) x : send c x = Some c' -> chan_ok c'.
Proof. intros [? ->]%send_spec. unfold chan_ok. simpl. rewrite length_app. simpl. lia. Qed.

Lemma recv_ok {A : Type} (c c' : channel A) x : recv c = Some (x, c') -> chan_ok c -> chan_ok c'.
Proof. intros [Hb Hc]%recv_spec. unfold chan_ok. rewrite Hb, Hc. simpl. lia. Qed.

Lemma send_cap {A : Type} (c c' : channel A) x : send c x = Some c' -> cap c' = cap c.
Proof. by intros [? ->]%send_spec. Qed.
Lemma send_buf {A : Type} (c c' : channel A) x : send c x = Some c' -> buf c' = buf c ++ [x].
Proof. by intros [? ->]%send_spec. Qed.
#[export] Hint Resolve send_ok recv_ok send_cap : go.
