(* ===== verification/Decimal.v ===== *)
(** * Decimal text of integers

    Payloads on the wire are byte lists.  This file prints non-negative integers in base ten,
    reads them back, and proves the facts about digits that the codecs of floats, times and
    JSON numbers share. *)
From S2P Require Import Prelude GoBase.
#[local] Open Scope Z_scope.

Abbreviation bytes := (list ascii).
Definition str (s : string) : bytes := list_ascii_of_string s.
Definition unstr (l : bytes) : string := string_of_list_ascii l.

Lemma unstr_str s : unstr (str s) = s.
Proof. apply string_of_list_ascii_of_string. Qed.
Lemma str_unstr l : str (unstr l) = l.
Proof. apply list_ascii_of_string_of_list_ascii. Qed.
Lemma str_app s t : str (s ++ t) = str s ++ str t.
Proof. induction s as [|c s IH]; [done|]. unfold str in *. simpl. by rewrite IH. Qed.

(** The numeric code of a byte. *)
Definition code (c : ascii) : Z := Z.of_nat (nat_of_ascii c).
Definition is_digit (c : ascii) : bool := (48 <=? code c) && (code c <=? 57).
Definition digit_val (c : ascii) : Z := code c - 48.
Definition digit_char (d : Z) : ascii := ascii_of_nat (48 + Z.to_nat d).

Lemma code_digit_char d : 0 <= d < 10 -> code (digit_char d) = 48 + d.
Proof.
  intros Hd. unfold code, digit_char. rewrite nat_ascii_embedding; lia.
Qed.
Lemma is_digit_char d : 0 <= d < 10 -> is_digit (digit_char d) = true.
Proof.
  intros Hd. unfold is_digit. rewrite code_digit_char by done.
  apply andb_true_iff. split; apply Z.leb_le; lia.
Qed.
Lemma digit_val_char d : 0 <= d < 10 -> digit_val (digit_char d) = d.
Proof. intros Hd. unfold digit_val. rewrite code_digit_char by done. lia. Qed.
Lemma is_digit_range c : is_digit c = true -> 0 <= digit_val c < 10.
Proof. unfold is_digit, digit_val. intros. zbool. lia. Qed.
Lemma is_digit_code c : is_digit c = true -> 48 <= code c <= 57.
Proof. unfold is_digit. intros. zbool. lia. Qed.

(** ** Printing *)

Fixpoint dec_fuel (fuel : nat) (n : Z) (acc : bytes) : bytes :=
  match fuel with
  | O => digit_char (n mod 10) :: acc
  | S f => if n <? 10 then digit_char n :: acc
           else dec_fuel f (n / 10) (digit_char (n mod 10) :: acc)
  end.
(** The decimal digits of a non-negative integer, without leading zeros. *)
Definition dec (n : Z) : bytes := dec_fuel (Z.to_nat (Z.log2 n)) n [].

Definition all_digits (l : bytes) : Prop := Forall (fun c => is_digit c = true) l.
(** The value of a digit string, continued from [acc]. *)
Definition dec_val (acc : Z) (l : bytes) : Z := fold_left (fun a c => a * 10 + digit_val c) l acc.

Lemma dec_val_app acc l l' : dec_val acc (l ++ l') = dec_val (dec_val acc l) l'.
Proof. apply fold_left_app. Qed.

Lemma dec_val_acc acc l : dec_val acc l = acc * 10 ^ Z.of_nat (length l) + dec_val 0 l.
Proof.
  revert acc. induction l as [|c l IH]; intros acc; [simpl; lia|].
  change (dec_val acc (c :: l)) with (dec_val (acc * 10 + digit_val c) l).
  change (dec_val 0 (c :: l)) with (dec_val (0 * 10 + digit_val c) l).
  rewrite (IH (acc * 10 + digit_val c)), (IH (0 * 10 + digit_val c)).
  simpl length. rewrite Nat2Z.inj_succ, Z.pow_succ_r by lia. lia.
Qed.

Lemma dec_val_bounds l : all_digits l -> 0 <= dec_val 0 l < 10 ^ Z.of_nat (length l).
Proof.
  induction 1 as [|c l Hc Hl IH]; [simpl; lia|].
  change (dec_val 0 (c :: l)) with (dec_val (0 * 10 + digit_val c) l).
  rewrite dec_val_acc. simpl length. rewrite Nat2Z.inj_succ, Z.pow_succ_r by lia.
  pose proof (is_digit_range c Hc). nia.
Qed.

Lemma dec_fuel_app fuel n acc : dec_fuel fuel n acc = dec_fuel fuel n [] ++ acc.
Proof.
  revert n acc. induction fuel as [|f IH]; intros n acc; simpl; [done|].
  destruct (n <? 10); [done|]. rewrite IH, (IH _ [_]), <- app_assoc. done.
Qed.

Lemma dec_fuel_spec fuel n :
  0 <= n < 2 ^ Z.of_nat (S fuel) ->
  all_digits (dec_fuel fuel n []) /\ dec_val 0 (dec_fuel fuel n []) = n /\
  (0 < n -> 10 ^ (Z.of_nat (length (dec_fuel fuel n [])) - 1) <= n) /\
  (0 < length (dec_fuel fuel n []))%nat.
Proof.
  revert n. induction fuel as [|f IH]; intros n Hn.
  - simpl in Hn |- *. rewrite Z.mod_small by lia. unfold all_digits, dec_val. simpl.
    rewrite digit_val_char by lia. split_and!; [|lia|lia|lia].
    constructor; [apply is_digit_char; lia|constructor].
  - cbn [dec_fuel]. destruct (Z.ltb_spec n 10) as [Hlt|Hge].
    + unfold all_digits, dec_val. simpl. rewrite digit_val_char by lia.
      split_and!; [|lia|simpl; lia|lia]. constructor; [apply is_digit_char; lia|constructor].
    + pose proof (Z.div_mod n 10 ltac:(lia)) as Hdm.
      pose proof (Z.mod_pos_bound n 10 ltac:(lia)) as Hm.
      destruct (IH (n / 10)) as (Hd & Hv & Hp & Hl).
      { rewrite Nat2Z.inj_succ, Z.pow_succ_r in Hn by lia. lia. }
      rewrite dec_fuel_app. rewrite dec_val_app, Hv, length_app.
      unfold all_digits, dec_val in *. simpl. rewrite digit_val_char by lia.
      split_and!; [|lia| |lia].
      * apply Forall_app. split; [done|]. constructor; [apply is_digit_char; lia|constructor].
      * intros _. specialize (Hp ltac:(lia)).
        replace (Z.of_nat (length (dec_fuel f (n / 10) []) + 1) - 1)
          with (Z.succ (Z.of_nat (length (dec_fuel f (n / 10) [])) - 1)) by lia.
        rewrite Z.pow_succ_r by lia. lia.
Qed.

Lemma dec_spec n :
  0 <= n ->
  all_digits (dec n) /\ dec_val 0 (dec n) = n /\
  (0 < n -> 10 ^ (Z.of_nat (length (dec n)) - 1) <= n) /\ (0 < length (dec n))%nat.
Proof.
  intros Hn. apply dec_fuel_spec. split; [done|].
  destruct (decide (n = 0)) as [->|Hne]; [done|].
  pose proof (Z.log2_spec n ltac:(lia)). pose proof (Z.log2_nonneg n).
  rewrite Nat2Z.inj_succ, Z2Nat.id by done. lia.
Qed.

Lemma dec_digits n : 0 <= n -> all_digits (dec n).
Proof. intros. by apply dec_spec. Qed.
Lemma dec_value n : 0 <= n -> dec_val 0 (dec n) = n.
Proof. intros. by apply dec_spec. Qed.
Lemma dec_nonempty n : 0 <= n -> exists c l, dec n = c :: l.
Proof.
  intros Hn. destruct (dec_spec n Hn) as (_ & _ & _ & Hl).
  destruct (dec n) as [|c l]; [simpl in Hl; lia|eauto].
Qed.
#[export] Hint Resolve dec_digits is_digit_char : go.

(** The number of digits: [10 ^ (k - 1) <= n < 10 ^ k]. *)
Lemma dec_length n k :
  0 < k -> 10 ^ (k - 1) <= n < 10 ^ k -> Z.of_nat (length (dec n)) = k.
Proof.
  intros Hk Hn.
  assert (0 < 10 ^ (k - 1)) by (apply Z.pow_pos_nonneg; lia).
  destruct (dec_spec n ltac:(lia)) as (Hd & Hv & Hp & Hl).
  pose proof (dec_val_bounds _ Hd) as Hb. rewrite Hv in Hb. specialize (Hp ltac:(lia)).
  set (len := Z.of_nat (length (dec n))) in *.
  assert (len - 1 < k) by (apply (Z.pow_lt_mono_r_iff 10); lia).
  assert (k - 1 < len) by (apply (Z.pow_lt_mono_r_iff 10); lia). lia.
Qed.

(** A number without leading zeros: only zero itself begins with the digit zero. *)
Lemma dec_head n c l : 0 <= n -> dec n = c :: l -> digit_val c = 0 -> n = 0 /\ l = [].
Proof.
  intros Hn Hdec Hc. destruct (dec_spec n Hn) as (Hd & Hv & Hp & _).
  rewrite Hdec in Hd, Hv, Hp.
  change (dec_val 0 (c :: l)) with (dec_val (0 * 10 + digit_val c) l) in Hv.
  replace (0 * 10 + digit_val c) with 0 in Hv by lia. apply Forall_cons_1 in Hd as [_ Hl].
  pose proof (dec_val_bounds l Hl) as Hb. simpl length in Hp.
  replace (Z.of_nat (S (length l)) - 1) with (Z.of_nat (length l)) in Hp by lia.
  assert (n = 0) as -> by (destruct (decide (n = 0)); [done|]; specialize (Hp ltac:(lia)); lia).
  split; [done|]. by injection Hdec.
Qed.

(** ** Fixed width *)

Definition pad (w : nat) (n : Z) : bytes := repeat "0"%char (w - length (dec n)) ++ dec n.

Lemma zeros_digits k : all_digits (repeat "0"%char k).
Proof. induction k; simpl; [constructor|]. by constructor. Qed.
Lemma zeros_val k : dec_val 0 (repeat "0"%char k) = 0.
Proof. induction k; [done|]. simpl. done. Qed.

Lemma pad_spec w n :
  0 <= n < 10 ^ Z.of_nat w -> (0 < w)%nat ->
  all_digits (pad w n) /\ dec_val 0 (pad w n) = n /\ length (pad w n) = w.
Proof.
  intros Hn Hw. unfold pad.
  destruct (dec_spec n ltac:(lia)) as (Hd & Hv & Hp & Hl).
  assert (length (dec n) <= w)%nat.
  { destruct (decide (n = 0)) as [->|]; [simpl; lia|]. specialize (Hp ltac:(lia)).
    assert (Z.of_nat (length (dec n)) - 1 < Z.of_nat w); [|lia].
    apply (Z.pow_lt_mono_r_iff 10); lia. }
  split_and!.
  - apply Forall_app. split; [apply zeros_digits|done].
  - by rewrite dec_val_app, zeros_val, Hv.
  - rewrite length_app, repeat_length. lia.
Qed.

(** ** Reading *)

(** Exactly [w] decimal digits. *)
Fixpoint take_digits (w : nat) (acc : Z) (l : bytes) : option (Z * bytes) :=
  match w with
  | O => Some (acc, l)
  | S w' =>
      match l with
      | c :: l' => if is_digit c then take_digits w' (acc * 10 + digit_val c) l' else None
      | [] => None
      end
  end.

Lemma take_digits_app ds acc l :
  all_digits ds -> take_digits (length ds) acc (ds ++ l) = Some (dec_val acc ds, l).
Proof.
  intros Hd. revert acc. induction Hd as [|c ds Hc Hd IH]; intros acc; [done|].
  simpl. by rewrite Hc, IH.
Qed.

Lemma take_digits_pad w n l :
  0 <= n < 10 ^ Z.of_nat w -> (0 < w)%nat -> take_digits w 0 (pad w n ++ l) = Some (n, l).
Proof.
  intros Hn Hw. destruct (pad_spec w n Hn Hw) as (Hd & Hv & Hl).
  rewrite <- Hl at 1. by rewrite take_digits_app, Hv.
Qed.

(** The longest prefix of digits, and its length. *)
Fixpoint span_digits (l : bytes) : bytes * bytes :=
  match l with
  | c :: l' => if is_digit c then let '(ds, r) := span_digits l' in (c :: ds, r) else ([], l)
  | [] => ([], [])
  end.
Definition no_digit_head (l : bytes) : Prop :=
  match l with c :: _ => is_digit c = false | [] => True end.

Lemma span_digits_app ds l :
  all_digits ds -> no_digit_head l -> span_digits (ds ++ l) = (ds, l).
Proof.
  intros Hd Hl. induction Hd as [|c ds Hc Hd IH]; simpl.
  - destruct l as [|c l]; [done|]. simpl in *. by rewrite Hl.
  - by rewrite Hc, IH.
Qed.

(** ** Signed integers: [strconv.FormatInt] and [strconv.ParseInt(s, 10, 64)] *)

Definition FormatInt (n : Z) : bytes := if n <? 0 then "-"%char :: dec (- n) else dec n.
Definition ParseInt (l : bytes) : option Z :=
  let '(neg, ds) :=
    match l with
    | c :: l' => if code c =? 45 then (true, l') else if code c =? 43 then (false, l') else (false, l)
    | [] => (false, [])
    end in
  match ds with
  | [] => None
  | _ =>
      if forallb is_digit ds then
        let v := if neg then - dec_val 0 ds else dec_val 0 ds in
        if (int64_min <=? v) && (v <=? int64_max) then Some v else None
      else None
  end.

Lemma all_digits_forallb l : all_digits l -> forallb is_digit l = true.
Proof. induction 1; simpl; [done|]. by rewrite H. Qed.

Lemma ParseInt_FormatInt n : in_int64 n -> ParseInt (FormatInt n) = Some n.
Proof.
  intros Hn. unfold FormatInt, ParseInt.
  destruct (Z.ltb_spec n 0) as [Hneg|Hpos].
  - change (code "-") with 45. simpl.
    destruct (dec_nonempty (- n)) as (c & l & Hdec); [lia|]. rewrite Hdec.
    rewrite <- Hdec, all_digits_forallb, dec_value by (try apply dec_digits; lia).
    rewrite Z.opp_involutive, !(proj2 (Z.leb_le _ _)) by int64_lia. done.
  - destruct (dec_nonempty n) as (c & l & Hdec); [lia|].
    pose proof (dec_digits n ltac:(lia)) as Hd. rewrite Hdec in Hd.
    inversion Hd as [|? ? Hc _]; subst. apply is_digit_code in Hc.
    rewrite Hdec, !(proj2 (Z.eqb_neq _ _)) by lia.
    rewrite <- Hdec, all_digits_forallb, dec_value by (try apply dec_digits; lia).
    rewrite !(proj2 (Z.leb_le _ _)) by int64_lia. done.
Qed.
