(* ===== verification/Float64.v ===== *)
(** * float64: IEEE 754 binary64 and package strconv

    Prices, quantities and notionals are [float64] values.  A value is a [spec_float] of the
    Standard Library (the executable reference semantics of the IEEE operations); [f64_valid]
    singles out the representable ones.  Conversion from text is exact: a literal is read as a
    rational number and rounded once, to nearest with ties to even. *)
From S2P Require Import Prelude GoBase Decimal.
From Stdlib Require Export SpecFloat.
#[local] Open Scope Z_scope.

Definition float64 : Type := spec_float.
#[export] Instance float64_eq_dec : EqDecision float64.
Proof. unfold EqDecision, float64, Decision. repeat decide equality. Defined.

Definition f64_valid (x : float64) : Prop := valid_binary 53 1024 x = true.
#[export] Instance f64_valid_dec x : Decision (f64_valid x) := _.

Definition f64_zero : float64 := S754_zero false.
Definition f64_one : float64 := S754_finite false 4503599627370496 (-52).
(** [x <= y] and [x == y]: false as soon as one side is NaN. *)
Definition f64_leb : float64 -> float64 -> bool := SFleb.
Definition f64_eqb : float64 -> float64 -> bool := SFeqb.
Definition f64_is_finite (x : float64) : bool :=
  match x with S754_zero _ | S754_finite _ _ _ => true | _ => false end.

(** ** Rounding a non-negative rational [n / d] to the nearest binary64 *)

Definition round_half_even (n d : Z) : Z :=
  let q := n / d in
  let r := n mod d in
  match 2 * r ?= d with
  | Lt => q
  | Gt => q + 1
  | Eq => if Z.even q then q else q + 1
  end.

(** [n / d] times [2 ^ k], as a fraction. *)
Definition scale2 (n d k : Z) : Z * Z := (n * 2 ^ Z.max 0 k, d * 2 ^ Z.max 0 (- k)).

(** The binary exponent of [n / d]: the [l] with [2 ^ l <= n / d < 2 ^ (l + 1)]. *)
Definition ilog2_frac (n d : Z) : Z :=
  let l := Z.log2 n - Z.log2 d in
  let '(n', d') := scale2 n d (- l) in
  if n' <? d' then l - 1 else l.

Definition round_frac (s : bool) (n d : Z) : float64 :=
  if n <=? 0 then S754_zero s else
  let e := Z.max (ilog2_frac n d - 52) (-1074) in
  let '(n', d') := scale2 n d (- e) in
  let m := round_half_even n' d' in
  let '(m, e) := if m =? 2 ^ 53 then (2 ^ 52, e + 1) else (m, e) in
  if m =? 0 then S754_zero s
  else if 971 <? e then S754_infinity s
  else S754_finite s (Z.to_pos m) e.

(** The magnitude of a finite value, as a fraction. *)
Definition f64_frac (x : float64) : Z * Z :=
  match x with
  | S754_finite _ m e => scale2 (Zpos m) 1 e
  | _ => (0, 1)
  end.
Definition f64_sign (x : float64) : bool :=
  match x with
  | S754_zero s | S754_infinity s | S754_finite s _ _ => s
  | S754_nan => false
  end.

(** [x * y]: the exact product, rounded once. *)
Definition f64_mul (x y : float64) : float64 :=
  let s := xorb (f64_sign x) (f64_sign y) in
  match x, y with
  | S754_nan, _ | _, S754_nan => S754_nan
  | S754_infinity _, S754_zero _ | S754_zero _, S754_infinity _ => S754_nan
  | S754_infinity _, _ | _, S754_infinity _ => S754_infinity s
  | S754_zero _, _ | _, S754_zero _ => S754_zero s
  | S754_finite _ _ _, S754_finite _ _ _ =>
      round_frac s ((f64_frac x).1 * (f64_frac y).1) ((f64_frac x).2 * (f64_frac y).2)
  end.

(** [float64(z)], [int64(x)] (towards zero; out of range, what amd64 answers), the constant 2. *)
Definition f64_of_int (z : Z) : float64 := round_frac (z <? 0) (Z.abs z) 1.
Definition f64_to_int64 (x : float64) : Z :=
  let m := (f64_frac x).1 / (f64_frac x).2 in
  let z := if f64_sign x then - m else m in
  if f64_is_finite x && (int64_min <=? z) && (z <=? int64_max) then z else int64_min.
Definition f64_two : float64 := S754_finite false 4503599627370496 (-51).

(** [rand.Float64()] from the next 64 random bits: [float64(bits << 11 >> 11) / (1 << 53)]. *)
Definition rand_Float64 (bits : Z) : float64 := round_frac false (bits mod 2 ^ 53) (2 ^ 53).

(** ** strconv.ParseFloat(s, 64) *)

Definition is_hex_letter (c : ascii) : bool := byte_in 97 102 (lower_byte c).
Definition hex_val (c : ascii) : Z := if is_digit c then digit_val c else code (lower_byte c) - 87.
Definition char_eqb (c : ascii) (n : Z) : bool := code c =? n.

Record float_scan := {
  underscores : bool;
  sawdot : bool;
  sawdigits : bool;
  nd : Z;
  dp : Z;
  mant : Z;
}.
Definition float_scan0 : float_scan :=
  {| underscores := false; sawdot := false; sawdigits := false; nd := 0; dp := 0; mant := 0 |}.

(** The digit loop of [readFloat]; the mantissa is kept exactly. *)
Fixpoint scan_mantissa (hex : bool) (l : bytes) (st : float_scan) : float_scan * bytes :=
  match l with
  | [] => (st, l)
  | c :: l' =>
      let st_digit v :=
        {| underscores := underscores st; sawdot := sawdot st; sawdigits := true;
           nd := nd st + 1; dp := dp st; mant := mant st * (if hex then 16 else 10) + v |} in
      if char_eqb c 95 then
        scan_mantissa hex l'
          {| underscores := true; sawdot := sawdot st; sawdigits := sawdigits st; nd := nd st;
             dp := dp st; mant := mant st |}
      else if char_eqb c 46 then
        if sawdot st then (st, l)
        else scan_mantissa hex l'
          {| underscores := underscores st; sawdot := true; sawdigits := sawdigits st;
             nd := nd st; dp := nd st; mant := mant st |}
      else if is_digit c then
        if char_eqb c 48 && (nd st =? 0) then
          scan_mantissa hex l'
            {| underscores := underscores st; sawdot := sawdot st; sawdigits := true;
               nd := nd st; dp := dp st - 1; mant := mant st |}
        else scan_mantissa hex l' (st_digit (digit_val c))
      else if hex && is_hex_letter c then scan_mantissa hex l' (st_digit (hex_val c))
      else (st, l)
  end.

(** The exponent digits: [e] stops growing once it reaches 10000. *)
Fixpoint scan_exponent (l : bytes) (e : Z) (us : bool) : Z * bool * bytes :=
  match l with
  | [] => (e, us, l)
  | c :: l' =>
      if char_eqb c 95 then scan_exponent l' e true
      else if is_digit c then
        scan_exponent l' (if e <? 10000 then e * 10 + digit_val c else e) us
      else (e, us, l)
  end.

(** [underscoreOK]: underscores only between digits (or after a base prefix). *)
Inductive us_prev := us_start | us_digit | us_underscore | us_other.
Fixpoint underscore_scan (hex : bool) (l : bytes) (i : us_prev) : bool :=
  match l with
  | [] => match i with us_underscore => false | _ => true end
  | c :: l' =>
      if is_digit c || (hex && is_hex_letter c) then underscore_scan hex l' us_digit
      else if char_eqb c 95 then
        match i with us_digit => underscore_scan hex l' us_underscore | _ => false end
      else match i with us_underscore => false | _ => underscore_scan hex l' us_other end
  end.
Definition drop_sign (l : bytes) : bool * bytes :=
  match l with
  | c :: l' => if char_eqb c 43 then (false, l') else if char_eqb c 45 then (true, l') else (false, l)
  | [] => (false, [])
  end.
Definition underscoreOK (s : bytes) : bool :=
  let s := (drop_sign s).2 in
  match s with
  | z :: x :: s' =>
      let x := lower_byte x in
      if char_eqb z 48 && (char_eqb x 98 || char_eqb x 111 || char_eqb x 120)
      then underscore_scan (char_eqb x 120) s' us_digit
      else underscore_scan false s us_start
  | _ => underscore_scan false s us_start
  end.

(** A finite literal: sign, and the value as a fraction; [None] for a syntax error. *)
Definition readFloat (s : bytes) : option (bool * Z * Z) :=
  let '(neg, l) := drop_sign s in
  let '(hex, l) :=
    match l with
    | z :: x :: _ :: _ =>
        if char_eqb z 48 && char_eqb (lower_byte x) 120 then (true, drop 2 l) else (false, l)
    | _ => (false, l)
    end in
  let '(st, l) := scan_mantissa hex l float_scan0 in
  if negb (sawdigits st) then None else
  let dp0 := if sawdot st then dp st else nd st in
  let dp0 := if hex then 4 * dp0 else dp0 in
  let ndm := if hex then 4 * nd st else nd st in
  let expc := if hex then 112 else 101 in
  let exponent :=
    match l with
    | c :: l' =>
        if char_eqb (lower_byte c) expc then
          let '(eneg, l'') := drop_sign l' in
          match l'' with
          | d :: _ =>
              if is_digit d then
                let '(e, us, l3) := scan_exponent l'' 0 (underscores st) in
                Some (if eneg then - e else e, us, l3)
              else None
          | [] => None
          end
        else if hex then None else Some (0, underscores st, l)
    | [] => if hex then None else Some (0, underscores st, l)
    end in
  match exponent with
  | Some (e, us, []) =>
      if us && negb (underscoreOK s) then None
      else
        let x := dp0 + e - ndm in
        let b := if hex then 2 else 10 in
        Some (neg, mant st * b ^ Z.max 0 x, b ^ Z.max 0 (- x))
  | _ => None
  end.

(** The spellings of infinity and NaN, in any case. *)
Definition special (s : bytes) : option float64 :=
  let t := unstr (map lower_byte s) in
  if decide (t = "nan") then Some S754_nan
  else if decide (t = "inf" \/ t = "+inf" \/ t = "infinity" \/ t = "+infinity")
  then Some (S754_infinity false)
  else if decide (t = "-inf" \/ t = "-infinity") then Some (S754_infinity true)
  else None.

(** The errors of [strconv], without the text that repeats the input. *)
Definition ErrSyntax : error := ErrorString "invalid syntax".
Definition ErrRange : error := ErrorString "value out of range".

Definition ParseFloat (s : bytes) : result error float64 :=
  match special s with
  | Some x => Ok x
  | None =>
      match readFloat s with
      | None => Err ErrSyntax
      | Some (neg, n, d) =>
          match round_frac neg n d with
          | S754_infinity _ => Err ErrRange
          | x => Ok x
          end
      end
  end.

(** ** strconv.FormatFloat and fmt

    The shortest form (precision -1) is, as documented, the one with the smallest number of
    digits that reads back as the same value, and among those the closest. *)

Fixpoint ilog10_fuel (fuel : nat) (n : Z) : Z :=
  match fuel with
  | O => 0
  | S f => if n <? 10 then 0 else 1 + ilog10_fuel f (n / 10)
  end.
Definition ilog10 (n : Z) : Z := ilog10_fuel (Z.to_nat (Z.log2 n)) n.
(** The decimal exponent of [n / d]: the [p] with [10 ^ p <= n / d < 10 ^ (p + 1)]. *)
Definition ilog10_frac (n d : Z) : Z :=
  if d <=? n then ilog10 (n / d) else - (ilog10 ((d - 1) / n) + 1).

Definition scale10 (n d k : Z) : Z * Z := (n * 10 ^ Z.max 0 k, d * 10 ^ Z.max 0 (- k)).
(** The binary64 nearest to [m * 10 ^ x]. *)
Definition round_dec (s : bool) (m x : Z) : float64 :=
  let '(n, d) := scale10 m 1 x in round_frac s n d.

(** The decimal with [k] significant digits that stands for [x], if one reads back as [x]:
    the pair [(m, e)] stands for [m * 10 ^ e]. *)
Definition digits_at (x : float64) (k : Z) : option (Z * Z) :=
  let '(n, d) := f64_frac x in
  let p := ilog10_frac n d in
  let '(n', d') := scale10 n d (k - 1 - p) in
  let q := n' / d' in
  let near := round_half_even n' d' in
  let far := if near =? q then q + 1 else q in
  let e := p - k + 1 in
  let try m :=
    let '(m, e) := if m =? 10 ^ k then (10 ^ (k - 1), e + 1) else (m, e) in
    if decide (round_dec (f64_sign x) m e = x) then Some (m, e) else None in
  match try near with Some r => Some r | None => try far end.

Fixpoint shortest_from (fuel : nat) (x : float64) (k : Z) : option (Z * Z) :=
  match fuel with
  | O => None
  | S f => match digits_at x k with Some r => Some r | None => shortest_from f x (k + 1) end
  end.
(** 17 digits always suffice; the search is bounded by the length of the exact decimal
    expansion instead, which is what [Float64Facts.shortest_total] needs to show that it
    succeeds. *)
Definition shortest (x : float64) : option (Z * Z) := shortest_from 1400 x 1.

Definition sign_text (neg : bool) : bytes := if neg then ["-"%char] else [].

(** %f: digits [ds] with the decimal point [x] places to the right of the last one. *)
Definition format_f (ds : bytes) (x : Z) : bytes :=
  let len := Z.of_nat (length ds) in
  if 0 <=? x then ds ++ repeat "0"%char (Z.to_nat x)
  else if - x <? len then
    take (Z.to_nat (len + x)) ds ++ "."%char :: drop (Z.to_nat (len + x)) ds
  else "0"%char :: "."%char :: repeat "0"%char (Z.to_nat (- x - len)) ++ ds.

(** %e: one digit before the point, and an exponent of at least two digits. *)
Definition format_e (ds : bytes) (x : Z) : bytes :=
  match ds with
  | [] => []
  | c :: ds' =>
      let e := Z.of_nat (length ds') + x in
      c :: (match ds' with [] => [] | _ => "."%char :: ds' end) ++
      "e"%char :: (if e <? 0 then "-"%char else "+"%char) :: pad 2 (Z.abs e)
  end.

(** [strconv.FormatFloat(x, 'f', -1, 64)] and ['e'] for finite [x]. *)
Definition FormatFloat (exp : bool) (x : float64) : option bytes :=
  match x with
  | S754_zero s => Some (sign_text s ++ if exp then str "0e+00" else str "0")
  | S754_finite s _ _ =>
      match shortest x with
      | Some (m, e) => Some (sign_text s ++ (if exp then format_e else format_f) (dec m) e)
      | None => None
      end
  | _ => None
  end.

(** [fmt]'s %.<prec>f verb. *)
Definition fmt_fixed (prec : nat) (x : float64) : string :=
  match x with
  | S754_nan => "NaN"
  | S754_infinity false => "+Inf"
  | S754_infinity true => "-Inf"
  | _ =>
      let '(n, d) := f64_frac x in
      let m := round_half_even (n * 10 ^ Z.of_nat prec) d in
      unstr (sign_text (f64_sign x) ++ format_f (pad (S prec) m) (- Z.of_nat prec))
  end.
