(* ===== verification/Float64Facts.v ===== *)
(** * Facts about binary64: rounding is exact on representable values, printing a float and
    reading it back gives the same float *)
From S2P Require Import Prelude GoBase Decimal Float64.
#[local] Open Scope Z_scope.

(** ** Powers of two as fractions *)

Lemma pow2_pos k : 0 < 2 ^ Z.max 0 k.
Proof. apply Z.pow_pos_nonneg; lia. Qed.
Lemma pow10_pos k : 0 < 10 ^ Z.max 0 k.
Proof. apply Z.pow_pos_nonneg; lia. Qed.
#[local] Hint Resolve pow2_pos pow10_pos : core.

(** [b ^ x <= n / d], without fractions. *)
Definition pow_le (b n d x : Z) : Prop := d * b ^ Z.max 0 x <= n * b ^ Z.max 0 (- x).

Lemma pow_split b x : 0 < b -> b ^ Z.max 0 (x + 1) * b ^ Z.max 0 (- x) =
                     b * (b ^ Z.max 0 x * b ^ Z.max 0 (- (x + 1))).
Proof.
  intros Hb. destruct (Z.leb_spec 0 x).
  - rewrite (Z.max_l 0 (- x)), (Z.max_l 0 (- (x + 1))), !Z.max_r by lia.
    rewrite Z.pow_add_r by lia. simpl. lia.
  - rewrite (Z.max_l 0 x), (Z.max_l 0 (x + 1)), !Z.max_r by lia.
    replace (- x) with (- (x + 1) + 1) by lia. rewrite Z.pow_add_r by lia. simpl. lia.
Qed.

Lemma pow_le_mono b n d x y :
  1 < b -> 0 < d -> x <= y -> pow_le b n d y -> pow_le b n d x.
Proof.
  intros Hb Hd Hxy. unfold pow_le. replace y with (x + Z.of_nat (Z.to_nat (y - x))) by lia.
  generalize (Z.to_nat (y - x)) as k. clear Hxy y.
  induction k as [|k IH]; [by rewrite Z.add_0_r|].
  intros Hle. apply IH. clear IH. revert Hle.
  replace (x + Z.of_nat (S k)) with (x + Z.of_nat k + 1) by lia.
  generalize (x + Z.of_nat k) as z. intros z Hle.
  pose proof (pow_split b z ltac:(lia)) as Hs.
  assert (0 < b ^ Z.max 0 z) by (apply Z.pow_pos_nonneg; lia).
  assert (0 < b ^ Z.max 0 (- z)) by (apply Z.pow_pos_nonneg; lia).
  assert (0 < b ^ Z.max 0 (z + 1)) by (apply Z.pow_pos_nonneg; lia).
  assert (0 < b ^ Z.max 0 (- (z + 1))) by (apply Z.pow_pos_nonneg; lia).
  set (A := b ^ Z.max 0 z) in *. set (B := b ^ Z.max 0 (- z)) in *.
  set (C := b ^ Z.max 0 (z + 1)) in *. set (D := b ^ Z.max 0 (- (z + 1))) in *.
  (* d * C <= n * D and C * B = b * A * D give d * A <= n * B *)
  assert (d * C * B <= n * D * B) by nia.
  assert (d * (b * (A * D)) <= n * D * B) by (rewrite <- Hs; lia).
  assert (D * (b * (d * A)) <= D * (n * B)) by lia.
  assert (b * (d * A) <= n * B) by nia. nia.
Qed.

(** The position of [n / d] among the powers of [b] is unique. *)
Lemma pow_le_unique b n d x y :
  1 < b -> 0 < d ->
  pow_le b n d x -> ~ pow_le b n d (x + 1) -> pow_le b n d y -> ~ pow_le b n d (y + 1) -> x = y.
Proof.
  intros Hb Hd Hx Hx' Hy Hy'.
  destruct (Z.lt_trichotomy x y) as [Hlt|[|Hlt]]; [exfalso|done|exfalso].
  - apply Hx'. apply (pow_le_mono b n d (x + 1) y); auto; lia.
  - apply Hy'. apply (pow_le_mono b n d (y + 1) x); auto; lia.
Qed.

(** Only the value of the fraction matters. *)
Lemma pow_le_ext b n d n' d' x :
  0 < d -> 0 < d' -> 1 < b -> n * d' = n' * d -> pow_le b n d x -> pow_le b n' d' x.
Proof.
  intros Hd Hd' Hb Heq. unfold pow_le.
  assert (0 < b ^ Z.max 0 x) by (apply Z.pow_pos_nonneg; lia).
  assert (0 < b ^ Z.max 0 (- x)) by (apply Z.pow_pos_nonneg; lia).
  set (A := b ^ Z.max 0 x) in *. set (B := b ^ Z.max 0 (- x)) in *. intros Hle.
  assert (d' * (d * A) <= d' * (n * B)) by nia.
  assert (d * (d' * A) <= d * (n' * B)) by (replace (d * (n' * B)) with (n' * d * B) by lia; nia).
  nia.
Qed.

Lemma ilog2_frac_spec n d :
  0 < n -> 0 < d -> pow_le 2 n d (ilog2_frac n d) /\ ~ pow_le 2 n d (ilog2_frac n d + 1).
Proof.
  intros Hn Hd. unfold ilog2_frac, scale2. set (l := Z.log2 n - Z.log2 d).
  rewrite Z.opp_involutive.
  assert (~ pow_le 2 n d (l + 1)) as Hup.
  { unfold pow_le. intros Hle.
    pose proof (Z.log2_spec n Hn) as [Hn1 Hn2]. pose proof (Z.log2_spec d Hd) as [Hd1 Hd2].
    pose proof (Z.log2_nonneg n). pose proof (Z.log2_nonneg d).
    destruct (Z.leb_spec 0 (l + 1)) as [Hl|Hl].
    - rewrite Z.max_r, (Z.max_l 0 (- (l + 1))) in Hle by lia.
      assert (2 ^ Z.succ (Z.log2 n) = 2 ^ Z.log2 d * 2 ^ (l + 1)) as Hp
        by (rewrite <- Z.pow_add_r by lia; f_equal; lia).
      pose proof (Z.pow_pos_nonneg 2 (l + 1)). nia.
    - rewrite Z.max_l, (Z.max_r 0 (- (l + 1))) in Hle by lia.
      assert (2 ^ Z.log2 d = 2 ^ Z.succ (Z.log2 n) * 2 ^ (- (l + 1))) as Hp
        by (rewrite <- Z.pow_add_r by lia; f_equal; lia).
      pose proof (Z.pow_pos_nonneg 2 (- (l + 1))). nia. }
  assert (pow_le 2 n d (l - 1)) as Hlo.
  { unfold pow_le.
    pose proof (Z.log2_spec n Hn) as [Hn1 Hn2]. pose proof (Z.log2_spec d Hd) as [Hd1 Hd2].
    pose proof (Z.log2_nonneg n). pose proof (Z.log2_nonneg d).
    destruct (Z.leb_spec 0 (l - 1)) as [Hl|Hl].
    - rewrite Z.max_r, (Z.max_l 0 (- (l - 1))) by lia.
      assert (2 ^ Z.log2 n = 2 ^ Z.succ (Z.log2 d) * 2 ^ (l - 1)) as Hp
        by (rewrite <- Z.pow_add_r by lia; f_equal; lia).
      pose proof (Z.pow_pos_nonneg 2 (l - 1)). nia.
    - rewrite Z.max_l, (Z.max_r 0 (- (l - 1))) by lia.
      assert (2 ^ Z.succ (Z.log2 d) = 2 ^ Z.log2 n * 2 ^ (- (l - 1))) as Hp
        by (rewrite <- Z.pow_add_r by lia; f_equal; lia).
      pose proof (Z.pow_pos_nonneg 2 (- (l - 1))). nia. }
  destruct (Z.ltb_spec (n * 2 ^ Z.max 0 (- l)) (d * 2 ^ Z.max 0 l)) as [Hlt|Hge].
  - split; [done|]. replace (l - 1 + 1) with l by lia. unfold pow_le. lia.
  - split; [unfold pow_le; lia|done].
Qed.

(** ** Rounding *)

Lemma round_half_even_exact q d : 0 < d -> round_half_even (q * d) d = q.
Proof.
  intros Hd. unfold round_half_even. rewrite Z.div_mul, Z.mod_mul by lia.
  destruct (Z.compare_spec (2 * 0) d); lia.
Qed.

Lemma round_half_even_close n d :
  0 < d -> d * (2 * round_half_even n d - 1) <= 2 * n <= d * (2 * round_half_even n d + 1).
Proof.
  intros Hd. unfold round_half_even.
  pose proof (Z.div_mod n d ltac:(lia)). pose proof (Z.mod_pos_bound n d Hd).
  destruct (Z.compare_spec (2 * (n mod d)) d); [destruct (Z.even _)|..]; nia.
Qed.

Lemma round_half_even_le n d b : 0 < d -> n < b * d -> round_half_even n d <= b.
Proof. intros Hd Hn. pose proof (round_half_even_close n d Hd). nia. Qed.

Lemma round_half_even_ge n d b : 0 < d -> b * d <= n -> b <= round_half_even n d.
Proof. intros Hd Hn. pose proof (round_half_even_close n d Hd). nia. Qed.

Lemma digits2_log2 m : Zpos (digits2_pos m) = Z.log2 (Zpos m) + 1.
Proof.
  induction m as [m IH|m IH|]; [..|done]; cbn [digits2_pos].
  - rewrite Pos2Z.inj_succ, IH, Pos2Z.inj_xI, Z.log2_succ_double by lia. lia.
  - rewrite Pos2Z.inj_succ, IH, Pos2Z.inj_xO, Z.log2_double by lia. lia.
Qed.

Lemma fexp_binary64 e : fexp 53 1024 e = Z.max (e - 53) (-1074).
Proof. reflexivity. Qed.

(** A representable mantissa and exponent. *)
Lemma bounded_spec m e :
  bounded 53 1024 m e = true <-> e = Z.max (Z.log2 (Zpos m) + e - 52) (-1074) /\ e <= 971.
Proof.
  unfold bounded, canonical_mantissa. rewrite andb_true_iff, Z.eqb_eq, Z.leb_le.
  rewrite fexp_binary64, digits2_log2.
  replace (Z.log2 (Zpos m) + 1 + e - 53) with (Z.log2 (Zpos m) + e - 52) by lia. intuition lia.
Qed.

Lemma scale2_pos n d k : 0 < n -> 0 < d -> 0 < (scale2 n d k).1 /\ 0 < (scale2 n d k).2.
Proof. intros. unfold scale2. simpl. pose proof (pow2_pos k). pose proof (pow2_pos (- k)). nia. Qed.

(** The scaled fraction that [round_frac] rounds lies below [2 ^ 53]. *)
Lemma round_frac_scaled n d e :
  0 < n -> 0 < d -> e = Z.max (ilog2_frac n d - 52) (-1074) ->
  let s := scale2 n d (- e) in
  s.1 < 2 ^ 53 * s.2 /\ (e = ilog2_frac n d - 52 -> 2 ^ 52 * s.2 <= s.1).
Proof.
  intros Hn Hd He. unfold scale2. simpl. rewrite Z.opp_involutive.
  destruct (ilog2_frac_spec n d Hn Hd) as [Hlo Hhi]. set (l := ilog2_frac n d) in *.
  assert (forall k x, 0 <= k -> d * 2 ^ Z.max 0 (x + k) * 2 ^ Z.max 0 (- x) =
                      2 ^ k * (d * 2 ^ Z.max 0 x) * 2 ^ Z.max 0 (- (x + k))) as Hsh.
  { intros k x Hk. transitivity (d * 2 ^ (Z.max 0 (x + k) + Z.max 0 (- x))).
    - rewrite Z.pow_add_r by lia. ring.
    - replace (Z.max 0 (x + k) + Z.max 0 (- x)) with (k + (Z.max 0 x + Z.max 0 (- (x + k)))) by lia.
      rewrite !Z.pow_add_r by lia. ring. }
  split.
  - assert (~ pow_le 2 n d (e + 53)) as Hn53.
    { intros Hc. apply Hhi. apply (pow_le_mono 2 n d (l + 1) (e + 53)); auto; lia. }
    unfold pow_le in Hn53. apply Z.nle_gt in Hn53.
    pose proof (Hsh 53 e ltac:(lia)) as Hs. pose proof (pow2_pos (- (e + 53))).
    pose proof (pow2_pos (- e)). nia.
  - intros Hel. assert (pow_le 2 n d (e + 52)) as H52 by (replace (e + 52) with l by lia; done).
    unfold pow_le in H52. pose proof (Hsh 52 e ltac:(lia)) as Hs.
    pose proof (pow2_pos (- (e + 52))). pose proof (pow2_pos (- e)). nia.
Qed.

Lemma round_frac_valid s n d : 0 < d -> f64_valid (round_frac s n d).
Proof.
  intros Hd. unfold round_frac. destruct (Z.leb_spec n 0) as [|Hn]; [done|].
  set (e := Z.max (ilog2_frac n d - 52) (-1074)).
  pose proof (round_frac_scaled n d e Hn Hd eq_refl) as [Hhi Hlo].
  pose proof (scale2_pos n d (- e) Hn Hd) as [Hn' Hd'].
  destruct (scale2 n d (- e)) as [n' d']. simpl in *.
  set (m := round_half_even n' d').
  assert (0 <= m <= 2 ^ 53) as Hm.
  { split; [apply round_half_even_ge; lia|]. apply round_half_even_le; lia. }
  assert (e = ilog2_frac n d - 52 -> 2 ^ 52 <= m) as Hm52.
  { intros He. apply round_half_even_ge; [done|]. by apply Hlo. }
  destruct (Z.eqb_spec m (2 ^ 53)) as [Heq|Hne].
  - simpl. destruct (Z.ltb_spec 971 (e + 1)); [done|].
    unfold f64_valid, valid_binary. apply bounded_spec. simpl Z.log2. lia.
  - destruct (Z.eqb_spec m 0); [done|]. destruct (Z.ltb_spec 971 e); [done|].
    unfold f64_valid, valid_binary. apply bounded_spec. split; [|lia].
    rewrite Z2Pos.id by lia. pose proof (Z.log2_lt_pow2 m 53 ltac:(lia)).
    destruct (decide (e = ilog2_frac n d - 52)) as [He|He].
    + pose proof (Z.log2_le_pow2 m 52 ltac:(lia)). specialize (Hm52 He). lia.
    + pose proof (Z.log2_nonneg m). lia.
Qed.

(** A fraction that equals a representable value rounds to that value. *)
Lemma round_frac_exact s m e n d :
  bounded 53 1024 m e = true -> 0 < d ->
  n * 2 ^ Z.max 0 (- e) = Zpos m * 2 ^ Z.max 0 e * d ->
  round_frac s n d = S754_finite s m e.
Proof.
  intros Hb Hd Heq. apply bounded_spec in Hb as [He He971].
  pose proof (pow2_pos e). pose proof (pow2_pos (- e)).
  assert (0 < n) as Hn by nia.
  assert (ilog2_frac n d = Z.log2 (Zpos m) + e) as Hl.
  { pose proof (Z.log2_spec (Zpos m) ltac:(lia)) as [Hm1 Hm2].
    pose proof (Z.log2_nonneg (Zpos m)).
    destruct (ilog2_frac_spec n d Hn Hd) as [Hlo Hhi].
    apply (pow_le_unique 2 n d); try done.
    - apply (pow_le_ext 2 (Zpos m * 2 ^ Z.max 0 e) (2 ^ Z.max 0 (- e))); try lia.
      unfold pow_le.
      assert (forall x, 0 <= x -> 2 ^ Z.max 0 (- e) * 2 ^ Z.max 0 (x + e) =
                2 ^ x * 2 ^ Z.max 0 e * 2 ^ Z.max 0 (- (x + e))) as Hsh.
      { intros x Hx. rewrite <- !Z.pow_add_r by lia. f_equal. lia. }
      rewrite Hsh by lia. pose proof (pow2_pos (- (Z.log2 (Zpos m) + e))). nia.
    - intros Hc. apply (pow_le_ext 2 _ _ (Zpos m * 2 ^ Z.max 0 e) (2 ^ Z.max 0 (- e))) in Hc; try lia.
      unfold pow_le in Hc.
      assert (2 ^ Z.max 0 (- e) * 2 ^ Z.max 0 (Z.log2 (Zpos m) + e + 1) =
                2 ^ Z.succ (Z.log2 (Zpos m)) * 2 ^ Z.max 0 e *
                2 ^ Z.max 0 (- (Z.log2 (Zpos m) + e + 1))) as Hsh.
      { rewrite <- !Z.pow_add_r by lia. f_equal. lia. }
      rewrite Hsh in Hc. pose proof (pow2_pos (- (Z.log2 (Zpos m) + e + 1))). nia. }
  unfold round_frac. destruct (Z.leb_spec n 0); [lia|]. rewrite Hl.
  replace (Z.log2 (Z.pos m) + e - 52) with (Z.log2 (Z.pos m) + e - 52) by done.
  rewrite <- He. unfold scale2. rewrite Z.opp_involutive.
  replace (n * 2 ^ Z.max 0 (- e)) with (Zpos m * (d * 2 ^ Z.max 0 e)) by lia.
  rewrite round_half_even_exact by nia.
  assert (Zpos m < 2 ^ 53).
  { apply Z.log2_lt_pow2; lia. }
  destruct (Z.eqb_spec (Zpos m) (2 ^ 53)); [lia|].
  destruct (Z.eqb_spec (Zpos m) 0); [lia|]. destruct (Z.ltb_spec 971 e); [lia|]. done.
Qed.

(** ** Decimal exponents *)

Lemma ilog10_fuel_spec fuel n :
  0 < n < 2 ^ Z.of_nat (S fuel) ->
  0 <= ilog10_fuel fuel n /\ 10 ^ ilog10_fuel fuel n <= n < 10 ^ (ilog10_fuel fuel n + 1).
Proof.
  revert n. induction fuel as [|f IH]; intros n Hn; cbn [ilog10_fuel].
  - simpl in Hn. split; [lia|]. simpl. lia.
  - destruct (Z.ltb_spec n 10) as [Hlt|Hge]; [split; [lia|simpl; lia]|].
    pose proof (Z.div_mod n 10 ltac:(lia)). pose proof (Z.mod_pos_bound n 10 ltac:(lia)).
    destruct (IH (n / 10)) as (Hr0 & Hlo & Hhi).
    { rewrite Nat2Z.inj_succ, Z.pow_succ_r in Hn by lia. lia. }
    split; [lia|]. set (r := ilog10_fuel f (n / 10)) in *.
    replace (1 + r) with (Z.succ r) by lia. replace (Z.succ r + 1) with (Z.succ (r + 1)) by lia.
    rewrite !Z.pow_succ_r by lia. lia.
Qed.

Lemma ilog10_spec n :
  0 < n -> 0 <= ilog10 n /\ 10 ^ ilog10 n <= n < 10 ^ (ilog10 n + 1).
Proof.
  intros Hn. apply ilog10_fuel_spec. split; [done|].
  pose proof (Z.log2_spec n ltac:(lia)). pose proof (Z.log2_nonneg n).
  rewrite Nat2Z.inj_succ, Z2Nat.id by done. lia.
Qed.

Lemma ilog10_frac_spec n d :
  0 < n -> 0 < d -> pow_le 10 n d (ilog10_frac n d) /\ ~ pow_le 10 n d (ilog10_frac n d + 1).
Proof.
  intros Hn Hd. unfold ilog10_frac, pow_le. destruct (Z.leb_spec d n) as [Hdn|Hdn].
  - assert (0 < n / d) as Hq by (apply Z.div_str_pos; lia).
    destruct (ilog10_spec _ Hq) as (Hr0 & Hlo & Hhi).
    pose proof (Z.div_mod n d ltac:(lia)). pose proof (Z.mod_pos_bound n d Hd).
    set (p := ilog10 (n / d)) in *.
    rewrite (Z.max_r 0 p), (Z.max_r 0 (p + 1)), (Z.max_l 0 (- p)), (Z.max_l 0 (- (p + 1))) by lia.
    rewrite Z.pow_0_r. nia.
  - assert (0 <= (d - 1) / n) as Hq by (apply Z.div_pos; lia).
    destruct (decide ((d - 1) / n = 0)) as [Hz|Hnz].
    { apply Z.div_small_iff in Hz; lia. }
    destruct (ilog10_spec ((d - 1) / n) ltac:(lia)) as (Hr0 & Hlo & Hhi).
    pose proof (Z.div_mod (d - 1) n ltac:(lia)). pose proof (Z.mod_pos_bound (d - 1) n Hn).
    set (j := ilog10 ((d - 1) / n)) in *.
    replace (- - (j + 1)) with (j + 1) by lia. replace (- (- (j + 1) + 1)) with j by lia.
    rewrite (Z.max_l 0 (- (j + 1))), (Z.max_l 0 (- (j + 1) + 1)), (Z.max_r 0 (j + 1)),
      (Z.max_r 0 j) by lia.
    rewrite Z.pow_0_r. nia.
Qed.

(** ** The shortest form exists *)

Lemma shortest_from_spec x fuel k m e :
  shortest_from fuel x k = Some (m, e) -> round_dec (f64_sign x) m e = x.
Proof.
  revert k. induction fuel as [|f IH]; intros k; [done|]. cbn [shortest_from].
  destruct (digits_at x k) as [[m' e']|] eqn:Hd; [|apply IH]. intros [= -> ->].
  unfold digits_at in Hd. destruct (f64_frac x) as [n d].
  destruct (scale10 n d _) as [n' d'].
  repeat (case_match; simplify_eq; try done).
Qed.

Lemma shortest_from_complete x fuel k k' :
  k <= k' < k + Z.of_nat fuel -> is_Some (digits_at x k') -> is_Some (shortest_from fuel x k).
Proof.
  revert k. induction fuel as [|f IH]; intros k Hk Hs; [lia|]. cbn [shortest_from].
  destruct (digits_at x k) as [r|] eqn:Hd; [eauto|].
  destruct (decide (k = k')) as [->|]; [destruct Hs; congruence|]. apply IH; [lia|done].
Qed.

Lemma f64_frac_pos s m e : 0 < (f64_frac (S754_finite s m e)).1 /\ 0 < (f64_frac (S754_finite s m e)).2.
Proof. apply scale2_pos; lia. Qed.

(** Ten to the [k] is two to the [k] times five to the [k]. *)
Lemma pow10_split k : 0 <= k -> 10 ^ k = 2 ^ k * 5 ^ k.
Proof. intros. change 10 with (2 * 5). by rewrite Z.pow_mul_l. Qed.

(** The exact decimal expansion of a representable value is one of the candidates. *)
Lemma digits_at_exact s m e :
  bounded 53 1024 m e = true ->
  let x := S754_finite s m e in
  let p := ilog10_frac (f64_frac x).1 (f64_frac x).2 in
  is_Some (digits_at x (p + 1 + Z.max 0 (- e))).
Proof.
  intros Hb x p. unfold digits_at. pose proof (f64_frac_pos s m e) as [Hn Hd].
  fold x in Hn, Hd. destruct (f64_frac x) as [n d] eqn:Hfrac. simpl in Hn, Hd. subst p. simpl fst. simpl snd.
  set (p := ilog10_frac n d).
  replace (p + 1 + Z.max 0 (- e) - 1 - p) with (Z.max 0 (- e)) by lia.
  unfold scale10. rewrite (Z.max_r 0 (Z.max 0 (- e))) by lia.
  replace (Z.max 0 (- Z.max 0 (- e))) with 0 by lia. rewrite Z.pow_0_r, Z.mul_1_r.
  unfold x in Hfrac. simpl in Hfrac. unfold scale2 in Hfrac. rewrite Z.mul_1_l in Hfrac.
  assert (n = Zpos m * 2 ^ Z.max 0 e) as Hne by congruence.
  assert (d = 2 ^ Z.max 0 (- e)) as Hde by congruence.
  set (q := n * 5 ^ Z.max 0 (- e)).
  assert (n * 10 ^ Z.max 0 (- e) = q * d) as Hq.
  { unfold q. rewrite Hde, pow10_split by lia. ring. }
  rewrite Hq, round_half_even_exact by done.
  assert (q < 10 ^ (p + 1 + Z.max 0 (- e))) as Hqk.
  { destruct (ilog10_frac_spec n d Hn Hd) as [Hlo Hhi]. fold p in Hlo, Hhi.
    unfold pow_le in Hhi. apply Z.nle_gt in Hhi.
    assert (-1 <= p + Z.max 0 (- e)) as Hpe.
    { apply Z.le_ngt. intros Hc. unfold pow_le in Hlo.
      destruct (Z.leb_spec 0 e) as [He|He].
      - rewrite (Z.max_l 0 (p + 1)), (Z.max_r 0 (- (p + 1))) in Hhi by lia.
        rewrite (Z.max_l 0 (- e)) in Hde by lia. rewrite Hde in Hhi.
        pose proof (Z.pow_pos_nonneg 10 (- (p + 1))). rewrite (Z.max_r 0 e) in Hne by lia.
        pose proof (Z.pow_pos_nonneg 2 e). nia.
      - rewrite (Z.max_l 0 (p + 1)), (Z.max_r 0 (- (p + 1))) in Hhi by lia.
        rewrite (Z.max_r 0 (- e)) in * by lia. rewrite (Z.max_l 0 e) in Hne by lia.
        assert (2 ^ (- e) <= 10 ^ (- e)) by (apply Z.pow_le_mono_l; lia).
        assert (10 ^ (- e) <= 10 ^ (- (p + 1))) by (apply Z.pow_le_mono_r; lia). nia. }
    (* n/d < 10^(p+1), so n * 10^K < d * 10^(p+1+K), and q * d = n * 10^K *)
    set (K := Z.max 0 (- e)) in *. pose proof (pow10_pos (- (p + 1))).
    assert (10 ^ K * 10 ^ Z.max 0 (p + 1) = 10 ^ (p + 1 + K) * 10 ^ Z.max 0 (- (p + 1))) as Hsh.
    { rewrite <- !Z.pow_add_r by lia. f_equal. lia. }
    assert (n * 10 ^ K * 10 ^ Z.max 0 (- (p + 1)) < 10 ^ K * (d * 10 ^ Z.max 0 (p + 1))) as H1.
    { assert (0 < 10 ^ K) by (apply Z.pow_pos_nonneg; lia). nia. }
    replace (10 ^ K * (d * 10 ^ Z.max 0 (p + 1)))
      with (d * (10 ^ (p + 1 + K) * 10 ^ Z.max 0 (- (p + 1)))) in H1 by (rewrite <- Hsh; ring).
    rewrite Hq in H1. nia. }
  destruct (Z.eqb_spec q (10 ^ (p + 1 + Z.max 0 (- e)))) as [|_]; [lia|].
  replace (p - (p + 1 + Z.max 0 (- e)) + 1) with (- Z.max 0 (- e)) by lia.
  assert (round_dec (f64_sign x) q (- Z.max 0 (- e)) = x) as Hr.
  { unfold round_dec, scale10. rewrite Z.opp_involutive, Z.mul_1_l.
    apply round_frac_exact; [done|apply pow10_pos|]. replace (Z.max 0 (- Z.max 0 (- e))) with 0 by lia.
    rewrite (Z.max_r 0 (Z.max 0 (- e))), Z.pow_0_r by lia. unfold q.
    rewrite Hne, pow10_split by lia. ring. }
  destruct (decide (round_dec _ _ _ = x)); [eauto|done].
Qed.

Lemma pow_le_top b n d p k :
  1 < b -> 0 < d -> pow_le b n d p -> ~ pow_le b n d (k + 1) -> p <= k.
Proof.
  intros Hb Hd Hp Hk. apply Z.le_ngt. intros Hlt. apply Hk. apply (pow_le_mono b n d _ p); auto; lia.
Qed.

(** Every representable non-zero value lies strictly between 10^-400 and 10^309. *)
Lemma ilog10_frac_bounds s m e :
  bounded 53 1024 m e = true ->
  let x := S754_finite s m e in
  - Z.max 0 (- e) <= ilog10_frac (f64_frac x).1 (f64_frac x).2 <= 308.
Proof.
  intros Hb x. pose proof (f64_frac_pos s m e) as [Hn Hd]. fold x in Hn, Hd.
  destruct (f64_frac x) as [n d] eqn:Hfrac. simpl in *.
  unfold x in Hfrac. simpl in Hfrac. unfold scale2 in Hfrac. rewrite Z.mul_1_l in Hfrac.
  assert (n = Zpos m * 2 ^ Z.max 0 e) as Hne by congruence.
  assert (d = 2 ^ Z.max 0 (- e)) as Hde by congruence.
  destruct (ilog10_frac_spec n d Hn Hd) as [Hlo Hhi]. set (p := ilog10_frac n d) in *.
  apply bounded_spec in Hb as [He He971].
  assert (Zpos m < 2 ^ 53) as Hm by (apply Z.log2_lt_pow2; lia).
  split.
  - apply Z.le_ngt. intros Hc. apply Hhi. apply (pow_le_mono 10 n d _ (- Z.max 0 (- e))); [lia|done|lia|].
    unfold pow_le. rewrite Z.opp_involutive. replace (Z.max 0 (- Z.max 0 (- e))) with 0 by lia.
    rewrite (Z.max_r 0 (Z.max 0 (- e))), Z.pow_0_r, Z.mul_1_r, Hde by lia.
    assert (2 ^ Z.max 0 (- e) <= 10 ^ Z.max 0 (- e)) by (apply Z.pow_le_mono_l; lia).
    assert (0 < 10 ^ Z.max 0 (- e)) by (apply Z.pow_pos_nonneg; lia). nia.
  - apply (pow_le_top 10 n d); [lia|done|done|]. unfold pow_le.
    change (10 ^ Z.max 0 (- (308 + 1))) with 1. change (Z.max 0 (308 + 1)) with 309.
    assert (2 ^ Z.max 0 e <= 2 ^ 971) by (apply Z.pow_le_mono_r; lia).
    assert (2 ^ 53 * 2 ^ 971 < 10 ^ 309) by reflexivity.
    assert (n < 10 ^ 309) by nia. nia.
Qed.

(** A candidate has at most [k] digits, and its exponent follows the value's. *)
Lemma digits_at_bounds x k m e :
  0 < (f64_frac x).1 -> 0 < (f64_frac x).2 -> 0 < k ->
  digits_at x k = Some (m, e) ->
  m < 10 ^ k /\ ilog10_frac (f64_frac x).1 (f64_frac x).2 - k + 1 <= e <=
               ilog10_frac (f64_frac x).1 (f64_frac x).2 - k + 2.
Proof.
  intros Hn Hd Hk. unfold digits_at. destruct (f64_frac x) as [n d]. simpl in Hn, Hd |- *.
  set (p := ilog10_frac n d). unfold scale10.
  destruct (ilog10_frac_spec n d Hn Hd) as [_ Hhi]. fold p in Hhi.
  set (z := k - 1 - p). set (n' := n * 10 ^ Z.max 0 z). set (d' := d * 10 ^ Z.max 0 (- z)).
  assert (0 < d') as Hd' by (unfold d'; pose proof (pow10_pos (- z)); nia).
  assert (n' < 10 ^ k * d') as Hn'.
  { unfold pow_le in Hhi. apply Z.nle_gt in Hhi. unfold n', d'.
    assert (10 ^ Z.max 0 z * 10 ^ Z.max 0 (p + 1) =
            10 ^ k * 10 ^ Z.max 0 (- z) * 10 ^ Z.max 0 (- (p + 1))) as Hsh.
    { rewrite <- !Z.pow_add_r by lia. f_equal. lia. }
    pose proof (pow10_pos z). pose proof (pow10_pos (- (p + 1))).
    assert (n * 10 ^ Z.max 0 (- (p + 1)) * 10 ^ Z.max 0 z <
            d * (10 ^ Z.max 0 z * 10 ^ Z.max 0 (p + 1))) by nia.
    rewrite Hsh in *. nia. }
  assert (n' / d' < 10 ^ k) as Hq by (apply Z.div_lt_upper_bound; lia).
  pose proof (round_half_even_le n' d' (10 ^ k) Hd' Hn') as Hr.
  assert (10 ^ (k - 1) < 10 ^ k) by (apply Z.pow_lt_mono_r; lia).
  intros Hc. repeat (case_match; simplify_eq); lia.
Qed.

Lemma shortest_from_inv x fuel k0 r :
  shortest_from fuel x k0 = Some r ->
  exists k, k0 <= k < k0 + Z.of_nat fuel /\ digits_at x k = Some r.
Proof.
  revert k0. induction fuel as [|f IH]; intros k0 Hs; [done|]. cbn [shortest_from] in Hs.
  destruct (digits_at _ k0) eqn:Hd; [exists k0; simplify_eq; split; [lia|done]|].
  destruct (IH _ Hs) as (k & ? & ?). exists k. split; [lia|done].
Qed.

(** Every representable finite value has a shortest decimal form, and it reads back. *)
Lemma shortest_total s m e :
  bounded 53 1024 m e = true ->
  exists dm de, shortest (S754_finite s m e) = Some (dm, de) /\
                round_dec s dm de = S754_finite s m e /\ 0 < dm < 10 ^ 1400 /\ -3000 < de < 1000.
Proof.
  intros Hb. pose proof (digits_at_exact s m e Hb) as Hex.
  pose proof (ilog10_frac_bounds s m e Hb) as Hp. cbv zeta in Hex, Hp.
  apply bounded_spec in Hb as [He _]. pose proof (Z.log2_nonneg (Zpos m)).
  pose proof (f64_frac_pos s m e) as [Hn Hd].
  eapply (shortest_from_complete _ 1400 1) in Hex as [[dm de] Hs]; [|lia].
  exists dm, de. pose proof (shortest_from_spec _ _ _ _ _ Hs) as Hr. simpl in Hr.
  split; [exact Hs|]. split; [done|].
  assert (exists k, 1 <= k <= 1400 /\ digits_at (S754_finite s m e) k = Some (dm, de)) as (k & Hk & Hdk).
  { apply shortest_from_inv in Hs as (k & Hk & Hdk). exists k. split; [|done]. change (Z.of_nat 1400) with 1400 in Hk. lia. }
  destruct (digits_at_bounds _ k _ _ Hn Hd ltac:(lia) Hdk) as [Hm Hde].
  assert (10 ^ k <= 10 ^ 1400) by (apply Z.pow_le_mono_r; lia).
  split; [|lia]. split; [|lia].
  apply Z.lt_nge. intros Hle. unfold round_dec, scale10, round_frac in Hr.
  pose proof (pow10_pos de). destruct (Z.leb_spec (dm * 10 ^ Z.max 0 de) 0); [done|nia].
Qed.
