(* ===== verification/FloatBounds.v ===== *)
(** * Error bounds of binary64 arithmetic

    The value of a finite, non-negative float as a rational, and the relative error of one
    rounding, [2 ^ -53], as long as the exact result is neither tiny nor huge ([moderate]). *)
From Stdlib Require Import QArith Lqa.
From S2P Require Import Prelude GoBase Decimal Float64 Float64Facts.
#[local] Open Scope Z_scope.

(** ** One rounding *)

Lemma ilog2_frac_moderate n d :
  0 < n -> 0 < d -> n <= d * 2 ^ 100 -> d <= n * 2 ^ 100 -> -101 <= ilog2_frac n d <= 100.
Proof.
  intros Hn Hd Hhi Hlo. destruct (ilog2_frac_spec n d Hn Hd) as [Hl Hl']. set (l := ilog2_frac n d) in *. split.
  - destruct (Z.le_gt_cases (-101) l); [done|exfalso]. apply Hl', (pow_le_mono 2 n d _ (-100)); try lia.
    unfold pow_le. change (2 ^ Z.max 0 (- -100)) with (2 ^ 100). change (2 ^ Z.max 0 (-100)) with 1. lia.
  - destruct (Z.le_gt_cases l 100); [done|exfalso].
    assert (pow_le 2 n d 101) as Hc by (apply (pow_le_mono 2 n d 101 l); (lia || done)).
    unfold pow_le in Hc. change (2 ^ Z.max 0 101) with (2 * 2 ^ 100) in Hc.
    change (2 ^ Z.max 0 (- (101))) with 1 in Hc. lia.
Qed.

(** The rounded value is off by at most [2 ^ -53] of the exact one. *)
Lemma round_frac_close s n d :
  0 < n -> 0 < d -> n <= d * 2 ^ 100 -> d <= n * 2 ^ 100 ->
  exists m e, round_frac s n d = S754_finite s m e /\
    let f := f64_frac (S754_finite s m e) in
    0 < f.2 /\ Z.abs (f.1 * d - n * f.2) * 2 ^ 53 <= n * f.2.
Proof.
  intros Hn Hd Hhi Hlo. pose proof (ilog2_frac_moderate n d Hn Hd Hhi Hlo) as Hl.
  unfold round_frac. destruct (Z.leb_spec n 0); [lia|].
  set (e := Z.max (ilog2_frac n d - 52) (-1074)).
  assert (e = ilog2_frac n d - 52) as He by lia.
  destruct (round_frac_scaled n d e Hn Hd eq_refl) as [Hs1 Hs2]. specialize (Hs2 He).
  pose proof (scale2_pos n d (- e) Hn Hd) as [Hn' Hd'].
  assert (scale2 n d (- e) = (n * 2 ^ Z.max 0 (- e), d * 2 ^ Z.max 0 e)) as Hsc
    by (unfold scale2; by rewrite Z.opp_involutive).
  rewrite Hsc in *. cbn [fst snd] in *. set (n' := n * 2 ^ Z.max 0 (- e)) in *. set (d' := d * 2 ^ Z.max 0 e) in *.
  pose proof (round_half_even_close n' d' Hd') as Hc. set (m := round_half_even n' d') in *.
  assert (2 ^ 52 <= m <= 2 ^ 53) as Hm by (split; [apply round_half_even_ge|apply round_half_even_le]; lia).
  assert (Z.abs (m * d' - n') * 2 ^ 53 <= n') as Herr by lia.
  pose proof (pow2_pos e) as Hpe. pose proof (pow2_pos (- e)) as Hpe'.
  destruct (Z.eqb_spec m (2 ^ 53)) as [Hm53|Hm53].
  - change (2 ^ 52 =? 0) with false. destruct (Z.ltb_spec 971 (e + 1)); [lia|].
    eexists _, _. split; [reflexivity|]. unfold f64_frac, scale2. cbn [fst snd]. rewrite Z2Pos.id by lia.
    pose proof (pow2_pos (e + 1)) as Hq. pose proof (pow2_pos (- (e + 1))) as Hq'. split; [lia|].
    pose proof (pow_split 2 e ltac:(lia)) as Hsp. subst n' d'. rewrite Hm53 in Herr.
    set (A := 2 ^ Z.max 0 e) in *. set (B := 2 ^ Z.max 0 (- e)) in *.
    set (C := 2 ^ Z.max 0 (e + 1)) in *. set (D := 2 ^ Z.max 0 (- (e + 1))) in *.
    assert (B * (2 ^ 52 * C * d - n * (1 * D)) = D * (2 ^ 53 * (d * A) - n * B)) as Hx.
    { change (2 ^ 53) with (2 * 2 ^ 52). transitivity (2 ^ 52 * d * (C * B) - n * B * D); [ring|]. rewrite Hsp. ring. }
    assert (B * (Z.abs (2 ^ 52 * C * d - n * (1 * D)) * 2 ^ 53) <= B * (n * (1 * D))) as Hb; [|nia].
    rewrite Z.mul_assoc. rewrite <- (Z.abs_eq B) at 1 by lia. rewrite <- Z.abs_mul, Hx, Z.abs_mul, (Z.abs_eq D) by lia.
    nia.
  - destruct (Z.eqb_spec m 0); [lia|]. destruct (Z.ltb_spec 971 e); [lia|].
    eexists _, _. split; [reflexivity|]. unfold f64_frac, scale2. cbn [fst snd]. rewrite Z2Pos.id by lia.
    split; [lia|]. rewrite Z.mul_1_l.
    replace (m * 2 ^ Z.max 0 e * d) with (m * d') by (subst d'; ring). exact Herr.
Qed.

(** ** The same over the rationals *)

#[local] Open Scope Q_scope.

Definition f64_Q (x : float64) : Q := (f64_frac x).1 # Z.to_pos (f64_frac x).2.
Definition f64_nonneg (x : float64) : Prop :=
  match x with S754_zero false | S754_finite false _ _ => True | _ => False end.
(** One rounding unit. *)
Definition ulp : Q := 1 # 9007199254740992.
Definition moderate (v : Q) : Prop := v == 0 \/ ((1 # 2 ^ 100) <= v /\ v <= (2 ^ 100)%Z # 1).
(** [x] is [v], rounded once. *)
Definition rounds (x : float64) (v : Q) : Prop :=
  f64_nonneg x /\ v * (1 - ulp) <= f64_Q x /\ f64_Q x <= v * (1 + ulp).

Lemma f64_Q_nonneg x : f64_nonneg x -> 0 <= f64_Q x.
Proof.
  destruct x as [[]|[]| |[] m e]; try done. intros _. unfold f64_Q, Qle. cbn [Qnum Qden].
  pose proof (f64_frac_pos false m e). lia.
Qed.

Lemma round_frac_rounds n d :
  (0 <= n)%Z -> (0 < d)%Z -> moderate (n # Z.to_pos d) -> rounds (round_frac false n d) (n # Z.to_pos d).
Proof.
  intros Hn Hd Hm. destruct (decide (n = 0%Z)) as [->|Hn0].
  { split; [done|]. unfold f64_Q, Qle, Qmult. cbn. lia. }
  destruct Hm as [Hm|[Hlo Hhi]]; [unfold Qeq in Hm; cbn in Hm; lia|].
  unfold Qle in Hlo, Hhi. cbn [Qnum Qden] in Hlo, Hhi. rewrite Z2Pos.id in Hlo, Hhi by done.
  destruct (round_frac_close false n d) as (m & e & -> & Hf & Hc);
    [lia|done|by rewrite Z.mul_1_r in Hhi; lia|by rewrite Z.mul_1_l in Hlo|].
  split; [done|]. unfold f64_Q. destruct (f64_frac _) as [p q]. cbn [fst snd] in *.
  unfold Qle, Qmult, Qminus, Qplus, Qopp, ulp. cbn [Qnum Qden].
  rewrite !Pos2Z.inj_mul, !Z2Pos.id by done. change (2 ^ 53)%Z with 9007199254740992%Z in Hc. lia.
Qed.

Lemma f64_mul_rounds x y :
  f64_nonneg x -> f64_nonneg y -> moderate (f64_Q x * f64_Q y) -> rounds (f64_mul x y) (f64_Q x * f64_Q y).
Proof.
  intros Hx Hy Hm. assert (forall z v, v == 0 -> z = S754_zero false -> rounds z v) as Hz.
  { intros z v Hv ->. split; [done|]. rewrite Hv. unfold f64_Q. cbn. split; by vm_compute. }
  destruct x as [[]|[]| |[] m e], y as [[]|[]| |[] m' e']; try done;
    try (apply Hz; [unfold f64_Q, Qeq; cbn; lia|done]).
  pose proof (f64_frac_pos false m e) as [Hp Hq]. pose proof (f64_frac_pos false m' e') as [Hp' Hq'].
  assert (f64_Q (S754_finite false m e) * f64_Q (S754_finite false m' e') =
          ((f64_frac (S754_finite false m e)).1 * (f64_frac (S754_finite false m' e')).1) #
          Z.to_pos ((f64_frac (S754_finite false m e)).2 * (f64_frac (S754_finite false m' e')).2)) as Heq.
  { unfold f64_Q, Qmult. cbn [Qnum Qden]. by rewrite <- Z2Pos.inj_mul. }
  rewrite Heq in *. cbn [f64_mul xorb f64_sign]. apply round_frac_rounds; [nia|nia|done].
Qed.

(** The conversion to an integer takes the floor of a non-negative float. *)
Lemma f64_to_int64_floor x :
  f64_nonneg x -> f64_Q x < int64_max # 1 ->
  (0 <= f64_to_int64 x)%Z /\ inject_Z (f64_to_int64 x) <= f64_Q x /\ f64_Q x < inject_Z (f64_to_int64 x) + 1.
Proof.
  intros Hx. assert (f64_sign x = false /\ f64_is_finite x = true /\ (0 <= (f64_frac x).1)%Z /\ (0 < (f64_frac x).2)%Z)
    as (Hs & Hf & Hp & Hq).
  { destruct x as [[]|[]| |[] m e]; try done. pose proof (f64_frac_pos false m e). split_and!; (done || lia). }
  unfold f64_to_int64, f64_Q. rewrite Hs, Hf. destruct (f64_frac x) as [p q]. cbn [fst snd] in *.
  unfold Qlt, Qle, inject_Z, Qplus. cbn [Qnum Qden]. rewrite Pos.mul_1_l, Z2Pos.id by done. intros Hlt.
  pose proof (Z.div_mod p q ltac:(lia)). pose proof (Z.mod_pos_bound p q Hq). set (z := (p / q)%Z) in *.
  assert (0 <= z <= int64_max)%Z as Hz by nia.
  destruct (Z.leb_spec int64_min z); [|exfalso; int64_lia].
  destruct (Z.leb_spec z int64_max); [|exfalso; int64_lia]. cbn [andb]. lia.
Qed.
