(* ===== verification/Float64Text.v ===== *)
(** * Reading back the text of a float

    [ParseFloat] inverts [FormatFloat] in both of its layouts, for every representable finite
    value; JSON's variant of the exponent layout is covered too. *)
From S2P Require Import Prelude GoBase Decimal Float64 Float64Facts.
#[local] Open Scope Z_scope.

(** ** The digit loop *)

Definition scan_st (dot : bool) (n p v : Z) : float_scan :=
  {| underscores := false; sawdot := dot; sawdigits := true; nd := n; dp := p; mant := v |}.

Lemma is_digit_not c n : is_digit c = true -> ~ 48 <= n <= 57 -> char_eqb c n = false.
Proof. intros Hc%is_digit_code Hn. unfold char_eqb. apply Z.eqb_neq. lia. Qed.

Lemma scan_digits ds r dot n p v :
  all_digits ds -> 0 < n ->
  scan_mantissa false (ds ++ r) (scan_st dot n p v) =
  scan_mantissa false r (scan_st dot (n + Z.of_nat (length ds)) p (dec_val v ds)).
Proof.
  intros Hd. revert n v. induction Hd as [|c ds Hc Hd IH]; intros n v Hn; [simpl; f_equal; f_equal; lia|].
  cbn [app scan_mantissa]. rewrite !(is_digit_not c) by (done || lia). rewrite Hc.
  cbn [scan_st nd]. destruct (Z.eqb_spec n 0); [lia|]. rewrite andb_false_r.
  cbn [scan_st underscores sawdot dp mant]. fold (scan_st dot (n + 1) p (v * 10 + digit_val c)).
  rewrite IH by lia. simpl length. do 2 f_equal. lia.
Qed.

(** The first significant digit. *)
Lemma scan_first c ds r st :
  all_digits (c :: ds) -> digit_val c <> 0 -> nd st = 0 -> mant st = 0 -> underscores st = false ->
  scan_mantissa false ((c :: ds) ++ r) st =
  scan_mantissa false r (scan_st (sawdot st) (1 + Z.of_nat (length ds)) (dp st) (dec_val 0 (c :: ds))).
Proof.
  intros [Hc Hd]%Forall_cons_1 Hne Hnd Hm Hu.
  cbn [app scan_mantissa]. rewrite !(is_digit_not c) by (done || lia). rewrite Hc, Hnd, Hm, Hu.
  unfold char_eqb at 1. unfold digit_val in Hne. destruct (Z.eqb_spec (code c) 48); [lia|].
  rewrite andb_false_l. fold (scan_st (sawdot st) (0 + 1) (dp st) (0 * 10 + digit_val c)).
  by rewrite scan_digits by (done || lia).
Qed.

(** Leading zeros only move the decimal point. *)
Lemma scan_zeros k r st :
  nd st = 0 -> sawdigits st = true ->
  scan_mantissa false (repeat "0"%char k ++ r) st =
  scan_mantissa false r {| underscores := underscores st; sawdot := sawdot st; sawdigits := true;
                           nd := 0; dp := dp st - Z.of_nat k; mant := mant st |}.
Proof.
  revert st. induction k as [|k IH]; intros st Hnd Hs.
  - simpl. destruct st; simpl in *. subst. do 2 f_equal. lia.
  - cbn [repeat app scan_mantissa]. change (char_eqb "0" 95) with false.
    change (char_eqb "0" 46) with false. change (is_digit "0") with true.
    change (char_eqb "0" 48) with true. rewrite Hnd. cbn [Z.eqb andb].
    rewrite IH by done. cbn [underscores sawdot dp mant]. do 2 f_equal. lia.
Qed.

Lemma scan_dot r st :
  sawdot st = false ->
  scan_mantissa false ("."%char :: r) st =
  scan_mantissa false r {| underscores := underscores st; sawdot := true; sawdigits := sawdigits st;
                           nd := nd st; dp := nd st; mant := mant st |}.
Proof. intros H. simpl. by rewrite H. Qed.

Lemma scan_exponent_digits ds acc us :
  all_digits ds -> 0 <= acc -> dec_val acc ds < 100000 ->
  scan_exponent ds acc us = (dec_val acc ds, us, []).
Proof.
  intros Hd. revert acc. induction Hd as [|c ds Hc Hd IH]; intros acc Ha Hv; [done|].
  cbn [scan_exponent]. rewrite (is_digit_not c 95) by (done || lia). rewrite Hc.
  pose proof (is_digit_range c Hc).
  assert (dec_val acc (c :: ds) = dec_val (acc * 10 + digit_val c) ds) as Hs by done.
  pose proof (dec_val_acc (acc * 10 + digit_val c) ds). pose proof (dec_val_bounds ds Hd).
  pose proof (Z.pow_pos_nonneg 10 (Z.of_nat (length ds))).
  destruct (Z.ltb_spec acc 10000); [|nia]. rewrite IH; [done|lia|lia].
Qed.

(** ** readFloat on a sign followed by a decimal literal *)

(** A body that [readFloat] reads as a decimal literal: it begins with a digit, and is not
    mistaken for a hexadecimal one. *)
Definition decimal_body (l : bytes) : Prop :=
  match l with
  | c :: l' => is_digit c = true /\ match l' with c' :: _ => code (lower_byte c') <> 120 | [] => True end
  | [] => False
  end.

Lemma drop_sign_text s l : decimal_body l -> drop_sign (sign_text s ++ l) = (s, l).
Proof.
  destruct s; [done|]. destruct l as [|c l]; [done|]. intros [Hc _]. simpl.
  by rewrite !(is_digit_not c) by (done || lia).
Qed.

(** The point and digit counters turned into a power of ten. *)
Definition scan_exp (st : float_scan) : Z := (if sawdot st then dp st else nd st) - nd st.

Lemma readFloat_body s l :
  decimal_body l ->
  readFloat (sign_text s ++ l) =
  let '(st, r) := scan_mantissa false l float_scan0 in
  if negb (sawdigits st) then None else
  let dp0 := if sawdot st then dp st else nd st in
  match
    match r with
    | c :: l' =>
        if char_eqb (lower_byte c) 101 then
          let '(eneg, l'') := drop_sign l' in
          match l'' with
          | d :: _ =>
              if is_digit d then
                let '(e, us, l3) := scan_exponent l'' 0 (underscores st) in
                Some (if eneg then - e else e, us, l3)
              else None
          | [] => None
          end
        else Some (0, underscores st, r)
    | [] => Some (0, underscores st, r)
    end
  with
  | Some (e, us, []) =>
      if us && negb (underscoreOK (sign_text s ++ l)) then None
      else let x := dp0 + e - nd st in
           Some (s, mant st * 10 ^ Z.max 0 x, 10 ^ Z.max 0 (- x))
  | _ => None
  end.
Proof.
  intros Hl. unfold readFloat. rewrite drop_sign_text by done.
  assert (match l with
          | z :: x :: _ :: _ =>
              if char_eqb z 48 && char_eqb (lower_byte x) 120 then (true, drop 2 l) else (false, l)
          | _ => (false, l)
          end = (false, l)) as ->; [|reflexivity].
  destruct l as [|c [|c' [|c'' l]]]; try done. destruct Hl as [_ Hx].
  unfold char_eqb at 2. destruct (Z.eqb_spec (code (lower_byte c')) 120); [done|].
  by rewrite andb_false_r.
Qed.

Lemma readFloat_plain s l st :
  decimal_body l -> scan_mantissa false l float_scan0 = (st, []) ->
  underscores st = false -> sawdigits st = true ->
  readFloat (sign_text s ++ l) =
  Some (s, mant st * 10 ^ Z.max 0 (scan_exp st), 10 ^ Z.max 0 (- scan_exp st)).
Proof.
  intros Hl Hs Hu Hd. rewrite readFloat_body by done. rewrite Hs, Hd, Hu. simpl.
  unfold scan_exp. by rewrite Z.add_0_r.
Qed.

Lemma readFloat_exp s l st sg ds :
  decimal_body l -> scan_mantissa false l float_scan0 = (st, "e"%char :: sg :: ds) ->
  underscores st = false -> sawdigits st = true ->
  sg = "+"%char \/ sg = "-"%char -> all_digits ds -> ds <> [] -> dec_val 0 ds < 100000 ->
  let x := scan_exp st + (if Ascii.eqb sg "-" then - dec_val 0 ds else dec_val 0 ds) in
  readFloat (sign_text s ++ l) = Some (s, mant st * 10 ^ Z.max 0 x, 10 ^ Z.max 0 (- x)).
Proof.
  intros Hl Hs Hu Hd Hsg Hds Hne Hv x. rewrite readFloat_body by done. rewrite Hs, Hd, Hu.
  change (char_eqb (lower_byte "e") 101) with true. cbn [negb].
  assert (drop_sign (sg :: ds) = (Ascii.eqb sg "-", ds)) as -> by (by destruct Hsg; subst sg).
  destruct ds as [|d ds']; [done|]. pose proof Hds as [Hd0 _]%Forall_cons_1. rewrite Hd0.
  rewrite scan_exponent_digits by (done || lia). simpl andb. cbv iota.
  replace ((if sawdot st then dp st else nd st) +
           (if Ascii.eqb sg "-" then - dec_val 0 (d :: ds') else dec_val 0 (d :: ds')) - nd st)
    with x by (unfold x, scan_exp; lia). done.
Qed.

(** ** The two layouts *)

Lemma dec_pos m :
  0 < m -> exists c ds, dec m = c :: ds /\ all_digits (c :: ds) /\ digit_val c <> 0 /\
                        dec_val 0 (c :: ds) = m.
Proof.
  intros Hm. destruct (dec_nonempty m ltac:(lia)) as (c & ds & Hdec). exists c, ds.
  split; [done|]. rewrite <- Hdec. split; [apply dec_digits; lia|].
  split; [|apply dec_value; lia]. intros Hc. destruct (dec_head m c ds) as [-> _]; [lia|done..].
Qed.

Lemma digit_not_x c : is_digit c = true -> code (lower_byte c) <> 120.
Proof.
  intros Hc%is_digit_code. unfold lower_byte, byte_in.
  destruct ((65 <=? nat_of_ascii c)%nat && (nat_of_ascii c <=? 90)%nat) eqn:He; [|lia].
  apply andb_true_iff in He as [H1%Nat.leb_le H2%Nat.leb_le]. unfold code in Hc. lia.
Qed.

Lemma decimal_body_digits c l r :
  all_digits (c :: l) ->
  match r with c' :: _ => code (lower_byte c') <> 120 | [] => True end ->
  decimal_body ((c :: l) ++ r).
Proof.
  intros [Hc Hl]%Forall_cons_1 Hr. split; [done|].
  destruct Hl as [|c' l Hc' _]; simpl; [done|]. by apply digit_not_x.
Qed.

Lemma repeat_zero_digits k : all_digits (repeat "0"%char k).
Proof. apply zeros_digits. Qed.

Lemma dec_val_zeros v k : dec_val v (repeat "0"%char k) = v * 10 ^ Z.of_nat k.
Proof. rewrite dec_val_acc, zeros_val, repeat_length. lia. Qed.

Lemma take_drop_digits (l : bytes) k : all_digits l -> all_digits (take k l) /\ all_digits (drop k l).
Proof. intros H. rewrite <- (take_drop k l) in H. by apply Forall_app in H. Qed.

(** The digit loop on each of the three shapes of the %f layout. *)
Lemma scan_format_f m x :
  0 < m ->
  exists st, scan_mantissa false (format_f (dec m) x) float_scan0 = (st, []) /\
    underscores st = false /\ sawdigits st = true /\ decimal_body (format_f (dec m) x) /\
    mant st = m * 10 ^ Z.max 0 x /\ Z.max 0 (scan_exp st) = 0 /\ Z.max 0 (- scan_exp st) = Z.max 0 (- x).
Proof.
  intros Hm. destruct (dec_pos m Hm) as (c & ds & Hdec & Hall & Hc & Hv).
  unfold format_f. rewrite Hdec. set (len := Z.of_nat (length (c :: ds))).
  destruct (Z.leb_spec 0 x) as [Hx|Hx]; [|destruct (Z.ltb_spec (- x) len) as [Hl|Hl]].
  - assert (all_digits (c :: ds ++ repeat "0"%char (Z.to_nat x))) as Hall'.
    { apply (Forall_app_2 _ (c :: ds)); [done|apply repeat_zero_digits]. }
    set (zs := repeat "0"%char (Z.to_nat x)) in *.
    assert ((c :: ds) ++ zs = (c :: ds ++ zs) ++ []) as Happ by by rewrite app_nil_r.
    eexists. split_and!.
    + rewrite Happ. by rewrite (scan_first c (ds ++ zs) [] float_scan0).
    + done.
    + done.
    + rewrite Happ. by apply (decimal_body_digits c (ds ++ zs) []).
    + change (dec_val 0 ((c :: ds) ++ zs) = m * 10 ^ Z.max 0 x).
      unfold zs. rewrite dec_val_app, Hv, dec_val_zeros. do 2 f_equal. lia.
    + unfold scan_exp. simpl. lia.
    + unfold scan_exp. simpl. lia.
  - destruct (Z.to_nat (len + x)) as [|k] eqn:Hk; [lia|].
    destruct (take_drop_digits ds k) as [Ht Hd]; [by apply Forall_cons_1 in Hall as [_ ?]|].
    assert (all_digits (c :: take k ds)) as Hall' by (apply Forall_cons; by apply Forall_cons_1 in Hall as [? _]).
    cbn [take drop]. eexists. split_and!.
    + rewrite scan_first by done. rewrite scan_dot by done.
      cbn [scan_st sawdot underscores sawdigits nd dp mant].
      rewrite <- (app_nil_r (drop k ds)). fold (scan_st true (1 + Z.of_nat (length (take k ds)))
        (1 + Z.of_nat (length (take k ds))) (dec_val 0 (c :: take k ds))).
      rewrite scan_digits by (done || lia). reflexivity.
    + done.
    + done.
    + by apply decimal_body_digits.
    + cbn [scan_st mant]. rewrite <- dec_val_app.
      change ((c :: take k ds) ++ drop k ds) with (c :: (take k ds ++ drop k ds)).
      rewrite take_drop, Hv, (Z.max_l 0 x) by lia. lia.
    + unfold scan_exp. simpl. lia.
    + unfold scan_exp. simpl. unfold len in *. simpl length in *. rewrite length_take, length_drop. lia.
  - cbn [app]. eexists. split_and!.
    + cbn [scan_mantissa]. change (char_eqb "0" 95) with false. change (char_eqb "0" 46) with false.
      change (is_digit "0") with true. change (char_eqb "0" 48) with true. cbn [nd float_scan0 Z.eqb andb].
      change (char_eqb "." 95) with false. change (char_eqb "." 46) with true. cbn [sawdot].
      rewrite scan_zeros by done. cbn [underscores sawdot dp mant].
      rewrite <- (app_nil_r (c :: ds)). rewrite scan_first by done. reflexivity.
    + done.
    + done.
    + split; [done|]. vm_compute. discriminate.
    + cbn [scan_st mant]. rewrite Hv, (Z.max_l 0 x) by lia. lia.
    + unfold scan_exp. simpl. lia.
    + unfold scan_exp. simpl. unfold len in *. simpl length in *. lia.
Qed.

Lemma readFloat_format_f s m x :
  0 < m ->
  readFloat (sign_text s ++ format_f (dec m) x) =
  Some (s, m * 10 ^ Z.max 0 x, 10 ^ Z.max 0 (- x)).
Proof.
  intros Hm. destruct (scan_format_f m x Hm) as (st & Hs & Hu & Hd & Hb & Hv & H1 & H2).
  rewrite (readFloat_plain s _ st) by done. rewrite Hv, H1, H2, Z.pow_0_r, Z.mul_1_r. done.
Qed.

(** The exponent layout with any spelling [es] of the exponent's digits. *)
Definition layout_e (ds : bytes) (neg : bool) (es : bytes) : bytes :=
  match ds with
  | [] => []
  | c :: ds' =>
      c :: (match ds' with [] => [] | _ => "."%char :: ds' end) ++
      "e"%char :: (if neg then "-"%char else "+"%char) :: es
  end.

Lemma readFloat_layout_e (s : bool) (m : Z) (neg : bool) (es : bytes) :
  0 < m -> all_digits es -> es <> [] -> dec_val 0 es < 100000 ->
  let e := if neg then - dec_val 0 es else dec_val 0 es in
  let x := e - (Z.of_nat (length (dec m)) - 1) in
  readFloat (sign_text s ++ layout_e (dec m) neg es) =
  Some (s, m * 10 ^ Z.max 0 x, 10 ^ Z.max 0 (- x)).
Proof.
  intros Hm Hes Hne Hv e x. destruct (dec_pos m Hm) as (c & ds & Hdec & Hall & Hc & Hmv).
  unfold layout_e, x. rewrite Hdec.
  set (sg := if neg then "-"%char else "+"%char).
  assert (sg = "+"%char \/ sg = "-"%char) as Hsg by (destruct neg; auto).
  assert (e = if Ascii.eqb sg "-" then - dec_val 0 es else dec_val 0 es) as -> by (by destruct neg).
  destruct ds as [|d ds].
  - cbn [app]. erewrite (readFloat_exp s _ (scan_st false 1 0 m) sg es); try done.
    + unfold scan_exp. simpl. do 2 f_equal; [f_equal|]; do 2 f_equal; lia.
    + split; [by apply Forall_cons_1 in Hall as [? _]|]. vm_compute. discriminate.
    + change (c :: "e"%char :: sg :: es) with ([c] ++ "e"%char :: sg :: es).
      rewrite scan_first by done. rewrite Hmv. reflexivity.
  - assert (all_digits (d :: ds)) as Hds by (by apply Forall_cons_1 in Hall as [_ ?]).
    assert (all_digits [c]) as Hc1 by (constructor; [by apply Forall_cons_1 in Hall as [? _]|constructor]).
    erewrite (readFloat_exp s _ (scan_st true (1 + Z.of_nat (length (d :: ds))) 1 m) sg es); try done.
    + unfold scan_exp. cbn [scan_st sawdot dp nd mant]. simpl length. do 2 f_equal; [f_equal|]; do 2 f_equal; lia.
    + apply (decimal_body_digits c []); [done|]. vm_compute. discriminate.
    + change (c :: ("."%char :: d :: ds) ++ "e"%char :: sg :: es)
        with ([c] ++ "."%char :: (d :: ds) ++ "e"%char :: sg :: es).
      rewrite scan_first by done. rewrite scan_dot by done.
      cbn [scan_st sawdot underscores sawdigits nd dp mant length]. change (1 + Z.of_nat 0) with 1.
      fold (scan_st true 1 1 (dec_val 0 [c])). rewrite scan_digits by (done || lia).
      rewrite <- dec_val_app. simpl app. rewrite Hmv. reflexivity.
Qed.
