(* ===== verification/Json.v ===== *)
(** * encoding/json: values, text, and the reflection-based struct decoding

    [parse] is the scanner of [json.Unmarshal] (RFC 8259 grammar, nesting bound of 10000) into
    a tree that keeps strings and numbers as they are written; [print] is the compact encoding
    of [json.Marshal].  [decode_struct] matches keys to fields the way the package does: exactly
    first, then case-insensitively, later keys overwriting earlier ones, null leaving a
    field alone, unknown keys ignored. *)
From S2P Require Import Prelude GoBase Decimal Float64.
#[local] Open Scope Z_scope.

Inductive json :=
  | JNull
  | JBool (b : bool)
  | JNumber (lit : bytes)
  | JString (raw : bytes)     (** the text between the quotes *)
  | JArray (l : list json)
  | JObject (kvs : list (bytes * json)).

(** ** Printing *)

Definition quoted (raw : bytes) : bytes := dquote :: raw ++ [dquote].
Fixpoint join (sep : ascii) (ls : list bytes) : bytes :=
  match ls with
  | [] => []
  | [l] => l
  | l :: ls' => l ++ sep :: join sep ls'
  end.
Fixpoint print (j : json) : bytes :=
  match j with
  | JNull => str "null"
  | JBool b => if b then str "true" else str "false"
  | JNumber lit => lit
  | JString raw => quoted raw
  | JArray l => "["%char :: join "," (map print l) ++ ["]"%char]
  | JObject kvs =>
      "{"%char :: join "," (map (fun kv => quoted kv.1 ++ ":"%char :: print kv.2) kvs) ++ ["}"%char]
  end.

(** ** Scanning *)

Definition is_ws (c : ascii) : bool :=
  (code c =? 32) || (code c =? 9) || (code c =? 13) || (code c =? 10).
Fixpoint skip_ws (l : bytes) : bytes :=
  match l with
  | c :: l' => if is_ws c then skip_ws l' else l
  | [] => []
  end.

Definition is_hex (c : ascii) : bool := is_digit c || is_hex_letter c.
Definition simple_escape (c : ascii) : bool :=
  existsb (Ascii.eqb c) [dquote; backslash; "/"; "b"; "f"; "n"; "r"; "t"]%char.

(** The rest of a string after its opening quote: the raw text and what follows the closing
    quote. *)
Fixpoint scan_string (l : bytes) : option (bytes * bytes) :=
  match l with
  | [] => None
  | c :: l' =>
      if Ascii.eqb c dquote then Some ([], l')
      else if Ascii.eqb c backslash then
        match l' with
        | e :: l'' =>
            if simple_escape e then
              '(raw, r) ← scan_string l''; Some (c :: e :: raw, r)
            else if Ascii.eqb e "u" then
              match l'' with
              | h1 :: h2 :: h3 :: h4 :: l3 =>
                  if is_hex h1 && is_hex h2 && is_hex h3 && is_hex h4 then
                    '(raw, r) ← scan_string l3; Some (c :: e :: h1 :: h2 :: h3 :: h4 :: raw, r)
                  else None
              | _ => None
              end
            else None
        | [] => None
        end
      else if code c <? 32 then None
      else '(raw, r) ← scan_string l'; Some (c :: raw, r)
  end.

Definition scan_int (l : bytes) : option (bytes * bytes) :=
  match l with
  | c :: l' =>
      if Ascii.eqb c "0" then Some ([c], l')
      else if is_digit c then Some (span_digits l) else None
  | [] => None
  end.
Definition scan_digits1 (l : bytes) : option (bytes * bytes) :=
  match span_digits l with
  | ([], _) => None
  | r => Some r
  end.
Definition scan_frac (l : bytes) : option (bytes * bytes) :=
  match l with
  | c :: l' =>
      if Ascii.eqb c "." then '(ds, r) ← scan_digits1 l'; Some (c :: ds, r) else Some ([], l)
  | [] => Some ([], [])
  end.
Definition scan_exp (l : bytes) : option (bytes * bytes) :=
  match l with
  | c :: l' =>
      if Ascii.eqb c "e" || Ascii.eqb c "E" then
        match l' with
        | s :: l'' =>
            if Ascii.eqb s "+" || Ascii.eqb s "-"
            then '(ds, r) ← scan_digits1 l''; Some (c :: s :: ds, r)
            else '(ds, r) ← scan_digits1 l'; Some (c :: ds, r)
        | [] => None
        end
      else Some ([], l)
  | [] => Some ([], [])
  end.
Definition scan_number (l : bytes) : option (bytes * bytes) :=
  let '(sg, l) :=
    match l with
    | c :: l' => if Ascii.eqb c "-" then ([c], l') else ([], l)
    | [] => ([], [])
    end in
  '(i, l) ← scan_int l;
  '(f, l) ← scan_frac l;
  '(e, l) ← scan_exp l;
  Some (sg ++ i ++ f ++ e, l).

Fixpoint strip (p l : bytes) : option bytes :=
  match p, l with
  | [], _ => Some l
  | c :: p', d :: l' => if Ascii.eqb c d then strip p' l' else None
  | _ :: _, [] => None
  end.

(** The elements of an array and the members of an object, given a parser for one value; the
    fuel is the length of the input. *)
Section Composite.
Context (value : bytes -> option (json * bytes)).

Fixpoint parse_elems (fuel : nat) (l : bytes) : option (list json * bytes) :=
  match fuel with
  | O => None
  | S f =>
      '(v, l) ← value l;
      match skip_ws l with
      | c :: l' =>
          if Ascii.eqb c "," then '(vs, r) ← parse_elems f l'; Some (v :: vs, r)
          else if Ascii.eqb c "]" then Some ([v], l') else None
      | [] => None
      end
  end.

Definition parse_member (l : bytes) : option (bytes * json * bytes) :=
  match skip_ws l with
  | c :: l' =>
      if Ascii.eqb c dquote then
        '(k, l1) ← scan_string l';
        match skip_ws l1 with
        | c' :: l2 => if Ascii.eqb c' ":" then '(v, r) ← value l2; Some (k, v, r) else None
        | [] => None
        end
      else None
  | [] => None
  end.

Fixpoint parse_members (fuel : nat) (l : bytes) : option (list (bytes * json) * bytes) :=
  match fuel with
  | O => None
  | S f =>
      '(k, v, l) ← parse_member l;
      match skip_ws l with
      | c :: l' =>
          if Ascii.eqb c "," then '(kvs, r) ← parse_members f l'; Some ((k, v) :: kvs, r)
          else if Ascii.eqb c "}" then Some ([(k, v)], l') else None
      | [] => None
      end
  end.
End Composite.

(** One value, nested at most [depth] deep. *)
Fixpoint parse_value (depth : nat) (l : bytes) : option (json * bytes) :=
  match skip_ws l with
  | [] => None
  | c :: l' =>
      if Ascii.eqb c dquote then '(raw, r) ← scan_string l'; Some (JString raw, r)
      else if Ascii.eqb c "[" then
        match depth with
        | O => None
        | S d =>
            match skip_ws l' with
            | c' :: r =>
                if Ascii.eqb c' "]" then Some (JArray [], r)
                else '(vs, r) ← parse_elems (parse_value d) (length l') l'; Some (JArray vs, r)
            | [] => None
            end
        end
      else if Ascii.eqb c "{" then
        match depth with
        | O => None
        | S d =>
            match skip_ws l' with
            | c' :: r =>
                if Ascii.eqb c' "}" then Some (JObject [], r)
                else '(kvs, r) ← parse_members (parse_value d) (length l') l'; Some (JObject kvs, r)
            | [] => None
            end
        end
      else if Ascii.eqb c "n" then r ← strip (str "ull") l'; Some (JNull, r)
      else if Ascii.eqb c "t" then r ← strip (str "rue") l'; Some (JBool true, r)
      else if Ascii.eqb c "f" then r ← strip (str "alse") l'; Some (JBool false, r)
      else '(lit, r) ← scan_number (c :: l'); Some (JNumber lit, r)
  end.

Definition maxNestingDepth : nat := Z.to_nat 10000.
Definition parse (l : bytes) : option json :=
  match parse_value maxNestingDepth l with
  | Some (j, r) => match skip_ws r with [] => Some j | _ => None end
  | None => None
  end.

(** ** Strings: UTF-8, escaping and unescaping *)

Definition in_range (lo hi : Z) (c : ascii) : bool := (lo <=? code c) && (code c <=? hi).
Definition cont (c : ascii) : bool := in_range 128 191 c.
(** [utf8.DecodeRune] on a head byte outside ASCII: the length of the valid encoding there. *)
Definition utf8_len (l : bytes) : option nat :=
  match l with
  | a :: b :: r =>
      if in_range 194 223 a then if cont b then Some 2%nat else None
      else
        match r with
        | c :: r' =>
            let three lo hi := if in_range lo hi b && cont c then Some 3%nat else None in
            let four lo hi :=
              match r' with
              | d :: _ => if in_range lo hi b && cont c && cont d then Some 4%nat else None
              | [] => None
              end in
            if in_range 224 224 a then three 160 191
            else if in_range 237 237 a then three 128 159
            else if in_range 225 239 a then three 128 191
            else if in_range 240 240 a then four 144 191
            else if in_range 241 243 a then four 128 191
            else if in_range 244 244 a then four 128 143
            else None
        | [] => None
        end
  | _ => None
  end.

Definition starts_with (p : list Z) (l : bytes) : bool :=
  bool_decide (map code (take (length p) l) = p).

Definition hex4 (n : Z) : bytes :=
  map (fun k => hex_digit (Z.to_nat (n / 16 ^ k mod 16))) [3; 2; 1; 0].
Definition u_escape (n : Z) : bytes := backslash :: "u"%char :: hex4 n.

(** How [json.Marshal] writes an ASCII byte ([escapeHTML] is on). *)
Definition escape_byte (c : ascii) : bytes :=
  let n := code c in
  if (n =? 34) || (n =? 92) then [backslash; c]
  else if n =? 8 then [backslash; "b"%char]
  else if n =? 12 then [backslash; "f"%char]
  else if n =? 10 then [backslash; "n"%char]
  else if n =? 13 then [backslash; "r"%char]
  else if n =? 9 then [backslash; "t"%char]
  else if (n <? 32) || (n =? 60) || (n =? 62) || (n =? 38) then u_escape n
  else [c].

Fixpoint escape_fuel (fuel : nat) (l : bytes) : bytes :=
  match fuel, l with
  | _, [] => []
  | O, _ => []
  | S f, c :: l' =>
      if isASCII_byte c then escape_byte c ++ escape_fuel f l'
      else
        match utf8_len l with
        | None => u_escape 65533 ++ escape_fuel f l'
        | Some n =>
            let r := take n l in
            (if starts_with [226; 128; 168] l then u_escape 8232
             else if starts_with [226; 128; 169] l then u_escape 8233
             else r) ++ escape_fuel f (drop n l)
        end
  end.
Definition escape (s : string) : bytes := escape_fuel (String.length s) (str s).

(** A rune in UTF-8. *)
Definition byte_of (n : Z) : ascii := ascii_of_nat (Z.to_nat n).
Definition encode_rune (r : Z) : bytes :=
  if r <? 128 then [byte_of r]
  else if r <? 2048 then [byte_of (192 + r / 64); byte_of (128 + r mod 64)]
  else if r <? 65536 then
    [byte_of (224 + r / 4096); byte_of (128 + r / 64 mod 64); byte_of (128 + r mod 64)]
  else [byte_of (240 + r / 262144); byte_of (128 + r / 4096 mod 64);
        byte_of (128 + r / 64 mod 64); byte_of (128 + r mod 64)].
Definition RuneError : bytes := encode_rune 65533.

Definition hex4_val (l : bytes) : Z := fold_left (fun a c => a * 16 + hex_val c) l 0.
Definition unescape_simple (e : ascii) : ascii :=
  if Ascii.eqb e "b" then byte_of 8
  else if Ascii.eqb e "f" then byte_of 12
  else if Ascii.eqb e "n" then byte_of 10
  else if Ascii.eqb e "r" then byte_of 13
  else if Ascii.eqb e "t" then byte_of 9
  else e.
Definition is_high (r : Z) : bool := (55296 <=? r) && (r <? 56320).
Definition is_low (r : Z) : bool := (56320 <=? r) && (r <? 57344).

(** [unquote] on the raw text of a string the scanner has accepted. *)
Fixpoint unescape_fuel (fuel : nat) (l : bytes) : bytes :=
  match fuel, l with
  | _, [] => []
  | O, _ => []
  | S f, c :: l' =>
      if Ascii.eqb c backslash then
        match l' with
        | e :: l'' =>
            if Ascii.eqb e "u" then
              let r := hex4_val (take 4 l'') in
              let rest := drop 4 l'' in
              if is_high r then
                match rest with
                | b :: u :: rest' =>
                    let r2 := hex4_val (take 4 rest') in
                    if Ascii.eqb b backslash && Ascii.eqb u "u" && is_low r2
                    then encode_rune ((r - 55296) * 1024 + (r2 - 56320) + 65536) ++
                         unescape_fuel f (drop 4 rest')
                    else RuneError ++ unescape_fuel f rest
                | _ => RuneError ++ unescape_fuel f rest
                end
              else if is_low r then RuneError ++ unescape_fuel f rest
              else encode_rune r ++ unescape_fuel f rest
            else unescape_simple e :: unescape_fuel f l''
        | [] => []
        end
      else if isASCII_byte c then c :: unescape_fuel f l'
      else
        match utf8_len l with
        | None => RuneError ++ unescape_fuel f l'
        | Some n => take n l ++ unescape_fuel f (drop n l)
        end
  end.
Definition unescape (raw : bytes) : string := unstr (unescape_fuel (length raw) raw).

(** ** Numbers *)

Definition f64_1em6 : float64 := S754_finite false 4722366482869645 (-72).
Definition f64_1e21 : float64 := S754_finite false 7629394531250000 17.

(** [e-09] is rewritten to [e-9]. *)
Definition clean_exponent (b : bytes) : bytes :=
  match rev b with
  | d :: z :: m :: e :: r =>
      if Ascii.eqb z "0" && Ascii.eqb m "-" && Ascii.eqb e "e" then rev r ++ [e; m; d] else b
  | _ => b
  end.

Definition UnsupportedValueError : error := ErrorString "json: unsupported value".
Definition UnmarshalTypeError : error := ErrorString "json: cannot unmarshal value into Go struct field".
Definition SyntaxError : error := ErrorString "json: invalid character".

(** [floatEncoder]. *)
Definition encode_float (x : float64) : result error bytes :=
  let abs := SFabs x in
  let exp := negb (f64_eqb abs f64_zero) && (SFltb abs f64_1em6 || f64_leb f64_1e21 abs) in
  match FormatFloat exp x with
  | Some b => Ok (if exp then clean_exponent b else b)
  | None => Err UnsupportedValueError
  end.

(** ** Decoding into Go values: the old value is kept on null *)

Definition decoder (A : Type) : Type := json -> A -> result error A.

Definition decode_float : decoder float64 := fun j old =>
  match j with
  | JNull => Ok old
  | JNumber lit => match ParseFloat lit with Ok x => Ok x | Err _ => Err UnmarshalTypeError end
  | _ => Err UnmarshalTypeError
  end.
Definition decode_int64 : decoder Z := fun j old =>
  match j with
  | JNull => Ok old
  | JNumber lit => match ParseInt lit with Some n => Ok n | None => Err UnmarshalTypeError end
  | _ => Err UnmarshalTypeError
  end.
Definition decode_string : decoder string := fun j old =>
  match j with
  | JNull => Ok old
  | JString raw => Ok (unescape raw)
  | _ => Err UnmarshalTypeError
  end.
Definition decode_bool : decoder bool := fun j old =>
  match j with
  | JNull => Ok old
  | JBool b => Ok b
  | _ => Err UnmarshalTypeError
  end.
(** A type whose pointer implements [json.Unmarshaler] on quoted text. *)
Definition decode_text {A : Type} (unmarshal : bytes -> result error A) : decoder A := fun j old =>
  match j with
  | JNull => Ok old
  | JString raw => unmarshal raw
  | _ => Err (ErrorString "UnmarshalJSON: input is not a JSON string")
  end.
(** A slice: null makes it nil; the elements already there are decoded over. *)
Fixpoint decode_elems {A : Type} (zero : A) (elem : decoder A) (js : list json) (olds : list A) :
  result error (list A) :=
  match js with
  | [] => Ok []
  | j :: js' =>
      x ← elem j (default zero (head olds));
      xs ← decode_elems zero elem js' (tail olds);
      Ok (x :: xs)
  end.
Definition decode_slice {A : Type} (zero : A) (elem : decoder A) : decoder (option (list A)) :=
  fun j old =>
  match j with
  | JNull => Ok None
  | JArray js => Some <$> decode_elems zero elem js (default [] old)
  | _ => Err UnmarshalTypeError
  end.

(** Case folding of keys: ASCII letters, the Kelvin sign and the long s. *)
Fixpoint fold_fuel (fuel : nat) (l : bytes) : bytes :=
  match fuel, l with
  | S f, a :: r =>
      if starts_with [226; 132; 170] l then "K"%char :: fold_fuel f (drop 3 l)
      else if starts_with [197; 191] l then "S"%char :: fold_fuel f (drop 2 l)
      else upper_byte a :: fold_fuel f r
  | _, _ => []
  end.
Definition fold_name (l : bytes) : bytes := fold_fuel (length l) l.

(** A struct: the JSON name and the decoder of each field. *)
Definition fields (A : Type) : Type := list (string * decoder A).
Definition find_field {A : Type} (fs : fields A) (key : bytes) : option (decoder A) :=
  match List.find (fun f => bool_decide (str f.1 = key)) fs with
  | Some f => Some f.2
  | None =>
      match List.find (fun f => bool_decide (fold_name (str f.1) = fold_name key)) fs with
      | Some f => Some f.2
      | None => None
      end
  end.

Fixpoint decode_members {A : Type} (fs : fields A) (kvs : list (bytes * json)) (a : A) : result error A :=
  match kvs with
  | [] => Ok a
  | (k, v) :: kvs' =>
      match find_field fs (str (unescape k)) with
      | None => decode_members fs kvs' a
      | Some d => a' ← d v a; decode_members fs kvs' a'
      end
  end.
Definition decode_struct {A : Type} (fs : fields A) : decoder A := fun j old =>
  match j with
  | JNull => Ok old
  | JObject kvs => decode_members fs kvs old
  | _ => Err UnmarshalTypeError
  end.

(** A field of a struct, from the decoder of its type and its accessors. *)
Definition field {A B : Type} (name : string) (get : A -> B) (set : B -> A -> A) (d : decoder B) :
  string * decoder A :=
  (name, fun j a => b ← d j (get a); Ok (set b a)).

(** [json.Unmarshal(l, &a)]. *)
Definition unmarshal {A : Type} (d : decoder A) (l : bytes) (a : A) : result error A :=
  match parse l with
  | None => Err SyntaxError
  | Some j => d j a
  end.

(** ** The interface of the package towards its clients *)

Class JSON (A : Type) := {
  Marshal : A -> result error bytes;
  Unmarshal : bytes -> A -> result error A;
}.
(** The law a client relies on: what is written is read back, whatever value was there. *)
Class JSONRoundTrip (A : Type) `{JSON A} (wf : A -> Prop) (start : A -> Prop) := {
  marshal_total : forall x, wf x -> exists l, Marshal x = Ok l;
  unmarshal_marshal : forall x l old, wf x -> start old -> Marshal x = Ok l -> Unmarshal l old = Ok x;
}.
