(* ===== verification/JsonFacts.v ===== *)
(** * Facts about the JSON codec: printing a well-formed tree and parsing it back gives the
    tree; strings and floats survive the trip *)
From S2P Require Import Prelude GoBase Decimal Float64 Float64Facts Float64Text Json.
#[local] Open Scope Z_scope.

(** ** The lexer on printed tokens *)

(** What may follow a value: inside a document, or the newline that an encoder adds. *)
Definition delim (l : bytes) : Prop :=
  match l with
  | [] => True
  | c :: _ => c = ","%char \/ c = "]"%char \/ c = "}"%char \/ c = ascii_of_nat 10
  end.

Definition raw_ok (raw : bytes) : Prop :=
  forall rest, scan_string (raw ++ dquote :: rest) = Some (raw, rest).
Definition lit_ok (lit : bytes) : Prop :=
  (forall rest, delim rest -> scan_number (lit ++ rest) = Some (lit, rest)) /\
  match lit with c :: _ => c = "-"%char \/ is_digit c = true | [] => False end.

Fixpoint wf (d : nat) (j : json) : Prop :=
  match j with
  | JNull | JBool _ => True
  | JNumber lit => lit_ok lit
  | JString raw => raw_ok raw
  | JArray js => match d with O => False | S d' => Forall (wf d') js end
  | JObject kvs =>
      match d with O => False | S d' => Forall (fun kv => raw_ok kv.1 /\ wf d' kv.2) kvs end
  end.

(** The first byte of a value. *)
Definition value_head (l : bytes) : Prop :=
  match l with
  | c :: _ => is_ws c = false /\ c <> "]"%char /\ c <> "}"%char /\ c <> ","%char
  | [] => False
  end.

Lemma is_digit_head c : is_digit c = true -> is_ws c = false /\ c <> "]"%char /\ c <> "}"%char /\ c <> ","%char.
Proof.
  intros Hc. pose proof (is_digit_code c Hc) as Hr. split_and!.
  - unfold is_ws. repeat rewrite (proj2 (Z.eqb_neq _ _)) by lia. done.
  - intros ->. done.
  - intros ->. done.
  - intros ->. done.
Qed.

Lemma print_head d j : wf d j -> value_head (print j).
Proof.
  intros Hwf. destruct j as [|b|lit|raw|js|kvs].
  - split_and!; done.
  - destruct b; split_and!; done.
  - assert (lit_ok lit) as [_ Hh] by (by destruct d). simpl print. destruct lit as [|c lit]; [done|].
    destruct Hh as [->|Hh]; [split_and!; done|]. by apply is_digit_head.
  - split_and!; done.
  - split_and!; done.
  - split_and!; done.
Qed.

Lemma skip_ws_head l : value_head l -> skip_ws l = l.
Proof. destruct l as [|c l]; [done|]. intros (Hc & _). simpl. by rewrite Hc. Qed.

Lemma value_head_app l r : value_head l -> value_head (l ++ r).
Proof. by destruct l. Qed.

Lemma skip_ws_print d j r : wf d j -> skip_ws (print j ++ r) = print j ++ r.
Proof. intros H. apply skip_ws_head, value_head_app. by eapply print_head. Qed.

(** ** Parsing back what was printed *)

Section Composite.
Context (value : bytes -> option (json * bytes)).

Lemma parse_elems_print fuel js rest :
  js <> [] -> (length js <= fuel)%nat ->
  Forall (fun j => forall r, delim r -> value (print j ++ r) = Some (j, r)) js ->
  parse_elems value fuel (join "," (map print js) ++ "]"%char :: rest) = Some (js, rest).
Proof.
  revert js. induction fuel as [|f IH]; intros js Hne Hf Hv; [destruct js; [done|simpl in *; lia]|].
  destruct js as [|j js]; [done|]. apply Forall_cons_1 in Hv as [Hj Hjs].
  destruct js as [|j' js].
  - cbn [map join parse_elems]. rewrite Hj by (right; left; done). reflexivity.
  - change (join "," (map print (j :: j' :: js)))
      with (print j ++ ","%char :: join "," (map print (j' :: js))).
    cbn [parse_elems]. rewrite <- app_assoc, Hj by (left; done). cbn [mbind option_bind].
    cbn [app skip_ws]. change (is_ws ",") with false. cbv iota. change (Ascii.eqb "," ",") with true. cbv iota.
    rewrite IH; [reflexivity|done|simpl in *; lia|done].
Qed.

Lemma parse_member_print k v r :
  raw_ok k -> (forall r, delim r -> value (print v ++ r) = Some (v, r)) -> delim r ->
  parse_member value ((quoted k ++ ":"%char :: print v) ++ r) = Some (k, v, r).
Proof.
  intros Hk Hv Hr. unfold parse_member, quoted. rewrite <- !app_assoc. cbn [app skip_ws].
  change (is_ws dquote) with false. cbv iota. rewrite Ascii.eqb_refl.
  rewrite <- app_assoc. cbn [app]. rewrite Hk. cbn [mbind option_bind].
  cbn [skip_ws]. change (is_ws ":") with false. cbv iota. rewrite Ascii.eqb_refl.
  by rewrite Hv.
Qed.

Lemma parse_members_print fuel kvs rest :
  kvs <> [] -> (length kvs <= fuel)%nat ->
  Forall (fun kv => raw_ok kv.1 /\ forall r, delim r -> value (print kv.2 ++ r) = Some (kv.2, r)) kvs ->
  parse_members value fuel
    (join "," (map (fun kv => quoted kv.1 ++ ":"%char :: print kv.2) kvs) ++ "}"%char :: rest) =
  Some (kvs, rest).
Proof.
  revert kvs. induction fuel as [|f IH]; intros kvs Hne Hf Hv; [destruct kvs; [done|simpl in *; lia]|].
  destruct kvs as [|[k v] kvs]; [done|]. apply Forall_cons_1 in Hv as [[Hk Hj] Hjs]. simpl in Hk, Hj.
  destruct kvs as [|kv' kvs].
  - cbn [map join parse_members fst snd]. rewrite parse_member_print by (done || (right; right; left; done)).
    reflexivity.
  - change (join "," (map ?f ((k, v) :: kv' :: kvs)))
      with (f (k, v) ++ ","%char :: join "," (map f (kv' :: kvs))).
    cbn [parse_members fst snd]. rewrite <- app_assoc.
    rewrite parse_member_print by (done || (left; done)). cbn [mbind option_bind].
    cbn [app skip_ws]. change (is_ws ",") with false. cbv iota. change (Ascii.eqb "," ",") with true. cbv iota.
    rewrite IH; [reflexivity|done|simpl in *; lia|done].
Qed.
End Composite.

Lemma join_length ls :
  Forall (fun l => (0 < length l)%nat) ls -> (length ls <= length (join "," ls))%nat.
Proof.
  induction 1 as [|l ls Hl Hls IH]; [done|]. destruct ls as [|l' ls]; [simpl; lia|].
  change (join "," (l :: l' :: ls)) with (l ++ ","%char :: join "," (l' :: ls)).
  rewrite length_app. simpl length in *. lia.
Qed.

Lemma value_head_length l : value_head l -> (0 < length l)%nat.
Proof. destruct l; [done|]. simpl. lia. Qed.

Lemma join_head l ls : value_head l -> value_head (join "," (l :: ls)).
Proof. destruct ls; [done|]. apply value_head_app. Qed.

Lemma parse_number_head d lit rest :
  lit_ok lit -> delim rest -> parse_value d (lit ++ rest) = Some (JNumber lit, rest).
Proof.
  intros [Hscan Hh] Hr. specialize (Hscan rest Hr). destruct lit as [|c lit]; [done|].
  assert (value_head (c :: lit)) as Hv.
  { destruct Hh as [->|Hh]; [done|]. by apply is_digit_head. }
  assert (forall a : ascii, is_digit a = false -> a <> "-"%char -> Ascii.eqb c a = false) as Hne.
  { intros a Ha1 Ha2. apply Ascii.eqb_neq. destruct Hh as [->|Hh]; congruence. }
  destruct d; cbn [app parse_value]; change (c :: lit ++ rest) with ((c :: lit) ++ rest);
    rewrite (skip_ws_head ((c :: lit) ++ rest)) by (by apply value_head_app);
    cbn [app]; rewrite !Hne by done; cbn [app] in Hscan; by rewrite Hscan.
Qed.

Lemma parse_string_head d raw rest :
  raw_ok raw -> parse_value d (quoted raw ++ rest) = Some (JString raw, rest).
Proof.
  intros H. unfold quoted. cbn [app]. rewrite <- app_assoc. cbn [app].
  destruct d; cbn [parse_value skip_ws]; change (is_ws dquote) with false; cbv iota;
    rewrite Ascii.eqb_refl, H; done.
Qed.

Lemma parse_value_print d j rest :
  wf d j -> delim rest -> parse_value d (print j ++ rest) = Some (j, rest).
Proof.
  revert j rest. induction d as [|d IH]; intros j rest Hwf Hr;
    destruct j as [|b|lit|raw|js|kvs]; try (by simpl in Hwf).
  all: try (by apply parse_number_head).
  all: try (destruct b; reflexivity).
  all: try (by apply parse_string_head).
  all: try reflexivity.
  - simpl in Hwf. cbn [print]. destruct js as [|j js]; [reflexivity|].
    cbn [app parse_value skip_ws]. change (is_ws "[") with false. cbv iota.
    change (Ascii.eqb "[" dquote) with false. rewrite Ascii.eqb_refl. cbv iota. rewrite <- app_assoc.
    assert (Forall (fun j => value_head (print j)) (j :: js)) as Hheads.
    { eapply Forall_impl; [exact Hwf|]. intros ? Hx. by eapply print_head. }
    pose proof Hheads as [Hj _]%Forall_cons_1. cbn [map].
    pose proof (value_head_app _ (["]"%char] ++ rest) (join_head (print j) (map print js) Hj)) as Hh.
    rewrite (skip_ws_head _ Hh). destruct (join "," (print j :: map print js) ++ _) as [|c l] eqn:Hl; [done|].
    destruct Hh as (_ & Hc & _). rewrite (proj2 (Ascii.eqb_neq _ _) Hc). rewrite <- Hl. clear Hl Hc.
    change (print j :: map print js) with (map print (j :: js)).
    change (["]"%char] ++ rest) with ("]"%char :: rest).
    rewrite parse_elems_print; [reflexivity|done| |].
    + rewrite length_app.
      assert (length (map print (j :: js)) <= length (join "," (map print (j :: js))))%nat as Hlen.
      { apply join_length, Forall_map. eapply Forall_impl; [exact Hheads|]. intros ? Hx. by apply value_head_length. }
      rewrite length_map in Hlen. lia.
    + eapply Forall_impl; [exact Hwf|]. intros x Hx r Hd. by apply IH.
  - simpl in Hwf. set (f := fun kv : bytes * json => quoted kv.1 ++ ":"%char :: print kv.2).
    change (print (JObject kvs)) with ("{"%char :: join "," (map f kvs) ++ ["}"%char]).
    destruct kvs as [|[k v] kvs]; [reflexivity|]. cbn [app parse_value skip_ws]. change (is_ws "{") with false. cbv iota.
    change (Ascii.eqb "{" dquote) with false. change (Ascii.eqb "{" "[") with false.
    rewrite Ascii.eqb_refl. cbv iota. rewrite <- app_assoc.
    assert (forall kv, value_head (f kv)) as Hheads by (intros; split_and!; done).
    cbn [map]. pose proof (value_head_app _ (["}"%char] ++ rest) (join_head (f (k, v)) (map f kvs) (Hheads _))) as Hh.
    rewrite (skip_ws_head _ Hh). destruct (join "," (f (k, v) :: map f kvs) ++ _) as [|c l] eqn:Hl; [done|].
    destruct Hh as (_ & _ & Hc & _). rewrite (proj2 (Ascii.eqb_neq _ _) Hc). rewrite <- Hl. clear Hl Hc.
    change (f (k, v) :: map f kvs) with (map f ((k, v) :: kvs)).
    change (["}"%char] ++ rest) with ("}"%char :: rest).
    unfold f at 2. rewrite parse_members_print; [reflexivity|done| |].
    + rewrite length_app. fold f.
      assert (length (map f ((k, v) :: kvs)) <= length (join "," (map f ((k, v) :: kvs))))%nat as Hlen.
      { apply join_length, Forall_map, Forall_true. intros x. simpl. lia. }
      rewrite length_map in Hlen. lia.
    + eapply Forall_impl; [exact Hwf|]. intros x [Hx1 Hx2]. split; [done|]. intros r Hd. by apply IH.
Qed.

Lemma wf_depth d d' j : (d <= d')%nat -> wf d j -> wf d' j.
Proof.
  revert d' j. induction d as [|d IH]; intros d' j Hle Hwf;
    [by destruct j; destruct d'|]. destruct d' as [|d']; [lia|].
  destruct j; try done; (eapply Forall_impl; [exact Hwf|]).
  - intros x. apply IH. lia.
  - intros x [? ?]. split; [done|]. apply IH; [lia|done].
Qed.

(** The text of a well-formed document of moderate depth parses back to it. *)
Lemma parse_print d j : (d <= maxNestingDepth)%nat -> wf d j -> parse (print j) = Some j.
Proof.
  intros Hd Hwf. unfold parse. rewrite <- (app_nil_r (print j)).
  rewrite parse_value_print; [done| |done]. by eapply wf_depth.
Qed.

(** The line an encoder writes. *)
Lemma parse_line d j :
  (d <= maxNestingDepth)%nat -> wf d j -> parse (print j ++ [ascii_of_nat 10]) = Some j.
Proof.
  intros Hd Hwf. unfold parse.
  rewrite parse_value_print; [done| |by do 3 right]. by eapply wf_depth.
Qed.

(** ** Numbers *)

Definition int_part (i : bytes) : Prop :=
  i = ["0"%char] \/ exists c ds, i = c :: ds /\ all_digits (c :: ds) /\ digit_val c <> 0.
Definition frac_part (f : bytes) : Prop :=
  f = [] \/ exists ds, f = "."%char :: ds /\ all_digits ds /\ ds <> [].
Definition exp_part (e : bytes) : Prop :=
  e = [] \/ exists (neg : bool) ds, e = "e"%char :: (if neg then "-"%char else "+"%char) :: ds /\
                                    all_digits ds /\ ds <> [].

Lemma delim_no_digit r : delim r -> no_digit_head r.
Proof. destruct r as [|c r]; [reflexivity|]. intros [->|[->|[->| ->]]]; reflexivity. Qed.

Lemma exp_rest e r : exp_part e -> delim r -> no_digit_head (e ++ r).
Proof. intros [->|(neg & ds & -> & _)] Hr; [by apply delim_no_digit|reflexivity]. Qed.
Lemma frac_rest f e r : frac_part f -> exp_part e -> delim r -> no_digit_head (f ++ e ++ r).
Proof. intros [->|(ds & -> & _)] He Hr; [exact (exp_rest e r He Hr)|reflexivity]. Qed.

Lemma scan_digits1_app ds r :
  all_digits ds -> ds <> [] -> no_digit_head r -> scan_digits1 (ds ++ r) = Some (ds, r).
Proof. intros Hd Hne Hr. unfold scan_digits1. rewrite span_digits_app by done. by destruct ds. Qed.

Lemma scan_int_app i r : int_part i -> no_digit_head r -> scan_int (i ++ r) = Some (i, r).
Proof.
  intros [->|(c & ds & -> & Hd & Hc)] Hr; [done|]. pose proof Hd as [Hc0 _]%Forall_cons_1.
  unfold scan_int. cbn [app]. destruct (Ascii.eqb_spec c "0") as [->|_]; [by destruct Hc|].
  rewrite Hc0. change (c :: ds ++ r) with ((c :: ds) ++ r). by rewrite span_digits_app.
Qed.

Lemma scan_frac_app f e r :
  frac_part f -> exp_part e -> delim r -> scan_frac (f ++ e ++ r) = Some (f, e ++ r).
Proof.
  intros [->|(ds & -> & Hd & Hne)] He Hr.
  - cbn [app]. destruct He as [->|(neg & ds & -> & _)]; [|done].
    destruct r as [|c r]; [done|]. by destruct Hr as [->|[->|[->| ->]]].
  - cbn [app scan_frac]. rewrite Ascii.eqb_refl.
    rewrite scan_digits1_app by (done || by apply exp_rest). done.
Qed.

Lemma scan_exp_app e r : exp_part e -> delim r -> scan_exp (e ++ r) = Some (e, r).
Proof.
  intros [->|(neg & ds & -> & Hd & Hne)] Hr.
  - destruct r as [|c r]; [done|]. by destruct Hr as [->|[->|[->| ->]]].
  - cbn [app]. unfold scan_exp. change (Ascii.eqb "e" "e") with true. cbn [orb].
    replace (Ascii.eqb (if neg then "-"%char else "+"%char) "+" ||
             Ascii.eqb (if neg then "-"%char else "+"%char) "-")%bool with true by (by destruct neg).
    by rewrite scan_digits1_app by (done || by apply delim_no_digit).
Qed.

Lemma int_head i : int_part i -> exists c l, i = c :: l /\ is_digit c = true.
Proof.
  intros [->|(c & ds & -> & Hd & _)]; [by exists "0"%char, []|].
  exists c, ds. by apply Forall_cons_1 in Hd as [? _].
Qed.

Lemma lit_ok_parts s i f e :
  int_part i -> frac_part f -> exp_part e -> lit_ok (sign_text s ++ i ++ f ++ e).
Proof.
  intros Hi Hf He. destruct (int_head i Hi) as (c & l & Hic & Hc). split.
  - intros r Hr. unfold scan_number. rewrite <- !app_assoc.
    assert (match sign_text s ++ i ++ f ++ e ++ r with
            | c :: l' => if Ascii.eqb c "-" then ([c], l') else ([], sign_text s ++ i ++ f ++ e ++ r)
            | [] => ([], [])
            end = (sign_text s, i ++ f ++ e ++ r)) as ->.
    { destruct s; [done|]. rewrite Hic. cbn [sign_text app].
      destruct (Ascii.eqb_spec c "-") as [->|]; done. }
    rewrite scan_int_app by (done || by apply frac_rest). cbn [mbind option_bind].
    rewrite scan_frac_app by done. cbn [mbind option_bind].
    by rewrite scan_exp_app.
  - destruct s; cbn [sign_text app]; [by left|]. rewrite Hic. cbn [app]. by right.
Qed.

Lemma lit_ok_int n : lit_ok (FormatInt n).
Proof.
  assert (forall s m, 0 <= m -> lit_ok (sign_text s ++ dec m)) as Hdec.
  { intros s m Hm. rewrite <- (app_nil_r (dec m)), <- (app_nil_r (_ ++ [])), <- app_assoc.
    apply (lit_ok_parts s (dec m) [] []); [|by left|by left].
    destruct (decide (m = 0)) as [->|]; [by left|]. right.
    destruct (dec_pos m ltac:(lia)) as (c & ds & -> & ? & ? & _). eauto. }
  unfold FormatInt. destruct (Z.ltb_spec n 0).
  - apply (Hdec true (- n)). lia.
  - apply (Hdec false n). lia.
Qed.

Lemma lit_ok_format_f s m x : 0 < m -> lit_ok (sign_text s ++ format_f (dec m) x).
Proof.
  intros Hm. destruct (dec_pos m Hm) as (c & ds & -> & Hd & Hc & _).
  pose proof Hd as [Hc0 Hds]%Forall_cons_1. unfold format_f.
  set (len := Z.of_nat (length (c :: ds))).
  destruct (Z.leb_spec 0 x) as [Hx|Hx]; [|destruct (Z.ltb_spec (- x) len) as [Hl|Hl]].
  - rewrite <- (app_nil_r ((c :: ds) ++ _)), <- (app_nil_r (_ ++ [])), <- app_assoc.
    apply lit_ok_parts; [|by left|by left]. right. eexists c, _. split; [reflexivity|].
    split; [|done]. apply (Forall_app_2 _ (c :: ds)); [done|apply zeros_digits].
  - destruct (Z.to_nat (len + x)) as [|k] eqn:Hk; [lia|].
    destruct (take_drop_digits ds k Hds) as [Ht Hdr]. cbn [take drop].
    rewrite <- (app_nil_r (drop k ds)). change (_ :: drop k ds ++ []) with (("."%char :: drop k ds) ++ []).
    apply lit_ok_parts; [right; eexists c, _; split; [reflexivity|]; split; [by constructor|done]| |by left].
    right. eexists. split; [reflexivity|]. split; [done|]. intros Hn.
    apply (f_equal length) in Hn. rewrite length_drop in Hn. unfold len in *. simpl length in *. lia.
  - change ("0"%char :: "."%char :: ?l) with (["0"%char] ++ "."%char :: l).
    rewrite <- (app_nil_r (_ :: _ ++ c :: ds)).
    apply lit_ok_parts; [by left| |by left]. right. eexists. split; [reflexivity|].
    split; [apply Forall_app; split; [apply zeros_digits|done]|]. by destruct (repeat _ _).
Qed.

Lemma lit_ok_layout_e s m neg es :
  0 < m -> all_digits es -> es <> [] -> lit_ok (sign_text s ++ layout_e (dec m) neg es).
Proof.
  intros Hm Hes Hne. destruct (dec_pos m Hm) as (c & ds & -> & Hd & Hc & _).
  pose proof Hd as [Hc0 Hds]%Forall_cons_1. unfold layout_e.
  assert (exp_part ("e"%char :: (if neg then "-"%char else "+"%char) :: es)) as He by (right; eauto).
  destruct ds as [|d ds].
  - apply (lit_ok_parts s [c] []); [|by left|done]. right. exists c, []. done.
  - apply (lit_ok_parts s [c] ("."%char :: d :: ds)); [| |done].
    + right. exists c, []. split_and!; [done|by constructor|done].
    + right. exists (d :: ds). done.
Qed.

(** ** Floats *)

Lemma special_decimal s l : decimal_body l -> special (sign_text s ++ l) = None.
Proof.
  destruct l as [|c l]; [done|]. intros [Hc _].
  assert (lower_byte c = c) as Hlow.
  { apply is_digit_code in Hc. unfold code in Hc. unfold lower_byte, byte_in.
    destruct (Nat.leb_spec 65 (nat_of_ascii c)); [lia|done]. }
  assert (forall w, unstr (map lower_byte (sign_text s ++ c :: l)) = w ->
                    str w = sign_text s ++ c :: map lower_byte l) as Hw.
  { intros w <-. rewrite str_unstr, map_app. simpl. rewrite Hlow. by destruct s. }
  unfold special.
  repeat match goal with |- context [decide ?P] => destruct (decide P) as [Hp|_] end; [..|done];
    exfalso; destruct_or?; apply Hw in Hp; destruct s; simpl in Hp; simplify_eq; done.
Qed.

Lemma clean_exponent_same b :
  match rev b with _ :: z :: m :: _ => z <> "0"%char \/ m <> "-"%char | _ => True end ->
  clean_exponent b = b.
Proof.
  unfold clean_exponent. destruct (rev b) as [|d [|z [|m [|e r]]]]; try done.
  destruct (Ascii.eqb_spec z "0"), (Ascii.eqb_spec m "-"); simpl; try done. tauto.
Qed.

(** The clean-up of the exponent leaves the layout intact, with at least one digit. *)
Lemma clean_layout_e P ds neg e :
  ds <> [] -> 0 <= e ->
  exists es, clean_exponent (P ++ layout_e ds neg (pad 2 e)) = P ++ layout_e ds neg es /\
             all_digits es /\ es <> [] /\ dec_val 0 es = e.
Proof.
  intros Hds He. destruct ds as [|c ds]; [done|].
  set (Q := P ++ c :: match ds with [] => [] | _ => "."%char :: ds end).
  set (sg := if neg then "-"%char else "+"%char).
  assert (forall es, P ++ layout_e (c :: ds) neg es = Q ++ "e"%char :: sg :: es) as Hlay.
  { intros es. unfold Q, layout_e. rewrite <- app_assoc. done. }
  assert (all_digits (pad 2 e) /\ dec_val 0 (pad 2 e) = e /\ (2 <= length (pad 2 e))%nat) as (Hd & Hv & Hl).
  { unfold pad. destruct (dec_spec e He) as (Hd & Hv & _). split_and!.
    - apply Forall_app. split; [apply zeros_digits|done].
    - by rewrite dec_val_app, zeros_val, Hv.
    - rewrite length_app, repeat_length. lia. }
  assert (pad 2 e <> []) as Hne by (intros Hn; rewrite Hn in Hl; simpl in Hl; lia).
  assert ((neg = true /\ exists d, pad 2 e = ["0"%char; d]) \/
          ~ (neg = true /\ exists d, pad 2 e = ["0"%char; d])) as [Hyes|Hno].
  { destruct neg; [|right; by intros []].
    destruct (pad 2 e) as [|z [|d [|x r]]]; try (by right; intros (_ & ? & ?)).
    destruct (decide (z = "0"%char)) as [->|]; [by left; eauto|]. right. intros (_ & ? & ?). congruence. }
  2: { exists (pad 2 e). split_and!; try done. apply clean_exponent_same. rewrite Hlay.
       rewrite rev_app_distr. cbn [rev]. rewrite <- !app_assoc. cbn [app].
       destruct (rev (pad 2 e)) as [|d [|z [|m r]]] eqn:Hrev.
       - apply (f_equal length) in Hrev. rewrite length_rev in Hrev. simpl in Hrev. lia.
       - apply (f_equal length) in Hrev. rewrite length_rev in Hrev. simpl in Hrev. lia.
       - cbn [app]. destruct neg; [|right; done]. left. intros ->. apply Hno.
         split; [done|]. exists d. apply (f_equal (@rev ascii)) in Hrev. by rewrite rev_involutive in Hrev.
       - cbn [app]. right. intros ->. apply (f_equal (@rev ascii)) in Hrev. rewrite rev_involutive in Hrev.
         rewrite Hrev in Hd. simpl in Hd. apply Forall_app in Hd as [Hd _].
         apply Forall_app in Hd as [Hd _]. apply Forall_app in Hd as [_ Hd].
         by apply Forall_cons_1 in Hd as [? _]. }
  destruct Hyes as [-> [d Hpad]]. exists [d]. rewrite Hpad in Hd, Hv. split_and!.
  - rewrite !Hlay, Hpad. unfold clean_exponent. rewrite rev_app_distr. cbn [rev app].
    unfold sg. cbn. by rewrite rev_involutive.
  - by apply Forall_cons_1 in Hd as [_ ?].
  - done.
  - exact Hv.
Qed.

Lemma decimal_body_layout_e m neg es : 0 < m -> decimal_body (layout_e (dec m) neg es).
Proof.
  intros Hm. destruct (dec_pos m Hm) as (c & ds & -> & [Hc _]%Forall_cons_1 & _).
  unfold layout_e. split; [done|]. by destruct ds.
Qed.

Lemma format_e_layout m x :
  0 < m ->
  format_e (dec m) x =
  layout_e (dec m) (Z.of_nat (length (dec m)) - 1 + x <? 0) (pad 2 (Z.abs (Z.of_nat (length (dec m)) - 1 + x))).
Proof.
  intros Hm. destruct (dec_pos m Hm) as (c & ds & -> & _). unfold format_e, layout_e.
  replace (Z.of_nat (length (c :: ds)) - 1 + x) with (Z.of_nat (length ds) + x); [done|]. simpl length. lia.
Qed.

Lemma ParseFloat_read l s n d x :
  special l = None -> readFloat l = Some (s, n, d) -> round_frac s n d = x ->
  f64_is_finite x = true -> ParseFloat l = Ok x.
Proof. intros Hs Hr Hx Hf. unfold ParseFloat. rewrite Hs, Hr, Hx. by destruct x. Qed.

Lemma dec_length_le n k : 0 <= k -> 0 < n < 10 ^ k -> Z.of_nat (length (dec n)) <= k.
Proof.
  intros Hk Hn. destruct (dec_spec n ltac:(lia)) as (_ & _ & Hp & _). specialize (Hp ltac:(lia)).
  destruct (Z.le_gt_cases (Z.of_nat (length (dec n))) k) as [|Hgt]; [done|].
  pose proof (Z.pow_le_mono_r 10 k (Z.of_nat (length (dec n)) - 1)). lia.
Qed.

Lemma encode_float_finite s m e :
  bounded 53 1024 m e = true ->
  exists lit, encode_float (S754_finite s m e) = Ok lit /\ lit_ok lit /\
              ParseFloat lit = Ok (S754_finite s m e).
Proof.
  intros Hb. destruct (shortest_total s m e Hb) as (dm & de & Hs & Hr & Hm & He).
  unfold encode_float. set (exp := (_ && _)%bool). cbn [FormatFloat]. rewrite Hs.
  unfold round_dec, scale10 in Hr. rewrite Z.mul_1_l in Hr. clearbody exp. destruct exp.
  - rewrite format_e_layout by lia. set (x := Z.of_nat (length (dec dm)) - 1 + de).
    assert (dec dm <> []) as Hne.
    { destruct (dec_pos dm ltac:(lia)) as (? & ? & -> & _). done. }
    destruct (clean_layout_e (sign_text s) (dec dm) (x <? 0) (Z.abs x) Hne ltac:(lia))
      as (es & Hes & Hd & Hn & Hv).
    eexists. rewrite Hes. split; [done|]. split; [apply lit_ok_layout_e; (done || lia)|].
    assert (Z.of_nat (length (dec dm)) <= 1400).
    { apply dec_length_le; lia. }
    eapply ParseFloat_read; [apply special_decimal, decimal_body_layout_e; lia| | |done].
    + apply readFloat_layout_e; (done || lia).
    + rewrite Hv, <- Hr. do 2 f_equal; do 3 f_equal; destruct (Z.ltb_spec x 0); lia.
  - eexists. split; [done|]. split; [apply lit_ok_format_f; lia|].
    destruct (scan_format_f dm de ltac:(lia)) as (_ & _ & _ & _ & Hbody & _).
    eapply ParseFloat_read; [by apply special_decimal|by apply readFloat_format_f; lia|done|done].
Qed.

(** A finite number is always written, as a JSON literal that reads back exactly. *)
Lemma encode_float_ok x :
  f64_valid x -> f64_is_finite x = true ->
  exists lit, encode_float x = Ok lit /\ lit_ok lit /\ ParseFloat lit = Ok x.
Proof.
  intros Hv Hf. destruct x as [s|s| |s m e]; try done; [|by apply encode_float_finite].
  assert (encode_float (S754_zero s) = Ok (sign_text s ++ str "0")) as -> by (by destruct s).
  eexists. split; [done|]. split; [|by destruct s].
  apply (lit_ok_parts s (str "0") [] []); by left.
Qed.

(** ** ASCII strings *)

Definition ascii_byte (c : ascii) : Prop := isASCII_byte c = true.

(** What the encoder writes for one ASCII byte is scanned as a unit, and decoded back to it. *)
Lemma scan_escape_byte c l :
  ascii_byte c ->
  scan_string (escape_byte c ++ l) = ('(raw, r) ← scan_string l; Some (escape_byte c ++ raw, r)).
Proof.
  destruct c as [[] [] [] [] [] [] [] []]; intros Hc; try discriminate Hc; cbn -[scan_string];
    cbn [scan_string]; try reflexivity; by destruct (scan_string l) as [[]|].
Qed.

Lemma unescape_escape_byte f c l :
  ascii_byte c -> unescape_fuel (S f) (escape_byte c ++ l) = c :: unescape_fuel f l.
Proof. destruct c as [[] [] [] [] [] [] [] []]; intros Hc; try discriminate Hc; reflexivity. Qed.

Lemma escape_cons c s : ascii_byte c -> escape (String c s) = escape_byte c ++ escape s.
Proof. intros Hc. unfold escape. cbn -[isASCII_byte escape_byte]. by rewrite (Hc : isASCII_byte c = true). Qed.

Lemma isASCII_cons c s : isASCII (String c s) = true <-> ascii_byte c /\ isASCII s = true.
Proof. apply andb_true_iff. Qed.

Lemma escape_raw_ok s : isASCII s = true -> raw_ok (escape s).
Proof.
  induction s as [|c s IH]; intros Hs; [by intros r|]. apply isASCII_cons in Hs as [Hc Hs].
  intros r. rewrite escape_cons, <- app_assoc, scan_escape_byte by done. by rewrite (IH Hs).
Qed.

Lemma unescape_fuel_escape f s :
  isASCII s = true -> (length (escape s) <= f)%nat -> unescape_fuel f (escape s) = str s.
Proof.
  revert f. induction s as [|c s IH]; intros f Hs Hf; [by destruct f|].
  apply isASCII_cons in Hs as [Hc Hs]. rewrite escape_cons in * by done.
  assert (0 < length (escape_byte c))%nat by (unfold escape_byte; repeat case_goal; simpl; lia).
  rewrite length_app in Hf. destruct f as [|f]; [lia|].
  rewrite unescape_escape_byte by done. rewrite IH by (done || lia). done.
Qed.

Lemma unescape_escape s : isASCII s = true -> unescape (escape s) = s.
Proof. intros Hs. unfold unescape. rewrite unescape_fuel_escape by done. apply unstr_str. Qed.
