(* ===== verification/GoTime.v ===== *)
(** * time.Time and time.Duration

    An instant is a number of nanoseconds since the Unix epoch together with the offset (in
    seconds) of the zone it is displayed in; zero is UTC.  The calendar is the proleptic
    Gregorian one, computed with integer divisions only. *)
From S2P Require Import Prelude GoBase Decimal.
#[local] Open Scope Z_scope.

Record Time := { unix_ns : Z; zone : Z }.
#[export] Instance Time_eq_dec : EqDecision Time.
Proof. solve_decision. Defined.

(** The zero value is January 1, year 1, 00:00:00 UTC. *)
Definition zero_Time : Time := {| unix_ns := - 62135596800 * Second; zone := 0 |}.
Definition IsZero (t : Time) : bool := unix_ns t =? unix_ns zero_Time.
Definition UTC (t : Time) : Time := {| unix_ns := unix_ns t; zone := 0 |}.
Definition UnixMilli (ms : Z) : Time := {| unix_ns := ms * Millisecond; zone := 0 |}.
Definition Unix (t : Time) : Z := unix_ns t / Second.
(** [t.Sub(u)] saturates at the limits of [Duration]. *)
Definition Sub (t u : Time) : Z :=
  Z.max int64_min (Z.min int64_max (unix_ns t - unix_ns u)).

Lemma Sub_exact t u :
  in_int64 (unix_ns t - unix_ns u) -> Sub t u = unix_ns t - unix_ns u.
Proof. unfold Sub. int64_lia. Qed.

Lemma Sub_range t u : in_int64 (Sub t u).
Proof. unfold Sub. int64_lia. Qed.

Lemma Sub_self t : Sub t t = 0.
Proof. rewrite Sub_exact; int64_lia. Qed.

(** ** Durations *)

(** [d.Round(m)]: to the nearest multiple of [m], halfway cases away from zero. *)
Definition Duration_Round (d m : Z) : Z :=
  if m <=? 0 then d else
  let r := Z.rem d m in
  if d <? 0 then
    let r := - r in
    if r + r <? m then d + r
    else let d1 := d - m + r in if int64_min <=? d1 then d1 else int64_min
  else
    if r + r <? m then d - r
    else let d1 := d + m - r in if d1 <=? int64_max then d1 else int64_max.

(** A fraction of [w] digits without its trailing zeros, with its point. *)
Fixpoint frac_digits (w : nat) (n : Z) (started : bool) (acc : string) : string :=
  match w with
  | O => if started then String "." acc else acc
  | S w' =>
      let dig := n mod 10 in
      if started || negb (dig =? 0)
      then frac_digits w' (n / 10) true (pretty dig ++ acc)
      else frac_digits w' (n / 10) false acc
  end.
Definition fmtFrac (w : nat) (n : Z) : string := frac_digits w n false "".

Definition micro_sign : string := String (ascii_of_nat 194) (String (ascii_of_nat 181) "").

(** [d.String()], e.g. ["1h15m30.918s"], ["45s"], ["1.5ms"]. *)
Definition Duration_String (d : Z) : string :=
  let u := Z.abs d in
  let micros := (pretty (u / Microsecond) ++ fmtFrac 3 (u mod Microsecond))%string in
  let millis := (pretty (u / Millisecond) ++ fmtFrac 6 (u mod Millisecond))%string in
  let secs := u / Second in
  let mins := secs / 60 in
  let hours := mins / 60 in
  let s := (pretty (secs mod 60) ++ fmtFrac 9 (u mod Second) ++ "s")%string in
  let m := (pretty (mins mod 60) ++ "m" ++ s)%string in
  let body :=
    if u =? 0 then "0s"
    else if u <? Microsecond then (pretty u ++ "ns")%string
    else if u <? Millisecond then (micros ++ micro_sign ++ "s")%string
    else if u <? Second then (millis ++ "ms")%string
    else if mins =? 0 then s
    else if hours =? 0 then m
    else (pretty hours ++ "h" ++ m)%string in
  if d <? 0 then ("-" ++ body)%string else body.

(** ** The calendar *)

Record Date := { year : Z; month : Z; day : Z }.

(** Days since 1970-01-01 of a civil date, by 400-year eras that begin on March 1st. *)
Definition days_from_civil (c : Date) : Z :=
  let y := if month c <=? 2 then year c - 1 else year c in
  let era := y / 400 in
  let yoe := y - era * 400 in
  let mp := (month c + 9) mod 12 in
  let doy := (153 * mp + 2) / 5 + day c - 1 in
  let doe := yoe * 365 + yoe / 4 - yoe / 100 + doy in
  era * 146097 + doe - 719468.

Definition civil_from_days (z : Z) : Date :=
  let z := z + 719468 in
  let era := z / 146097 in
  let doe := z - era * 146097 in
  let yoe := (doe - doe / 1460 + doe / 36524 - doe / 146096) / 365 in
  let doy := doe - (365 * yoe + yoe / 4 - yoe / 100) in
  let mp := (5 * doy + 2) / 153 in
  let d := doy - (153 * mp + 2) / 5 + 1 in
  let m := if mp <? 10 then mp + 3 else mp - 9 in
  {| year := yoe + era * 400 + (if m <=? 2 then 1 else 0); month := m; day := d |}.

Definition is_leap (y : Z) : bool :=
  ((y mod 4 =? 0) && negb (y mod 100 =? 0)) || (y mod 400 =? 0).
Definition days_in (m y : Z) : Z :=
  if m =? 2 then if is_leap y then 29 else 28
  else if (m =? 4) || (m =? 6) || (m =? 9) || (m =? 11) then 30 else 31.

(** ** RFC 3339 text, as JSON carries it *)

Definition local_ns (t : Time) : Z := unix_ns t + zone t * Second.
Definition Time_year (t : Time) : Z := year (civil_from_days (local_ns t / Second / 86400)).

(** The nine digits of a fraction of a second without trailing zeros, with its point. *)
Fixpoint trim_zeros (l : bytes) : bytes :=
  match l with
  | [] => []
  | c :: l' =>
      match trim_zeros l' with
      | [] => if Ascii.eqb c "0" then [] else [c]
      | t => c :: t
      end
  end.
Definition format_frac (ns : Z) : bytes :=
  match trim_zeros (pad 9 ns) with [] => [] | t => "."%char :: t end.

Definition format_zone (z : Z) : bytes :=
  if z =? 0 then ["Z"%char]
  else
    let a := Z.abs z / 60 in
    (if z <? 0 then "-"%char else "+"%char) :: pad 2 (a / 60) ++ ":"%char :: pad 2 (a mod 60).

(** [t.Format(time.RFC3339Nano)] for a year of at most four digits. *)
Definition format_RFC3339 (t : Time) : bytes :=
  let secs := local_ns t / Second in
  let c := civil_from_days (secs / 86400) in
  let sod := secs mod 86400 in
  pad 4 (year c) ++ "-"%char :: pad 2 (month c) ++ "-"%char :: pad 2 (day c) ++ "T"%char ::
  pad 2 (sod / 3600) ++ ":"%char :: pad 2 (sod / 60 mod 60) ++ ":"%char ::
  pad 2 (sod mod 60) ++ format_frac (local_ns t mod Second) ++ format_zone (zone t).

(** [t.MarshalJSON()] without the quotes. *)
Definition Time_Marshal (t : Time) : result error bytes :=
  let y := Time_year t in
  if (y <? 0) || (9999 <? y)
  then Err (ErrorString "Time.MarshalJSON: year outside of range [0,9999]")
  else if 24 <=? Z.abs (zone t) / 3600
  then Err (ErrorString "Time.MarshalJSON: timezone hour outside of range [0,23]")
  else Ok (format_RFC3339 t).

Definition expect (c : ascii) (l : bytes) : option bytes :=
  match l with
  | c' :: l' => if Ascii.eqb c c' then Some l' else None
  | [] => None
  end.

(** A fraction of a second: a point or a comma and one digit at least; digits after the ninth
    are dropped. *)
Definition frac_val (ds : bytes) : Z :=
  let ds := take 9 ds in dec_val 0 ds * 10 ^ (9 - Z.of_nat (length ds)).
Definition parse_frac (l : bytes) : Z * bytes :=
  match l with
  | p :: l' =>
      if Ascii.eqb p "." || Ascii.eqb p "," then
        match span_digits l' with
        | ([], _) => (0, l)
        | (ds, r) => (frac_val ds, r)
        end
      else (0, l)
  | [] => (0, l)
  end.

Definition parse_zone (l : bytes) : option Z :=
  match l with
  | c :: l' =>
      if Ascii.eqb c "Z" then match l' with [] => Some 0 | _ => None end
      else if Ascii.eqb c "+" || Ascii.eqb c "-" then
        '(hh, l1) ← take_digits 2 0 l';
        l2 ← expect ":" l1;
        '(mm, l3) ← take_digits 2 0 l2;
        match l3 with
        | [] => if (24 <? hh) || (60 <? mm) then None
                else Some ((if Ascii.eqb c "-" then -1 else 1) * (hh * 60 + mm) * 60)
        | _ => None
        end
      else None
  | [] => None
  end.
(** The hour may have one digit or two. *)
Definition parse_hour (l : bytes) : option (Z * bytes) :=
  match take_digits 2 0 l with
  | Some r => Some r
  | None => take_digits 1 0 l
  end.

(** [time.Parse(time.RFC3339, s)]. *)
Definition parse_RFC3339 (s : bytes) : option Time :=
  '(y, l) ← take_digits 4 0 s;
  l ← expect "-" l;
  '(mo, l) ← take_digits 2 0 l;
  l ← expect "-" l;
  '(d, l) ← take_digits 2 0 l;
  l ← expect "T" l;
  '(h, l) ← parse_hour l;
  l ← expect ":" l;
  '(mi, l) ← take_digits 2 0 l;
  l ← expect ":" l;
  '(sec, l) ← take_digits 2 0 l;
  let '(ns, l) := parse_frac l in
  z ← parse_zone l;
  if (1 <=? mo) && (mo <=? 12) && (1 <=? d) && (d <=? days_in mo y) &&
     (h <? 24) && (mi <? 60) && (sec <? 60)
  then
    let days := days_from_civil {| year := y; month := mo; day := d |} in
    Some {| unix_ns := (days * 86400 + h * 3600 + mi * 60 + sec - z) * Second + ns; zone := z |}
  else None.

(** [t.UnmarshalJSON] on the text between the quotes. *)
Definition Time_Unmarshal (s : bytes) : result error Time :=
  match parse_RFC3339 s with
  | Some t => Ok t
  | None => Err (ErrorString "parsing time: cannot parse as RFC3339")
  end.
