(* ===== verification/GoTimeFacts.v ===== *)
(** * Facts about instants: the calendar conversions are inverse to each other, and RFC 3339
    text reads back as the instant it was written from *)
From S2P Require Import Prelude GoBase Decimal Json JsonFacts GoTime.
#[local] Open Scope Z_scope.
(** ** The calendar round trip *)
#[local] Ltac Zify.zify_post_hook ::= Z.to_euclidean_division_equations.

Lemma is_leap_true y : (y mod 4 = 0 /\ y mod 100 <> 0) \/ y mod 400 = 0 -> is_leap y = true.
Proof.
  unfold is_leap. intros H. destruct (Z.eqb_spec (y mod 4) 0), (Z.eqb_spec (y mod 100) 0),
    (Z.eqb_spec (y mod 400) 0); simpl; tauto.
Qed.

(** Day of the era to year of the era and day of the year. *)
Definition yoe_of (doe : Z) : Z := (doe - doe / 1460 + doe / 36524 - doe / 146096) / 365.
Definition doy_of (doe : Z) : Z := doe - (365 * yoe_of doe + yoe_of doe / 4 - yoe_of doe / 100).

Lemma yoe_range doe : 0 <= doe < 146097 -> 0 <= yoe_of doe < 400.
Proof. unfold yoe_of. lia. Qed.
Lemma doy_range doe : 0 <= doe < 146097 -> 0 <= doy_of doe < 366.
Proof. unfold doy_of, yoe_of. lia. Qed.
Lemma doy_leap doe :
  0 <= doe < 146097 -> doy_of doe = 365 -> forall era, is_leap (yoe_of doe + era * 400 + 1) = true.
Proof.
  intros Hd Hy era. apply is_leap_true.
  assert ((yoe_of doe + 1) mod 4 = 0 /\ (yoe_of doe + 1) mod 100 <> 0 \/ (yoe_of doe + 1) mod 400 = 0) as Hm.
  { unfold doy_of, yoe_of in *. lia. }
  pose proof (yoe_range doe Hd). lia.
Qed.

Lemma civil_ok z :
  let c := civil_from_days z in
  days_from_civil c = z /\ 1 <= month c <= 12 /\ 1 <= day c <= days_in (month c) (year c).
Proof.
  intros c. subst c. unfold civil_from_days.
  set (era := (z + 719468) / 146097). set (doe := z + 719468 - era * 146097).
  assert (0 <= doe < 146097) as Hdoe by lia.
  fold (yoe_of doe). fold (doy_of doe).
  assert (z = era * 146097 + doe - 719468) as Hz by lia. clearbody era doe. subst z.
  pose proof (yoe_range doe Hdoe) as Hyoe. pose proof (doy_range doe Hdoe) as Hdoy.
  pose proof (doy_leap doe Hdoe) as Hleap.
  assert (doe = 365 * yoe_of doe + yoe_of doe / 4 - yoe_of doe / 100 + doy_of doe) as Hdec
    by (unfold doy_of; lia).
  set (yoe := yoe_of doe) in *. set (doy := doy_of doe) in *. clearbody yoe doy. subst doe.
  set (mp := (5 * doy + 2) / 153). assert (mp = (5 * doy + 2) / 153) as Hmpe by done. clearbody mp.
  assert (0 <= mp <= 11) as Hmp by lia.
  cbn [year month day].
  assert (0 <= doy - (153 * mp + 2) / 5 <= 30) as Hday by lia. 
  destruct (Z.ltb_spec mp 10) as [H10|H10].
  - destruct (Z.leb_spec (mp + 3) 2); [lia|]. split; [|split; [lia|]].
    + unfold days_from_civil. cbn [year month day].
      destruct (Z.leb_spec (mp + 3) 2); [lia|].
      replace ((mp + 3 + 9) mod 12) with mp by lia.
      replace ((yoe + era * 400 + 0) / 400) with era by lia. lia.
    + assert (mp = 0 \/ mp = 1 \/ mp = 2 \/ mp = 3 \/ mp = 4 \/ mp = 5 \/ mp = 6 \/ mp = 7 \/ mp = 8 \/
              mp = 9) as Hm by lia.
      destruct_or! Hm; rewrite Hm in *; unfold days_in; simpl; lia.
  - destruct (Z.leb_spec (mp - 9) 2); [|lia]. split; [|split; [lia|]].
    + unfold days_from_civil. cbn [year month day].
      destruct (Z.leb_spec (mp - 9) 2); [|lia].
      replace ((mp - 9 + 9) mod 12) with mp by lia.
      replace ((yoe + era * 400 + 1 - 1) / 400) with era by lia. lia.
    + assert (mp = 10 \/ mp = 11) as [Hm|Hm] by lia; rewrite Hm in *; [unfold days_in; simpl; lia|].
      unfold days_in. change (11 - 9 =? 2) with true. cbv iota.
      destruct (is_leap (yoe + era * 400 + 1)) eqn:Hl; [lia|].
      assert (doy <> 365) by (intros Hy; specialize (Hleap Hy era); congruence). lia.
Qed.

(** ** RFC 3339 *)

Lemma trim_zeros_spec l : exists k, l = trim_zeros l ++ repeat "0"%char k.
Proof.
  induction l as [|c l [k IH]]; [by exists 0%nat|]. cbn [trim_zeros].
  destruct (trim_zeros l) as [|c' t].
  - destruct (Ascii.eqb_spec c "0") as [->|_]; [exists (S k)|exists k]; cbn; by rewrite IH at 1.
  - exists k. cbn in *. by rewrite IH at 1.
Qed.

Lemma parse_frac_format ns r :
  0 <= ns < 10 ^ 9 -> parse_frac (format_frac ns ++ "Z"%char :: r) = (ns, "Z"%char :: r).
Proof.
  intros Hns. destruct (pad_spec 9 ns Hns ltac:(lia)) as (Hd & Hv & Hl).
  destruct (trim_zeros_spec (pad 9 ns)) as [k Hk]. unfold format_frac.
  set (t := trim_zeros (pad 9 ns)) in *. clearbody t. rewrite Hk in Hd, Hv, Hl.
  apply Forall_app in Hd as [Hd _]. rewrite dec_val_app, dec_val_acc, zeros_val, repeat_length in Hv.
  rewrite length_app, repeat_length in Hl.
  destruct t as [|c t]; [cbn in *; f_equal; lia|].
  cbn [app parse_frac]. rewrite Ascii.eqb_refl. cbn [orb].
  assert (span_digits (c :: t ++ "Z"%char :: r) = (c :: t, "Z"%char :: r)) as ->
    by (by apply (span_digits_app (c :: t))).
  f_equal. unfold frac_val. rewrite take_ge by lia.
  replace (9 - Z.of_nat (length (c :: t))) with (Z.of_nat k) by lia. lia.
Qed.

(** Instants that JSON can carry exactly: in UTC, in a year of four digits. *)
Definition time_ok (t : Time) : Prop := zone t = 0 /\ 0 <= Time_year t <= 9999.

Lemma expect_same c l : expect c (c :: l) = Some l.
Proof. unfold expect. by rewrite Ascii.eqb_refl. Qed.

Lemma parse_format_RFC3339 t : time_ok t -> parse_RFC3339 (format_RFC3339 t) = Some t.
Proof.
  intros [Hz Hy]. unfold Time_year in Hy. unfold parse_RFC3339, format_RFC3339. rewrite Hz. cbn [format_zone].
  assert (local_ns t = unix_ns t) as Hlocal by (unfold local_ns; lia). rewrite Hlocal in *.
  set (secs := unix_ns t / Second) in *. set (c := civil_from_days (secs / 86400)) in *.
  destruct (civil_ok (secs / 86400)) as (Hc & Hm & Hd). fold c in Hc, Hm, Hd. clearbody c.
  assert (days_in (month c) (year c) <= 31) as H31.
  { unfold days_in. repeat case_goal; lia. }
  assert (0 <= unix_ns t mod Second < 10 ^ 9) as Hns by (unfold Second, Millisecond, Microsecond, Nanosecond; lia).
  rewrite take_digits_pad by lia. cbn [mbind option_bind]. rewrite expect_same. cbn [mbind option_bind].
  rewrite take_digits_pad by lia. cbn [mbind option_bind]. rewrite expect_same. cbn [mbind option_bind].
  rewrite take_digits_pad by lia. cbn [mbind option_bind]. rewrite expect_same. cbn [mbind option_bind].
  unfold parse_hour.
  rewrite take_digits_pad by lia. cbn [mbind option_bind]. rewrite expect_same. cbn [mbind option_bind].
  rewrite take_digits_pad by lia. cbn [mbind option_bind]. rewrite expect_same. cbn [mbind option_bind].
  rewrite take_digits_pad by lia. cbn [mbind option_bind].
  change (format_zone 0) with ["Z"%char]. rewrite parse_frac_format by done. cbn -[Z.leb Z.ltb days_in days_from_civil Z.add Z.mul Z.sub Z.div Z.modulo].
  repeat match goal with
  | |- context [?a <=? ?b] => rewrite (proj2 (Z.leb_le a b)) by lia
  | |- context [?a <? ?b] => rewrite (proj2 (Z.ltb_lt a b)) by lia
  end. cbn [andb].
  f_equal. destruct t as [u z]. cbn [unix_ns zone] in *. subst z. f_equal.
  destruct c as [cy cm cd]. cbn [year month day]. rewrite Hc.
  subst secs. unfold Second, Millisecond, Microsecond, Nanosecond. lia.
Qed.

(** The text holds no byte that JSON would escape. *)
Definition plain (c : ascii) : Prop :=
  Ascii.eqb c dquote = false /\ Ascii.eqb c backslash = false /\ (code c <? 32) = false.

Lemma plain_raw_ok l : Forall plain l -> raw_ok l.
Proof.
  induction 1 as [|c l (H1 & H2 & H3) _ IH]; intros r; [done|].
  cbn [app scan_string]. rewrite H1, H2, H3, (IH r). done.
Qed.

Lemma digits_plain l : all_digits l -> Forall plain l.
Proof.
  intros Hl. eapply Forall_impl; [exact Hl|]. intros c Hc%is_digit_code. split_and!.
  - apply Ascii.eqb_neq. intros ->. vm_compute in Hc. intuition.
  - apply Ascii.eqb_neq. intros ->. vm_compute in Hc. intuition.
  - apply Z.ltb_ge. lia.
Qed.

Lemma pad_plain w n : 0 <= n < 10 ^ Z.of_nat w -> (0 < w)%nat -> Forall plain (pad w n).
Proof. intros Hn Hw. apply digits_plain, pad_spec; done. Qed.

Lemma format_frac_plain ns : 0 <= ns < 10 ^ 9 -> Forall plain (format_frac ns).
Proof.
  intros Hns. destruct (pad_spec 9 ns Hns ltac:(lia)) as (Hd & _).
  destruct (trim_zeros_spec (pad 9 ns)) as [k Hk]. unfold format_frac.
  rewrite Hk in Hd. apply Forall_app in Hd as [Hd _].
  destruct (trim_zeros _); [constructor|]. constructor; [done|]. by apply digits_plain.
Qed.

Lemma format_RFC3339_raw_ok t : time_ok t -> raw_ok (format_RFC3339 t).
Proof.
  intros [Hz Hy]. unfold Time_year in Hy. apply plain_raw_ok. unfold format_RFC3339. rewrite Hz.
  set (secs := local_ns t / Second) in *. set (c := civil_from_days (secs / 86400)) in *.
  destruct (civil_ok (secs / 86400)) as (_ & Hm & Hd). fold c in Hm, Hd. clearbody c.
  assert (days_in (month c) (year c) <= 31) as H31 by (unfold days_in; repeat case_goal; lia).
  assert (0 <= local_ns t mod Second < 10 ^ 9) as Hns
    by (unfold Second, Millisecond, Microsecond, Nanosecond; lia).
  repeat lazymatch goal with
  | |- Forall _ (_ ++ _) => apply Forall_app_2
  | |- Forall _ (_ :: _) => apply Forall_cons_2; [done|]
  end;
    first [apply pad_plain; lia | by apply format_frac_plain | by repeat constructor].
Qed.

Lemma Time_Marshal_ok t : time_ok t -> Time_Marshal t = Ok (format_RFC3339 t).
Proof.
  intros [Hz Hy]. unfold Time_Marshal. rewrite Hz.
  destruct (Z.ltb_spec (Time_year t) 0); [lia|]. destruct (Z.ltb_spec 9999 (Time_year t)); [lia|]. done.
Qed.

Lemma Time_Unmarshal_Marshal t : time_ok t -> Time_Unmarshal (format_RFC3339 t) = Ok t.
Proof. intros Ht. unfold Time_Unmarshal. by rewrite parse_format_RFC3339. Qed.

(** The days before March 1st of a year, up to a constant. *)
Definition days_before (y : Z) : Z := 365 * y + y / 4 - y / 100 + y / 400.

Lemma days_before_step y : days_before (y - 1) + 365 <= days_before y.
Proof. unfold days_before. lia. Qed.

Lemma days_before_leap y : is_leap y = true -> days_before (y - 1) + 366 = days_before y.
Proof.
  intros Hl. assert (y mod 4 = 0 /\ y mod 100 <> 0 \/ y mod 400 = 0) as H.
  { unfold is_leap in Hl. destruct (Z.eqb_spec (y mod 4) 0), (Z.eqb_spec (y mod 100) 0),
      (Z.eqb_spec (y mod 400) 0); simpl in Hl; try discriminate; tauto. }
  unfold days_before. lia.
Qed.

Lemma days_before_mono x y : x <= y -> days_before x <= days_before y.
Proof. unfold days_before. lia. Qed.

(** The days of a year make an interval that ends where the next begins. *)
Lemma days_from_civil_year c :
  1 <= month c <= 12 -> 1 <= day c <= days_in (month c) (year c) ->
  days_before (year c - 1) + 306 <= days_from_civil c + 719468 < days_before (year c) + 306.
Proof.
  intros Hm Hd. unfold days_from_civil.
  set (y := if month c <=? 2 then year c - 1 else year c).
  set (doy := (153 * ((month c + 9) mod 12) + 2) / 5 + day c - 1).
  assert (y / 400 * 146097 + ((y - y / 400 * 400) * 365 + (y - y / 400 * 400) / 4 - (y - y / 400 * 400) / 100 + doy)
          = days_before y + doy) as He by (unfold days_before; lia).
  replace (_ - 719468 + 719468) with (days_before y + doy) by lia. clear He.
  pose proof (days_before_step (year c)) as Hstep. pose proof (days_before_leap (year c)) as Hleap.
  unfold days_in in Hd. subst y doy. destruct (Z.leb_spec (month c) 2) as [Hm2|Hm2].
  - destruct (Z.eqb_spec (month c) 2) as [He|Hne].
    + rewrite He in *. destruct (is_leap (year c)); [specialize (Hleap eq_refl)|clear Hleap]; lia.
    + assert (month c = 1) as He by lia. rewrite He in *. cbn in Hd. clear Hleap. lia.
  - clear Hleap. assert (day c <= 31).
    { destruct (month c =? 2), (is_leap (year c)), ((month c =? 4) || (month c =? 6) || (month c =? 9) || (month c =? 11)); lia. }
    assert (Hmm : month c = 3 \/ month c = 4 \/ month c = 5 \/ month c = 6 \/ month c = 7 \/ month c = 8 \/ month c = 9 \/ month c = 10 \/ month c = 11 \/ month c = 12) by lia.
    destruct Hmm as [E|[E|[E|[E|[E|[E|[E|[E|[E|E]]]]]]]]]; rewrite E in *; cbn in Hd |- *; lia.
Qed.

Lemma civil_year c :
  1 <= month c <= 12 -> 1 <= day c <= days_in (month c) (year c) ->
  year (civil_from_days (days_from_civil c)) = year c.
Proof.
  intros Hm Hd. pose proof (days_from_civil_year c Hm Hd) as H1.
  destruct (civil_ok (days_from_civil c)) as (He & Hm' & Hd'). set (c' := civil_from_days _) in *. clearbody c'.
  pose proof (days_from_civil_year c' Hm' Hd') as H2. rewrite He in H2.
  destruct (Z.lt_trichotomy (year c') (year c)) as [Hlt|[?|Hlt]]; [|done|].
  - pose proof (days_before_mono (year c') (year c - 1) ltac:(lia)). lia.
  - pose proof (days_before_mono (year c) (year c' - 1) ltac:(lia)). lia.
Qed.

(** ** What parsing yields *)

Lemma digit_val_range c : is_digit c = true -> 0 <= digit_val c < 10.
Proof. intros Hc%is_digit_code. unfold digit_val. lia. Qed.

Lemma take_digits_range w acc l n r :
  0 <= acc -> take_digits w acc l = Some (n, r) -> 0 <= n < (acc + 1) * 10 ^ Z.of_nat w.
Proof.
  revert acc l. induction w as [|w IH]; intros acc l Ha Ht.
  - injection Ht as <- <-. cbn. lia.
  - destruct l as [|c l]; [done|]. cbn [take_digits] in Ht. destruct (is_digit c) eqn:Hc; [|done].
    apply digit_val_range in Hc. apply IH in Ht; [|lia].
    rewrite Nat2Z.inj_succ, Z.pow_succ_r by lia. pose proof (Z.pow_pos_nonneg 10 (Z.of_nat w) ltac:(lia) ltac:(lia)). nia.
Qed.

Lemma span_digits_all l : all_digits (span_digits l).1.
Proof.
  induction l as [|c l IH]; [constructor|]. cbn [span_digits]. destruct (is_digit c) eqn:Hc; [|constructor].
  destruct (span_digits l) as [ds r]. by constructor.
Qed.

Lemma parse_frac_range l : 0 <= (parse_frac l).1 < Second.
Proof.
  destruct l as [|p l]; [done|]. cbn [parse_frac]. destruct (Ascii.eqb p "." || Ascii.eqb p ","); [|done].
  pose proof (span_digits_all l) as Hd. destruct (span_digits l) as [[|c ds] r]; [done|]. cbn [fst] in *.
  unfold frac_val. assert (all_digits (take 9 (c :: ds))) as Ht by (by apply Forall_take).
  pose proof (dec_val_bounds _ Ht) as Hv. assert (length (take 9 (c :: ds)) <= 9)%nat as Hlen
    by (rewrite length_take; lia).
  set (k := length (take 9 (c :: ds))) in *. set (v := dec_val 0 (take 9 (c :: ds))) in *. clearbody k v.
  assert (10 ^ 9 = 10 ^ Z.of_nat k * 10 ^ (9 - Z.of_nat k)) as He by (rewrite <- Z.pow_add_r by lia; f_equal; lia).
  pose proof (Z.pow_pos_nonneg 10 (9 - Z.of_nat k) ltac:(lia) ltac:(lia)).
  change Second with (10 ^ 9). rewrite He. nia.
Qed.

Lemma parse_zone_range l z : parse_zone l = Some z -> Z.abs z <= 25 * 3600.
Proof.
  unfold parse_zone. destruct l as [|c l]; [done|]. destruct (Ascii.eqb c "Z"); [destruct l; [intros [= <-]; done|done]|].
  destruct (Ascii.eqb c "+" || Ascii.eqb c "-"); [|done].
  destruct (take_digits 2 0 l) as [[hh l1]|] eqn:Hh; [|done]. cbn [mbind option_bind].
  destruct (expect ":" l1) as [l2|]; [|done]. cbn [mbind option_bind].
  destruct (take_digits 2 0 l2) as [[mm l3]|] eqn:Hmm; [|done]. cbn [mbind option_bind].
  destruct l3; [|done]. destruct ((24 <? hh) || (60 <? mm)) eqn:Hr; [done|].
  apply orb_false_iff in Hr as [H1 H2]. zbool. intros [= <-].
  apply take_digits_range in Hh, Hmm; [|lia..]. destruct (Ascii.eqb c "-"); lia.
Qed.

Lemma parse_hour_range l h r : parse_hour l = Some (h, r) -> 0 <= h.
Proof.
  unfold parse_hour. destruct (take_digits 2 0 l) as [[h' r']|] eqn:Ht.
  - intros [= -> ->]. apply take_digits_range in Ht; lia.
  - intros Ht'. apply take_digits_range in Ht'; lia.
Qed.

(** What JSON decodes to: a year of four digits, and a zone that may be too wide to be written. *)
Definition time_typed (t : Time) : Prop := 0 <= Time_year t <= 9999 /\ Z.abs (zone t) <= 25 * 3600.

Lemma Time_year_of days sod z ns :
  0 <= sod < 86400 -> 0 <= ns < Second ->
  Time_year {| unix_ns := (days * 86400 + sod - z) * Second + ns; zone := z |} = year (civil_from_days days).
Proof.
  intros Hs Hn. unfold Time_year, local_ns. cbn [unix_ns zone]. do 2 f_equal.
  replace ((days * 86400 + sod - z) * Second + ns + z * Second) with ((days * 86400 + sod) * Second + ns) by lia.
  rewrite Z.div_add_l by (unfold Second, Millisecond, Microsecond, Nanosecond; lia).
  rewrite (Z.div_small ns) by done. lia.
Qed.

Lemma parse_RFC3339_typed s t : parse_RFC3339 s = Some t -> time_typed t.
Proof.
  unfold parse_RFC3339.
  destruct (take_digits 4 0 s) as [[y l]|] eqn:Hy; [|done]. cbn [mbind option_bind].
  destruct (expect "-" l) as [l1|]; [|done]. cbn [mbind option_bind].
  destruct (take_digits 2 0 l1) as [[mo l2]|] eqn:Hmo; [|done]. cbn [mbind option_bind].
  destruct (expect "-" l2) as [l3|]; [|done]. cbn [mbind option_bind].
  destruct (take_digits 2 0 l3) as [[d l4]|] eqn:Hd; [|done]. cbn [mbind option_bind].
  destruct (expect "T" l4) as [l5|]; [|done]. cbn [mbind option_bind].
  destruct (parse_hour l5) as [[h l6]|] eqn:Hh; [|done]. cbn [mbind option_bind].
  destruct (expect ":" l6) as [l7|]; [|done]. cbn [mbind option_bind].
  destruct (take_digits 2 0 l7) as [[mi l8]|] eqn:Hmi; [|done]. cbn [mbind option_bind].
  destruct (expect ":" l8) as [l9|]; [|done]. cbn [mbind option_bind].
  destruct (take_digits 2 0 l9) as [[sec l10]|] eqn:Hsec; [|done]. cbn [mbind option_bind].
  pose proof (parse_frac_range l10) as Hns. destruct (parse_frac l10) as [ns l11]. cbn [fst] in Hns.
  destruct (parse_zone l11) as [z|] eqn:Hz; [|done]. cbn [mbind option_bind].
  match goal with |- context [if ?b then _ else _] => destruct b eqn:Hb; [|done] end. zbool.
  intros [= <-]. apply take_digits_range in Hy, Hmi, Hsec; [|lia..]. apply parse_hour_range in Hh.
  apply parse_zone_range in Hz. split; [|done].
  set (c := {| year := y; month := mo; day := d |}).
  replace (days_from_civil c * 86400 + h * 3600 + mi * 60 + sec - z)
    with (days_from_civil c * 86400 + (h * 3600 + mi * 60 + sec) - z) by lia.
  rewrite Time_year_of by lia. rewrite civil_year by (cbn; lia). cbn [year c]. lia.
Qed.

Lemma Time_Unmarshal_typed s t : Time_Unmarshal s = Ok t -> time_typed t.
Proof.
  unfold Time_Unmarshal. destruct (parse_RFC3339 s) as [t'|] eqn:Hp; [|done]. intros [= <-].
  by eapply parse_RFC3339_typed.
Qed.

(** Such an instant can be written exactly if its zone is narrower than a day. *)
Lemma Time_Marshal_typed t :
  time_typed t -> (is_Ok (Time_Marshal t) = true <-> Z.abs (zone t) < 24 * 3600).
Proof.
  intros [Hy _]. unfold Time_Marshal. destruct (Z.ltb_spec (Time_year t) 0); [lia|].
  destruct (Z.ltb_spec 9999 (Time_year t)); [lia|]. cbn [orb].
  destruct (Z.leb_spec 24 (Z.abs (zone t) / 3600)); cbn [is_Ok]; split; (done || lia).
Qed.
