(* ===== verification/Domain.v ===== *)
(** * shared/domain: the data every service agrees on

    [trade.go], [alert.go], [candle.go], [fx.go] and [broker.go]: the trade event, the order
    book, alerts, candle intervals, the FX table and the names of topics and Redis keys.
    Prices and quantities are IEEE 754 binary64 values ([Float64.v]); instants are
    [GoTime.Time]. *)
From S2P Require Import Prelude GoBase Float64 GoTime.
#[local] Open Scope Z_scope.

(** ** trade.go *)

(** [Side] is a string type with two declared constants. *)
Definition Side : Type := string.
Definition SideBuy : Side := "BUY".
Definition SideSell : Side := "SELL".

Record MarketMetadata := {
  BaseAsset : string;
  QuoteAsset : string;
  Exchange : string;
}.
Definition zero_MarketMetadata : MarketMetadata :=
  {| BaseAsset := ""; QuoteAsset := ""; Exchange := "" |}.

Record TradeEvent := TradeEvent_mk {
  Symbol : string;
  Price : float64;
  Quantity : float64;
  TradeSide : Side;
  TradeID : Z;
  Notional : float64;
  Market : MarketMetadata;
  IsWhale : bool;
  EventTime : Time;
  IngestTime : Time;
}.
Definition zero_TradeEvent : TradeEvent :=
  {| Symbol := ""; Price := f64_zero; Quantity := f64_zero; TradeSide := ""; TradeID := 0;
     Notional := f64_zero; Market := zero_MarketMetadata; IsWhale := false;
     EventTime := zero_Time; IngestTime := zero_Time |}.

Record PriceLevel := { LevelPrice : float64; LevelQuantity : float64 }.
Definition zero_PriceLevel : PriceLevel :=
  {| LevelPrice := f64_zero; LevelQuantity := f64_zero |}.

(** A Go slice is nil ([None]) or has elements; the two differ once encoded. *)
Definition slice (A : Type) : Type := option (list A).
Definition elems {A : Type} (s : slice A) : list A := default [] s.

Record OrderBook := {
  BookSymbol : string;
  Bids : slice PriceLevel;
  Asks : slice PriceLevel;
  LastUpdate : Time;
}.
Definition zero_OrderBook : OrderBook :=
  {| BookSymbol := ""; Bids := None; Asks := None; LastUpdate := zero_Time |}.

Definition BestBid (b : OrderBook) : PriceLevel * bool :=
  match elems (Bids b) with
  | [] => (zero_PriceLevel, false)
  | l :: _ => (l, true)
  end.
Definition BestAsk (b : OrderBook) : PriceLevel * bool :=
  match elems (Asks b) with
  | [] => (zero_PriceLevel, false)
  | l :: _ => (l, true)
  end.

#[export] Instance MarketMetadata_eq_dec : EqDecision MarketMetadata.
Proof. solve_decision. Defined.
#[export] Instance TradeEvent_eq_dec : EqDecision TradeEvent.
Proof. solve_decision. Defined.
#[export] Instance PriceLevel_eq_dec : EqDecision PriceLevel.
Proof. solve_decision. Defined.
#[export] Instance OrderBook_eq_dec : EqDecision OrderBook.
Proof. solve_decision. Defined.

(** ** candle.go *)

Definition Interval : Type := string.
Definition Interval1m : Interval := "1m".
Definition Interval5m : Interval := "5m".
Definition Interval15m : Interval := "15m".
Definition Interval1h : Interval := "1h".

Definition Interval_Duration (i : Interval) : Z :=
  if decide (i = Interval1m) then Minute
  else if decide (i = Interval5m) then 5 * Minute
  else if decide (i = Interval15m) then 15 * Minute
  else if decide (i = Interval1h) then Hour
  else 0.

(** ** fx.go *)

Record FXRates := {
  FXBase : string;
  Rates : gmap string float64;
  FetchedAt : Time;
}.

Definition OnExchangeQuoteAssets : gmap string bool :=
  {["USD" := true; "USDT" := true; "USDC" := true]}.

Definition Rate `{Unicode} (f : FXRates) (quote : string) : float64 * bool :=
  let quote := ToUpper quote in
  if default false (OnExchangeQuoteAssets !! quote) then (f64_one, true)
  else match Rates f !! quote with
       | Some r => (r, true)
       | None => (f64_zero, false)
       end.

(** ** alert.go *)

Definition AlertType : Type := string.
Definition AlertWhale : AlertType := "whale".
Definition AlertLiquation : AlertType := "liquidation".
Definition AlertPrice : AlertType := "price".

Record WhaleAlert := {
  AlertSymbol : string;
  AlertTradePrice : float64;
  AlertQuantity : float64;
  AlertNotional : float64;
  AlertSide : Side;
  Threshold : float64;
  AlertEventTime : Time;
}.

Record LiquidationAlert := {
  LiqSymbol : string;
  LiqPrice : float64;
  LiqQuantity : float64;
  LiqSide : Side;
  LiqEventTime : Time;
}.

Definition DedupKey (a : WhaleAlert) : string :=
  ("alert:whale:" ++ AlertSymbol a ++ ":" ++ fmt_fixed 2 (AlertTradePrice a) ++ ":" ++
   pretty (Unix (AlertEventTime a)))%string.

(** ** broker.go *)

Definition TopicTradesRaw : string := "trades.raw".
Definition TopicOrderbookRaw : string := "orderbook.raw".
Definition TopicCandles : string := "candles".
Definition ConsumerGroupProcessor : string := "processor-service".
Definition ConsumerGroupAnalytics : string := "analytics-service".
Definition ExchangeAlerts : string := "alerts".
Definition ExchangeAlertsDLX : string := "alerts.dlx".
Definition QueueWhaleAlerts : string := "whale.alerts".
Definition QueueLiquidations : string := "liquidations".
Definition QueuePriceAlerts : string := "price.alerts".
Definition RoutingKeyWhale : string := "whale.alert".
Definition RoutingKeyLiquidation : string := "liquidation.alert".
Definition RoutingKeyPrice : string := "price.alert".
Definition KeyFXRates : string := "fx:rates".

Definition KeyPrice (symbol : string) : string := ("price:" ++ symbol)%string.
Definition KeyLatestTrade (symbol : string) : string := ("trade:latest:" ++ symbol)%string.
Definition KeyOrderBook (symbol : string) : string := ("orderbook:" ++ symbol)%string.

(** A key determines the symbol it belongs to. *)
#[export] Instance KeyLatestTrade_inj : Inj (=) (=) KeyLatestTrade.
Proof. intros s s' Hk. by injection Hk. Qed.
#[export] Instance KeyPrice_inj : Inj (=) (=) KeyPrice.
Proof. intros s s' Hk. by injection Hk. Qed.
#[export] Instance KeyOrderBook_inj : Inj (=) (=) KeyOrderBook.
Proof. intros s s' Hk. by injection Hk. Qed.
