(* ===== verification/Wire.v ===== *)
(** * The wire format of the domain: trade events and order books as JSON

    The struct tags of [shared/domain/trade.go], in field order, as [json.Marshal] and
    [json.Unmarshal] interpret them: [omitempty] drops an empty string, false and a zero number,
    a nil slice is written as null.  The instances of [JSON] are what the Redis writer, the Kafka
    consumer and the API use; [JSONRoundTrip] is the law they rely on. *)
From S2P Require Import Prelude GoBase Decimal Float64 Float64Facts Float64Text Json JsonFacts GoTime GoTimeFacts Domain.
#[local] Open Scope Z_scope.

(** ** Encoding *)

Definition members : Type := list (bytes * json).
Definition member (name : string) (j : json) : members := [(str name, j)].
Definition omitempty (empty : bool) (ms : members) : members := if empty then [] else ms.

Definition json_string (s : string) : json := JString (escape s).
Definition json_int (n : Z) : json := JNumber (FormatInt n).
Definition json_float (x : float64) : result error json := JNumber <$> encode_float x.
Definition json_time (t : Time) : result error json :=
  match Time_Marshal t with
  | Ok l => Ok (JString l)
  | Err e => Err (Errorf_w "json: error calling MarshalJSON for type time.Time: " e)
  end.
Fixpoint json_list {A : Type} (enc : A -> result error json) (l : list A) : result error (list json) :=
  match l with
  | [] => Ok []
  | x :: l' => j ← enc x; js ← json_list enc l'; Ok (j :: js)
  end.
Definition json_slice {A : Type} (enc : A -> result error json) (s : slice A) : result error json :=
  match s with
  | None => Ok JNull
  | Some l => JArray <$> json_list enc l
  end.

Definition encode_MarketMetadata (m : MarketMetadata) : json :=
  let opt name s := omitempty (bool_decide (s = ""%string)) (member name (json_string s)) in
  JObject (opt "base_asset"%string (BaseAsset m) ++ opt "quote_asset"%string (QuoteAsset m) ++
           opt "exchange"%string (Exchange m)).

Definition encode_TradeEvent (t : TradeEvent) : result error json :=
  price ← json_float (Price t);
  quantity ← json_float (Quantity t);
  notional ← (if f64_eqb (Notional t) f64_zero then Ok []
              else member "notional" <$> json_float (Notional t));
  event_time ← json_time (EventTime t);
  ingest_time ← json_time (IngestTime t);
  Ok (JObject
        (member "symbol" (json_string (Symbol t)) ++
         member "price" price ++
         member "quantity" quantity ++
         member "side" (json_string (TradeSide t)) ++
         member "trade_id" (json_int (TradeID t)) ++
         notional ++
         member "market" (encode_MarketMetadata (Market t)) ++
         omitempty (negb (IsWhale t)) (member "is_whale" (JBool (IsWhale t))) ++
         member "event_time" event_time ++
         member "ingest_time" ingest_time)).

Definition encode_PriceLevel (l : PriceLevel) : result error json :=
  price ← json_float (LevelPrice l);
  quantity ← json_float (LevelQuantity l);
  Ok (JObject (member "price" price ++ member "quantity" quantity)).

Definition encode_OrderBook (b : OrderBook) : result error json :=
  bids ← json_slice encode_PriceLevel (Bids b);
  asks ← json_slice encode_PriceLevel (Asks b);
  last_update ← json_time (LastUpdate b);
  Ok (JObject
        (member "symbol" (json_string (BookSymbol b)) ++
         member "bids" bids ++
         member "asks" asks ++
         member "last_update" last_update)).

(** ** Decoding *)

Definition MarketMetadata_fields : fields MarketMetadata := [
  field "base_asset" BaseAsset
    (fun x m => {| BaseAsset := x; QuoteAsset := QuoteAsset m; Exchange := Exchange m |}) decode_string;
  field "quote_asset" QuoteAsset
    (fun x m => {| BaseAsset := BaseAsset m; QuoteAsset := x; Exchange := Exchange m |}) decode_string;
  field "exchange" Exchange
    (fun x m => {| BaseAsset := BaseAsset m; QuoteAsset := QuoteAsset m; Exchange := x |}) decode_string].

Definition TradeEvent_fields : fields TradeEvent := [
  field "symbol" Symbol
    (fun x t => TradeEvent_mk x (Price t) (Quantity t) (TradeSide t) (TradeID t) (Notional t) (Market t)
                  (IsWhale t) (EventTime t) (IngestTime t)) decode_string;
  field "price" Price
    (fun x t => TradeEvent_mk (Symbol t) x (Quantity t) (TradeSide t) (TradeID t) (Notional t) (Market t)
                  (IsWhale t) (EventTime t) (IngestTime t)) decode_float;
  field "quantity" Quantity
    (fun x t => TradeEvent_mk (Symbol t) (Price t) x (TradeSide t) (TradeID t) (Notional t) (Market t)
                  (IsWhale t) (EventTime t) (IngestTime t)) decode_float;
  field "side" TradeSide
    (fun x t => TradeEvent_mk (Symbol t) (Price t) (Quantity t) x (TradeID t) (Notional t) (Market t)
                  (IsWhale t) (EventTime t) (IngestTime t)) decode_string;
  field "trade_id" TradeID
    (fun x t => TradeEvent_mk (Symbol t) (Price t) (Quantity t) (TradeSide t) x (Notional t) (Market t)
                  (IsWhale t) (EventTime t) (IngestTime t)) decode_int64;
  field "notional" Notional
    (fun x t => TradeEvent_mk (Symbol t) (Price t) (Quantity t) (TradeSide t) (TradeID t) x (Market t)
                  (IsWhale t) (EventTime t) (IngestTime t)) decode_float;
  field "market" Market
    (fun x t => TradeEvent_mk (Symbol t) (Price t) (Quantity t) (TradeSide t) (TradeID t) (Notional t) x
                  (IsWhale t) (EventTime t) (IngestTime t)) (decode_struct MarketMetadata_fields);
  field "is_whale" IsWhale
    (fun x t => TradeEvent_mk (Symbol t) (Price t) (Quantity t) (TradeSide t) (TradeID t) (Notional t) (Market t)
                  x (EventTime t) (IngestTime t)) decode_bool;
  field "event_time" EventTime
    (fun x t => TradeEvent_mk (Symbol t) (Price t) (Quantity t) (TradeSide t) (TradeID t) (Notional t) (Market t)
                  (IsWhale t) x (IngestTime t)) (decode_text Time_Unmarshal);
  field "ingest_time" IngestTime
    (fun x t => TradeEvent_mk (Symbol t) (Price t) (Quantity t) (TradeSide t) (TradeID t) (Notional t) (Market t)
                  (IsWhale t) (EventTime t) x) (decode_text Time_Unmarshal)].

Definition PriceLevel_fields : fields PriceLevel := [
  field "price" LevelPrice
    (fun x l => {| LevelPrice := x; LevelQuantity := LevelQuantity l |}) decode_float;
  field "quantity" LevelQuantity
    (fun x l => {| LevelPrice := LevelPrice l; LevelQuantity := x |}) decode_float].

Definition decode_levels : decoder (slice PriceLevel) :=
  decode_slice zero_PriceLevel (decode_struct PriceLevel_fields).

Definition OrderBook_fields : fields OrderBook := [
  field "symbol" BookSymbol
    (fun x b => {| BookSymbol := x; Bids := Bids b; Asks := Asks b; LastUpdate := LastUpdate b |}) decode_string;
  field "bids" Bids
    (fun x b => {| BookSymbol := BookSymbol b; Bids := x; Asks := Asks b; LastUpdate := LastUpdate b |}) decode_levels;
  field "asks" Asks
    (fun x b => {| BookSymbol := BookSymbol b; Bids := Bids b; Asks := x; LastUpdate := LastUpdate b |}) decode_levels;
  field "last_update" LastUpdate
    (fun x b => {| BookSymbol := BookSymbol b; Bids := Bids b; Asks := Asks b; LastUpdate := x |})
    (decode_text Time_Unmarshal)].

#[export] Instance TradeEvent_JSON : JSON TradeEvent := {
  Marshal t := print <$> encode_TradeEvent t;
  Unmarshal := unmarshal (decode_struct TradeEvent_fields);
}.
#[export] Instance OrderBook_JSON : JSON OrderBook := {
  Marshal b := print <$> encode_OrderBook b;
  Unmarshal := unmarshal (decode_struct OrderBook_fields);
}.

(** ** What survives the trip *)

Definition float_ok (x : float64) : Prop := f64_valid x /\ f64_is_finite x = true.
Definition market_ok (m : MarketMetadata) : Prop :=
  isASCII (BaseAsset m) = true /\ isASCII (QuoteAsset m) = true /\ isASCII (Exchange m) = true.
(** A trade with ASCII names, finite numbers and times in UTC; negative zero is no notional,
    because [omitempty] drops its sign. *)
Record trade_ok (t : TradeEvent) : Prop := {
  ok_symbol : isASCII (Symbol t) = true;
  ok_side : isASCII (TradeSide t) = true;
  ok_price : float_ok (Price t);
  ok_quantity : float_ok (Quantity t);
  ok_notional : float_ok (Notional t) /\ Notional t <> S754_zero true;
  ok_id : in_int64 (TradeID t);
  ok_market : market_ok (Market t);
  ok_event_time : time_ok (EventTime t);
  ok_ingest_time : time_ok (IngestTime t);
}.
Definition level_ok (l : PriceLevel) : Prop := float_ok (LevelPrice l) /\ float_ok (LevelQuantity l).
Record book_ok (b : OrderBook) : Prop := {
  ok_book_symbol : isASCII (BookSymbol b) = true;
  ok_bids : Forall level_ok (elems (Bids b));
  ok_asks : Forall level_ok (elems (Asks b));
  ok_last_update : time_ok (LastUpdate b);
}.

(** ** Members *)

Definition member_wf (d : nat) (kv : bytes * json) : Prop := raw_ok kv.1 /\ wf d kv.2.

Lemma member_wf_intro d name j : raw_ok (str name) -> wf d j -> Forall (member_wf d) (member name j).
Proof. repeat constructor; done. Qed.

Lemma wf_object d ms : Forall (member_wf d) ms -> wf (S d) (JObject ms).
Proof. done. Qed.

Lemma omitempty_wf d b ms : Forall (member_wf d) ms -> Forall (member_wf d) (omitempty b ms).
Proof. by destruct b. Qed.

Lemma json_string_wf d s : isASCII s = true -> wf d (json_string s).
Proof. intros Hs. destruct d; by apply escape_raw_ok. Qed.

Lemma decode_json_string s old : isASCII s = true -> decode_string (json_string s) old = Ok s.
Proof. intros Hs. simpl. by rewrite unescape_escape. Qed.

Lemma json_float_spec x :
  float_ok x -> exists j, json_float x = Ok j /\ (forall d, wf d j) /\ (forall old, decode_float j old = Ok x).
Proof.
  intros [Hv Hf]. destruct (encode_float_ok x Hv Hf) as (lit & He & Hl & Hp).
  exists (JNumber lit). unfold json_float. rewrite He. split; [done|].
  split; [by intros []|]. intros old. simpl. by rewrite Hp.
Qed.

Lemma json_time_spec t :
  time_ok t ->
  exists j, json_time t = Ok j /\ (forall d, wf d j) /\ (forall old, decode_text Time_Unmarshal j old = Ok t).
Proof.
  intros Ht. exists (JString (format_RFC3339 t)). unfold json_time. rewrite Time_Marshal_ok by done.
  split; [done|]. split; [intros []; by apply format_RFC3339_raw_ok|].
  intros old. by apply Time_Unmarshal_Marshal.
Qed.

Lemma json_int_wf d n : wf d (json_int n).
Proof. destruct d; apply lit_ok_int. Qed.

Lemma decode_json_int n old : in_int64 n -> decode_int64 (json_int n) old = Ok n.
Proof. intros Hn. simpl. by rewrite ParseInt_FormatInt. Qed.

(** A member whose key names a field is decoded into that field. *)
Lemma decode_member {A B : Type} (fs : fields A) name j (kvs : members) a name' get set (d : decoder B) b :
  find_field fs (str (unescape (str name))) = Some (field name' get set d).2 ->
  d j (get a) = Ok b ->
  decode_members fs (member name j ++ kvs) a = decode_members fs kvs (set b a).
Proof. intros Hf Hd. cbn [member app decode_members]. rewrite Hf. cbn. by rewrite Hd. Qed.

(** One that is left out when empty is absent only if the field already has its value. *)
Lemma decode_omitempty {A B : Type} (fs : fields A) name j kvs a name' get set (d : decoder B) b empty :
  find_field fs (str (unescape (str name))) = Some (field name' get set d).2 ->
  d j (get a) = Ok b -> (empty = true -> set b a = a) ->
  decode_members fs (omitempty empty (member name j) ++ kvs) a = decode_members fs kvs (set b a).
Proof.
  intros Hf Hd He. destruct empty; [by rewrite He|]. cbn [omitempty]. by eapply decode_member.
Qed.

(** Projections of a record under construction, so that terms do not grow. *)
Ltac trade_proj :=
  cbn beta iota delta [Symbol Price Quantity TradeSide TradeID Notional Market IsWhale EventTime IngestTime].
Ltac raw_name := let r := fresh in intros r; reflexivity.
Ltac wf_members :=
  repeat lazymatch goal with
  | |- Forall _ (_ ++ _) => apply Forall_app_2
  | |- Forall _ (omitempty _ _) => apply omitempty_wf
  | |- Forall _ (member _ _) => apply member_wf_intro; [raw_name|]
  | |- wf _ (json_string _) => by apply json_string_wf
  | |- wf _ (json_int _) => apply json_int_wf
  | |- wf _ _ => by auto
  end.

(** ** Market metadata *)

Lemma encode_market_wf d m : market_ok m -> wf (S d) (encode_MarketMetadata m).
Proof. intros (? & ? & ?). apply wf_object. wf_members. Qed.

Lemma decode_market m :
  market_ok m ->
  decode_struct MarketMetadata_fields (encode_MarketMetadata m) zero_MarketMetadata = Ok m.
Proof.
  intros (Hb & Hq & He). cbn [decode_struct encode_MarketMetadata].
  rewrite <- (app_nil_r (omitempty _ (member "exchange" _))).
  repeat (erewrite decode_omitempty;
    [|reflexivity|by apply decode_json_string|intros Hs%bool_decide_eq_true; rewrite Hs; reflexivity]).
  by destruct m.
Qed.

(** ** Trade events *)

Lemma f64_eqb_zero x : f64_eqb x f64_zero = true -> x = S754_zero false \/ x = S754_zero true.
Proof. destruct x as [[]|[]| |[]]; try done; auto. Qed.

Lemma encode_TradeEvent_spec t :
  trade_ok t ->
  exists j, encode_TradeEvent t = Ok j /\ wf 2 j /\
            decode_struct TradeEvent_fields j zero_TradeEvent = Ok t.
Proof.
  intros Ht. unfold encode_TradeEvent.
  destruct (json_float_spec _ (ok_price t Ht)) as (jp & -> & Hpw & Hpd).
  destruct (json_float_spec _ (ok_quantity t Ht)) as (jq & -> & Hqw & Hqd).
  destruct (ok_notional t Ht) as [Hn Hn0].
  destruct (json_float_spec _ Hn) as (jn & Hje & Hnw & Hnd). rewrite Hje.
  destruct (json_time_spec _ (ok_event_time t Ht)) as (je & -> & Hew & Hed).
  destruct (json_time_spec _ (ok_ingest_time t Ht)) as (ji & -> & Hiw & Hid).
  set (e := f64_eqb (Notional t) f64_zero).
  assert ((if e then Ok [] else member "notional" <$> @Ok error json jn)
          = Ok (omitempty e (member "notional" jn))) as -> by (by destruct e).
  cbn [mbind result_bind]. eexists. split; [reflexivity|]. split.
  - apply wf_object. pose proof (encode_market_wf 0 _ (ok_market t Ht)). destruct Ht. wf_members.
  - cbn [decode_struct]. unfold zero_TradeEvent. rewrite <- (app_nil_r (member "ingest_time" _)).
    erewrite decode_member; [|reflexivity|by apply decode_json_string, Ht]; trade_proj.
    erewrite decode_member; [|reflexivity|by apply Hpd]; trade_proj.
    erewrite decode_member; [|reflexivity|by apply Hqd]; trade_proj.
    erewrite decode_member; [|reflexivity|by apply decode_json_string, Ht]; trade_proj.
    erewrite decode_member; [|reflexivity|by apply decode_json_int, Ht]; trade_proj.
    erewrite decode_omitempty; [|reflexivity|by apply Hnd|].
    2: { intros [->|Hz]%f64_eqb_zero; [reflexivity|done]. }
    trade_proj.
    erewrite decode_member; [|reflexivity|by apply decode_market, Ht]; trade_proj.
    erewrite decode_omitempty; [|reflexivity|reflexivity|].
    2: { intros Hw%negb_true_iff. by rewrite Hw. }
    trade_proj.
    erewrite decode_member; [|reflexivity|by apply Hed]; trade_proj.
    erewrite decode_member; [|reflexivity|by apply Hid]; trade_proj.
    by destruct t.
Qed.

(** ** Order books *)

Lemma encode_PriceLevel_spec l :
  level_ok l ->
  exists j, encode_PriceLevel l = Ok j /\ wf 1 j /\ forall old, decode_struct PriceLevel_fields j old = Ok l.
Proof.
  intros [Hp Hq]. unfold encode_PriceLevel.
  destruct (json_float_spec _ Hp) as (jp & -> & Hpw & Hpd).
  destruct (json_float_spec _ Hq) as (jq & -> & Hqw & Hqd).
  eexists. split; [reflexivity|]. split; [apply wf_object; wf_members|].
  intros old. cbn [decode_struct]. rewrite <- (app_nil_r (member "quantity" _)).
  erewrite decode_member; [|reflexivity|by apply Hpd].
  erewrite decode_member; [|reflexivity|by apply Hqd]. by destruct l.
Qed.

Lemma json_levels_spec ls old :
  Forall level_ok (elems ls) ->
  exists j, json_slice encode_PriceLevel ls = Ok j /\ wf 2 j /\ decode_levels j old = Ok ls.
Proof.
  destruct ls as [ls|]; [|by exists JNull]. intros Hls. change (Forall level_ok ls) in Hls.
  assert (exists js, json_list encode_PriceLevel ls = Ok js /\ Forall (wf 1) js /\
            forall olds, decode_elems zero_PriceLevel (decode_struct PriceLevel_fields) js olds = Ok ls)
    as (js & Hj & Hw & Hd).
  { induction Hls as [|l ls' Hl _ (js & Hjs & Hw & Hd)]; [by exists []|].
    destruct (encode_PriceLevel_spec l Hl) as (j & Hj & Hjw & Hjd).
    exists (j :: js). cbn [json_list]. rewrite Hj, Hjs. split; [done|]. split; [by constructor|].
    intros olds. cbn [decode_elems]. by rewrite Hjd, Hd. }
  exists (JArray js). unfold json_slice. rewrite Hj. split; [done|]. split; [done|].
  unfold decode_levels, decode_slice. by rewrite Hd.
Qed.

Lemma encode_OrderBook_spec b :
  book_ok b ->
  exists j, encode_OrderBook b = Ok j /\ wf 3 j /\
            decode_struct OrderBook_fields j zero_OrderBook = Ok b.
Proof.
  intros Hb. unfold encode_OrderBook.
  destruct (json_levels_spec (Bids b) None (ok_bids b Hb)) as (jb & -> & Hbw & Hbd).
  destruct (json_levels_spec (Asks b) None (ok_asks b Hb)) as (ja & -> & Haw & Had).
  destruct (json_time_spec _ (ok_last_update b Hb)) as (jl & -> & Hlw & Hld).
  eexists. split; [reflexivity|]. split; [apply wf_object; destruct Hb; wf_members|].
  cbn [decode_struct]. rewrite <- (app_nil_r (member "last_update" _)).
  erewrite decode_member; [|reflexivity|by apply decode_json_string, Hb].
  erewrite decode_member; [|reflexivity|by apply Hbd].
  erewrite decode_member; [|reflexivity|by apply Had].
  erewrite decode_member; [|reflexivity|by apply Hld]. by destruct b.
Qed.

(** ** The laws the clients use *)

#[export] Instance TradeEvent_roundtrip : JSONRoundTrip TradeEvent trade_ok (eq zero_TradeEvent).
Proof.
  split; unfold Marshal, Unmarshal, TradeEvent_JSON.
  - intros t Ht. destruct (encode_TradeEvent_spec t Ht) as (j & -> & _). by eexists.
  - intros t l old Ht <- Hl. destruct (encode_TradeEvent_spec t Ht) as (j & Hj & Hw & Hd).
    rewrite Hj in Hl. injection Hl as <-. unfold unmarshal.
    rewrite (parse_print 2); [done|unfold maxNestingDepth; lia|done].
Qed.

#[export] Instance OrderBook_roundtrip : JSONRoundTrip OrderBook book_ok (eq zero_OrderBook).
Proof.
  split; unfold Marshal, Unmarshal, OrderBook_JSON.
  - intros b Hb. destruct (encode_OrderBook_spec b Hb) as (j & -> & _). by eexists.
  - intros b l old Hb <- Hl. destruct (encode_OrderBook_spec b Hb) as (j & Hj & Hw & Hd).
    rewrite Hj in Hl. injection Hl as <-. unfold unmarshal.
    rewrite (parse_print 3); [done|unfold maxNestingDepth; lia|done].
Qed.

(** ** Properties *)

(** A trade event with ASCII names, finite numbers, an id of 64 bits and UTC times in years of
    four digits is always encodable, and decoding the text into a fresh event gives it back,
    fields left out by [omitempty] included. *)
Theorem TradeEvent_json_roundtrip (t : TradeEvent) :
  trade_ok t -> exists l, Marshal t = Ok l /\ Unmarshal l zero_TradeEvent = Ok t.
Proof.
  intros Ht. destruct (marshal_total t Ht) as [l Hl]. exists l. split; [done|].
  by eapply (unmarshal_marshal (A := TradeEvent)).
Qed.

(** An order book whose symbol is ASCII, whose levels are finite and whose time JSON can carry is
    always encodable and is read back unchanged; a side without levels keeps the difference
    between nil (null) and empty. *)
Theorem OrderBook_json_roundtrip (b : OrderBook) :
  book_ok b -> exists l, Marshal b = Ok l /\ Unmarshal l zero_OrderBook = Ok b.
Proof.
  intros Hb. destruct (marshal_total b Hb) as [l Hl]. exists l. split; [done|].
  by eapply (unmarshal_marshal (A := OrderBook)).
Qed.

Definition wire_trade : TradeEvent :=
  {| Symbol := "BTCUSDT"; Price := S754_finite false 8933545719575347 (-37);
     Quantity := S754_finite false 4722366482869645 (-82); TradeSide := SideSell; TradeID := 9007199254740993;
     Notional := f64_zero; Market := {| BaseAsset := "BTC"; QuoteAsset := ""; Exchange := "Binance" |};
     IsWhale := true; EventTime := {| unix_ns := 1700000000120000000; zone := 0 |};
     IngestTime := {| unix_ns := 1700000000123456789; zone := 0 |} |}.
Definition wire_book : OrderBook :=
  {| BookSymbol := "BTCUSDT"; Bids := Some [{| LevelPrice := f64_one; LevelQuantity := f64_zero |}];
     Asks := None; LastUpdate := zero_Time |}.

Lemma TradeEvent_json_roundtrip_witness :
  exists l, Marshal wire_trade = Ok l /\ Unmarshal l zero_TradeEvent = Ok wire_trade.
Proof.
  apply (TradeEvent_json_roundtrip wire_trade).
  split; vm_compute; repeat first [reflexivity | discriminate | split].
Defined.
Lemma OrderBook_json_roundtrip_witness :
  exists l, Marshal wire_book = Ok l /\ Unmarshal l zero_OrderBook = Ok wire_book.
Proof.
  apply (OrderBook_json_roundtrip wire_book). split.
  - vm_compute; reflexivity.
  - constructor; [vm_compute; repeat split|constructor].
  - constructor.
  - vm_compute; repeat first [reflexivity | discriminate | split].
Defined.
