(* ===== verification/Normalizer.v ===== *)
(** * ingestion-service/internal/normalizer.go: one raw Binance message into one trade event

    [normalizeTrade] is the code's sequence of guards.  The theorems say exactly which messages
    pass and which error each rejected one gets, that what passes with finite numbers is
    delivered unchanged through the JSON of the Kafka topic, and that the guards let a price of
    NaN through although no JSON can carry it. *)
From S2P Require Import Prelude GoBase Decimal Float64 Float64Facts Json GoTime GoTimeFacts Domain Wire.
#[local] Open Scope Z_scope.

Record binanceTradeMessage := Msg {
  EventType : string;
  MsgEventTime : Z;
  MsgSymbol : string;
  MsgTradeID : Z;
  MsgPrice : string;
  MsgQuantity : string;
  TradeTime : Z;
  BuyerIsMaker : bool;
  Ignore : bool;
}.
#[export] Instance binanceTradeMessage_eq_dec : EqDecision binanceTradeMessage.
Proof. solve_decision. Defined.

Definition zero_msg : binanceTradeMessage := Msg "" 0 "" 0 "" "" 0 false false.

(** The tags differ from each other by case only ([e]/[E], [t]/[T], [m]/[M]). *)
Definition binanceTradeMessage_fields : fields binanceTradeMessage := [
  field "e" EventType (fun x m => Msg x (MsgEventTime m) (MsgSymbol m) (MsgTradeID m) (MsgPrice m)
    (MsgQuantity m) (TradeTime m) (BuyerIsMaker m) (Ignore m)) decode_string;
  field "E" MsgEventTime (fun x m => Msg (EventType m) x (MsgSymbol m) (MsgTradeID m) (MsgPrice m)
    (MsgQuantity m) (TradeTime m) (BuyerIsMaker m) (Ignore m)) decode_int64;
  field "s" MsgSymbol (fun x m => Msg (EventType m) (MsgEventTime m) x (MsgTradeID m) (MsgPrice m)
    (MsgQuantity m) (TradeTime m) (BuyerIsMaker m) (Ignore m)) decode_string;
  field "t" MsgTradeID (fun x m => Msg (EventType m) (MsgEventTime m) (MsgSymbol m) x (MsgPrice m)
    (MsgQuantity m) (TradeTime m) (BuyerIsMaker m) (Ignore m)) decode_int64;
  field "p" MsgPrice (fun x m => Msg (EventType m) (MsgEventTime m) (MsgSymbol m) (MsgTradeID m) x
    (MsgQuantity m) (TradeTime m) (BuyerIsMaker m) (Ignore m)) decode_string;
  field "q" MsgQuantity (fun x m => Msg (EventType m) (MsgEventTime m) (MsgSymbol m) (MsgTradeID m)
    (MsgPrice m) x (TradeTime m) (BuyerIsMaker m) (Ignore m)) decode_string;
  field "T" TradeTime (fun x m => Msg (EventType m) (MsgEventTime m) (MsgSymbol m) (MsgTradeID m)
    (MsgPrice m) (MsgQuantity m) x (BuyerIsMaker m) (Ignore m)) decode_int64;
  field "m" BuyerIsMaker (fun x m => Msg (EventType m) (MsgEventTime m) (MsgSymbol m) (MsgTradeID m)
    (MsgPrice m) (MsgQuantity m) (TradeTime m) x (Ignore m)) decode_bool;
  field "M" Ignore (fun x m => Msg (EventType m) (MsgEventTime m) (MsgSymbol m) (MsgTradeID m)
    (MsgPrice m) (MsgQuantity m) (TradeTime m) (BuyerIsMaker m) x) decode_bool].

Section Normalizer.
Context `{Unicode}.

(** [strconv.ParseFloat] followed by the guard [err != nil || x <= 0]. *)
Definition parse_positive (s : string) : option float64 :=
  match ParseFloat (str s) with
  | Ok x => if f64_leb x f64_zero then None else Some x
  | Err _ => None
  end.

Definition normalizeTrade (raw : bytes) (ingestTime : Time) : result error TradeEvent :=
  match unmarshal (decode_struct binanceTradeMessage_fields) raw zero_msg with
  | Err err => Err (Errorf_w "unmarshal trade message: " err)
  | Ok msg =>
      if bool_decide (EventType msg <> "trade"%string)
      then Err (ErrorString ("unexpected event type " ++ Quote (EventType msg)))
      else if bool_decide (MsgSymbol msg = ""%string) then Err (ErrorString "missing symbol")
      else
        match parse_positive (MsgPrice msg) with
        | None => Err (ErrorString ("invalid price " ++ Quote (MsgPrice msg)))
        | Some price =>
            match parse_positive (MsgQuantity msg) with
            | None => Err (ErrorString ("invalid quantity " ++ Quote (MsgQuantity msg)))
            | Some quantity =>
                if TradeTime msg <=? 0
                then Err (ErrorString ("invalid trade time " ++ pretty (TradeTime msg)))
                else
                  let side := if BuyerIsMaker msg then SideSell else SideBuy in
                  Ok {| Symbol := MsgSymbol msg; Price := price; Quantity := quantity;
                        TradeSide := side; TradeID := MsgTradeID msg; Notional := f64_zero;
                        Market := zero_MarketMetadata; IsWhale := false;
                        EventTime := UTC (UnixMilli (TradeTime msg)); IngestTime := ingestTime |}
            end
        end
  end.
End Normalizer.

(** ** What the guards accept *)

(** A number a fill can have: above zero, possibly infinite. *)
Definition positive (x : float64) : Prop :=
  match x with S754_finite false _ _ | S754_infinity false => True | _ => False end.

(** The specification, in terms of what the texts of a message denote: the price and the quantity of a
    fill, or NaN, which no comparison with zero excludes. *)
Definition fill_number (text : string) (x : float64) : Prop :=
  ParseFloat (str text) = Ok x /\ (positive x \/ x = S754_nan).
Definition acceptable (m : binanceTradeMessage) : Prop :=
  EventType m = "trade"%string /\ MsgSymbol m <> ""%string /\
  (exists p, fill_number (MsgPrice m) p) /\ (exists q, fill_number (MsgQuantity m) q) /\ 0 < TradeTime m.

(** Which error a message gets: that of the first thing that is wrong with it. *)
Inductive rejection `{Unicode} (m : binanceTradeMessage) : error -> Prop :=
  | bad_type : EventType m <> "trade"%string ->
      rejection m (ErrorString ("unexpected event type " ++ Quote (EventType m)))
  | no_symbol : EventType m = "trade"%string -> MsgSymbol m = ""%string -> rejection m (ErrorString "missing symbol")
  | bad_price : EventType m = "trade"%string -> MsgSymbol m <> ""%string ->
      (forall p, ~ fill_number (MsgPrice m) p) -> rejection m (ErrorString ("invalid price " ++ Quote (MsgPrice m)))
  | bad_quantity p : EventType m = "trade"%string -> MsgSymbol m <> ""%string -> fill_number (MsgPrice m) p ->
      (forall q, ~ fill_number (MsgQuantity m) q) ->
      rejection m (ErrorString ("invalid quantity " ++ Quote (MsgQuantity m)))
  | bad_time p q : EventType m = "trade"%string -> MsgSymbol m <> ""%string -> fill_number (MsgPrice m) p ->
      fill_number (MsgQuantity m) q -> TradeTime m <= 0 ->
      rejection m (ErrorString ("invalid trade time " ++ pretty (TradeTime m))).

Lemma not_le_zero x : f64_leb x f64_zero = false <-> positive x \/ x = S754_nan.
Proof. destruct x as [[]|[]| |[]]; cbv; intuition discriminate. Qed.

Lemma parse_positive_spec s x :
  parse_positive s = Some x <-> fill_number s x.
Proof.
  unfold parse_positive, fill_number. destruct (ParseFloat (str s)) as [y|err].
  - destruct (f64_leb y f64_zero) eqn:He.
    + split; [done|]. intros [[= ->] Hx]. apply not_le_zero in Hx. congruence.
    + split; [intros [= ->]; split; [done|by apply not_le_zero]|by intros [[= ->] _]].
  - split; [done|by intros []].
Qed.

Lemma normalizeTrade_Ok `{Unicode} raw now ev :
  normalizeTrade raw now = Ok ev <->
  exists m p q,
    unmarshal (decode_struct binanceTradeMessage_fields) raw zero_msg = Ok m /\
    EventType m = "trade"%string /\ MsgSymbol m <> ""%string /\
    parse_positive (MsgPrice m) = Some p /\ parse_positive (MsgQuantity m) = Some q /\
    0 < TradeTime m /\
    ev = {| Symbol := MsgSymbol m; Price := p; Quantity := q;
            TradeSide := if BuyerIsMaker m then SideSell else SideBuy; TradeID := MsgTradeID m;
            Notional := f64_zero; Market := zero_MarketMetadata; IsWhale := false;
            EventTime := UTC (UnixMilli (TradeTime m)); IngestTime := now |}.
Proof.
  unfold normalizeTrade. destruct (unmarshal _ _ _) as [m|err].
  2: { split; [done|]. by intros (? & ? & ? & [=] & _). }
  destruct (bool_decide_reflect (EventType m <> "trade"%string)) as [Hty|Hty].
  { split; [done|]. intros (? & ? & ? & [= <-] & ? & _). done. }
  apply dec_stable in Hty.
  destruct (bool_decide_reflect (MsgSymbol m = ""%string)) as [Hs|Hs].
  { split; [done|]. intros (? & ? & ? & [= <-] & _ & ? & _). done. }
  destruct (parse_positive (MsgPrice m)) as [p|] eqn:Hp.
  2: { split; [done|]. intros (? & ? & ? & [= <-] & _ & _ & ? & _). congruence. }
  destruct (parse_positive (MsgQuantity m)) as [q|] eqn:Hq.
  2: { split; [done|]. intros (? & ? & ? & [= <-] & _ & _ & _ & ? & _). congruence. }
  destruct (Z.leb_spec (TradeTime m) 0) as [Ht|Ht].
  { split; [done|]. intros (? & ? & ? & [= <-] & _ & _ & _ & _ & ? & _). lia. }
  split.
  - intros [= <-]. exists m, p, q. done.
  - intros (m' & p' & q' & [= <-] & _ & _ & Hp' & Hq' & _ & ->). congruence.
Qed.

Lemma special_nonfinite l x : special l = Some x -> f64_is_finite x = false.
Proof. unfold special. repeat case_goal; by intros [= <-]. Qed.

Lemma readFloat_denominator s neg n d : readFloat s = Some (neg, n, d) -> 0 < d.
Proof.
  assert (forall (hex : bool) x, 0 < (if hex then 2 else 10) ^ Z.max 0 (- x)) as Hpow.
  { intros hex x. apply Z.pow_pos_nonneg; destruct hex; lia. }
  unfold readFloat. destruct (drop_sign s) as [sg l].
  destruct (match l with z :: x :: _ :: _ => _ | _ => _ end) as [hex l1].
  destruct (scan_mantissa hex l1 float_scan0) as [st l2].
  destruct (negb (sawdigits st)); [done|].
  match goal with |- match ?ex with _ => _ end = _ -> _ => destruct ex as [[[e us] [|c r]]|] end; [|done..].
  destruct (us && negb (underscoreOK s)); [done|]. intros [= _ _ <-]. apply Hpow.
Qed.

Lemma ParseFloat_valid l x : ParseFloat l = Ok x -> f64_is_finite x = true -> f64_valid x.
Proof.
  unfold ParseFloat. destruct (special l) as [y|] eqn:Hs.
  - intros [= <-] Hf. apply special_nonfinite in Hs. congruence.
  - destruct (readFloat l) as [[[neg n] d]|] eqn:Hr; [|done]. intros Hx Hf.
    assert (round_frac neg n d = x) as <- by (destruct (round_frac neg n d); congruence).
    eapply round_frac_valid, readFloat_denominator, Hr.
Qed.

(** A count of milliseconds after the epoch falls in a year that is not negative. *)
#[local] Ltac Zify.zify_post_hook ::= Z.to_euclidean_division_equations.
Lemma year_nonneg d : 0 <= d -> 0 <= year (civil_from_days d).
Proof.
  intros Hd. unfold civil_from_days. cbn [year].
  set (m := if _ <? 10 then _ else _). assert (0 <= (if m <=? 2 then 1 else 0)) by (case_goal; lia).
  clearbody m.
  assert (0 <= (d + 719468) / 146097) by lia.
  pose proof (yoe_range (d + 719468 - (d + 719468) / 146097 * 146097) ltac:(lia)) as Hy.
  unfold yoe_of in Hy. lia.
Qed.

Lemma EventTime_ok ms : 0 < ms -> Time_year (UTC (UnixMilli ms)) <= 9999 -> time_ok (UTC (UnixMilli ms)).
Proof.
  intros Hms Hy. split; [done|]. split; [|done]. apply year_nonneg.
  unfold local_ns, UTC, UnixMilli. cbn [unix_ns zone]. unfold Second, Millisecond, Microsecond, Nanosecond. lia.
Qed.

Lemma normalizeTrade_trade_ok `{Unicode} raw now ev :
  normalizeTrade raw now = Ok ev ->
  f64_is_finite (Price ev) = true -> f64_is_finite (Quantity ev) = true ->
  isASCII (Symbol ev) = true -> time_ok now -> Time_year (EventTime ev) <= 9999 -> in_int64 (TradeID ev) ->
  trade_ok ev.
Proof.
  intros (m & p & q & _ & _ & _ & Hp & Hq & Ht & ->)%normalizeTrade_Ok Hfp Hfq Hs Hnow Hy Hid.
  cbn [Price Quantity Symbol EventTime TradeID] in *.
  apply parse_positive_spec in Hp as [Hp _], Hq as [Hq _].
  split; cbn [Symbol TradeSide Price Quantity Notional TradeID Market EventTime IngestTime]; try done.
  - by destruct (BuyerIsMaker m).
  - split; [by eapply ParseFloat_valid|done].
  - split; [by eapply ParseFloat_valid|done].
  - by apply EventTime_ok.
Qed.

Lemma normalizeTrade_malformed `{Unicode} raw now inner :
  unmarshal (decode_struct binanceTradeMessage_fields) raw zero_msg = Err inner ->
  normalizeTrade raw now = Err (Errorf_w "unmarshal trade message: " inner).
Proof. intros Hm. unfold normalizeTrade. by rewrite Hm. Qed.

Lemma parse_positive_none s : parse_positive s = None -> forall x, ~ fill_number s x.
Proof. intros Hn x Hx%parse_positive_spec. congruence. Qed.

Lemma rejection_unacceptable `{Unicode} m e : rejection m e -> ~ acceptable m.
Proof.
  intros Hr (Hty & Hs & [p Hp] & [q Hq] & Ht). destruct Hr as [| |? ? Hn|? ? ? ? Hn|]; try done.
  - by apply (Hn p).
  - by apply (Hn q).
  - lia.
Qed.

Lemma normalizeTrade_Err `{Unicode} raw now e :
  normalizeTrade raw now = Err e ->
  match unmarshal (decode_struct binanceTradeMessage_fields) raw zero_msg with
  | Ok m => rejection m e
  | Err inner => e = Wrapped ("unmarshal trade message: " ++ Error inner) inner
  end.
Proof.
  unfold normalizeTrade. destruct (unmarshal _ raw zero_msg) as [m|inner]; [|by intros [= <-]].
  destruct (bool_decide_reflect (EventType m <> "trade"%string)) as [Hty|Hty]; [intros [= <-]; by apply bad_type|].
  apply dec_stable in Hty.
  destruct (bool_decide_reflect (MsgSymbol m = ""%string)) as [Hs|Hs]; [intros [= <-]; by apply no_symbol|].
  destruct (parse_positive (MsgPrice m)) as [p|] eqn:Hp; [apply parse_positive_spec in Hp|].
  2: { intros [= <-]. apply bad_price; [exact Hty|exact Hs|by apply parse_positive_none]. }
  destruct (parse_positive (MsgQuantity m)) as [q|] eqn:Hq; [apply parse_positive_spec in Hq|].
  2: { intros [= <-]. apply (bad_quantity m p); [exact Hty|exact Hs|exact Hp|by apply parse_positive_none]. }
  destruct (Z.leb_spec (TradeTime m) 0) as [Ht|]; [|done]. intros [= <-]. exact (bad_time m p q Hty Hs Hp Hq Ht).
Qed.

(** ** A message as Binance sends it, for examples *)

Definition binance_raw (price quantity : string) (ms : Z) : bytes :=
  print (JObject
    (member "e" (json_string "trade") ++ member "E" (json_int ms) ++
     member "s" (json_string "BTCUSDT") ++ member "t" (json_int 12345) ++
     member "p" (json_string price) ++ member "q" (json_string quantity) ++
     member "b" (json_int 88) ++ member "a" (json_int 50) ++
     member "T" (json_int ms) ++ member "m" (JBool true) ++ member "M" (JBool true))).
Definition example_now : Time := {| unix_ns := 1700000000123456789; zone := 0 |}.
Definition example_raw : bytes := binance_raw "65000.10" "0.25" 1700000000000.

(** ** Properties *)

(** C10: normalisation accepts exactly the messages that decode to a trade event with a symbol, a
    price and a quantity whose texts denote a number above zero (or NaN), and a positive trade
    time; the event then carries those fields, the maker flag turned into the aggressor side,
    the trade time in UTC and the injected ingest time, and nothing the enricher sets.  Every
    other message is rejected with the error of the first thing that is wrong with it, and a
    rejection because of the JSON keeps the decoder's error in its chain. *)
Theorem normalizeTrade_decides `{Unicode} (raw : bytes) (now : Time) :
  match unmarshal (decode_struct binanceTradeMessage_fields) raw zero_msg with
  | Err inner =>
      normalizeTrade raw now = Err (Wrapped ("unmarshal trade message: " ++ Error inner) inner)
  | Ok m =>
      (is_Ok (normalizeTrade raw now) = true <-> acceptable m) /\
      match normalizeTrade raw now with
      | Ok ev =>
          Symbol ev = MsgSymbol m /\ TradeID ev = MsgTradeID m /\
          fill_number (MsgPrice m) (Price ev) /\ fill_number (MsgQuantity m) (Quantity ev) /\
          TradeSide ev = (if BuyerIsMaker m then SideSell else SideBuy) /\
          EventTime ev = {| unix_ns := TradeTime m * Millisecond; zone := 0 |} /\ IngestTime ev = now /\
          Notional ev = f64_zero /\ Market ev = zero_MarketMetadata /\ IsWhale ev = false
      | Err e => rejection m e
      end
  end.
Proof.
  destruct (normalizeTrade raw now) as [ev|e] eqn:Hn.
  - apply normalizeTrade_Ok in Hn as (m & p & q & -> & Hty & Hs & Hp & Hq & Ht & ->).
    apply parse_positive_spec in Hp, Hq. split; [|done]. split; [|done]. intros _. unfold acceptable. eauto 10.
  - pose proof (normalizeTrade_Err raw now e Hn) as Hr.
    destruct (unmarshal _ raw zero_msg) as [m|inner]; [|by rewrite Hr]. split; [|done].
    split; [done|]. by intros Ha%(rejection_unacceptable m e Hr).
Qed.

(** C11: a trade that passes normalisation with finite numbers, an ASCII symbol and times that JSON
    can carry is written to the topic without error, and the consumer that decodes the payload
    into a fresh event gets the same trade back, bit for bit. *)
Theorem normalizeTrade_survives_the_topic `{Unicode} (raw : bytes) (now : Time) (ev : TradeEvent) :
  normalizeTrade raw now = Ok ev ->
  f64_is_finite (Price ev) = true -> f64_is_finite (Quantity ev) = true ->
  isASCII (Symbol ev) = true -> time_ok now -> Time_year (EventTime ev) <= 9999 -> in_int64 (TradeID ev) ->
  exists payload, Marshal ev = Ok payload /\ Unmarshal payload zero_TradeEvent = Ok ev.
Proof.
  intros Hn Hp Hq Hs Hnow Hy Hid.
  pose proof (normalizeTrade_trade_ok raw now ev Hn Hp Hq Hs Hnow Hy Hid) as Hok.
  destruct (marshal_total ev Hok) as [l Hl]. exists l. split; [done|].
  by eapply (unmarshal_marshal (A := TradeEvent)).
Qed.

Lemma normalizeTrade_survives_the_topic_witness :
  exists ev, @normalizeTrade ascii_only example_raw example_now = Ok ev /\ TradeSide ev = SideSell /\
    exists payload, Marshal ev = Ok payload /\ Unmarshal payload zero_TradeEvent = Ok ev.
Proof.
  eexists. split; [vm_compute; reflexivity|]. split; [reflexivity|].
  apply (@normalizeTrade_survives_the_topic ascii_only example_raw example_now); vm_compute;
    repeat first [reflexivity | discriminate | split].
Defined.

(** What the guards miss: [NaN <= 0] is false and an infinite price is above zero, so a message
    whose price spells either becomes an event, but no such event can be encoded, and the
    publisher rejects it with the encoder's error. *)
Theorem normalizeTrade_nonfinite `{Unicode} (now : Time) :
  (forall raw ev, normalizeTrade raw now = Ok ev ->
     f64_is_finite (Price ev) = false -> Marshal ev = Err UnsupportedValueError) /\
  (exists ev, normalizeTrade (binance_raw "NaN" "1" 1700000000000) now = Ok ev /\ Price ev = S754_nan) /\
  (exists ev, normalizeTrade (binance_raw "Inf" "1" 1700000000000) now = Ok ev /\
              Price ev = S754_infinity false).
Proof.
  split.
  - intros raw ev Hn Hf. unfold Marshal, TradeEvent_JSON, encode_TradeEvent.
    destruct (Price ev) as [[]|[]| |[] ? ?]; done.
  - split; eexists; split; try (vm_compute; reflexivity).
Qed.
