(* ===== verification/WireTypes.v ===== *)
(** * What decoding can yield

    Whatever text [json.Unmarshal] accepts, the floats of the result are finite binary64 values, the
    integers fit 64 bits and the instants lie in years of four digits ([trade_typed], [book_typed]).
    The one thing that decodes and cannot be encoded again is a zone of a day or more. *)
From S2P Require Import Prelude GoBase Decimal Float64 Float64Facts Float64Text Json JsonFacts GoTime GoTimeFacts Domain Wire Normalizer.
#[local] Open Scope Z_scope.

(** ** Number literals *)

(** A JSON number never spells an infinity or NaN. *)
Definition numeric (lit : bytes) : Prop :=
  match lit with
  | c :: l => is_digit c = true \/ (c = "-"%char /\ match l with d :: _ => is_digit d = true | [] => False end)
  | [] => False
  end.

Lemma lower_digit c : is_digit c = true -> lower_byte c = c.
Proof. by destruct c as [[] [] [] [] [] [] [] []]. Qed.

Lemma special_numeric lit : numeric lit -> special lit = None.
Proof.
  intros Hn. unfold special. cbv zeta.
  assert (exists c t, unstr (map lower_byte lit) = String c t /\
    (is_digit c = true \/ exists d t', c = "-"%char /\ t = String d t' /\ is_digit d = true)) as (c & t & -> & Ht).
  { destruct lit as [|c l]; [done|]. destruct Hn as [Hc|[-> Hd]].
    - exists c, (unstr (map lower_byte l)). cbn. rewrite lower_digit by done. split; [done|by left].
    - destruct l as [|d l]; [done|]. exists "-"%char, (String d (unstr (map lower_byte l))). cbn.
      rewrite (lower_digit d) by done. split; [done|]. right. by exists d, (unstr (map lower_byte l)). }
  repeat rewrite decide_False; [done|..]; intros Heq;
    repeat match type of Heq with _ \/ _ => destruct Heq as [Heq|Heq] end;
    injection Heq as -> Heq; destruct Ht as [Hd|(d & t' & Hc & -> & Hd)]; try discriminate;
    injection Heq as -> _; discriminate Hd.
Qed.

Lemma scan_int_numeric l i r : scan_int l = Some (i, r) -> match i with c :: _ => is_digit c = true | [] => False end.
Proof.
  destruct l as [|c l]; [done|]. cbn [scan_int]. destruct (Ascii.eqb_spec c "0") as [->|_].
  - intros [= <- _]. done.
  - destruct (is_digit c) eqn:Hc; [|done]. cbn [span_digits]. rewrite Hc. destruct (span_digits l).
    intros [= <- _]. done.
Qed.

Lemma scan_number_numeric l lit r : scan_number l = Some (lit, r) -> numeric lit.
Proof.
  unfold scan_number.
  set (p := match l with c :: l' => if Ascii.eqb c "-" then ([c], l') else ([], l) | [] => ([], []) end).
  assert (p.1 = [] \/ p.1 = ["-"%char]) as Hsg.
  { subst p. destruct l as [|c l']; [by left|]. destruct (Ascii.eqb_spec c "-") as [->|]; [by right|by left]. }
  destruct p as [sg l1]. cbn [fst] in Hsg.
  destruct (scan_int l1) as [[i l2]|] eqn:Hi; [|done]. cbn [mbind option_bind].
  destruct (scan_frac l2) as [[f l3]|]; [|done]. cbn [mbind option_bind].
  destruct (scan_exp l3) as [[e l4]|]; [|done]. cbn [mbind option_bind]. intros [= <- _].
  apply scan_int_numeric in Hi. destruct i as [|c i]; [done|]. destruct Hsg as [-> | ->]; cbn; [by left|by right].
Qed.

(** Every number of a value nested at most [d] deep is numeric. *)
Fixpoint numbers (d : nat) (j : json) : Prop :=
  match j with
  | JNumber lit => numeric lit
  | JArray js => match d with O => False | S d' => Forall (numbers d') js end \/ js = []
  | JObject kvs => match d with O => False | S d' => Forall (fun kv => numbers d' kv.2) kvs end \/ kvs = []
  | _ => True
  end.

Section Parsing.
Context (value : bytes -> option (json * bytes)) (good : json -> Prop).
Context (Hvalue : forall l j r, value l = Some (j, r) -> good j).

Lemma parse_elems_good fuel l js r : parse_elems value fuel l = Some (js, r) -> Forall good js.
Proof.
  revert l js r. induction fuel as [|fuel IH]; intros l js r; [done|]. cbn [parse_elems].
  destruct (value l) as [[v l1]|] eqn:Hv; [|done]. cbn [mbind option_bind]. apply Hvalue in Hv.
  destruct (skip_ws l1) as [|c l2]; [done|]. destruct (Ascii.eqb c ",").
  - destruct (parse_elems value fuel l2) as [[vs r']|] eqn:Hr; [|done]. cbn [mbind option_bind].
    intros [= <- _]. constructor; [done|]. by eapply IH.
  - destruct (Ascii.eqb c "]"); [|done]. intros [= <- _]. by repeat constructor.
Qed.

Lemma parse_members_good fuel l kvs r :
  parse_members value fuel l = Some (kvs, r) -> Forall (fun kv => good kv.2) kvs.
Proof.
  revert l kvs r. induction fuel as [|fuel IH]; intros l kvs r; [done|]. cbn [parse_members].
  destruct (parse_member value l) as [[[k v] l1]|] eqn:Hm; [|done]. cbn [mbind option_bind].
  assert (good v) as Hv.
  { unfold parse_member in Hm. destruct (skip_ws l) as [|c l2]; [done|]. destruct (Ascii.eqb c dquote); [|done].
    destruct (scan_string l2) as [[k' l3]|]; [|done]. cbn [mbind option_bind] in Hm.
    destruct (skip_ws l3) as [|c' l4]; [done|]. destruct (Ascii.eqb c' ":"); [|done].
    destruct (value l4) as [[v' r']|] eqn:Hv'; [|done]. injection Hm as _ <- _. by eapply Hvalue. }
  destruct (skip_ws l1) as [|c l2]; [done|]. destruct (Ascii.eqb c ",").
  - destruct (parse_members value fuel l2) as [[vs r']|] eqn:Hr; [|done]. cbn [mbind option_bind].
    intros [= <- _]. constructor; [done|]. by eapply IH.
  - destruct (Ascii.eqb c "}"); [|done]. intros [= <- _]. by repeat constructor.
Qed.
End Parsing.

Lemma parse_value_numbers d l j r : parse_value d l = Some (j, r) -> numbers d j.
Proof.
  revert l j r. induction d as [|d IH]; intros l j r; cbn [parse_value];
    (destruct (skip_ws l) as [|c l1]; [done|]);
    repeat match goal with
    | |- context [if ?b then _ else _] => destruct b
    | |- context [scan_string ?x] => destruct (scan_string x) as [[raw r1]|]; [cbn [mbind option_bind]|done]
    | |- context [strip ?p ?x] => destruct (strip p x) as [r1|]; [cbn [mbind option_bind]|done]
    | |- context [match skip_ws ?x with _ => _ end] => destruct (skip_ws x) as [|c2 l2]; [done|]
    | |- context [parse_elems ?v ?f ?x] =>
        destruct (parse_elems v f x) as [[vs r1]|] eqn:He; [cbn [mbind option_bind]|done]
    | |- context [parse_members ?v ?f ?x] =>
        destruct (parse_members v f x) as [[vs r1]|] eqn:He; [cbn [mbind option_bind]|done]
    | |- context [scan_number ?x] => destruct (scan_number x) as [[lit r1]|] eqn:He; [cbn [mbind option_bind]|done]
    end; intros [= <- _]; cbn [numbers]; try done; try (by right).
  - by eapply scan_number_numeric.
  - left. by eapply parse_elems_good.
  - left. by eapply (parse_members_good _ (numbers d)).
  - by eapply scan_number_numeric.
Qed.

(** ** Decoders keep types *)

(** [d] yields values of [Q], started from one. *)
Definition keeps {A : Type} (n : nat) (Q : A -> Prop) (d : decoder A) : Prop :=
  forall j old x, numbers n j -> Q old -> d j old = Ok x -> Q x.

Lemma keeps_any {A : Type} n (d : decoder A) : keeps n (fun _ => True) d.
Proof. by intros j old x. Qed.

Lemma keeps_field {A B : Type} n (I : A -> Prop) (Q : B -> Prop) name get set (d : decoder B) :
  keeps n Q d -> (forall a, I a -> Q (get a)) -> (forall x a, Q x -> I a -> I (set x a)) ->
  keeps n I (field name get set d).2.
Proof.
  intros Hd Hget Hset j a b Hj Ha. cbn. destruct (d j (get a)) as [x|] eqn:Hx; [|done].
  cbn [mbind result_bind]. intros [= <-]. apply Hset; [|done]. eapply Hd; [done| |exact Hx]. by apply Hget.
Qed.

Lemma keeps_struct {A : Type} n (I : A -> Prop) (fs : fields A) :
  Forall (fun f => keeps n I f.2) fs -> keeps (S n) I (decode_struct fs).
Proof.
  intros Hfs j old x Hj Ho. destruct j as [| | | | |kvs]; try done; cbn [decode_struct]; [by intros [= <-]|].
  assert (Forall (fun kv => numbers n kv.2) kvs) as Hk by (destruct Hj as [Hj| ->]; [exact Hj|constructor]).
  clear Hj. revert old Ho. induction Hk as [|[k v] kvs Hv _ IH]; intros a Ha; cbn [decode_members]; [by intros [= <-]|].
  destruct (find_field fs (str (unescape k))) as [d|] eqn:Hf; [|by apply IH].
  assert (keeps n I d) as Hd.
  { rewrite Forall_forall in Hfs. unfold find_field in Hf.
    destruct (List.find (fun f => bool_decide (str f.1 = _)) fs) as [f|] eqn:H1;
      [|destruct (List.find (fun f => bool_decide (fold_name (str f.1) = _)) fs) as [f|] eqn:H2; [|discriminate Hf]];
      injection Hf as <-; apply Hfs, list_elem_of_In; by eapply List.find_some. }
  destruct (d v a) as [a'|] eqn:Hda; [|done]. cbn [mbind result_bind]. apply IH. by eapply Hd.
Qed.

Lemma keeps_slice {A : Type} n (Q : A -> Prop) zero (elem : decoder A) :
  Q zero -> keeps n Q elem -> keeps (S n) (fun s => Forall Q (default [] s)) (decode_slice zero elem).
Proof.
  intros Hz He j old x Hj Ho. destruct j as [| | | |js|]; try done; cbn [decode_slice]; [by intros [= <-]|].
  assert (Forall (numbers n) js) as Hjs by (destruct Hj as [Hj| ->]; [exact Hj|constructor]). clear Hj.
  destruct (decode_elems zero elem js (default [] old)) as [xs|] eqn:Hd; [|done].
  intros [= <-]. cbn [default]. revert xs Hd. set (olds := default [] old) in *. clearbody olds.
  revert olds Ho. induction Hjs as [|j js Hj _ IH]; intros olds Ho xs; cbn [decode_elems]; [by intros [= <-]|].
  destruct (elem j _) as [y|] eqn:Hy; [|done]. cbn [mbind result_bind].
  destruct (decode_elems zero elem js (tail olds)) as [ys|] eqn:Hys; [|done]. cbn [mbind result_bind].
  intros [= <-]. constructor.
  - eapply He; [exact Hj| |exact Hy]. destruct Ho; [exact Hz|done].
  - eapply IH; [|exact Hys]. by destruct Ho.
Qed.

Lemma ParseFloat_numeric lit x : numeric lit -> ParseFloat lit = Ok x -> float_ok x.
Proof.
  intros Hn Hp. assert (f64_is_finite x = true) as Hf; [|split; [by eapply ParseFloat_valid|done]].
  unfold ParseFloat in Hp. rewrite special_numeric in Hp by done.
  destruct (readFloat lit) as [[[neg n] d]|]; [|done].
  destruct (round_frac neg n d) eqn:Hr; try done; try (by injection Hp as <-).
  injection Hp as <-. exfalso. revert Hr. unfold round_frac.
  repeat case_goal; discriminate.
Qed.

Lemma keeps_float n : keeps n float_ok decode_float.
Proof.
  intros j old x Hj Ho. destruct j; try done; cbn [decode_float]; [by intros [= <-]|].
  destruct (ParseFloat lit) as [y|] eqn:Hp; [|done]. intros [= <-].
  eapply ParseFloat_numeric; [|exact Hp]. by destruct n.
Qed.

Lemma keeps_time n : keeps n time_typed (decode_text Time_Unmarshal).
Proof.
  intros j old x _ Ho. destruct j; try done; cbn [decode_text]; [by intros [= <-]|]. apply Time_Unmarshal_typed.
Qed.

Lemma ParseInt_range l m : ParseInt l = Some m -> in_int64 m.
Proof.
  unfold ParseInt. destruct (match l with [] => _ | _ => _ end) as [neg ds]. destruct ds as [|d ds]; [done|].
  destruct (forallb is_digit _); [|done].
  set (v := if neg then _ else _). clearbody v. destruct (_ && _)%bool eqn:Hv; [|done].
  intros [= <-]. zbool. by split.
Qed.

Lemma keeps_int64 n : keeps n in_int64 decode_int64.
Proof.
  intros j old x _ Ho. destruct j; try done; cbn [decode_int64]; [by intros [= <-]|].
  destruct (ParseInt lit) as [m|] eqn:Hp; [|done]. intros [= <-]. by eapply ParseInt_range.
Qed.

(** ** The types of the domain *)

Record trade_typed (t : TradeEvent) : Prop := {
  typed_price : float_ok (Price t);
  typed_quantity : float_ok (Quantity t);
  typed_notional : float_ok (Notional t);
  typed_id : in_int64 (TradeID t);
  typed_event_time : time_typed (EventTime t);
  typed_ingest_time : time_typed (IngestTime t);
}.
Record book_typed (b : OrderBook) : Prop := {
  typed_bids : Forall level_ok (elems (Bids b));
  typed_asks : Forall level_ok (elems (Asks b));
  typed_update : time_typed (LastUpdate b);
}.

Lemma zero_Time_typed : time_typed zero_Time.
Proof. split; vm_compute; [split|]; discriminate. Qed.
Lemma zero_TradeEvent_typed : trade_typed zero_TradeEvent.
Proof. split; try (split; vm_compute; done); apply zero_Time_typed. Qed.

Ltac each_field := repeat apply Forall_cons_2; try apply Forall_nil_2.

Lemma keeps_TradeEvent n : keeps (S n) trade_typed (decode_struct TradeEvent_fields).
Proof.
  apply keeps_struct. unfold TradeEvent_fields. each_field.
  - apply (keeps_field n _ (fun _ => True)); [apply keeps_any|done|by intros x a _ []].
  - apply (keeps_field n _ float_ok); [apply keeps_float|by intros a []|by intros x a Hx []].
  - apply (keeps_field n _ float_ok); [apply keeps_float|by intros a []|by intros x a Hx []].
  - apply (keeps_field n _ (fun _ => True)); [apply keeps_any|done|by intros x a _ []].
  - apply (keeps_field n _ in_int64); [apply keeps_int64|by intros a []|by intros x a Hx []].
  - apply (keeps_field n _ float_ok); [apply keeps_float|by intros a []|by intros x a Hx []].
  - apply (keeps_field n _ (fun _ => True)); [apply keeps_any|done|by intros x a _ []].
  - apply (keeps_field n _ (fun _ => True)); [apply keeps_any|done|by intros x a _ []].
  - apply (keeps_field n _ time_typed); [apply keeps_time|by intros a []|by intros x a Hx []].
  - apply (keeps_field n _ time_typed); [apply keeps_time|by intros a []|by intros x a Hx []].
Qed.

Lemma keeps_PriceLevel n : keeps (S n) level_ok (decode_struct PriceLevel_fields).
Proof.
  apply keeps_struct. each_field.
  - apply (keeps_field n _ float_ok); [apply keeps_float|by intros a []|by intros x a Hx []].
  - apply (keeps_field n _ float_ok); [apply keeps_float|by intros a []|by intros x a Hx []].
Qed.

Lemma keeps_OrderBook n : keeps (S (S (S n))) book_typed (decode_struct OrderBook_fields).
Proof.
  assert (keeps (S (S n)) (fun s => Forall level_ok (elems s)) decode_levels) as Hl.
  { apply keeps_slice; [split; split; vm_compute; done|]. apply keeps_PriceLevel. }
  apply keeps_struct. each_field.
  - apply (keeps_field _ _ (fun _ => True)); [apply keeps_any|done|by intros x a _ []].
  - eapply keeps_field; [exact Hl|by intros a []|by intros x a Hx []].
  - eapply keeps_field; [exact Hl|by intros a []|by intros x a Hx []].
  - apply (keeps_field _ _ time_typed); [apply keeps_time|by intros a []|by intros x a Hx []].
Qed.

(** ** What [json.Unmarshal] yields *)

Lemma unmarshal_typed {A : Type} (Q : A -> Prop) (d : decoder A) l a x :
  (forall n, keeps (S (S (S n))) Q d) -> Q a -> unmarshal d l a = Ok x -> Q x.
Proof.
  intros Hd Ha. unfold unmarshal, parse. destruct (parse_value maxNestingDepth l) as [[j r]|] eqn:Hp; [|done].
  destruct (skip_ws r); [|done]. apply parse_value_numbers in Hp.
  destruct maxNestingDepth as [|[|[|n]]] eqn:Hn; try (by vm_compute in Hn).
  intros Hx. by eapply (Hd n).
Qed.

Lemma Unmarshal_TradeEvent_typed l t : Unmarshal l zero_TradeEvent = Ok t -> trade_typed t.
Proof.
  apply unmarshal_typed; [intros n; apply keeps_TradeEvent|apply zero_TradeEvent_typed].
Qed.

Lemma Unmarshal_OrderBook_typed l b : Unmarshal l zero_OrderBook = Ok b -> book_typed b.
Proof.
  apply unmarshal_typed; [apply keeps_OrderBook|].
  split; [constructor|constructor|apply zero_Time_typed].
Qed.

(** ** What can be encoded again *)

(** A zone of a day or more, which the parser of RFC 3339 accepts and its printer refuses. *)
Definition far_zone (t : Time) : Prop := 24 * 3600 <= Z.abs (zone t).
#[export] Instance far_zone_dec t : Decision (far_zone t) := decide (24 * 3600 <= Z.abs (zone t)).

Lemma json_time_typed t : time_typed t -> (is_Ok (json_time t) = true <-> ~ far_zone t).
Proof.
  intros Ht. pose proof (Time_Marshal_typed t Ht) as Hm. unfold json_time, far_zone.
  destruct (Time_Marshal t); cbn [is_Ok] in *; lia.
Qed.

Lemma encode_TradeEvent_typed t :
  trade_typed t ->
  (is_Ok (encode_TradeEvent t) = true <-> ~ (far_zone (EventTime t) \/ far_zone (IngestTime t))).
Proof.
  intros []. unfold encode_TradeEvent.
  destruct (json_float_spec (Price t)) as (? & -> & _); [done|].
  destruct (json_float_spec (Quantity t)) as (? & -> & _); [done|].
  destruct (json_float_spec (Notional t)) as (? & -> & _); [done|]. cbn [mbind result_bind].
  pose proof (json_time_typed (EventTime t)) as He. pose proof (json_time_typed (IngestTime t)) as Hi.
  destruct (f64_eqb _ _), (json_time (EventTime t)), (json_time (IngestTime t)); cbn [is_Ok mbind result_bind fmap result_fmap] in *; tauto.
Qed.
