(* ===== verification/Runtime.v ===== *)
(** * shared/runtime: the lifetime of a process, and the groups of goroutines every service starts

    [Errgroup] is what the services rely on of [errgroup.Group]; [runtime_Run] is the end of
    [Run], given the error of the caller's context and what the components returned. *)
From S2P Require Import Prelude GoBase.

(** [errgroup.Group]: [Wait] returns the first error of the goroutines, in the order they end. *)
Class Errgroup := {
  group_Wait : list (option error) -> option error;
  group_Wait_nil : forall rs, Forall (fun r => r = None) rs -> group_Wait rs = None;
  group_Wait_error : forall rs err, group_Wait rs = Some err -> Some err ∈ rs;
  group_Wait_some : forall rs err, Some err ∈ rs -> exists err', group_Wait rs = Some err';
}.

Fixpoint first_error (rs : list (option error)) : option error :=
  match rs with
  | [] => None
  | Some e :: _ => Some e
  | None :: rs' => first_error rs'
  end.
Lemma first_error_nil rs : Forall (fun r => r = None) rs -> first_error rs = None.
Proof. by induction 1 as [|? ? -> _ IH]. Qed.
Lemma first_error_in rs err : first_error rs = Some err -> Some err ∈ rs.
Proof.
  induction rs as [|[e|] rs IH]; simpl; [done| |].
  - intros [= ->]. left.
  - intros H. right. auto.
Qed.
Lemma first_error_some rs err : Some err ∈ rs -> exists err', first_error rs = Some err'.
Proof.
  induction rs as [|[e|] rs IH]; simpl; [by intros ?%elem_of_nil|by exists e|].
  intros [?|Hin]%elem_of_cons; [done|by apply IH].
Qed.
Definition first_error_group : Errgroup :=
  {| group_Wait := first_error; group_Wait_nil := first_error_nil; group_Wait_error := first_error_in;
     group_Wait_some := first_error_some |}.

(** [outer] is [ctx.Err()] of the caller's context when [Wait] has returned, [rs] the results of the
    components in the order they ended. *)
Definition runtime_Run `{Errgroup} (outer : option error) (rs : list (option error)) : option error :=
  let err := group_Wait rs in
  if bool_decide (err <> None) && bool_decide (outer = None) then err else None.

(** The group fails exactly if some goroutine does. *)
Lemma group_Wait_iff `{Errgroup} rs : group_Wait rs = None <-> Forall (fun r => r = None) rs.
Proof.
  split; [|apply group_Wait_nil]. intros Hn. apply Forall_forall. intros [e|] Hin; [|done].
  destruct (group_Wait_some rs e Hin) as [e' He]. congruence.
Qed.

(** The exit of a process: without a signal, [Run] returns an error exactly if some component
    failed, and then one that a component returned; once the caller's context has ended, which is
    what a signal does, every failure is reported as a clean shutdown. *)
Theorem runtime_Run_reports `{Errgroup} (outer : option error) (rs : list (option error)) :
  (runtime_Run outer rs <> None <-> outer = None /\ exists err, Some err ∈ rs) /\
  (forall err, runtime_Run outer rs = Some err -> Some err ∈ rs).
Proof.
  unfold runtime_Run. destruct (group_Wait rs) as [err|] eqn:Hg.
  - rewrite bool_decide_eq_true_2 by done. cbn [andb]. pose proof (group_Wait_error rs err Hg) as Hin.
    case_bool_decide as Ho.
    + split; [|by intros ? [= <-]]. split; [|done]. intros _. split; [done|]. by exists err.
    + split; [|done]. split; [done|]. by intros [? _].
  - rewrite bool_decide_eq_false_2 by (intros Hn; by apply Hn). cbn [andb]. split; [|done].
    split; [done|]. intros [_ [err Hin]] _. apply group_Wait_iff in Hg. rewrite Forall_forall in Hg.
    by specialize (Hg _ Hin).
Qed.
