(* ===== verification/Retry.v ===== *)
(** * shared/retry/backoff.go: jittered exponential backoff and the reconnect loop

    [Backoff] is a record threaded through its methods.  The random source is an argument:
    [Int64N] is [rand.Int64N], which panics on a non-positive bound.  [WithBackoff] runs
    against a script of rounds, each of which says how one call of [work] ended. *)
From S2P Require Import Prelude GoBase.
#[local] Open Scope Z_scope.

Definition DefaultBase : Z := 1 * Second.
Definition DefaultMax : Z := 30 * Second.
Definition DefaultResetAfter : Z := 2 * Minute.

Record Backoff := {
  Base : Z;
  Max : Z;
  ResetAfter : Z;
  attempt : Z;
}.
Definition set_attempt (n : Z) (b : Backoff) : Backoff :=
  {| Base := Base b; Max := Max b; ResetAfter := ResetAfter b; attempt := n |}.

Definition NewBackoff : Backoff :=
  {| Base := DefaultBase; Max := DefaultMax; ResetAfter := DefaultResetAfter; attempt := 0 |}.

(** A uniform draw from [0, n), made from a source value [seed]; [None] is the panic. *)
Definition Int64N (seed n : Z) : option Z := if n <=? 0 then None else Some (seed mod n).

(** The loop of [ceiling]: at most [n] doublings, none once [d] has reached [Max]. *)
Fixpoint ceiling_loop (n : nat) (d max : Z) : Z :=
  match n with
  | O => d
  | S n' => if d <? max then ceiling_loop n' (wrap64 (d * 2)) max else d
  end.
Definition ceiling (b : Backoff) : Z :=
  Z.min (ceiling_loop (Z.to_nat (attempt b)) (Base b) (Max b)) (Max b).

Definition jitter (seed d : Z) : option Z := Int64N seed (wrap64 (d + 1)).

(** [Next]: the delay and the advanced sequence, or a panic of the random source. *)
Definition Next (seed : Z) (b : Backoff) : option (Z * Backoff) :=
  let d := ceiling b in
  let b := set_attempt (wrap64 (attempt b + 1)) b in
  match jitter seed d with
  | Some delay => Some (delay, b)
  | None => None
  end.

Definition Observe (uptime : Z) (b : Backoff) : Backoff :=
  if ResetAfter b <=? uptime then set_attempt 0 b else b.

Definition Attempt (b : Backoff) : Z := attempt b.
Definition Reset (b : Backoff) : Backoff := set_attempt 0 b.

(** ** WithBackoff *)

(** One iteration of the loop: the result of [work], whether the context was cancelled when
    it returned, how long it ran, the random draw, and whether the context is cancelled
    before the delay has passed. *)
Record round := {
  work_result : option error;
  cancelled_in_work : bool;
  uptime : Z;
  seed : Z;
  cancelled_in_wait : bool;
}.

Inductive loop_end :=
  | Returned (err : option error)   (** the function returned *)
  | Running                         (** the script ended while it was still looping *)
  | Panicked.

(** The delays waited for and how the loop ended, over the rounds of the script. *)
Fixpoint WithBackoff_from (b : Backoff) (script : list round) : list Z * loop_end :=
  match script with
  | [] => ([], Running)
  | r :: script' =>
      if cancelled_in_work r then ([], Returned None)
      else
        match Next (seed r) (Observe (uptime r) b) with
        | None => ([], Panicked)
        | Some (delay, b') =>
            if cancelled_in_wait r then ([delay], Returned None)
            else
              let '(delays, e) := WithBackoff_from b' script' in
              (delay :: delays, e)
        end
  end.
Definition WithBackoff (script : list round) : list Z * loop_end :=
  WithBackoff_from NewBackoff script.

(** ** Lemmas *)

(** Parameters for which no delay overflows: a positive base and a bound below 2^62. *)
Definition backoff_ok (b : Backoff) : Prop := 0 < Base b /\ 0 < Max b <= 2 ^ 62.

Lemma ceiling_loop_spec n d max :
  0 < d -> max <= 2 ^ 62 -> d < 2 ^ 63 ->
  0 < ceiling_loop n d max /\
  Z.min (ceiling_loop n d max) max = Z.min (d * 2 ^ Z.of_nat n) max.
Proof.
  revert d. induction n as [|n IH]; intros d Hd Hmax Hd'; cbn [ceiling_loop].
  - simpl. split; lia.
  - destruct (Z.ltb_spec d max) as [Hlt|Hge].
    + rewrite wrap64_id by int64_lia.
      destruct (IH (d * 2)) as [Hpos Heq]; [lia..|]. split; [done|].
      rewrite Heq, Nat2Z.inj_succ, Z.pow_succ_r by lia. f_equal. lia.
    + split; [done|].
      assert (1 <= 2 ^ Z.of_nat (S n)) by (pose proof (Z.pow_pos_nonneg 2 (Z.of_nat (S n))); lia).
      rewrite !Z.min_r; nia.
Qed.

Lemma ceiling_closed b :
  backoff_ok b -> in_int64 (Base b) ->
  ceiling b = Z.min (Base b * 2 ^ Z.max 0 (attempt b)) (Max b).
Proof.
  intros [Hb Hm] Hbi. unfold ceiling.
  destruct (ceiling_loop_spec (Z.to_nat (attempt b)) (Base b) (Max b)) as [_ ->]; [int64_lia..|].
  do 3 f_equal. lia.
Qed.

Lemma ceiling_bounds b : backoff_ok b -> in_int64 (Base b) -> 0 < ceiling b <= Max b.
Proof.
  intros Hok Hb. rewrite ceiling_closed by done. destruct Hok.
  pose proof (Z.pow_pos_nonneg 2 (Z.max 0 (attempt b))). nia.
Qed.

Lemma jitter_bounds s d : 0 <= d < int64_max -> exists r, jitter s d = Some r /\ 0 <= r <= d.
Proof.
  intros Hd. unfold jitter, Int64N. rewrite wrap64_id by int64_lia.
  destruct (Z.leb_spec (d + 1) 0); [lia|]. eexists. split; [done|].
  pose proof (Z.mod_pos_bound s (d + 1)). lia.
Qed.

Lemma Next_total s b :
  backoff_ok b -> in_int64 (Base b) ->
  exists delay, Next s b = Some (delay, set_attempt (wrap64 (attempt b + 1)) b) /\
                0 <= delay <= ceiling b.
Proof.
  intros Hok Hb. pose proof (ceiling_bounds b Hok Hb). destruct Hok.
  destruct (jitter_bounds s (ceiling b)) as (r & Hr & ?); [int64_lia|].
  exists r. unfold Next. rewrite Hr. auto.
Qed.

Lemma Observe_params t b :
  Base (Observe t b) = Base b /\ Max (Observe t b) = Max b /\ ResetAfter (Observe t b) = ResetAfter b.
Proof. unfold Observe. destruct (_ <=? _); done. Qed.

(** The part of a [Backoff] that never changes, and the bounds that keep it from overflowing. *)
Definition backoff_inv (b : Backoff) : Prop :=
  backoff_ok b /\ in_int64 (Base b) /\ in_int64 (attempt b).

Lemma NewBackoff_inv : backoff_inv NewBackoff.
Proof. unfold backoff_inv, backoff_ok. vm_compute. repeat split; discriminate. Qed.

Lemma Observe_inv t b : backoff_inv b -> backoff_inv (Observe t b).
Proof.
  unfold Observe. destruct (_ <=? _); [|done]. intros (? & ? & _).
  split; [done|]. split; [done|]. simpl. int64_lia.
Qed.

Lemma set_attempt_inv n b : backoff_inv b -> backoff_inv (set_attempt (wrap64 n) b).
Proof. intros (? & ? & _). split; [done|]. split; [done|]. apply wrap64_range. Qed.
#[export] Hint Resolve NewBackoff_inv Observe_inv set_attempt_inv : go.

Lemma Next_inv s b d b' :
  backoff_inv b -> Next s b = Some (d, b') ->
  backoff_inv b' /\ 0 <= d <= ceiling b /\ b' = set_attempt (wrap64 (attempt b + 1)) b.
Proof.
  intros Hinv HN. pose proof Hinv as (Hok & Hb & _).
  destruct (Next_total s b Hok Hb) as (delay & HN' & Hd). simplify_eq. auto with go.
Qed.

Lemma ceiling_attempt_le b k :
  backoff_inv b -> attempt b <= k -> 0 <= k -> ceiling b <= Z.min (Base b * 2 ^ k) (Max b).
Proof.
  intros (Hok & Hb & _) Hk Hk0. rewrite ceiling_closed by done.
  assert (2 ^ Z.max 0 (attempt b) <= 2 ^ k) by (apply Z.pow_le_mono_r; lia).
  destruct Hok. apply Z.min_le_compat_r. nia.
Qed.

Definition cancels (r : round) : bool := cancelled_in_work r || cancelled_in_wait r.
(** A link that dropped before it counted as recovered. *)
Definition short (resets : Z) (r : round) : bool := uptime r <? resets.

Lemma WithBackoff_from_end b script delays e :
  backoff_inv b -> WithBackoff_from b script = (delays, e) ->
  Forall (fun d => 0 <= d <= Max b) delays /\
  match List.find cancels script with
  | None => e = Running /\ length delays = length script
  | Some _ => e = Returned None
  end.
Proof.
  revert b delays e. induction script as [|r script IH]; intros b delays e Hinv Hrun;
    cbn [WithBackoff_from List.find] in *; [by simplify_eq|].
  unfold cancels at 1. destruct (cancelled_in_work r); [by simplify_eq|].
  destruct (Next (seed r) (Observe (uptime r) b)) as [[d b']|] eqn:HN.
  2: { destruct (Observe_inv (uptime r) b Hinv) as (Ho1 & Ho2 & _).
       destruct (Next_total (seed r) _ Ho1 Ho2) as (? & ? & _). congruence. }
  destruct (Next_inv _ _ _ _ (Observe_inv _ _ Hinv) HN) as (Hinv' & Hd & ->).
  destruct (Observe_params (uptime r) b) as (_ & HM & _).
  assert (0 <= d <= Max b) as Hdm.
  { rewrite <- HM. unfold ceiling in Hd. lia. }
  simpl. destruct (cancelled_in_wait r).
  { simplify_eq. auto. }
  destruct (WithBackoff_from _ script) as [ds e'] eqn:Hrest. simplify_eq.
  destruct (IH _ _ _ Hinv' Hrest) as [Hds He]. simpl in Hds. rewrite HM in Hds.
  split; [by constructor|]. destruct (List.find cancels script); [done|].
  destruct He as [-> Hl]. simpl. by rewrite Hl.
Qed.

(** How many times the ceiling has doubled after the rounds [hist]: one per link that dropped
    early, since the last one that did not; the first round always starts from the base. *)
Definition streak (resets : Z) (hist : list round) : nat := trailing (short resets) (tail hist).

Definition attempt_le (b : Backoff) (hist : list round) : Prop :=
  attempt b <= match hist with [] => 0 | _ => Z.of_nat (S (streak (ResetAfter b) hist)) end.

Lemma streak_snoc resets hist r :
  streak resets (hist ++ [r]) =
  match hist with
  | [] => 0%nat
  | _ => if short resets r then S (streak resets hist) else 0%nat
  end.
Proof. destruct hist as [|r0 hist]; [done|]. unfold streak. simpl. by rewrite trailing_snoc. Qed.

Lemma Observe_attempt_le b hist r :
  attempt_le b hist ->
  attempt (Observe (uptime r) b) <= Z.of_nat (streak (ResetAfter b) (hist ++ [r])).
Proof.
  unfold attempt_le, Observe. rewrite streak_snoc. unfold short.
  intros Ha. destruct (Z.leb_spec (ResetAfter b) (uptime r)) as [Hl|Hl];
    destruct (Z.ltb_spec (uptime r) (ResetAfter b)); try lia; destruct hist; simpl; lia.
Qed.

Lemma attempt_le_snoc b hist r :
  in_int64 (attempt b) ->
  attempt b <= Z.of_nat (streak (ResetAfter b) (hist ++ [r])) ->
  attempt_le (set_attempt (wrap64 (attempt b + 1)) b) (hist ++ [r]).
Proof.
  intros Hi Ha. unfold attempt_le. simpl.
  assert (wrap64 (attempt b + 1) <= attempt b + 1).
  { unfold wrap64. pose proof (Z.mod_le (attempt b + 1 + 2 ^ 63) (2 ^ 64)). int64_lia. }
  destruct (hist ++ [r]) eqn:He; [by destruct hist|]. lia.
Qed.

Lemma WithBackoff_from_delay b hist script delays e i d :
  backoff_inv b -> attempt_le b hist ->
  WithBackoff_from b script = (delays, e) -> delays !! i = Some d ->
  d <= Z.min (Base b * 2 ^ Z.of_nat (streak (ResetAfter b) (hist ++ take (S i) script))) (Max b).
Proof.
  revert b hist delays e i. induction script as [|r script IH];
    intros b hist delays e i Hinv Ha Hrun Hi; cbn [WithBackoff_from] in Hrun; [by simplify_eq|].
  destruct (cancelled_in_work r); [by simplify_eq|].
  destruct (Next _ _) as [[d0 b']|] eqn:HN; [|by simplify_eq].
  pose proof (Observe_inv (uptime r) b Hinv) as Ho.
  destruct (Next_inv _ _ _ _ Ho HN) as (Hinv' & Hd & ->).
  pose proof (Observe_attempt_le b hist r Ha) as Hle.
  destruct (Observe_params (uptime r) b) as (HB & HM & HR).
  destruct i as [|i].
  - assert (d = d0) as ->.
    { destruct (cancelled_in_wait r); [by simplify_eq/=|].
      destruct (WithBackoff_from _ script). by simplify_eq/=. }
    pose proof (ceiling_attempt_le _ _ Ho Hle ltac:(lia)) as Hc.
    rewrite HB, HM in Hc. simpl take. rewrite firstn_O. lia.
  - destruct (cancelled_in_wait r); [by simplify_eq/=|].
    destruct (WithBackoff_from _ script) as [ds e'] eqn:Hrest. simplify_eq/=.
    assert (attempt_le (set_attempt (wrap64 (attempt (Observe (uptime r) b) + 1))
                          (Observe (uptime r) b)) (hist ++ [r])) as Ha'.
    { apply attempt_le_snoc; [apply Ho|]. by rewrite HR. }
    pose proof (IH _ _ _ _ _ Hinv' Ha' Hrest Hi) as Hx.
    simpl in Hx. by rewrite HB, HM, HR, <- app_assoc in Hx.
Qed.

(** ** Properties *)

(** The ceiling doubles with every consecutive failure and saturates at [Max]; no
    doubling overflows, so the delay drawn lies between zero and the ceiling and [Next] never
    panics. *)
Theorem Next_exponential_capped (b : Backoff) (s : Z) :
  backoff_inv b -> 0 <= attempt b < int64_max ->
  ceiling b = Z.min (Base b * 2 ^ attempt b) (Max b) /\
  exists delay, Next s b = Some (delay, set_attempt (attempt b + 1) b) /\
                0 <= delay <= Z.min (Base b * 2 ^ attempt b) (Max b).
Proof.
  intros (Hok & Hb & Ha) Hatt.
  assert (ceiling b = Z.min (Base b * 2 ^ attempt b) (Max b)) as Hc.
  { rewrite ceiling_closed by done. by rewrite Z.max_r by lia. }
  destruct (Next_total s b Hok Hb) as (d & HN & Hd).
  rewrite wrap64_id in HN by int64_lia. rewrite Hc in Hd. eauto.
Qed.

Lemma Next_exponential_capped_witness :
  exists delay, Next 12345678901 (set_attempt 3 NewBackoff) = Some (delay, set_attempt 4 NewBackoff) /\
                0 <= delay <= Z.min (Base NewBackoff * 2 ^ 3) (Max NewBackoff).
Proof.
  apply (Next_exponential_capped (set_attempt 3 NewBackoff) 12345678901).
  - split; [split; vm_compute; intuition discriminate|]. split; vm_compute; split; discriminate.
  - vm_compute. split; [discriminate|reflexivity].
Defined.

(** C25: the reconnect loop never gives up and never fails: it returns only when a
    round cancels the context, then with a nil error, and it neither panics nor stops before;
    every delay it waits for lies between zero and 30 s, and the delay after round [i] is at
    most 1 s doubled once per link that dropped early since the last healthy one. *)
Theorem WithBackoff_reconnects (script : list round) (delays : list Z) (e : loop_end) :
  WithBackoff script = (delays, e) ->
  match List.find cancels script with
  | None => e = Running /\ length delays = length script
  | Some _ => e = Returned None
  end /\
  Forall (fun d => 0 <= d <= DefaultMax) delays /\
  forall i d, delays !! i = Some d ->
    d <= DefaultBase * 2 ^ Z.of_nat (streak DefaultResetAfter (take (S i) script)).
Proof.
  intros Hrun. destruct (WithBackoff_from_end _ _ _ _ NewBackoff_inv Hrun) as [Hds He].
  split; [done|]. split; [done|]. intros i d Hi.
  eapply (WithBackoff_from_delay _ []) in Hrun; [|apply NewBackoff_inv|done|done].
  simpl in Hrun. simpl. lia.
Qed.

Definition example_round (up : Z) (cancel : bool) : round :=
  {| work_result := Some (ErrorString "dropped"); cancelled_in_work := false; uptime := up;
     seed := 987654321987; cancelled_in_wait := cancel |}.

Lemma WithBackoff_reconnects_witness :
  exists delays, WithBackoff [example_round 0 false; example_round Second false;
                              example_round (5 * Minute) false; example_round 7 true]
                 = (delays, Returned None) /\ Forall (fun d => 0 <= d <= DefaultMax) delays.
Proof.
  eexists. split; [vm_compute; reflexivity|].
  eapply (WithBackoff_reconnects [example_round 0 false; example_round Second false;
                                  example_round (5 * Minute) false; example_round 7 true]).
  vm_compute. reflexivity.
Defined.
