(* ===== verification/FxRate.v ===== *)
(** * fx-rate-service/internal/service.go: polling under the reconnect loop

    A session is one call of [pollSession], given what its select statement sees; [fx_Run] hands the
    sessions to [WithBackoff].  The provider request is not written yet: [fetchRates] does nothing. *)
From S2P Require Import Prelude GoBase Config Retry.
#[local] Open Scope Z_scope.

(** What the select of [pollSession] chooses: a tick, with the result of the fetch, or the end of the
    context. *)
Inductive fx_event := Tick (fetched : option error) | Done.

Definition fetchRates : option error := None.

Fixpoint poll_loop (evs : list fx_event) : loop_end :=
  match evs with
  | [] => Running
  | Done :: _ => Returned None
  | Tick (Some err) :: _ => Returned (Some (Errorf_w "fx poll: " err))
  | Tick None :: evs' => poll_loop evs'
  end.
(** [time.NewTicker] panics on a non-positive interval. *)
Definition pollSession (cfg : Config) (evs : list fx_event) : loop_end :=
  if PollInterval (FX cfg) <=? 0 then Panicked else poll_loop evs.

(** A session in the reconnect loop: its events, whether the context has ended when it returns, and
    what the loop then measures and draws. *)
Record session := {
  s_events : list fx_event;
  s_cancelled : bool;
  s_uptime : Z;
  s_seed : Z;
  s_cancelled_in_wait : bool;
}.
(** A nil return means that the context has ended. *)
Definition session_round (s : session) (err : option error) : round :=
  {| work_result := err; cancelled_in_work := s_cancelled s || bool_decide (err = None);
     uptime := s_uptime s; seed := s_seed s; cancelled_in_wait := s_cancelled_in_wait s |}.

(** The rounds that the sessions make, until one of them is still polling or panics. *)
Fixpoint session_rounds (cfg : Config) (ss : list session) : list round * loop_end :=
  match ss with
  | [] => ([], Running)
  | s :: ss' =>
      match pollSession cfg (s_events s) with
      | Returned err =>
          let '(rs, e) := session_rounds cfg ss' in (session_round s err :: rs, e)
      | e => ([], e)
      end
  end.
Definition fx_Run (cfg : Config) (ss : list session) : list Z * loop_end :=
  let '(rs, e) := session_rounds cfg ss in
  let '(delays, e') := WithBackoff rs in
  (delays, match e' with Running => e | _ => e' end).

(** ** Lemmas *)

Lemma poll_loop_spec evs :
  match poll_loop evs with
  | Running => Forall (fun e => e = Tick None) evs
  | Returned None => exists n, evs !! n = Some Done /\ Forall (fun e => e = Tick None) (take n evs)
  | Returned (Some err) =>
      exists n inner, evs !! n = Some (Tick (Some inner)) /\ Forall (fun e => e = Tick None) (take n evs) /\
        err = Errorf_w "fx poll: " inner
  | Panicked => False
  end.
Proof.
  induction evs as [|[[err|]|] evs IH]; cbn [poll_loop]; [constructor|by exists 0%nat, err| |by exists 0%nat].
  destruct (poll_loop evs) as [[err|]| |].
  - destruct IH as (n & inner & H1 & H2 & H3). exists (S n), inner. by repeat constructor.
  - destruct IH as (n & H1 & H2). exists (S n). by repeat constructor.
  - by constructor.
  - done.
Qed.

Lemma session_rounds_end cfg ss rs e :
  0 < PollInterval (FX cfg) -> session_rounds cfg ss = (rs, e) -> e = Running.
Proof.
  intros Hp. revert rs e. induction ss as [|s ss IH]; intros rs e Hs; cbn [session_rounds] in Hs;
    [by injection Hs as _ <-|].
  unfold pollSession in Hs. destruct (Z.leb_spec (PollInterval (FX cfg)) 0); [lia|].
  pose proof (poll_loop_spec (s_events s)) as Hl. destruct (poll_loop (s_events s)) as [err| |]; [| |done].
  - destruct (session_rounds cfg ss) as [rs' e'] eqn:Hr. injection Hs as <- <-. by eapply IH.
  - by injection Hs as _ <-.
Qed.

(** ** Properties *)

(** The FX poller with a positive interval never fails: it runs on or returns nil, whatever the
    provider does, and every wait between two sessions is at most thirty seconds; with an interval
    that is not positive the first session panics. *)
Theorem fx_Run_survives (cfg : Config) (ss : list session) :
  (0 < PollInterval (FX cfg) ->
     let '(delays, e) := fx_Run cfg ss in
     (e = Running \/ e = Returned None) /\ Forall (fun d => 0 <= d <= DefaultMax) delays) /\
  (PollInterval (FX cfg) <= 0 -> ss <> [] -> fx_Run cfg ss = ([], Panicked)).
Proof.
  split.
  - intros Hp. unfold fx_Run. destruct (session_rounds cfg ss) as [rs e] eqn:Hr.
    rewrite (session_rounds_end cfg ss rs e Hp Hr).
    destruct (WithBackoff rs) as [delays e'] eqn:Hw.
    destruct (WithBackoff_from_end _ _ _ _ NewBackoff_inv Hw) as [Hds He].
    split; [|done]. destruct (List.find cancels rs); [right; by rewrite He|left; by destruct He as [-> _]].
  - intros Hp Hss. destruct ss as [|s ss]; [done|]. unfold fx_Run. cbn [session_rounds].
    unfold pollSession. by destruct (Z.leb_spec (PollInterval (FX cfg)) 0); [|lia].
Qed.
