(* ===== verification/Handlers.v ===== *)
(** * processor-service: trade handlers (metadata.go, enricher.go, middleware.go)

    A [TradeHandler] is a function into a state monad over the world its effects act on.
    [MetadataProvider] is the source's interface; [StaticMetadataProvider] implements it.  The
    equivalence [handler_equiv] ignores what a handler appends to the log, and [Chain] and the
    enricher respect it. *)
From S2P Require Import Prelude GoBase Decimal Float64 Float64Facts Json JsonFacts GoTime GoTimeFacts Domain Wire Normalizer.
#[local] Open Scope Z_scope.

(** ** Contexts and effects *)

(** What the code asks of a [context.Context]: its error, and its deadline as an instant. *)
Record Context := { ctx_Err : option error; ctx_Deadline : option Z }.
Definition Background : Context := {| ctx_Err := None; ctx_Deadline := None |}.

Definition M (W A : Type) : Type := W -> A * W.
#[export] Instance M_ret {W : Type} : MRet (M W) := fun A a w => (a, w).
#[export] Instance M_bind {W : Type} : MBind (M W) :=
  fun A B f m w => let '(a, w') := m w in f a w'.

Definition TradeHandler (W : Type) : Type := Context -> TradeEvent -> M W (option error).

(** ** metadata.go *)

Class MetadataProvider (P : Type) := Lookup : P -> string -> MarketMetadata * bool.

Record StaticMetadataProvider := { table : gmap string MarketMetadata }.
Definition NewStaticMetadataProvider (t : gmap string MarketMetadata) : StaticMetadataProvider :=
  {| table := t |}.
Definition StaticMetadataProvider_Lookup (p : StaticMetadataProvider) (symbol : string) :
  MarketMetadata * bool :=
  match table p !! symbol with
  | Some meta => (meta, true)
  | None => (zero_MarketMetadata, false)
  end.
#[export] Instance StaticMetadataProvider_provider : MetadataProvider StaticMetadataProvider :=
  StaticMetadataProvider_Lookup.

Definition defaultMarketMetadata : gmap string MarketMetadata :=
  {[ "BTCUSDT" := {| BaseAsset := "BTC"; QuoteAsset := "USDT"; Exchange := "Binance" |};
     "ETHUSDT" := {| BaseAsset := "ETH"; QuoteAsset := "USDT"; Exchange := "Binance" |};
     "SOLUSDT" := {| BaseAsset := "SOL"; QuoteAsset := "USDT"; Exchange := "Binance" |} ]}.
Definition NewDefaultMetadataProvider : StaticMetadataProvider :=
  NewStaticMetadataProvider defaultMarketMetadata.

(** ** enricher.go *)

Definition set_enriched (notional : float64) (market : MarketMetadata) (e : TradeEvent) : TradeEvent :=
  {| Symbol := Symbol e; Price := Price e; Quantity := Quantity e; TradeSide := TradeSide e;
     TradeID := TradeID e; Notional := notional; Market := market; IsWhale := IsWhale e;
     EventTime := EventTime e; IngestTime := IngestTime e |}.

Section Enricher.
Context {W P : Type} `{MetadataProvider P}.

Record Enricher := NewEnricher { next : TradeHandler W; metadata : P }.

(** The event [Handle] forwards. *)
Definition enriched (meta : P) (event : TradeEvent) : TradeEvent :=
  set_enriched (f64_mul (Price event) (Quantity event)) (Lookup meta (Symbol event)).1 event.

Definition Enricher_Handle (e : Enricher) : TradeHandler W := fun ctx event =>
  next e ctx (enriched (metadata e) event).
End Enricher.
Arguments Enricher W P : clear implicits.

(** ** middleware.go *)

Definition TradeMiddleware (W : Type) : Type := TradeHandler W -> TradeHandler W.

(** The loop of [Chain]: [i] counts down from the last middleware. *)
Fixpoint Chain_loop {W : Type} (mws : list (TradeMiddleware W)) (i : nat) (h : TradeHandler W) :
  TradeHandler W :=
  match i with
  | O => h
  | S i' => Chain_loop mws i' (match mws !! i' with Some mw => mw h | None => h end)
  end.
Definition Chain {W : Type} (base : TradeHandler W) (mws : list (TradeMiddleware W)) : TradeHandler W :=
  Chain_loop mws (length mws) base.

(** The log of [zerolog], as the fields of the lines written to it. *)
Record log_line := {
  line_symbol : string;
  line_price : float64;
  line_quantity : float64;
  line_side : string;
  line_trade_id : Z;
}.
Definition consumed_trade (e : TradeEvent) : log_line :=
  {| line_symbol := Symbol e; line_price := Price e; line_quantity := Quantity e;
     line_side := TradeSide e; line_trade_id := TradeID e |}.

(** A world with a log beside the rest. *)
Definition Logged (W : Type) : Type := (list log_line * W)%type.
Definition withLogging {W : Type} : TradeMiddleware (Logged W) := fun next ctx event w =>
  let '(lines, rest) := w in
  next ctx event (lines ++ [consumed_trade event], rest).

(** ** Equivalence of handlers up to logging *)

(** A handler may write to the log but must not read it. *)
Definition log_oblivious {W : Type} (h : TradeHandler (Logged W)) : Prop :=
  forall ctx e l l' w,
    (h ctx e (l, w)).1 = (h ctx e (l', w)).1 /\ (h ctx e (l, w)).2.2 = (h ctx e (l', w)).2.2.

(** Same verdict and same effect on everything but the log. *)
Definition handler_equiv {W : Type} (h h' : TradeHandler (Logged W)) : Prop :=
  forall ctx e l l' w,
    (h ctx e (l, w)).1 = (h' ctx e (l', w)).1 /\ (h ctx e (l, w)).2.2 = (h' ctx e (l', w)).2.2.

#[export] Instance handler_equiv_per {W : Type} : RelationClasses.PER (@handler_equiv W).
Proof.
  split.
  - intros h h' Heq ctx e l l' w. destruct (Heq ctx e l' l w). done.
  - intros h1 h2 h3 H12 H23 ctx e l l' w.
    destruct (H12 ctx e l l w) as [-> ->]. apply H23.
Qed.

Lemma log_oblivious_equiv {W : Type} (h : TradeHandler (Logged W)) :
  log_oblivious h <-> handler_equiv h h.
Proof. done. Qed.

#[export] Instance withLogging_proper {W : Type} :
  Proper (handler_equiv ==> handler_equiv) (@withLogging W).
Proof. intros h h' Heq ctx e l l' w. apply Heq. Qed.

#[export] Instance Enricher_Handle_proper {W P : Type} `{MetadataProvider P} (meta : P) :
  Proper (handler_equiv ==> handler_equiv)
    (fun h : TradeHandler (Logged W) => Enricher_Handle (NewEnricher h meta)).
Proof. intros h h' Heq ctx e l l' w. apply Heq. Qed.

Lemma withLogging_equiv {W : Type} (h h' : TradeHandler (Logged W)) :
  handler_equiv h h' -> handler_equiv (withLogging h) h'.
Proof. intros Heq ctx e l l' w. apply Heq. Qed.

(** The counting loop composes the middlewares from the outside in. *)
Lemma Chain_loop_app {W : Type} (mws rest : list (TradeMiddleware W)) h :
  Chain_loop (mws ++ rest) (length mws) h = foldr (fun mw k => mw k) h mws.
Proof.
  revert rest h. induction mws as [|mw mws IH] using rev_ind; intros rest h; [done|].
  rewrite length_app, Nat.add_comm. cbn [length Nat.add Chain_loop].
  rewrite <- app_assoc. cbn [app]. rewrite list_lookup_middle by done. by rewrite IH, foldr_app.
Qed.

Lemma Chain_foldr {W : Type} (base : TradeHandler W) (mws : list (TradeMiddleware W)) :
  Chain base mws = foldr (fun mw k => mw k) base mws.
Proof. unfold Chain. rewrite <- (app_nil_r mws) at 1. apply Chain_loop_app. Qed.

(** ** Enrichment and the wire format *)

Lemma f64_mul_valid x y : f64_valid x -> f64_valid y -> f64_valid (f64_mul x y).
Proof.
  intros Hx Hy. destruct x as [sx|sx| |sx mx ex], y as [sy|sy| |sy my ey]; try done.
  apply round_frac_valid. apply Z.mul_pos_pos; apply f64_frac_pos.
Qed.

Lemma round_frac_sign s n d : 0 < d -> round_frac s n d <> S754_zero (negb s).
Proof.
  intros Hd. unfold round_frac. destruct (n <=? 0); [by destruct s|].
  destruct (scale2 _ _ _) as [n' d']. destruct (if _ =? 2 ^ 53 then _ else _) as [m e].
  destruct (m =? 0); [by destruct s|]. by destruct (971 <? e).
Qed.

Lemma f64_mul_positive x y : positive x -> positive y -> f64_mul x y <> S754_zero true.
Proof.
  destruct x as [[]|[]| |[] mx ex], y as [[]|[]| |[] my ey]; try done. intros _ _.
  apply (round_frac_sign false). apply Z.mul_pos_pos; apply f64_frac_pos.
Qed.

(** Every entry of the table can be written as JSON. *)
Definition provider_ok {P : Type} `{MetadataProvider P} (meta : P) : Prop :=
  forall symbol, market_ok (Lookup meta symbol).1.

Lemma default_provider_ok : provider_ok NewDefaultMetadataProvider.
Proof.
  intros symbol. unfold Lookup, StaticMetadataProvider_provider, StaticMetadataProvider_Lookup.
  unfold NewDefaultMetadataProvider, NewStaticMetadataProvider, defaultMarketMetadata. cbn [table].
  destruct (_ !! symbol) as [m|] eqn:Hm; [|done].
  apply lookup_insert_Some in Hm as [[_ <-]|[_ Hm]]; [done|].
  apply lookup_insert_Some in Hm as [[_ <-]|[_ Hm]]; [done|].
  by apply lookup_singleton_Some in Hm as [_ <-].
Qed.

Lemma enriched_ok {P : Type} `{MetadataProvider P} (meta : P) ev :
  provider_ok meta -> trade_ok ev -> positive (Price ev) -> positive (Quantity ev) ->
  f64_is_finite (f64_mul (Price ev) (Quantity ev)) = true -> trade_ok (enriched meta ev).
Proof.
  intros Hmeta [Hs Hsd [Hpv Hp] [Hqv Hq] _ Hid _ Het Hit] Hpp Hqp Hf.
  unfold enriched. split; cbn [set_enriched Symbol TradeSide Price Quantity Notional TradeID Market
    EventTime IngestTime]; try done.
  split; [split; [by apply f64_mul_valid|done]|by apply f64_mul_positive].
Qed.

(** ** Properties *)

(** [Chain] makes the first middleware the outermost one: a chain is its first middleware around
    the chain of the others, whatever the number of them, and the empty chain is the handler. *)
Theorem Chain_outermost_first {W : Type} (base : TradeHandler W) :
  Chain base [] = base /\
  forall mw mws, Chain base (mw :: mws) = mw (Chain base mws).
Proof. split; [done|]. intros mw mws. by rewrite !Chain_foldr. Qed.

(** Logging never changes the commit decision: put anywhere into a chain of middlewares that do
    not read the log, [withLogging] leaves the verdict and every effect outside the log as they
    were. *)
Theorem withLogging_transparent {W : Type} (outer inner : list (TradeMiddleware (Logged W)))
    (base : TradeHandler (Logged W)) :
  log_oblivious base ->
  Forall (Proper (handler_equiv ==> handler_equiv)) (outer ++ inner) ->
  handler_equiv (Chain base (outer ++ withLogging :: inner)) (Chain base (outer ++ inner)).
Proof.
  intros Hbase Hmws. rewrite !Chain_foldr, !foldr_app. apply Forall_app in Hmws as [Houter Hinner].
  induction Houter as [|mw outer Hmw _ IH]; cbn [foldr]; [|by apply Hmw].
  apply withLogging_equiv.
  induction Hinner as [|mw inner Hmw _ IH]; cbn [foldr]; [done|by apply Hmw].
Qed.

(** A handler that refuses trades without a positive id, and counts the others. *)
Definition example_handler : TradeHandler (Logged nat) := fun ctx e w =>
  if TradeID e <=? 0 then (Some (ErrorString "no id"), w) else (None, (w.1, S w.2)).

Lemma withLogging_transparent_witness :
  handler_equiv
    (Chain example_handler ([withLogging] ++ withLogging :: [fun h => Enricher_Handle (NewEnricher h NewDefaultMetadataProvider)]))
    (Chain example_handler ([withLogging] ++ [fun h => Enricher_Handle (NewEnricher h NewDefaultMetadataProvider)])).
Proof.
  apply (withLogging_transparent [withLogging]
           [fun h => Enricher_Handle (NewEnricher h NewDefaultMetadataProvider)] example_handler).
  - intros ctx e l l' w. unfold example_handler. destruct (TradeID e <=? 0); split; reflexivity.
  - constructor; [apply withLogging_proper|]. constructor; [apply Enricher_Handle_proper|constructor].
Defined.

(** C9: the enricher fails open and stays encodable: whatever the metadata provider answers, hit or miss,
    [Handle] hands one event to the next handler, whose verdict and effects are its own, and a
    symbol that the static table does not know gets the zero metadata.  The event differs from its
    argument only in the notional, the product of price and quantity, and in the metadata, those of
    the symbol; a second enricher in the chain changes nothing; and a trade that could be written
    as JSON still can be exactly when its notional does not overflow. *)
Theorem Enricher_fails_open {P : Type} `{MetadataProvider P} (meta : P) (ev : TradeEvent) :
  provider_ok meta -> trade_ok ev -> positive (Price ev) -> positive (Quantity ev) ->
  (forall W (next : TradeHandler W) (t : gmap string MarketMetadata) ctx w, t !! Symbol ev = None ->
     Enricher_Handle (NewEnricher next (NewStaticMetadataProvider t)) ctx ev w =
     next ctx (set_enriched (f64_mul (Price ev) (Quantity ev)) zero_MarketMetadata ev) w) /\
  exists ev',
    (forall W (next : TradeHandler W) ctx w, Enricher_Handle (NewEnricher next meta) ctx ev w = next ctx ev' w) /\
    (forall W (next : TradeHandler W) ctx w,
       Enricher_Handle (NewEnricher (Enricher_Handle (NewEnricher next meta)) meta) ctx ev w = next ctx ev' w) /\
    set_enriched (Notional ev) (Market ev) ev' = ev /\
    Notional ev' = f64_mul (Price ev) (Quantity ev) /\ Market ev' = (Lookup meta (Symbol ev)).1 /\
    (f64_is_finite (f64_mul (Price ev) (Quantity ev)) = true ->
       exists payload, Marshal ev' = Ok payload /\ Unmarshal payload zero_TradeEvent = Ok ev') /\
    (f64_is_finite (f64_mul (Price ev) (Quantity ev)) = false -> Marshal ev' = Err UnsupportedValueError).
Proof.
  intros Hmeta Hok Hp Hq. split.
  { intros W next t ctx w Ht. unfold Enricher_Handle, enriched. cbn [Handlers.next metadata].
    unfold Lookup, StaticMetadataProvider_provider, StaticMetadataProvider_Lookup. cbn [table NewStaticMetadataProvider].
    by rewrite Ht. }
  exists (enriched meta ev). do 2 (split; [done|]). split; [by destruct ev|]. do 2 (split; [done|]). split.
  - intros Hf. pose proof (enriched_ok meta ev Hmeta Hok Hp Hq Hf) as Hok'.
    destruct (marshal_total _ Hok') as [l Hl]. exists l. split; [done|].
    by eapply (unmarshal_marshal (A := TradeEvent)).
  - intros Hf. unfold Marshal, TradeEvent_JSON, encode_TradeEvent, enriched.
    cbn [set_enriched Price Quantity Notional].
    destruct (json_float_spec _ (ok_price ev Hok)) as (jp & -> & _).
    destruct (json_float_spec _ (ok_quantity ev Hok)) as (jq & -> & _).
    by destruct (f64_mul (Price ev) (Quantity ev)) as [[]|[]| |[] ? ?].
Qed.

(** 65000.10 times 0.25. *)
Definition example_event : TradeEvent :=
  {| Symbol := "BTCUSDT"; Price := S754_finite false 8933545719575347 (-37);
     Quantity := S754_finite false 4503599627370496 (-54); TradeSide := SideSell; TradeID := 12345;
     Notional := f64_zero; Market := zero_MarketMetadata; IsWhale := false;
     EventTime := {| unix_ns := 1700000000000000000; zone := 0 |}; IngestTime := example_now |}.

Lemma example_event_ok : trade_ok example_event.
Proof. split; vm_compute; repeat first [reflexivity | discriminate | split]. Qed.

(** A chain that counts its trades: the default table knows the symbol of the trade, an empty one does
    not, and the trade goes through both. *)
Lemma Enricher_fails_open_witness :
  (forall ctx w, Enricher_Handle (NewEnricher example_handler (NewStaticMetadataProvider ∅)) ctx example_event w =
     (None, (w.1, S w.2))) /\
  exists ev', (forall ctx w, Enricher_Handle (NewEnricher example_handler NewDefaultMetadataProvider) ctx example_event w =
                 example_handler ctx ev' w) /\
    exists payload, Marshal ev' = Ok payload /\ Unmarshal payload zero_TradeEvent = Ok ev'.
Proof.
  destruct (Enricher_fails_open NewDefaultMetadataProvider example_event default_provider_ok example_event_ok I I)
    as (Hmiss & ev' & Hnext & _ & _ & _ & _ & Hfin & _).
  split; [intros ctx w; rewrite (Hmiss _ example_handler ∅ ctx w (lookup_empty _)); reflexivity|].
  exists ev'. split; [intros ctx w; apply Hnext|]. apply Hfin. vm_compute. reflexivity.
Defined.
