(* ===== verification/FanOut.v ===== *)
(** * processor-service/internal/fanout.go: one trade to every downstream sink

    [Publish] is a loop over a select statement.  Its state is the three local channel variables
    (a flag per sink that says whether the variable is still non-nil) and the value it returned;
    a step is one iteration: a sink that has room accepts, or the cancelled context is noticed.
    The consumers of the sinks and the cancellation are steps of the environment. *)
From S2P Require Import Prelude GoBase Float64 GoTime Domain Handlers.
#[local] Open Scope nat_scope.

(** ** One value per sink *)

Inductive sink := OrderBookSink | RedisSink | BroadcastSink.
#[export] Instance sink_eq_dec : EqDecision sink.
Proof. solve_decision. Defined.
Definition all_sinks : list sink := [OrderBookSink; RedisSink; BroadcastSink].

Record sinks (A : Type) := Sinks { orderBook : A; redisWriter : A; broadcast : A }.
Arguments Sinks {A} _ _ _.
Arguments orderBook {A} _.
Arguments redisWriter {A} _.
Arguments broadcast {A} _.

Definition get {A : Type} (s : sink) (x : sinks A) : A :=
  match s with
  | OrderBookSink => orderBook x
  | RedisSink => redisWriter x
  | BroadcastSink => broadcast x
  end.
Definition set {A : Type} (s : sink) (a : A) (x : sinks A) : sinks A :=
  match s with
  | OrderBookSink => Sinks a (redisWriter x) (broadcast x)
  | RedisSink => Sinks (orderBook x) a (broadcast x)
  | BroadcastSink => Sinks (orderBook x) (redisWriter x) a
  end.
Definition each {A : Type} (a : A) : sinks A := Sinks a a a.

Lemma get_set {A : Type} s s' (a : A) x : get s (set s' a x) = if decide (s = s') then a else get s x.
Proof. by destruct s, s'. Qed.
Lemma get_set_same {A : Type} s (a : A) x : get s (set s a x) = a.
Proof. by destruct s. Qed.
Lemma get_each {A : Type} s (a : A) : get s (each a) = a.
Proof. by destruct s. Qed.
#[export] Hint Rewrite @get_set_same @get_each : go_rw.

(** ** The type *)

Definition defaultFanOutBuffer : Z := 256.

Definition FanOut : Type := sinks (channel TradeEvent).
Definition NewFanOut (bufferSize : Z) : FanOut :=
  let bufferSize := if (bufferSize <=? 0)%Z then defaultFanOutBuffer else bufferSize in
  each (make_chan (Z.to_nat bufferSize)).
(** The receive ends handed to the consumers. *)
Definition OrderBookUpdate (f : FanOut) : channel TradeEvent := orderBook f.
Definition FanOut_RedisWriter (f : FanOut) : channel TradeEvent := redisWriter f.
Definition Broadcast (f : FanOut) : channel TradeEvent := broadcast f.

(** ** Publish *)

(** The locals [ob], [rw] and [bc]: is the variable still non-nil? *)
Definition locals : Type := sinks bool.

(** The condition of the loop. *)
Definition publishing (p : locals) : bool := orderBook p || redisWriter p || broadcast p.

(** One send case of the select statement. *)
Definition publish_accept (event : TradeEvent) (s : sink) (f : FanOut) (p : locals) :
  option (FanOut * locals) :=
  if get s p then
    c ← send (get s f) event;
    Some (set s c f, set s false p)
  else None.

Record publish := {
  pub_locals : locals;
  pub_return : option (option error);   (** the returned value, once it has returned *)
}.
Definition publish_start : publish := {| pub_locals := each true; pub_return := None |}.

Inductive publish_label := Accept (s : sink) | Cancelled | Return.

(** One move of a call of [Publish] with the context's error [ctx] (nil while it is live). *)
Definition publish_move (event : TradeEvent) (ctx : option error) (l : publish_label)
    (f : FanOut) (p : publish) : option (FanOut * publish) :=
  match pub_return p with
  | Some _ => None
  | None =>
      match l with
      | Accept s =>
          '(f', q) ← publish_accept event s f (pub_locals p);
          Some (f', {| pub_locals := q; pub_return := None |})
      | Cancelled =>
          match ctx with
          | Some err =>
              if publishing (pub_locals p)
              then Some (f, {| pub_locals := pub_locals p; pub_return := Some (Some err) |})
              else None
          | None => None
          end
      | Return =>
          if publishing (pub_locals p) then None
          else Some (f, {| pub_locals := pub_locals p; pub_return := Some None |})
      end
  end.

(** ** One call among the consumers of the sinks *)

Record fan_state := { fan : FanOut; call : publish; fan_ctx : option error }.
Inductive fan_label :=
  | Call (l : publish_label)
  | Receive (s : sink) (e : TradeEvent)   (** a consumer takes [e] from a sink *)
  | Cancel (err : error).

Inductive fan_step (event : TradeEvent) : fan_state -> fan_label -> fan_state -> Prop :=
  | fan_call st l f' p' :
      publish_move event (fan_ctx st) l (fan st) (call st) = Some (f', p') ->
      fan_step event st (Call l) {| fan := f'; call := p'; fan_ctx := fan_ctx st |}
  | fan_receive st s e c :
      recv (get s (fan st)) = Some (e, c) ->
      fan_step event st (Receive s e)
        {| fan := set s c (fan st); call := call st; fan_ctx := fan_ctx st |}
  | fan_cancel st err :
      fan_ctx st = None ->
      fan_step event st (Cancel err) {| fan := fan st; call := call st; fan_ctx := Some err |}.

Definition fan_exec (event : TradeEvent) (l : fan_label) (st : fan_state) : option fan_state :=
  match l with
  | Call l =>
      '(f', p') ← publish_move event (fan_ctx st) l (fan st) (call st);
      Some {| fan := f'; call := p'; fan_ctx := fan_ctx st |}
  | Receive s e =>
      '(e', c) ← recv (get s (fan st));
      if decide (e' = e)
      then Some {| fan := set s c (fan st); call := call st; fan_ctx := fan_ctx st |} else None
  | Cancel err =>
      match fan_ctx st with
      | None => Some {| fan := fan st; call := call st; fan_ctx := Some err |}
      | Some _ => None
      end
  end.

Lemma fan_exec_sound event l st st' : fan_exec event l st = Some st' -> fan_step event st l st'.
Proof.
  destruct l as [l|s e|err]; simpl.
  - destruct (publish_move _ _ _ _ _) as [[f' p']|] eqn:Hm; intros [= <-]. by constructor.
  - destruct (recv _) as [[e' c]|] eqn:Hr; [|done]. simpl. destruct (decide (e' = e)) as [->|]; [|done].
    intros [= <-]. by constructor.
  - destruct (fan_ctx st) eqn:Hc; [done|]. intros [= <-]. by constructor.
Qed.

(** The events the consumer of a sink has taken. *)
Definition received (s : sink) (ls : list fan_label) : list TradeEvent :=
  omap (fun l => match l with
                 | Receive s' e => if decide (s' = s) then Some e else None
                 | _ => None
                 end) ls.

(** ** Lemmas *)

Lemma publish_accept_spec event s f p f' q :
  publish_accept event s f p = Some (f', q) <->
  get s p = true /\ length (buf (get s f)) < cap (get s f) /\
  f' = set s (Channel (cap (get s f)) (buf (get s f) ++ [event])) f /\ q = set s false p.
Proof.
  unfold publish_accept. destruct (get s p); [|by split; [|intros [? _]]].
  destruct (send (get s f) event) as [c|] eqn:Hs; simpl.
  - apply send_spec in Hs as [Hlt ->]. split; [by intros [= <- <-]|by intros (_ & _ & -> & ->)].
  - split; [done|]. intros (_ & Hlt & _). exfalso.
    assert (send (get s f) event = Some (Channel (cap (get s f)) (buf (get s f) ++ [event]))) as He
      by (by apply send_spec).
    congruence.
Qed.

Lemma publishing_false p : publishing p = false <-> forall s, get s p = false.
Proof.
  unfold publishing. rewrite !orb_false_iff. split.
  - intros [[? ?] ?] []; done.
  - intros Hs. split_and!; [apply (Hs OrderBookSink)|apply (Hs RedisSink)|apply (Hs BroadcastSink)].
Qed.

Lemma publishing_true p : publishing p = true <-> exists s, get s p = true.
Proof.
  unfold publishing. rewrite !orb_true_iff. split.
  - intros [[?|?]|?]; [by exists OrderBookSink|by exists RedisSink|by exists BroadcastSink].
  - intros [[] ?]; auto.
Qed.

(** What a sink's channel holds of the event, beyond what it held before. *)
Definition accepted (event : TradeEvent) (s : sink) (p : locals) : list TradeEvent :=
  if get s p then [] else [event].

Lemma publish_move_spec event ctx l f p f' p' :
  publish_move event ctx l f p = Some (f', p') ->
  pub_return p = None /\
  match l with
  | Accept s =>
      get s (pub_locals p) = true /\ length (buf (get s f)) < cap (get s f) /\
      f' = set s (Channel (cap (get s f)) (buf (get s f) ++ [event])) f /\
      p' = {| pub_locals := set s false (pub_locals p); pub_return := None |}
  | Cancelled =>
      f' = f /\ pub_locals p' = pub_locals p /\ publishing (pub_locals p) = true /\
      exists err, ctx = Some err /\ pub_return p' = Some (Some err)
  | Return =>
      f' = f /\ pub_locals p' = pub_locals p /\ publishing (pub_locals p) = false /\
      pub_return p' = Some None
  end.
Proof.
  unfold publish_move. destruct (pub_return p); [done|]. destruct l as [s| |].
  - destruct (publish_accept _ _ _ _) as [[f1 q]|] eqn:Ha; [|done]. intros [= <- <-].
    apply publish_accept_spec in Ha as (? & ? & -> & ->). done.
  - destruct ctx; [|done]. destruct (publishing _) eqn:Hp; [|done]. intros [= <- <-]. eauto 10.
  - destruct (publishing _) eqn:Hp; [done|]. intros [= <- <-]. done.
Qed.

(** Every sink's channel is a queue: what was in it and what the call has put in is what the
    consumer has taken and what is left. *)
Definition fan_inv (event : TradeEvent) (f0 : FanOut) (ls : list fan_label) (st : fan_state) : Prop :=
  (forall s, buf (get s f0) ++ accepted event s (pub_locals (call st)) =
             received s ls ++ buf (get s (fan st)) /\ cap (get s (fan st)) = cap (get s f0)) /\
  (pub_return (call st) = Some None -> publishing (pub_locals (call st)) = false) /\
  (forall err, pub_return (call st) = Some (Some err) ->
     publishing (pub_locals (call st)) = true /\ fan_ctx st = Some err).

Lemma received_snoc s ls l :
  received s (ls ++ [l]) =
  received s ls ++ match l with Receive s' e => if decide (s' = s) then [e] else [] | _ => [] end.
Proof.
  unfold received. rewrite omap_app. f_equal. destruct l as [|s' e|]; simpl; [done| |done].
  by destruct (decide (s' = s)).
Qed.

Lemma fan_inv_step event f0 ls st l st' :
  fan_inv event f0 ls st -> fan_step event st l st' -> fan_inv event f0 (ls ++ [l]) st'.
Proof.
  intros (Hq & Hret & Herr) Hstep.
  destruct Hstep as [st l f' p' Hm|st s e c Hr|st err Hc]; cbn [fan call fan_ctx] in *.
  - apply publish_move_spec in Hm as [Hr Hm]. unfold fan_inv. cbn [fan call fan_ctx].
    destruct l as [s| |].
    + destruct Hm as (Hp & Hlt & -> & ->). cbn [pub_locals pub_return]. split; [|done].
      intros s'. destruct (Hq s') as [Hb Hcap]. rewrite received_snoc, app_nil_r. unfold accepted in *.
      rewrite !get_set. destruct (decide (s' = s)) as [->|]; [|done]. rewrite Hp, app_nil_r in Hb.
      cbn [buf cap]. by rewrite Hb, <- app_assoc.
    + destruct Hm as (-> & Hl & Hp & err & Hctx & Hre). rewrite Hl, Hre.
      split; [intros s'; rewrite received_snoc, app_nil_r; apply Hq|]. split; [done|].
      by intros err' [= <-].
    + destruct Hm as (-> & Hl & Hp & Hre). rewrite Hl, Hre.
      split; [intros s'; rewrite received_snoc, app_nil_r; apply Hq|done].
  - split; [|done]. intros s'. destruct (Hq s') as [Hb Hcap]. rewrite received_snoc. cbn [fan call].
    rewrite get_set. apply recv_spec in Hr as [Hbuf Hcapc].
    destruct (decide (s = s')) as [->|Hne]; destruct (decide (s' = _)); try done.
    + split; [|by rewrite Hcapc]. by rewrite Hb, Hbuf, <- app_assoc.
    + rewrite app_nil_r. done.
  - split; [|split; [done|]].
    + intros s'. rewrite received_snoc, app_nil_r. apply Hq.
    + intros err' He. destruct (Herr err' He). congruence.
Qed.

Lemma fan_inv_trace event f0 ctx ls st :
  trace (fan_step event) {| fan := f0; call := publish_start; fan_ctx := ctx |} ls st ->
  fan_inv event f0 ls st.
Proof.
  apply (trace_history (fan_step event)); [|intros; by eapply fan_inv_step].
  split; [|done]. intros s. unfold accepted. cbn [fan call pub_locals publish_start].
  by rewrite get_each, app_nil_r.
Qed.

(** ** The number of iterations *)

Definition is_call (l : fan_label) : bool := match l with Call _ => true | _ => false end.
Definition budget (p : publish) : nat :=
  match pub_return p with
  | Some _ => 0
  | None => S (length (filter (fun s => get s (pub_locals p) = true) all_sinks))
  end.

Lemma waiting_set_false s (p : locals) :
  get s p = true ->
  length (filter (fun s' => get s' (set s false p) = true) all_sinks) <
  length (filter (fun s' => get s' p = true) all_sinks).
Proof. destruct p as [[] [] []], s; simpl; (done || intros _; cbv; lia). Qed.

Lemma publish_move_budget event ctx l f p f' p' :
  publish_move event ctx l f p = Some (f', p') -> budget p' < budget p.
Proof.
  intros [Hr Hm]%publish_move_spec. unfold budget. rewrite Hr. destruct l as [s| |].
  - destruct Hm as (Hp & _ & _ & ->). cbn [pub_return pub_locals].
    pose proof (waiting_set_false s (pub_locals p) Hp). lia.
  - destruct Hm as (_ & _ & _ & err & _ & ->). lia.
  - destruct Hm as (_ & _ & _ & ->). lia.
Qed.

Lemma fan_budget event st ls st' :
  trace (fan_step event) st ls st' ->
  length (filter (fun l => is_call l = true) ls) + budget (call st') <= budget (call st).
Proof.
  induction 1 as [|st l st1 ls st' Hs _ IH]; [simpl; lia|].
  destruct Hs as [st l f' p' Hm|st s e c Hr|st err Hc]; cbn [call] in *; rewrite filter_cons; simpl;
    [|lia..]. apply publish_move_budget in Hm. lia.
Qed.

(** ** Properties *)

(** C8: whatever the interleaving with the consumers and with cancellation, every sink's channel is
    a first-in first-out queue to which one call of [Publish] adds the trade at most once: a nil
    result means that all three sinks got exactly one copy, behind what they already held; an
    error is the error of the cancelled context, and then the sinks that had accepted keep the
    trade while at least one sink never gets it. *)
Theorem Publish_delivers (event : TradeEvent) (f0 : FanOut) (ctx : option error)
    (ls : list fan_label) (st : fan_state) :
  trace (fan_step event) {| fan := f0; call := publish_start; fan_ctx := ctx |} ls st ->
  (forall s, received s ls ++ buf (get s (fan st)) =
             buf (get s f0) ++ (if get s (pub_locals (call st)) then [] else [event])) /\
  match pub_return (call st) with
  | Some None => forall s, received s ls ++ buf (get s (fan st)) = buf (get s f0) ++ [event]
  | Some (Some err) =>
      fan_ctx st = Some err /\ exists s, received s ls ++ buf (get s (fan st)) = buf (get s f0)
  | None => True
  end.
Proof.
  intros (Hq & Hret & Herr)%fan_inv_trace. unfold accepted in Hq.
  split; [intros s; by destruct (Hq s) as [-> _]|].
  destruct (pub_return (call st)) as [[err|]|]; [|specialize (Hret eq_refl)|done].
  - destruct (Herr err eq_refl) as [[s Hs]%publishing_true Hctx]. split; [done|]. exists s.
    destruct (Hq s) as [<- _]. by rewrite Hs, app_nil_r.
  - intros s. destruct (Hq s) as [<- _]. by rewrite (proj1 (publishing_false _) Hret s).
Qed.

Definition example_trade (id : Z) : TradeEvent := 
  {| Symbol := "BTCUSDT"; Price := f64_one; Quantity := f64_one; TradeSide := SideBuy; TradeID := id;
     Notional := f64_zero; Market := zero_MarketMetadata; IsWhale := false;
     EventTime := zero_Time; IngestTime := zero_Time |}.

(** The Redis sink is full: the other two accept first, its consumer takes a trade, and only then
    does it accept; in the second run the context is cancelled instead. *)
Definition example_fan : FanOut :=
  set RedisSink (Channel 1 [example_trade 1]) (NewFanOut 1).
Definition example_run : list fan_label :=
  [Call (Accept BroadcastSink); Call (Accept OrderBookSink); Receive RedisSink (example_trade 1);
   Call (Accept RedisSink); Call Return].
Definition example_cancelled_run : list fan_label :=
  [Call (Accept BroadcastSink); Cancel (Sentinel ContextCanceled); Call Cancelled].

Lemma Publish_delivers_witness :
  (exists st, run (fan_exec (example_trade 2)) example_run
                {| fan := example_fan; call := publish_start; fan_ctx := None |} = Some st /\
     forall s, received s example_run ++ buf (get s (fan st)) = buf (get s example_fan) ++ [example_trade 2]) /\
  (exists st, run (fan_exec (example_trade 2)) example_cancelled_run
                {| fan := example_fan; call := publish_start; fan_ctx := None |} = Some st /\
     pub_return (call st) = Some (Some (Sentinel ContextCanceled)) /\
     fan_ctx st = Some (Sentinel ContextCanceled)).
Proof.
  split.
  - eexists. split; [vm_compute; reflexivity|].
    match goal with |- context [fan ?st] =>
      refine (proj2 (Publish_delivers (example_trade 2) example_fan None example_run st _)) end.
    eapply run_trace; [apply fan_exec_sound|vm_compute; reflexivity].
  - eexists. split; [vm_compute; reflexivity|]. split; [reflexivity|].
    match goal with |- context [fan_ctx ?st] =>
      refine (proj1 (proj2 (Publish_delivers (example_trade 2) example_fan None example_cancelled_run st _))) end.
    eapply run_trace; [apply fan_exec_sound|vm_compute; reflexivity].
Defined.

(** A call of [Publish] never waits without need and always ends: it can move unless its context
    is live and every sink that still lacks the trade is full, one full sink does not keep
    another from accepting, and any execution makes at most four moves (three sends and the
    return). *)
Theorem Publish_progress (event : TradeEvent) (ctx : option error) (f : FanOut) (p : publish) :
  pub_return p = None ->
  ((exists l r, publish_move event ctx l f p = Some r) <->
   ~ (ctx = None /\ publishing (pub_locals p) = true /\
      forall s, get s (pub_locals p) = true -> cap (get s f) <= length (buf (get s f)))) /\
  (forall s, get s (pub_locals p) = true -> length (buf (get s f)) < cap (get s f) ->
     is_Some (publish_move event ctx (Accept s) f p)) /\
  (forall ls st, trace (fan_step event) {| fan := f; call := p; fan_ctx := ctx |} ls st ->
     length (filter (fun l => is_call l = true) ls) <= 4).
Proof.
  intros Hr.
  assert (forall s, get s (pub_locals p) = true -> length (buf (get s f)) < cap (get s f) ->
            is_Some (publish_move event ctx (Accept s) f p)) as Haccept.
  { intros s Hs Hlt. unfold publish_move, publish_accept, send. rewrite Hr, Hs.
    apply Nat.ltb_lt in Hlt. rewrite Hlt. by eexists. }
  split; [split|split; [done|]].
  - intros (l & [f' p'] & Hm) (-> & Hp & Hfull). apply publish_move_spec in Hm as [_ Hm].
    destruct l as [s| |]; [|by destruct Hm as (_ & _ & _ & ? & ? & _)|by destruct Hm as (_ & _ & ? & _); congruence].
    destruct Hm as (Hs & Hlt & _). specialize (Hfull s Hs). lia.
  - intros Hnot. unfold publish_move at 1. destruct (publishing (pub_locals p)) eqn:Hp.
    2: { exists Return. rewrite Hr. eauto. }
    destruct ctx as [err|]; [exists Cancelled; rewrite Hr; eauto|].
    set (ready := fun s => get s (pub_locals p) && (length (buf (get s f)) <? cap (get s f))).
    destruct (existsb ready all_sinks) eqn:He.
    + apply existsb_exists in He as (s & _ & [Hs Hlt%Nat.ltb_lt]%andb_true_iff).
      destruct (Haccept s Hs Hlt) as [r Hmv]. exists (Accept s), r. unfold publish_move in Hmv. by rewrite Hr in *.
    + exfalso. apply Hnot. split_and!; [done..|]. intros s Hs. apply Nat.le_ngt. intros Hlt.
      assert (existsb ready all_sinks = true); [|congruence].
      apply existsb_exists. exists s. split; [destruct s; simpl; tauto|].
      apply andb_true_iff. split; [done|by apply Nat.ltb_lt].
  - intros ls st Htr. apply fan_budget in Htr. cbn [call] in Htr.
    assert (budget p <= 4); [|lia]. unfold budget. rewrite Hr.
    pose proof (length_filter (fun s => get s (pub_locals p) = true) all_sinks). simpl length in *. lia.
Qed.

Lemma Publish_progress_witness :
  is_Some (publish_move (example_trade 2) None (Accept BroadcastSink) example_fan publish_start).
Proof. apply (Publish_progress (example_trade 2) None example_fan publish_start); [reflexivity..|simpl; lia]. Defined.
