(* ===== verification/Pool.v ===== *)
(** * processor-service/internal/pool.go: the worker pool

    The pool is a labelled transition system over an arbitrary trade handler: [W] is the world the
    handler acts on, [H] the state of one running call of it, and [hmove] its moves.  Every
    goroutine of [Start] is a [worker]; a send or a receive on the job channel, a move of a
    handler, the end of a handler (with any verdict) and the two cancellation cases of the select
    statements are the steps. *)
From S2P Require Import Prelude GoBase Float64 GoTime Domain Runtime Handlers.
#[local] Open Scope nat_scope.

Definition defaultPoolSize : Z := 100.

Section Pool.
Context {W H L E : Type}.
Context (start : TradeEvent -> H).                               (** a call of the handler begins *)
Context (hmove : option error -> L -> W -> H -> option (W * H)).  (** it moves, given its context's error *)
Context (verdict : H -> option (option error)).                  (** it has returned *)
Context (envmove : E -> W -> option W).                          (** the rest of the program moves *)

(** A goroutine of [Start]: waiting in its select, inside [handle], or returned. *)
Inductive worker :=
  | Idle
  | Busy (event : TradeEvent) (h : H)
  | Exited (err : option error).

Record WorkerPool := {
  numWorkers : nat;
  jobs : channel TradeEvent;
  workers : list worker;
  world : W;
  ctx : option error;                               (** [ctx.Err()] *)
  handled : list (TradeEvent * option error);       (** the calls of [handle] that have returned *)
}.

Definition NewWorkerPool (size : Z) (w : W) : WorkerPool :=
  let size := if (size <=? 0)%Z then defaultPoolSize else size in
  let n := Z.to_nat size in
  {| numWorkers := n; jobs := make_chan n; workers := repeat Idle n; world := w; ctx := None;
     handled := [] |}.

Definition set_jobs (c : channel TradeEvent) (p : WorkerPool) : WorkerPool :=
  {| numWorkers := numWorkers p; jobs := c; workers := workers p; world := world p; ctx := ctx p;
     handled := handled p |}.
Definition set_worker (i : nat) (w : worker) (p : WorkerPool) : WorkerPool :=
  {| numWorkers := numWorkers p; jobs := jobs p; workers := <[i := w]> (workers p);
     world := world p; ctx := ctx p; handled := handled p |}.
Definition set_world (w : W) (p : WorkerPool) : WorkerPool :=
  {| numWorkers := numWorkers p; jobs := jobs p; workers := workers p; world := w; ctx := ctx p;
     handled := handled p |}.
Definition log_handled (x : TradeEvent * option error) (p : WorkerPool) : WorkerPool :=
  {| numWorkers := numWorkers p; jobs := jobs p; workers := workers p; world := world p;
     ctx := ctx p; handled := handled p ++ [x] |}.
Definition cancel_pool (err : error) (p : WorkerPool) : WorkerPool :=
  {| numWorkers := numWorkers p; jobs := jobs p; workers := workers p; world := world p;
     ctx := Some err; handled := handled p |}.

(** The two outcomes of [Submit]'s select. *)
Definition Submit (event : TradeEvent) (p : WorkerPool) : option WorkerPool :=
  c ← send (jobs p) event; Some (set_jobs c p).
Definition Submit_cancelled (p : WorkerPool) : option error := ctx p.

Inductive pool_label :=
  | Submitted (event : TradeEvent)      (** [Submit] returned nil *)
  | Rejected (event : TradeEvent)       (** [Submit] returned [ctx.Err()] *)
  | Take (i : nat)
  | Work (i : nat) (l : L)
  | Finish (i : nat)
  | Exit (i : nat)
  | CancelPool (err : error)
  | Env (x : E).

Inductive pool_step : WorkerPool -> pool_label -> WorkerPool -> Prop :=
  | step_submitted p event p' : Submit event p = Some p' -> pool_step p (Submitted event) p'
  | step_rejected p event err : Submit_cancelled p = Some err -> pool_step p (Rejected event) p
  | step_take p i event c :
      workers p !! i = Some Idle -> recv (jobs p) = Some (event, c) ->
      pool_step p (Take i) (set_worker i (Busy event (start event)) (set_jobs c p))
  | step_work p i event h l w' h' :
      workers p !! i = Some (Busy event h) -> hmove (ctx p) l (world p) h = Some (w', h') ->
      pool_step p (Work i l) (set_worker i (Busy event h') (set_world w' p))
  | step_finish p i event h err :
      workers p !! i = Some (Busy event h) -> verdict h = Some err ->
      pool_step p (Finish i) (set_worker i Idle (log_handled (event, err) p))
  | step_exit p i err :
      workers p !! i = Some Idle -> ctx p = Some err ->
      pool_step p (Exit i) (set_worker i (Exited None) p)
  | step_cancel p err : ctx p = None -> pool_step p (CancelPool err) (cancel_pool err p)
  | step_env p x w' : envmove x (world p) = Some w' -> pool_step p (Env x) (set_world w' p).

Definition pool_exec (l : pool_label) (p : WorkerPool) : option WorkerPool :=
  match l with
  | Submitted event => Submit event p
  | Rejected _ => match Submit_cancelled p with Some _ => Some p | None => None end
  | Take i =>
      match workers p !! i, recv (jobs p) with
      | Some Idle, Some (event, c) => Some (set_worker i (Busy event (start event)) (set_jobs c p))
      | _, _ => None
      end
  | Work i l =>
      match workers p !! i with
      | Some (Busy event h) =>
          '(w', h') ← hmove (ctx p) l (world p) h;
          Some (set_worker i (Busy event h') (set_world w' p))
      | _ => None
      end
  | Finish i =>
      match workers p !! i with
      | Some (Busy event h) =>
          err ← verdict h; Some (set_worker i Idle (log_handled (event, err) p))
      | _ => None
      end
  | Exit i =>
      match workers p !! i, ctx p with
      | Some Idle, Some _ => Some (set_worker i (Exited None) p)
      | _, _ => None
      end
  | CancelPool err => match ctx p with None => Some (cancel_pool err p) | Some _ => None end
  | Env x => w' ← envmove x (world p); Some (set_world w' p)
  end.

Lemma pool_exec_sound l p p' : pool_exec l p = Some p' -> pool_step p l p'.
Proof.
  destruct l as [event|event|i|i l|i|i|err|x]; cbn [pool_exec].
  - by constructor.
  - destruct (Submit_cancelled p) eqn:Hc; [|done]. intros [= <-]. by econstructor.
  - destruct (workers p !! i) as [[| |]|] eqn:Hw; try done.
    destruct (recv (jobs p)) as [[event c]|] eqn:Hr; [|done]. intros [= <-]. by constructor.
  - destruct (workers p !! i) as [[|event h|]|] eqn:Hw; try done.
    destruct (hmove _ _ _ _) as [[w' h']|] eqn:Hm; [|done]. intros [= <-]. by econstructor.
  - destruct (workers p !! i) as [[|event h|]|] eqn:Hw; try done.
    destruct (verdict h) as [err|] eqn:Hv; [|done]. intros [= <-]. by econstructor.
  - destruct (workers p !! i) as [[| |]|] eqn:Hw; try done.
    destruct (ctx p) eqn:Hc; [|done]. intros [= <-]. by econstructor.
  - destruct (ctx p) eqn:Hc; [done|]. intros [= <-]. by constructor.
  - destruct (envmove x (world p)) as [w'|] eqn:Hx; [|done]. intros [= <-]. by constructor.
Qed.

(** What [Start] returns once every worker has returned, wrapped if it is an error. *)
Definition Start_return `{Errgroup} (p : WorkerPool) : option error :=
  match group_Wait (omap (fun w => match w with Exited r => Some r | _ => None end) (workers p)) with
  | Some err => Some (Errorf_w "worker pool: " err)
  | None => None
  end.
Definition is_exited (w : worker) : bool := match w with Exited _ => true | _ => false end.
Definition Start_returns (p : WorkerPool) : bool := forallb is_exited (workers p).

(** ** Invariants *)

Definition busy_events (w : worker) : list TradeEvent :=
  match w with Busy event _ => [event] | _ => [] end.
Definition running (p : WorkerPool) : list TradeEvent := workers p ≫= busy_events.
Definition submitted (ls : list pool_label) : list TradeEvent :=
  omap (fun l => match l with Submitted e => Some e | _ => None end) ls.

Lemma running_set_worker i w w' p :
  workers p !! i = Some w ->
  busy_events w ++ running (set_worker i w' p) ≡ₚ busy_events w' ++ running p.
Proof. apply bind_insert_perm. Qed.

Record pool_inv (n : nat) (ls : list pool_label) (p : WorkerPool) : Prop := {
  inv_size : numWorkers p = n /\ length (workers p) = n /\ cap (jobs p) = n;
  inv_queue : chan_ok (jobs p);
  inv_conserved : submitted ls ≡ₚ map fst (handled p) ++ running p ++ buf (jobs p);
  inv_exited : forall i r, workers p !! i = Some (Exited r) -> r = None /\ is_Some (ctx p);
}.

Lemma submitted_snoc ls l :
  submitted (ls ++ [l]) = submitted ls ++ match l with Submitted e => [e] | _ => [] end.
Proof. unfold submitted. rewrite omap_app. by destruct l. Qed.

Lemma pool_inv_new size w :
  pool_inv (Z.to_nat (if (size <=? 0)%Z then defaultPoolSize else size)) [] (NewWorkerPool size w).
Proof.
  unfold NewWorkerPool. set (n := Z.to_nat _). split; cbn.
  - by rewrite repeat_length.
  - unfold chan_ok. cbn. lia.
  - rewrite app_nil_r. unfold running. cbn. clear. by induction n.
  - intros i r Hi. apply list_elem_of_lookup_2, list_elem_of_In, repeat_spec in Hi. done.
Qed.

(** The size never changes, and the job channel keeps to its capacity. *)
Lemma pool_step_size p l p' :
  pool_step p l p' ->
  numWorkers p' = numWorkers p /\ length (workers p') = length (workers p) /\
  cap (jobs p') = cap (jobs p) /\ (chan_ok (jobs p) -> chan_ok (jobs p')).
Proof.
  destruct 1 as [p event p' Hs| |p i event c Hw Hr| | | | |]; cbn; rewrite ?length_insert; try done.
  - unfold Submit in Hs. destruct (send (jobs p) event) as [c|] eqn:Hsend; [|done]. injection Hs as <-.
    cbn. rewrite (send_cap _ _ _ Hsend). eauto with go.
  - pose proof Hr as [_ Hcap]%recv_spec. rewrite Hcap. eauto with go.
Qed.

(** A submitted trade is in the queue, with a worker, or handled. *)
Lemma pool_step_conserved p l p' :
  pool_step p l p' ->
  map fst (handled p') ++ running p' ++ buf (jobs p') ≡ₚ
  map fst (handled p) ++ running p ++ buf (jobs p) ++
    match l with Submitted e => [e] | _ => [] end.
Proof.
  destruct 1 as [p event p' Hs|p event err Hs|p i event c Hw Hr|p i event h l w' h' Hw Hm
    |p i event h err Hw Hv|p i err Hw Hctx|p err Hctx|p x w' He]; rewrite ?app_nil_r; try done.
  - unfold Submit in Hs. destruct (send (jobs p) event) as [c|] eqn:Hsend; [|done]. injection Hs as <-.
    cbn. by rewrite (send_buf _ _ _ Hsend).
  - pose proof (running_set_worker i Idle (Busy event (start event)) (set_jobs c p) Hw) as Hrun.
    apply recv_spec in Hr as [Hb _]. rewrite Hb. cbn [busy_events app] in Hrun.
    rewrite Hrun. change (running (set_jobs c p)) with (running p). cbn. solve_Permutation.
  - pose proof (running_set_worker i (Busy event h) (Busy event h') (set_world w' p) Hw) as Hrun.
    apply Permutation_cons_inv in Hrun. by rewrite Hrun.
  - pose proof (running_set_worker i (Busy event h) Idle (log_handled (event, err) p) Hw) as Hrun.
    cbn [busy_events app] in Hrun. change (running (log_handled (event, err) p)) with (running p) in Hrun.
    rewrite <- Hrun. cbn [set_worker log_handled handled jobs]. rewrite map_app. solve_Permutation.
  - pose proof (running_set_worker i Idle (Exited None) p Hw) as Hrun. cbn [busy_events app] in Hrun.
    by rewrite Hrun.
Qed.

(** Only a cancelled context makes a worker return, and then without error. *)
Definition exits_ok (p : WorkerPool) : Prop :=
  forall i r, workers p !! i = Some (Exited r) -> r = None /\ is_Some (ctx p).

Lemma exits_ok_worker i w (p p' : WorkerPool) :
  workers p' = <[i := w]> (workers p) -> ctx p' = ctx p ->
  (forall r, w = Exited r -> r = None /\ is_Some (ctx p)) -> exits_ok p -> exits_ok p'.
Proof.
  intros Hws Hctx Hw Hp j r Hj. rewrite Hctx. rewrite Hws in Hj.
  apply list_lookup_insert_Some in Hj as [(-> & -> & _)|[_ Hj]]; eauto.
Qed.

Lemma pool_step_exits p l p' : pool_step p l p' -> exits_ok p -> exits_ok p'.
Proof.
  destruct 1 as [p event p' Hs| |p i event c Hw Hr|p i event h l w' h' Hw Hm
    |p i event h err Hw Hv|p i err Hw Hctx|p err Hctx|]; try done.
  - unfold Submit in Hs. destruct (send (jobs p) event); [|done]. by injection Hs as <-.
  - by eapply exits_ok_worker.
  - by eapply exits_ok_worker.
  - by eapply exits_ok_worker.
  - eapply exits_ok_worker; [done|done|]. intros r [= <-]. by rewrite Hctx.
  - intros Hp j r Hj. destruct (Hp j r Hj). split; [done|by eexists].
Qed.

Lemma pool_inv_step n ls p l p' :
  pool_inv n ls p -> pool_step p l p' -> pool_inv n (ls ++ [l]) p'.
Proof.
  intros [(Hn & Hl & Hc) Hq Hp Hx] Hstep.
  destruct (pool_step_size p l p' Hstep) as (Hn' & Hl' & Hc' & Hq').
  split; [split_and!; congruence|auto| |].
  - rewrite submitted_snoc, (pool_step_conserved p l p' Hstep), Hp. by rewrite <- !app_assoc.
  - exact (pool_step_exits p l p' Hstep Hx).
Qed.

Lemma pool_inv_trace size w ls p :
  trace pool_step (NewWorkerPool size w) ls p ->
  pool_inv (Z.to_nat (if (size <=? 0)%Z then defaultPoolSize else size)) ls p.
Proof.
  apply (trace_history pool_step (pool_inv _)); [apply pool_inv_new|].
  intros. by eapply pool_inv_step.
Qed.

Lemma length_running (ws : list worker) : length (ws ≫= busy_events) <= length ws.
Proof.
  induction ws as [|w ws IH]; [done|]. rewrite bind_cons, length_app. cbn [length].
  assert (length (busy_events w) <= 1) by (destruct w; simpl; lia). lia.
Qed.

Definition pool_size (size : Z) : nat := Z.to_nat (if (size <=? 0)%Z then defaultPoolSize else size).
Lemma pool_size_pos size : 0 < pool_size size.
Proof. unfold pool_size, defaultPoolSize. destruct (Z.leb_spec size 0); lia. Qed.

(** When every worker has returned, the context has ended and [Start] returns nil. *)
Lemma pool_inv_return `{Errgroup} n ls (p : WorkerPool) :
  0 < n -> pool_inv n ls p -> Start_returns p = true -> is_Some (ctx p) /\ Start_return p = None.
Proof.
  intros Hn [(_ & Hl & _) _ _ Hx] Hret. unfold Start_returns in Hret. rewrite forallb_forall in Hret.
  assert (exists w0, w0 ∈ workers p) as [w0 Hw0].
  { destruct (workers p) as [|w0 ws] eqn:Hws; [simpl in Hl; lia|by exists w0; left]. }
  split.
  - pose proof (Hret w0 ltac:(by apply list_elem_of_In)) as He. destruct w0 as [| |r]; [done..|].
    apply list_elem_of_lookup in Hw0 as [i Hi]. by destruct (Hx i r Hi).
  - unfold Start_return. rewrite group_Wait_nil; [done|]. apply Forall_forall. intros r Hr.
    apply list_elem_of_omap in Hr as (w1 & Hw1 & Hr). destruct w1 as [| |r1]; [done..|].
    injection Hr as <-. apply list_elem_of_lookup in Hw1 as [i Hi]. by destruct (Hx i r1 Hi).
Qed.

(** ** Properties *)

(** C14: for any handler and any interleaving, a trade that [Submit] accepted is always in exactly
    one place: handled, being handled by one worker, or queued; at most [size] trades are being
    handled and at most [size] wait; no error of a handler makes a worker leave (every worker is
    alive while the context is), and [Start] returns only after cancellation, with nil. *)
Theorem WorkerPool_conserves `{Errgroup} (size : Z) (w : W) (ls : list pool_label) (p : WorkerPool) :
  trace pool_step (NewWorkerPool size w) ls p ->
  submitted ls ≡ₚ map fst (handled p) ++ running p ++ buf (jobs p) /\
  length (running p) <= pool_size size /\ length (buf (jobs p)) <= pool_size size /\
  length (workers p) = pool_size size /\
  (ctx p = None -> Forall (fun w => is_exited w = false) (workers p)) /\
  (Start_returns p = true -> is_Some (ctx p) /\ Start_return p = None).
Proof.
  intros [(Hn & Hl & Hc) Hq Hp Hx]%pool_inv_trace. fold (pool_size size) in *.
  split; [done|]. split; [rewrite <- Hl; apply length_running|].
  split; [unfold chan_ok in Hq; lia|]. split; [done|]. split.
  - intros Hctx. apply Forall_lookup. intros i [| |r] Hi; [done..|].
    destruct (Hx i r Hi) as [_ [? ?]]. congruence.
  - eapply pool_inv_return; [apply pool_size_pos|]. by split.
Qed.

(** Backpressure: in any reachable state [Submit] can enqueue unless [size] trades wait
    already; and if it cannot while the pool is live and no worker can take a job, then every
    worker is inside the handler. *)
Theorem Submit_backpressure (size : Z) (w : W) (ls : list pool_label) (p : WorkerPool) (event : TradeEvent) :
  trace pool_step (NewWorkerPool size w) ls p ->
  (Submit event p = None <-> length (buf (jobs p)) = pool_size size) /\
  (Submit event p = None -> ctx p = None -> (forall i p', ~ pool_step p (Take i) p') ->
     forall i, i < pool_size size -> exists e h, workers p !! i = Some (Busy e h)).
Proof.
  intros [(Hn & Hl & Hc) Hq Hp Hx]%pool_inv_trace. fold (pool_size size) in *.
  assert (Submit event p = None <-> length (buf (jobs p)) = pool_size size) as Hsub.
  { unfold Submit, send. unfold chan_ok in Hq. rewrite Hc in Hq |- *.
    destruct (Nat.ltb_spec (length (buf (jobs p))) (pool_size size)); simpl; split; (done || lia). }
  split; [done|]. intros Hfull Hctx Htake i Hi. apply Hsub in Hfull.
  destruct (lookup_lt_is_Some_2 (workers p) i ltac:(lia)) as [[|e h|r] Hw]; [|by eauto|].
  - destruct (buf (jobs p)) as [|e q] eqn:Hb; [pose proof (pool_size_pos size); simpl in Hfull; lia|].
    destruct (Htake i (set_worker i (Busy e (start e)) (set_jobs (Channel (cap (jobs p)) q) p))).
    constructor; [done|]. unfold recv. by rewrite Hb.
  - destruct (Hx i r Hw) as [_ [? ?]]. congruence.
Qed.
End Pool.

(** A pool of two workers whose handler rejects trades without a positive id: the first trade
    fails, the second is still being handled, the third waits. *)
Definition example_pool_run : list (@pool_label Empty_set Empty_set) :=
  let t id := {| Symbol := "BTCUSDT"; Price := f64_one; Quantity := f64_one; TradeSide := SideBuy; TradeID := id;
     Notional := f64_zero; Market := zero_MarketMetadata; IsWhale := false;
     EventTime := zero_Time; IngestTime := zero_Time |} in
  [Submitted (t 0%Z); Submitted (t 1%Z); Take 1; Finish 1; Submitted (t 2%Z); Take 1].
Definition example_verdict (e : TradeEvent) : option (option error) :=
  Some (if (TradeID e <=? 0)%Z then Some (ErrorString "no id") else None).
Definition example_hmove (_ : option error) (l : Empty_set) (_ : unit) (_ : TradeEvent) :
  option (unit * TradeEvent) := match l with end.
Definition example_envmove (x : Empty_set) (_ : unit) : option unit := match x with end.
Definition example_exec : @pool_label Empty_set Empty_set -> WorkerPool -> option WorkerPool :=
  pool_exec (W := unit) (H := TradeEvent) (fun e => e) example_hmove example_verdict example_envmove.

Lemma WorkerPool_conserves_witness :
  exists p, run example_exec example_pool_run (NewWorkerPool 2 tt) = Some p /\
    map snd (handled p) = [Some (ErrorString "no id")] /\
    submitted example_pool_run ≡ₚ map fst (handled p) ++ running p ++ buf (jobs p).
Proof.
  eexists. split; [vm_compute; reflexivity|]. split; [reflexivity|].
  match goal with |- context [running ?st] =>
    refine (proj1 (@WorkerPool_conserves unit TradeEvent Empty_set Empty_set (fun e => e)
      example_hmove example_verdict example_envmove
      first_error_group 2 tt example_pool_run st _)) end.
  eapply run_trace; [apply pool_exec_sound|vm_compute; reflexivity].
Defined.

Lemma Submit_backpressure_witness :
  exists p, run example_exec (example_pool_run ++ [Submitted zero_TradeEvent]) (NewWorkerPool 2 tt) = Some p /\
    (Submit zero_TradeEvent p = None <-> length (buf (jobs p)) = pool_size 2).
Proof.
  eexists. split; [vm_compute; reflexivity|].
  match goal with |- context [jobs ?st] =>
    refine (proj1 (@Submit_backpressure unit TradeEvent Empty_set Empty_set (fun e => e)
      example_hmove example_verdict example_envmove
      2 tt (example_pool_run ++ [Submitted zero_TradeEvent]) st zero_TradeEvent _)) end.
  eapply run_trace; [apply pool_exec_sound|vm_compute; reflexivity].
Defined.
