(* ===== verification/OrderBookStore.v ===== *)
(** * processor-service/internal/orderbook.go: the in-memory order books

    The map of the store is a [gmap]; [Get] and [Update] are its two critical sections and [Apply]
    is one after the other.  [book_after] is the specification: the book of a symbol is a function
    of the last trade, the last buy and the last sell seen for it. *)
From S2P Require Import Prelude GoBase Float64 GoTime GoTimeFacts Domain Wire.

Record OrderBookStore := { data : gmap string OrderBook }.
Definition NewOrderBookStore : OrderBookStore := {| data := ∅ |}.

Definition OrderBookStore_Get (s : OrderBookStore) (symbol : string) : OrderBook * bool :=
  match data s !! symbol with
  | Some book => (book, true)
  | None => (zero_OrderBook, false)
  end.

Definition OrderBookStore_Update (symbol : string) (book : OrderBook) (s : OrderBookStore) : OrderBookStore :=
  {| data := <[symbol := book]> (data s) |}.

(** The book [Apply] writes back, from the one it read. *)
Definition apply_to_book (event : TradeEvent) (book : OrderBook) : OrderBook :=
  let level := {| LevelPrice := Price event; LevelQuantity := Quantity event |} in
  let book := {| BookSymbol := Symbol event; Bids := Bids book; Asks := Asks book;
                 LastUpdate := EventTime event |} in
  if decide (TradeSide event = SideBuy) then
    {| BookSymbol := BookSymbol book; Bids := Bids book; Asks := Some [level];
       LastUpdate := LastUpdate book |}
  else if decide (TradeSide event = SideSell) then
    {| BookSymbol := BookSymbol book; Bids := Some [level]; Asks := Asks book;
       LastUpdate := LastUpdate book |}
  else book.

Definition OrderBookStore_Apply (event : TradeEvent) (s : OrderBookStore) : OrderBookStore :=
  let '(book, _) := OrderBookStore_Get s (Symbol event) in
  OrderBookStore_Update (Symbol event) (apply_to_book event book) s.

(** [Run]: the events its channel delivers, in order, until the context ends. *)
Definition OrderBookStore_Run (updates : list TradeEvent) (s : OrderBookStore) : OrderBookStore :=
  fold_left (fun s event => OrderBookStore_Apply event s) updates s.

(** ** The specification *)

Definition of_symbol (symbol : string) (e : TradeEvent) : bool := bool_decide (Symbol e = symbol).
Definition of_side (side : Side) (symbol : string) (e : TradeEvent) : bool :=
  of_symbol symbol e && bool_decide (TradeSide e = side).

(** The only level a side of the book ever has: that of the last aggressor. *)
Definition top (side : Side) (symbol : string) (events : list TradeEvent) : slice PriceLevel :=
  match find_last (of_side side symbol) events with
  | Some e => Some [{| LevelPrice := Price e; LevelQuantity := Quantity e |}]
  | None => None
  end.
Definition book_after (symbol : string) (events : list TradeEvent) : option OrderBook :=
  match find_last (of_symbol symbol) events with
  | Some e =>
      Some {| BookSymbol := symbol; Bids := top SideSell symbol events;
              Asks := top SideBuy symbol events; LastUpdate := EventTime e |}
  | None => None
  end.

(** ** Refinement *)

Lemma Apply_lookup event s symbol :
  data (OrderBookStore_Apply event s) !! symbol =
  if decide (Symbol event = symbol)
  then Some (apply_to_book event (default zero_OrderBook (data s !! symbol)))
  else data s !! symbol.
Proof.
  unfold OrderBookStore_Apply, OrderBookStore_Get.
  destruct (data s !! Symbol event) as [book|] eqn:Hb; cbn [data OrderBookStore_Update];
    rewrite lookup_insert; destruct (decide (Symbol event = symbol)) as [<-|]; by rewrite ?Hb.
Qed.

Lemma find_last_none {A : Type} (p q : A -> bool) l :
  (forall x, q x = true -> p x = true) -> find_last p l = None -> find_last q l = None.
Proof.
  intros Hpq Hp. induction l as [|x l IH] using rev_ind; [done|].
  rewrite find_last_snoc in *. destruct (p x) eqn:Hx; [done|].
  destruct (q x) eqn:Hqx; [|auto]. by rewrite (Hpq x Hqx) in Hx.
Qed.

Lemma top_none side symbol events :
  find_last (of_symbol symbol) events = None -> top side symbol events = None.
Proof.
  intros Hn. unfold top. erewrite find_last_none; [done| |done].
  intros e. unfold of_side. by intros [? _]%andb_true_iff.
Qed.

Lemma top_snoc side symbol events event :
  top side symbol (events ++ [event]) =
  if of_side side symbol event
  then Some [{| LevelPrice := Price event; LevelQuantity := Quantity event |}]
  else top side symbol events.
Proof. unfold top. rewrite find_last_snoc. by destruct (of_side side symbol event). Qed.

(** One more event: the specification changes the way [apply_to_book] changes the book. *)
Lemma book_after_snoc symbol events event :
  book_after symbol (events ++ [event]) =
  if decide (Symbol event = symbol)
  then Some (apply_to_book event (default zero_OrderBook (book_after symbol events)))
  else book_after symbol events.
Proof.
  unfold book_after at 1. rewrite find_last_snoc, !top_snoc. unfold of_side.
  destruct (decide (Symbol event = symbol)) as [<-|Hne].
  2: { assert (of_symbol symbol event = false) as -> by (by apply bool_decide_eq_false_2). done. }
  assert (of_symbol (Symbol event) event = true) as -> by (by apply bool_decide_eq_true_2).
  cbn [andb]. f_equal.
  set (old := default zero_OrderBook (book_after (Symbol event) events)).
  assert (Bids old = top SideSell (Symbol event) events /\ Asks old = top SideBuy (Symbol event) events)
    as [Hb Ha].
  { unfold old, book_after. destruct (find_last _ events) eqn:Hf; [done|]. by rewrite !top_none. }
  unfold apply_to_book. cbn [BookSymbol Bids Asks LastUpdate]. rewrite Hb, Ha.
  destruct (decide (TradeSide event = SideBuy)) as [->|Hbuy]; [done|].
  rewrite (bool_decide_eq_false_2 _ Hbuy).
  destruct (decide (TradeSide event = SideSell)) as [->|Hsell]; [done|].
  by rewrite (bool_decide_eq_false_2 _ Hsell).
Qed.

Lemma Run_refines events s symbol :
  data s !! symbol = book_after symbol [] ->
  data (OrderBookStore_Run events s) !! symbol = book_after symbol events.
Proof.
  intros H0. unfold OrderBookStore_Run. induction events as [|event events IH] using rev_ind; [done|].
  rewrite fold_left_app. cbn [fold_left]. rewrite Apply_lookup, book_after_snoc, IH. done.
Qed.

(** ** The store's invariant: every book can be encoded and carries its own key *)

Definition store_ok (s : OrderBookStore) : Prop :=
  map_Forall (fun symbol book => BookSymbol book = symbol /\ book_ok book) (data s).

Lemma apply_to_book_ok event book :
  trade_ok event -> Forall level_ok (elems (Bids book)) -> Forall level_ok (elems (Asks book)) ->
  book_ok (apply_to_book event book) /\ BookSymbol (apply_to_book event book) = Symbol event.
Proof.
  intros He Hb Ha.
  assert (Forall level_ok [{| LevelPrice := Price event; LevelQuantity := Quantity event |}]) as Hl
    by (constructor; [split; apply He|constructor]).
  unfold apply_to_book. repeat case_decide; cbn [BookSymbol]; (split; [|done]);
    split; cbn [BookSymbol Bids Asks LastUpdate elems default]; (done || apply He).
Qed.

Lemma Apply_store_ok event s : trade_ok event -> store_ok s -> store_ok (OrderBookStore_Apply event s).
Proof.
  intros He Hs symbol book Hb. rewrite Apply_lookup in Hb.
  destruct (decide (Symbol event = symbol)) as [<-|]; [|by apply Hs]. injection Hb as <-.
  destruct (data s !! Symbol event) as [old|] eqn:Hold; cbn [default].
  - apply Hs in Hold as [_ Hok]. destruct (apply_to_book_ok event old He); [apply Hok..|done].
  - destruct (apply_to_book_ok event zero_OrderBook He); [constructor..|done].
Qed.

Lemma NewOrderBookStore_ok : store_ok NewOrderBookStore.
Proof. apply map_Forall_empty. Qed.
#[export] Hint Resolve NewOrderBookStore_ok Apply_store_ok : go.

(** ** Properties *)

(** C12: refinement of the order-book store: after any sequence of trades, [Get] finds a book exactly
    for the symbols that were traded, labelled with the symbol it is stored under and the time of
    that symbol's last trade, whose only ask is the last buy and whose only bid is the last sell;
    trades of other symbols have no influence. *)
Theorem OrderBookStore_refines (events : list TradeEvent) (symbol : string) :
  OrderBookStore_Get (OrderBookStore_Run events NewOrderBookStore) symbol =
  match book_after symbol events with
  | Some book => (book, true)
  | None => (zero_OrderBook, false)
  end.
Proof.
  unfold OrderBookStore_Get. rewrite (Run_refines events NewOrderBookStore); [done|]. apply lookup_empty.
Qed.
