(* ===== verification/RedisWriter.v ===== *)
(** * processor-service/internal/redis_writer.go: snapshots into Redis

    [Redis] is the interface of the client library, the server included: its database, [Set],
    [Get] and [Ping].  [RedisLaws] is what a client may rely on.  [Write] is the code; [plan] is
    its specification, the list of writes in order, of which a failing one is the last tried. *)
From S2P Require Import Prelude GoBase Config Decimal Float64 Json GoTime GoTimeFacts Domain Wire Normalizer Handlers OrderBookStore.

(** ** The Redis client *)

(** What the program passes as a value. *)
Inductive argument := ArgBytes (b : bytes) | ArgFloat (x : float64).

Class Redis (R : Type) := {
  db : R -> string -> option bytes;                            (** the server's database *)
  redis_Set : string -> argument -> R -> R * option error;      (** without expiration *)
  redis_Get : string -> R -> result error bytes;
  redis_Ping : R -> option error;
  float_text : float64 -> bytes;                               (** how a float argument is sent *)
}.

Definition argument_text `{Redis R} (a : argument) : bytes :=
  match a with ArgBytes b => b | ArgFloat x => float_text x end.

(** A successful write is stored; a failed one was carried out or not, as one command; neither
    touches another key.  A read returns what is stored, and [redis.Nil] means that nothing is. *)
Class RedisLaws (R : Type) `{Redis R} := {
  set_stores : forall k v r r', redis_Set k v r = (r', None) -> db r' k = Some (argument_text v);
  set_fails : forall k v r r' e, redis_Set k v r = (r', Some e) -> db r' k = db r k \/ db r' k = Some (argument_text v);
  set_frame : forall k v r r' e k', redis_Set k v r = (r', e) -> k' <> k -> db r' k' = db r k';
  get_reads : forall k r b, redis_Get k r = Ok b -> db r k = Some b;
  get_nil : forall k r e, redis_Get k r = Err e -> errors_Is e RedisNil = true -> db r k = None;
}.

(** A server in memory that may be down, for examples. *)
Record mem_redis := { mem : gmap string bytes; up : bool }.
Definition connection_refused : error := ErrorString "dial tcp: connection refused".
#[export] Instance mem_Redis : Redis mem_redis := {
  db r k := mem r !! k;
  redis_Set k v r :=
    if up r then
      ({| mem := <[k := match v with ArgBytes b => b | ArgFloat x => default [] (FormatFloat false x) end]> (mem r);
          up := true |}, None)
    else (r, Some connection_refused);
  redis_Get k r :=
    if up r then match mem r !! k with Some b => Ok b | None => Err (Sentinel RedisNil) end
    else Err connection_refused;
  redis_Ping r := if up r then None else Some connection_refused;
  float_text x := default [] (FormatFloat false x);
}.
#[export] Instance mem_RedisLaws : RedisLaws mem_redis.
Proof.
  split.
  - intros k v r r'. cbn. destruct (up r); [|done]. intros [= <-]. cbn. rewrite lookup_insert_eq.
    by destruct v.
  - intros k v r r' e. cbn. destruct (up r); [done|]. intros [= <- _]. by left.
  - intros k v r r' e k'. cbn. destruct (up r); intros [= <- <-] Hk; [|done]. cbn.
    by rewrite lookup_insert_ne.
  - intros k r b. cbn. destruct (up r); [|done]. destruct (mem r !! k); [|done]. by intros [= ->].
  - intros k r e. cbn. destruct (up r); [|by intros [= <-]]. by destruct (mem r !! k).
Qed.

(** ** The writer *)

Section RedisWriter.
Context {R : Type} `{Redis R}.

(** [NewRedisWriter] fails without an address; dialling is lazy, so nothing else can. *)
Definition NewRedisWriter (cfg : RedisConfig) (client : R) : result error R :=
  if bool_decide (RedisAddr cfg = ""%string) then Err (ErrorString "redis: addr is required")
  else Ok client.

Definition wrap (prefix : string) (e : option error) : option error := Errorf_w prefix <$> e.

(** [books] is what the shared store holds when [Get] is called ([None]: no store). *)
Definition Write (books : option OrderBookStore) (event : TradeEvent) (r : R) : R * option error :=
  match Marshal event with
  | Err err => (r, Some (Errorf_w "marshal trade: " err))
  | Ok tradeJson =>
      let '(r, err) := redis_Set (KeyLatestTrade (Symbol event)) (ArgBytes tradeJson) r in
      match err with
      | Some err => (r, Some (Errorf_w "set latest trade: " err))
      | None =>
          let '(r, err) := redis_Set (KeyPrice (Symbol event)) (ArgFloat (Price event)) r in
          match err with
          | Some err => (r, Some (Errorf_w "set price: " err))
          | None =>
              match books with
              | None => (r, None)
              | Some books =>
                  let '(book, ok) := OrderBookStore_Get books (Symbol event) in
                  if negb ok then (r, None)
                  else
                    match Marshal book with
                    | Err err => (r, Some (Errorf_w "marshal order book: " err))
                    | Ok bookJSON =>
                        let '(r, err) := redis_Set (KeyOrderBook (Symbol event)) (ArgBytes bookJSON) r in
                        (r, wrap "set order book: " err)
                    end
              end
          end
      end
  end.

(** [Run]: write failures are logged and the loop goes on. *)
Fixpoint RedisWriter_Run (updates : list (option OrderBookStore * TradeEvent)) (r : R) :
  R * list error :=
  match updates with
  | [] => (r, [])
  | (books, event) :: updates' =>
      let '(r, err) := Write books event r in
      let '(r, errs) := RedisWriter_Run updates' r in
      (r, option_list err ++ errs)
  end.

Definition RedisWriter_Check (r : R) : option error := wrap "redis ping: " (redis_Ping r).
Definition RedisWriter_Name : string := "redis".

(** ** The specification: a list of writes *)

Record write := {
  w_key : string;
  w_value : result error argument;     (** an error when the value cannot be encoded *)
  w_error : string;                    (** the prefix of the error of a failed [Set] *)
}.

Fixpoint run_plan (ws : list write) (r : R) : R * option error :=
  match ws with
  | [] => (r, None)
  | w :: ws' =>
      match w_value w with
      | Err err => (r, Some err)
      | Ok v =>
          let '(r, err) := redis_Set (w_key w) v r in
          match err with
          | Some err => (r, Some (Errorf_w (w_error w) err))
          | None => run_plan ws' r
          end
      end
  end.

Definition encoded {A : Type} `{JSON A} (prefix : string) (a : A) : result error argument :=
  match Marshal a with
  | Ok l => Ok (ArgBytes l)
  | Err err => Err (Errorf_w prefix err)
  end.
Definition book_of (books : option OrderBookStore) (symbol : string) : option OrderBook :=
  s ← books; data s !! symbol.
Definition plan (books : option OrderBookStore) (event : TradeEvent) : list write :=
  [ {| w_key := KeyLatestTrade (Symbol event); w_value := encoded "marshal trade: " event;
       w_error := "set latest trade: " |};
    {| w_key := KeyPrice (Symbol event); w_value := Ok (ArgFloat (Price event));
       w_error := "set price: " |} ] ++
  match book_of books (Symbol event) with
  | Some book =>
      [ {| w_key := KeyOrderBook (Symbol event); w_value := encoded "marshal order book: " book;
           w_error := "set order book: " |} ]
  | None => []
  end.

Lemma Write_run_plan books event r : Write books event r = run_plan (plan books event) r.
Proof.
  unfold Write, plan. cbn [app run_plan w_value w_key w_error]. unfold encoded at 1.
  destruct (Marshal event) as [l|err]; [|done].
  destruct (redis_Set _ _ r) as [r1 [err|]]; [done|].
  destruct (redis_Set _ _ r1) as [r2 [err|]]; [done|].
  unfold book_of, OrderBookStore_Get. destruct books as [s|]; [|done]. cbn [mbind option_bind].
  destruct (data s !! Symbol event) as [book|]; [|done]. cbn [negb run_plan w_value w_key w_error].
  unfold encoded. destruct (Marshal book) as [lb|err]; [|done].
  by destruct (redis_Set _ _ r2) as [r3 [err|]].
Qed.

(** The keys of the three families never meet. *)
Lemma plan_keys books event : NoDup (map w_key (plan books event)).
Proof.
  assert (KeyLatestTrade (Symbol event) <> KeyPrice (Symbol event)) by done.
  assert (KeyLatestTrade (Symbol event) <> KeyOrderBook (Symbol event)) by done.
  assert (KeyPrice (Symbol event) <> KeyOrderBook (Symbol event)) by done.
  unfold plan. destruct (book_of _ _); cbn [app map w_key];
    repeat first [apply NoDup_nil_2 | apply NoDup_cons_2];
    rewrite ?not_elem_of_cons; repeat split; (done || apply not_elem_of_nil).
Qed.

(** Every key of a plan belongs to the trade's symbol. *)
Lemma plan_key books event k :
  k ∈ map w_key (plan books event) ->
  k = KeyLatestTrade (Symbol event) \/ k = KeyPrice (Symbol event) \/ k = KeyOrderBook (Symbol event).
Proof.
  unfold plan. destruct (book_of _ _); cbn [app map w_key]; rewrite !elem_of_cons, elem_of_nil; tauto.
Qed.

Context `{!RedisLaws R}.

(** Where a plan stops: what precedes was stored, what follows was not tried. *)
Lemma run_plan_effects ws r r' err :
  NoDup (map w_key ws) -> run_plan ws r = (r', err) ->
  exists done rest, ws = done ++ rest /\
    Forall (fun w => exists v, w_value w = Ok v /\ db r' (w_key w) = Some (argument_text v)) done /\
    (forall k, k ∉ map w_key done -> (forall w, head rest = Some w -> k <> w_key w) -> db r' k = db r k) /\
    (err = None <-> rest = []).
Proof.
  revert r. induction ws as [|w ws IH]; intros r Hnd Hrun; cbn [run_plan] in Hrun.
  { injection Hrun as <- <-. exists [], []. split_and!; done. }
  cbn [map] in Hnd. apply NoDup_cons in Hnd as [Hw Hnd].
  assert (forall e r0, err = Some e -> r' = r0 -> (forall k, k <> w_key w -> db r0 k = db r k) ->
    exists done rest, w :: ws = done ++ rest /\
      Forall (fun w => exists v, w_value w = Ok v /\ db r' (w_key w) = Some (argument_text v)) done /\
      (forall k, k ∉ map w_key done -> (forall w, head rest = Some w -> k <> w_key w) -> db r' k = db r k) /\
      (err = None <-> rest = [])) as Hstop.
  { intros e r0 -> -> Hframe. exists [], (w :: ws). split_and!; try done.
    intros k _ Hk. apply Hframe. by apply Hk. }
  destruct (w_value w) as [v|e] eqn:Hv; [|injection Hrun as <- <-; by eapply Hstop].
  destruct (redis_Set (w_key w) v r) as [r1 [e|]] eqn:Hset.
  { injection Hrun as <- <-. eapply Hstop; [done|done|]. intros k Hk. by eapply set_frame. }
  destruct (IH r1 Hnd Hrun) as (done & rest & -> & Hdone & Hframe & Herr).
  exists (w :: done), rest. split; [done|]. split; [|split; [|done]].
  - constructor; [|done]. exists v. split; [done|]. rewrite <- (set_stores _ _ _ _ Hset).
    apply Hframe.
    + intros Hin. apply Hw. rewrite map_app. apply elem_of_app. by left.
    + intros w' Hw' Heq. apply Hw. rewrite Heq, map_app. apply elem_of_app. right.
      destruct rest as [|w'' rest]; [done|]. injection Hw' as ->. left.
  - intros k Hk Hhead. cbn [map] in Hk. apply not_elem_of_cons in Hk as [Hk1 Hk2].
    rewrite Hframe by done. by eapply set_frame.
Qed.
End RedisWriter.

Section WriterProperties.
Context {R : Type} `{RedisLaws R}.

(** C13: [Write] performs the writes of its plan in order and stops at the first failure: there is
    a point of the plan before which every key holds its new value, at which it failed (or was
    done), and after which nothing was tried; no other key changes, and the error is nil exactly
    when the whole plan was carried out. *)
Theorem Write_effects (books : option OrderBookStore) (event : TradeEvent) (r r' : R) (err : option error) :
  Write books event r = (r', err) ->
  exists done rest, plan books event = done ++ rest /\
    Forall (fun w => exists v, w_value w = Ok v /\ db r' (w_key w) = Some (argument_text v)) done /\
    (forall k, k ∉ map w_key done -> (forall w, head rest = Some w -> k <> w_key w) -> db r' k = db r k) /\
    (err = None <-> rest = []).
Proof. rewrite Write_run_plan. apply run_plan_effects, plan_keys. Qed.

Lemma Write_success books event r r' :
  Write books event r = (r', None) ->
  (forall w, w ∈ plan books event ->
     exists v, w_value w = Ok v /\ db r' (w_key w) = Some (argument_text v)) /\
  (forall k, k ∉ map w_key (plan books event) -> db r' k = db r k).
Proof.
  intros Hw. rewrite Write_run_plan in Hw.
  destruct (run_plan_effects _ _ _ _ (plan_keys books event) Hw) as (done & rest & Hp & Hdone & Hframe & Herr).
  rewrite (proj1 Herr eq_refl) in *. rewrite app_nil_r in Hp. rewrite Hp. split.
  - by apply Forall_forall.
  - intros k Hk. by apply Hframe.
Qed.

(** Writing is idempotent, which is what makes the replay of a trade harmless: a second
    successful write of the same trade over the same books leaves every key as it is. *)
Theorem Write_idempotent (books : option OrderBookStore) (event : TradeEvent) (r r1 r2 : R) :
  Write books event r = (r1, None) -> Write books event r1 = (r2, None) ->
  forall k, db r2 k = db r1 k.
Proof.
  intros [H1 _]%Write_success [H2 Hframe]%Write_success k.
  destruct (decide (k ∈ map w_key (plan books event))) as [Hin|Hout]; [|by apply Hframe].
  apply list_elem_of_In, in_map_iff in Hin as (w & <- & Hw%list_elem_of_In).
  destruct (H1 w Hw) as (v1 & Hv1 & ->), (H2 w Hw) as (v2 & Hv2 & ->). congruence.
Qed.
End WriterProperties.

Definition example_store : OrderBookStore := OrderBookStore_Apply example_event NewOrderBookStore.
Definition empty_redis : mem_redis := {| mem := ∅; up := true |}.

(** With the server up the three keys are written; with the server down the first one fails. *)
Lemma Write_effects_witness :
  (exists done rest, plan (Some example_store) example_event = done ++ rest /\
     ((Write (Some example_store) example_event empty_redis).2 = None <-> rest = [])) /\
  (exists done rest, plan (Some example_store) example_event = done ++ rest /\
     ((Write (Some example_store) example_event {| mem := ∅; up := false |}).2 = None <-> rest = [])).
Proof.
  split.
  - destruct (Write_effects (Some example_store) example_event empty_redis _ _ (surjective_pairing _))
      as (done & rest & Hp & _ & _ & He). by exists done, rest.
  - destruct (Write_effects (Some example_store) example_event {| mem := ∅; up := false |} _ _
      (surjective_pairing _)) as (done & rest & Hp & _ & _ & He). by exists done, rest.
Defined.

Lemma Write_idempotent_witness :
  exists r1 r2, Write (Some example_store) example_event empty_redis = (r1, None) /\
    Write (Some example_store) example_event r1 = (r2, None) /\
    db r1 (KeyPrice "BTCUSDT") = Some (str "65000.1") /\ forall k, db r2 k = db r1 k.
Proof.
  eexists _, _. split; [vm_compute; reflexivity|]. split; [vm_compute; reflexivity|].
  split; [vm_compute; reflexivity|].
  eapply (Write_idempotent (Some example_store) example_event empty_redis); vm_compute; reflexivity.
Defined.
