(* ===== verification/Consumer.v ===== *)
(** * processor-service/internal/consumer.go: reading trades.raw

    [dispatch] decodes one record, runs the handler and decides whether the record is marked;
    [Consumer_Run] is the poll loop over a script of fetches; [Consumer_Check] the health probe.
    What the marks are for is the broker's and the client's business: [GroupOffsets] says from where
    a group reads a partition after a restart, [GroupOffsetsLaws] what the program relies on of it. *)
From S2P Require Import Prelude GoBase Decimal Float64 Json GoTime Domain Wire Normalizer Handlers.
#[local] Open Scope Z_scope.

(** The fields of a [kgo.Record] the program uses. *)
Record kgo_Record := {
  Partition : Z;
  Offset : Z;
  RecKey : bytes;
  RecValue : bytes;
}.
#[export] Instance kgo_Record_eq_dec : EqDecision kgo_Record.
Proof. solve_decision. Defined.

Definition metadataTimeout : Z := 2 * Second.

Section Consumer.
Context {W : Type}.

(** The records marked so far, and the world the handler acts on. *)
Definition consumer_state : Type := (list kgo_Record * W)%type.

Definition MarkCommitRecords (rec : kgo_Record) : M consumer_state unit := fun s =>
  (tt, (s.1 ++ [rec], s.2)).
Definition lift_handler (h : M W (option error)) : M consumer_state (option error) := fun s =>
  let '(err, w) := h s.2 in (err, (s.1, w)).

Definition dispatch (ctx : Context) (rec : kgo_Record) (handle : TradeHandler W) : M consumer_state unit :=
  match Unmarshal (RecValue rec) zero_TradeEvent with
  | Err _ => MarkCommitRecords rec
  | Ok event =>
      err ← lift_handler (handle ctx event);
      match err with
      | Some _ => mret tt
      | None => MarkCommitRecords rec
      end
  end.

(** What one [PollFetches] returns, and the context at that moment. *)
Record poll := {
  fetch_errors : list error;
  fetched : list kgo_Record;
  poll_ctx : Context;
}.

Fixpoint dispatch_all (ctx : Context) (recs : list kgo_Record) (handle : TradeHandler W) :
  M consumer_state unit :=
  match recs with
  | [] => mret tt
  | rec :: recs' => _ ← dispatch ctx rec handle; dispatch_all ctx recs' handle
  end.

(** The loop, over the polls of the script: [None] while it is still running at the end of the
    script, otherwise the returned error.  Fetch errors are only logged. *)
Fixpoint Consumer_Run (polls : list poll) (handle : TradeHandler W) :
  M consumer_state (option (option error)) :=
  match polls with
  | [] => mret None
  | p :: polls' =>
      match ctx_Err (poll_ctx p) with
      | Some _ => mret (Some None)
      | None =>
          _ ← dispatch_all (poll_ctx p) (fetched p) handle;
          Consumer_Run polls' handle
      end
  end.

Definition Consumer_Name : string := "kafka_consumer".

(** [Check] at the instant [now]; [ping] is the client's [Ping] under a timeout. *)
Definition check_timeout (ctx : Context) (now : Z) : Z :=
  match ctx_Deadline ctx with
  | Some deadline =>
      let remaining := deadline - now in
      if remaining <? metadataTimeout then remaining else metadataTimeout
  | None => metadataTimeout
  end.
Definition Consumer_Check (ping : Z -> option error) (ctx : Context) (now : Z) : option error :=
  let timeout := check_timeout ctx now in
  if timeout <=? 0 then Some (ErrorString "kafka ping: no time remaining on context")
  else
    match ping timeout with
    | Some err => Some (Errorf_w "kafka ping: " err)
    | None => None
    end.

(** ** Which records are marked *)

Definition decoded (rec : kgo_Record) : option TradeEvent :=
  match Unmarshal (RecValue rec) zero_TradeEvent with Ok e => Some e | Err _ => None end.

(** The verdicts the handler gives to the decodable records of a batch, run in order. *)
Fixpoint verdicts (ctx : Context) (recs : list kgo_Record) (handle : TradeHandler W) (w : W) :
  list (kgo_Record * bool) * W :=
  match recs with
  | [] => ([], w)
  | rec :: recs' =>
      match decoded rec with
      | None => let '(vs, w') := verdicts ctx recs' handle w in ((rec, true) :: vs, w')
      | Some e =>
          let '(err, w1) := handle ctx e w in
          let '(vs, w') := verdicts ctx recs' handle w1 in
          ((rec, bool_decide (err = None)) :: vs, w')
      end
  end.

Definition accepted_records (vs : list (kgo_Record * bool)) : list kgo_Record :=
  omap (fun v : kgo_Record * bool => if v.2 then Some v.1 else None) vs.

Lemma dispatch_all_spec ctx recs handle marked w :
  let '(vs, w') := verdicts ctx recs handle w in
  dispatch_all ctx recs handle (marked, w) = (tt, (marked ++ accepted_records vs, w')).
Proof.
  revert marked w. induction recs as [|rec recs IH]; intros marked w.
  - cbn. by rewrite app_nil_r.
  - cbn [verdicts dispatch_all]. unfold dispatch, decoded.
    destruct (Unmarshal (RecValue rec) zero_TradeEvent) as [e|err].
    + cbv [mbind M_bind lift_handler fst snd]. destruct (handle ctx e w) as [err w1].
      destruct err as [err|]; cbv [mret M_ret MarkCommitRecords fst snd].
      * specialize (IH marked w1). destruct (verdicts ctx recs handle w1) as [vs w'].
        rewrite IH. by rewrite bool_decide_eq_false_2.
      * specialize (IH (marked ++ [rec]) w1). destruct (verdicts ctx recs handle w1) as [vs w'].
        rewrite IH, <- app_assoc. by rewrite bool_decide_eq_true_2.
    + cbv [mbind M_bind MarkCommitRecords fst snd]. specialize (IH (marked ++ [rec]) w).
      destruct (verdicts ctx recs handle w) as [vs w']. rewrite IH, <- app_assoc. done.
Qed.

Lemma verdicts_records ctx recs handle w : map fst (verdicts ctx recs handle w).1 = recs.
Proof.
  revert w. induction recs as [|rec recs IH]; intros w; [done|]. cbn [verdicts].
  destruct (decoded rec) as [e|].
  - destruct (handle ctx e w) as [err w1]. specialize (IH w1).
    destruct (verdicts ctx recs handle w1) as [vs w']. cbn in *. by rewrite IH.
  - specialize (IH w). destruct (verdicts ctx recs handle w) as [vs w']. cbn in *. by rewrite IH.
Qed.
End Consumer.
Arguments consumer_state W : clear implicits.

(** The verdicts of a whole run: of every poll until one that finds its context cancelled. *)
Fixpoint run_verdicts {W : Type} (polls : list poll) (handle : TradeHandler W) (w : W) : list (kgo_Record * bool) * W :=
  match polls with
  | [] => ([], w)
  | p :: polls' =>
      match ctx_Err (poll_ctx p) with
      | Some _ => ([], w)
      | None =>
          let '(vs, w1) := verdicts (poll_ctx p) (fetched p) handle w in
          let '(vs', w') := run_verdicts polls' handle w1 in (vs ++ vs', w')
      end
  end.

Lemma accepted_records_app vs vs' : accepted_records (vs ++ vs') = accepted_records vs ++ accepted_records vs'.
Proof. apply omap_app. Qed.
Lemma elem_of_accepted rec vs : rec ∈ accepted_records vs <-> (rec, true) ∈ vs.
Proof.
  unfold accepted_records. rewrite list_elem_of_omap. split.
  - intros ([rec' []] & Hin & Hv); [|done]. by injection Hv as <-.
  - intros Hin. by exists (rec, true).
Qed.

Lemma Consumer_Run_spec {W : Type} (polls : list poll) (handle : TradeHandler W) marked w :
  exists ended, Consumer_Run polls handle (marked, w) =
    (ended, (marked ++ accepted_records (run_verdicts polls handle w).1, (run_verdicts polls handle w).2)) /\
    (ended = None \/ ended = Some None).
Proof.
  revert marked w. induction polls as [|p polls IH]; intros marked w.
  { exists None. cbn. rewrite app_nil_r. split; [done|by left]. }
  cbn [Consumer_Run run_verdicts]. destruct (ctx_Err (poll_ctx p)) as [err|].
  { exists (Some None). cbn. rewrite app_nil_r. split; [done|by right]. }
  pose proof (dispatch_all_spec (poll_ctx p) (fetched p) handle marked w) as Hall.
  destruct (verdicts _ _ handle w) as [vs w1]. cbv [mbind M_bind]. rewrite Hall.
  destruct (IH (marked ++ accepted_records vs) w1) as (ended & Hrun & He). exists ended. rewrite Hrun.
  destruct (run_verdicts polls handle w1) as [vs' w']. cbn [fst snd]. by rewrite accepted_records_app, app_assoc.
Qed.

(** ** What a restart reads *)

(** Where the group goes on in a partition after a restart, once the marks have been committed. *)
Class GroupOffsets := { resume : list kgo_Record -> Z -> Z }.
(** Under [AutoCommitMarks] what is committed is the offset behind a marked record, so nothing up to it
    is read again; and as only marked records are committed, nothing that lies behind all of them
    is passed over. *)
Class GroupOffsetsLaws (G : GroupOffsets) := {
  resume_behind : forall marked rec, rec ∈ marked -> Offset rec < resume marked (Partition rec);
  resume_no_further : forall marked p o, 0 <= o ->
    (forall rec, rec ∈ marked -> Partition rec = p -> Offset rec < o) -> resume marked p <= o;
}.
Definition redelivered `{GroupOffsets} (marked : list kgo_Record) (rec : kgo_Record) : bool :=
  resume marked (Partition rec) <=? Offset rec.

Section Offsets.
Context {G : GroupOffsets} {Laws : GroupOffsetsLaws G}.

Lemma redelivered_spec marked rec :
  0 <= Offset rec ->
  redelivered marked rec = true <->
  forall rec', rec' ∈ marked -> Partition rec' = Partition rec -> Offset rec' < Offset rec.
Proof.
  intros Ho. unfold redelivered. rewrite Z.leb_le. split.
  - intros Hle rec' Hin Hp. apply resume_behind in Hin. rewrite Hp in Hin. lia.
  - by apply resume_no_further.
Qed.
Lemma marked_not_redelivered marked rec : rec ∈ marked -> redelivered marked rec = false.
Proof. intros Hin%resume_behind. unfold redelivered. by apply Z.leb_gt. Qed.
End Offsets.

(** A group that goes on behind the highest mark, for examples. *)
#[export] Instance highest_mark : GroupOffsets := {
  resume marked p :=
    fold_right (fun rec o => if Partition rec =? p then Z.max (Offset rec + 1) o else o) 0 marked }.
#[export] Instance highest_mark_laws : GroupOffsetsLaws highest_mark.
Proof.
  split; cbn [resume highest_mark].
  - induction marked as [|rec' marked IH]; intros rec Hin; [by apply elem_of_nil in Hin|]. cbn [fold_right].
    apply elem_of_cons in Hin as [<-|Hin]; [rewrite Z.eqb_refl; lia|]. specialize (IH rec Hin).
    destruct (Partition rec' =? Partition rec); lia.
  - induction marked as [|rec marked IH]; intros p o Ho Hall; [done|]. cbn [fold_right].
    specialize (IH p o Ho ltac:(intros rec' Hin; apply Hall; by right)).
    destruct (Z.eqb_spec (Partition rec) p) as [Hp|]; [|done]. specialize (Hall rec ltac:(left) Hp). lia.
Qed.

(** ** Properties *)

(** What the poll loop marks: it runs the handler once per decodable record of every fetch, in
    the order of the fetch, marks exactly the records that do not decode or whose handler returned
    nil, and ends, with nil, at the first poll that finds its context cancelled; a fetch error
    stops nothing. *)
Theorem Consumer_Run_marks {W : Type} (p : poll) (polls : list poll) (handle : TradeHandler W)
    (marked : list kgo_Record) (w : W) :
  (is_Some (ctx_Err (poll_ctx p)) ->
     Consumer_Run (p :: polls) handle (marked, w) = (Some None, (marked, w))) /\
  (ctx_Err (poll_ctx p) = None ->
     let '(vs, w') := verdicts (poll_ctx p) (fetched p) handle w in
     map fst vs = fetched p /\
     Consumer_Run (p :: polls) handle (marked, w) =
     Consumer_Run polls handle (marked ++ accepted_records vs, w')).
Proof.
  cbn [Consumer_Run]. split.
  - by intros [err ->].
  - intros ->. pose proof (verdicts_records (poll_ctx p) (fetched p) handle w) as Hrecs.
    pose proof (dispatch_all_spec (poll_ctx p) (fetched p) handle marked w) as Hall.
    destruct (verdicts _ _ handle w) as [vs w']. split; [exact Hrecs|].
    cbv [mbind M_bind]. by rewrite Hall.
Qed.

(** C24: at-least-once holds only up to the order of the offsets.  Take any run of the poll loop, with any
    handler: a record that does not decode, or that the handler accepted, is never read again; one
    that the handler refused is redelivered after a restart exactly if every record of its
    partition that did not decode or was accepted, in any poll, lies before it.  One refusal
    followed by one success in the same partition therefore loses the refused trade, although
    dispatch left it unmarked for redelivery. *)
Theorem refused_record_redelivered {W : Type} {G : GroupOffsets} (polls : list poll) (handle : TradeHandler W)
    (w w' : W) (ended : option (option error)) (marked : list kgo_Record) :
  GroupOffsetsLaws G ->
  Consumer_Run polls handle ([], w) = (ended, (marked, w')) ->
  let vs := (run_verdicts polls handle w).1 in
  (ended = None \/ ended = Some None) /\
  (forall rec, (rec, true) ∈ vs -> redelivered marked rec = false) /\
  (forall rec, (rec, false) ∈ vs -> 0 <= Offset rec ->
     (redelivered marked rec = true <->
      forall rec', (rec', true) ∈ vs -> Partition rec' = Partition rec -> Offset rec' < Offset rec)).
Proof.
  intros Hlaws Hrun vs. destruct (Consumer_Run_spec polls handle [] w) as (ended' & Hrun' & He).
  rewrite Hrun' in Hrun. injection Hrun as -> <- _. cbn [app]. fold vs. split; [done|]. split.
  - intros rec Hin. by apply marked_not_redelivered, elem_of_accepted.
  - intros rec _ Ho. rewrite redelivered_spec by done. by setoid_rewrite elem_of_accepted.
Qed.

(** Two records of one partition and a handler that refuses the first: the loop marks the second. *)
Definition example_record (offset : Z) : kgo_Record :=
  {| Partition := 0; Offset := offset; RecKey := str "BTCUSDT";
     RecValue := match Marshal example_event with Ok l => l | Err _ => [] end |}.
Definition refuse_first : TradeHandler nat := fun _ _ n =>
  (if (n =? 0)%nat then Some (Sentinel ContextCanceled) else None, S n).
Definition example_poll : poll :=
  {| fetch_errors := []; fetched := [example_record 7; example_record 8]; poll_ctx := Background |}.

Lemma refused_record_redelivered_witness :
  Consumer_Run [example_poll] refuse_first ([], 0%nat) = (None, ([example_record 8], 2%nat)) /\
  (run_verdicts [example_poll] refuse_first 0%nat).1 = [(example_record 7, false); (example_record 8, true)] /\
  redelivered [example_record 8] (example_record 7) = false /\ redelivered [example_record 8] (example_record 8) = false.
Proof.
  assert (Consumer_Run [example_poll] refuse_first ([], 0%nat) = (None, ([example_record 8], 2%nat))) as Hrun
    by (vm_compute; reflexivity).
  assert ((run_verdicts [example_poll] refuse_first 0%nat).1 = [(example_record 7, false); (example_record 8, true)]) as Hvs
    by (vm_compute; reflexivity).
  destruct (refused_record_redelivered [example_poll] refuse_first 0%nat 2%nat None [example_record 8] _ Hrun)
    as (_ & Hacc & Href). rewrite Hvs in Hacc, Href.
  split; [exact Hrun|]. split; [exact Hvs|]. split; [|apply Hacc; right; left].
  apply not_true_iff_false. intros Hr. rewrite (Href (example_record 7)) in Hr; [|left|cbn; lia].
  specialize (Hr (example_record 8) ltac:(right; left) eq_refl). cbn in Hr. lia.
Defined.

(** The probe never spends more than two seconds nor more than the caller's deadline leaves: it
    pings with a positive timeout within both bounds, or reports an exhausted context without
    touching the broker; it fails exactly in that case or when the ping does. *)
Theorem Consumer_Check_bounded (ping : Z -> option error) (ctx : Context) (now : Z) :
  let timeout := check_timeout ctx now in
  timeout <= metadataTimeout /\
  (forall deadline, ctx_Deadline ctx = Some deadline -> timeout <= deadline - now) /\
  (timeout <= 0 -> is_Some (Consumer_Check ping ctx now) /\
     forall ping', Consumer_Check ping' ctx now = Consumer_Check ping ctx now) /\
  (0 < timeout -> Consumer_Check ping ctx now = Errorf_w "kafka ping: " <$> ping timeout).
Proof.
  intros timeout. unfold timeout, Consumer_Check. split_and!.
  - unfold check_timeout. destruct (ctx_Deadline ctx); [|done]. case_goal; zbool; lia.
  - unfold check_timeout. intros deadline ->. case_goal; zbool; lia.
  - intros Hle. rewrite (proj2 (Z.leb_le _ _) Hle). split; [by eexists|done].
  - intros Hlt. rewrite (proj2 (Z.leb_gt _ _) Hlt). by destruct (ping _).
Qed.
