(* ===== verification/Pipeline.v ===== *)
(** * processor-service/internal/service.go: the pipeline that [Service.Run] wires together

    Consumer, worker pool, enricher, fan-out and the three sinks, composed as in the source: the
    consumer's handler is [pool.Submit], the pool's handler is the enricher in front of
    [fanOut.Publish], and each sink's goroutine receives from its channel.  A state is the records
    still to be dispatched, the marked records and the pool, whose world is the three channels
    together with what the sinks have received; a step is a step of one of the goroutines. *)
From S2P Require Import Prelude GoBase Float64 Json GoTime Domain Wire Normalizer Handlers FanOut Pool OrderBookStore Consumer.
#[local] Open Scope nat_scope.
#[local] Opaque decoded.

Record fabric := Fabric {
  chans : FanOut;
  seen : sinks (list TradeEvent);
}.

(** One running call of [enricher.Handle]: inside [fanOut.Publish] with the enriched event. *)
Record handling := Handling {
  h_event : TradeEvent;
  h_call : publish;
}.

Section Pipeline.
Context {P : Type} `{MetadataProvider P} (meta : P).

Definition handle_start (event : TradeEvent) : handling := Handling (enriched meta event) publish_start.
Definition handle_move (ctx : option error) (l : publish_label) (w : fabric) (h : handling) :
  option (fabric * handling) :=
  '(f, c) ← publish_move (h_event h) ctx l (chans w) (h_call h);
  Some (Fabric f (seen w), Handling (h_event h) c).
Definition handle_verdict (h : handling) : option (option error) := pub_return (h_call h).
(** The goroutine of a sink takes the next trade. *)
Definition sink_receive (s : sink) (w : fabric) : option fabric :=
  '(e, c) ← recv (get s (chans w));
  Some (Fabric (set s c (chans w)) (set s (get s (seen w) ++ [e]) (seen w))).

#[local] Abbreviation pool_t := (WorkerPool (W := fabric) (H := handling)).
#[local] Abbreviation plabel := (pool_label (L := publish_label) (E := sink)).
Definition pstep : pool_t -> plabel -> pool_t -> Prop :=
  pool_step handle_start handle_move handle_verdict sink_receive.
Definition pexec : plabel -> pool_t -> option pool_t :=
  pool_exec handle_start handle_move handle_verdict sink_receive.

Record system := System {
  todo : list kgo_Record;
  marked : list kgo_Record;
  pool : pool_t;
}.

(** [Service.Run] after the setup, with the records the polls will deliver. *)
Definition init (poolSize fanOutBuffer : Z) (recs : list kgo_Record) : system :=
  System recs [] (NewWorkerPool poolSize (Fabric (NewFanOut fanOutBuffer) (each []))).

Inductive sys_label :=
  | Skip                        (** dispatch marks a record that does not decode *)
  | Enqueue                     (** [Submit] accepts the decoded trade; dispatch marks the record *)
  | Refuse                      (** [Submit] returns the context's error; the record stays unmarked *)
  | Pool (l : plabel).          (** a worker, a sink, or the cancellation *)

Definition internal (l : plabel) : bool :=
  match l with Submitted _ | Rejected _ => false | _ => true end.

Inductive sys_step : system -> sys_label -> system -> Prop :=
  | sys_skip rec recs m p :
      decoded rec = None ->
      sys_step (System (rec :: recs) m p) Skip (System recs (m ++ [rec]) p)
  | sys_enqueue rec recs m p event p' :
      decoded rec = Some event -> pstep p (Submitted event) p' ->
      sys_step (System (rec :: recs) m p) Enqueue (System recs (m ++ [rec]) p')
  | sys_refuse rec recs m p event p' :
      decoded rec = Some event -> pstep p (Rejected event) p' ->
      sys_step (System (rec :: recs) m p) Refuse (System recs m p')
  | sys_pool recs m p l p' :
      internal l = true -> pstep p l p' ->
      sys_step (System recs m p) (Pool l) (System recs m p').

Definition sys_exec (l : sys_label) (s : system) : option system :=
  match l, todo s with
  | Skip, rec :: recs =>
      match decoded rec with None => Some (System recs (marked s ++ [rec]) (pool s)) | Some _ => None end
  | Enqueue, rec :: recs =>
      event ← decoded rec;
      p ← pexec (Submitted event) (pool s);
      Some (System recs (marked s ++ [rec]) p)
  | Refuse, rec :: recs =>
      event ← decoded rec;
      p ← pexec (Rejected event) (pool s);
      Some (System recs (marked s) p)
  | Pool l, _ =>
      if internal l then p ← pexec l (pool s); Some (System (todo s) (marked s) p) else None
  | _, [] => None
  end.

Lemma sys_exec_sound l s s' : sys_exec l s = Some s' -> sys_step s l s'.
Proof.
  destruct s as [recs m p]. destruct l as [| | |l]; cbn [sys_exec todo marked pool].
  4: { destruct (internal l) eqn:Hi; [|done]. destruct (pexec l p) as [p'|] eqn:He; [|done].
       intros [= <-]. constructor; [done|]. by apply pool_exec_sound. }
  all: destruct recs as [|rec recs]; [done|]; destruct (decoded rec) as [event|] eqn:Hd; try done.
  - intros [= <-]. by constructor.
  - cbn [mbind option_bind]. destruct (pexec _ p) as [p'|] eqn:He; [|done]. intros [= <-].
    econstructor; [done|]. by apply pool_exec_sound.
  - cbn [mbind option_bind]. destruct (pexec _ p) as [p'|] eqn:He; [|done]. intros [= <-].
    econstructor; [done|]. by apply pool_exec_sound.
Qed.

(** ** Accounting, per sink *)

(** What a worker still owes a sink. *)
Definition owed (s : sink) (w : worker (H := handling)) : list TradeEvent :=
  match w with
  | Busy _ h => if get s (pub_locals (h_call h)) then [h_event h] else []
  | _ => []
  end.
(** What has gone into a sink's channel. *)
Definition into (s : sink) (w : fabric) : list TradeEvent := get s (seen w) ++ buf (get s (chans w)).

Definition call_ok (ctx : option error) (w : worker (H := handling)) : Prop :=
  match w with
  | Busy event h =>
      h_event h = enriched meta event /\
      (pub_return (h_call h) = Some None -> publishing (pub_locals (h_call h)) = false) /\
      (forall err, pub_return (h_call h) = Some (Some err) -> is_Some ctx)
  | _ => True
  end.

(** Every trade taken by a worker is in the sink's channel (or was received from it), or still
    owed, or lost to the cancellation. *)
Record accounted (p : pool_t) : Prop := {
  acc_calls : Forall (call_ok (ctx p)) (workers p);
  acc_sinks : forall s, exists lost,
    into s (world p) ++ (workers p ≫= owed s) ++ lost ≡ₚ
    map (enriched meta) (map fst (handled p) ++ running p) /\ (ctx p = None -> lost = []);
}.

Lemma owed_insert s (ws : list worker) i w w' :
  ws !! i = Some w -> owed s w ++ (<[i := w']> ws ≫= owed s) ≡ₚ owed s w' ++ (ws ≫= owed s).
Proof. apply bind_insert_perm. Qed.
Lemma running_insert (ws : list (worker (H := handling))) i w w' :
  ws !! i = Some w ->
  busy_events w ++ (<[i := w']> ws ≫= busy_events) ≡ₚ busy_events w' ++ (ws ≫= busy_events).
Proof. apply bind_insert_perm. Qed.

Lemma call_ok_mono ctx ctx' ws :
  (is_Some ctx -> is_Some ctx') -> Forall (call_ok ctx) ws -> Forall (call_ok ctx') ws.
Proof.
  intros Hc Hws. eapply Forall_impl; [exact Hws|]. intros [|event h|r]; [done| |done].
  intros (He & Hn & Herr). split_and!; eauto.
Qed.

Lemma accounted_new size f : (forall s, buf (get s f) = []) ->
  accounted (NewWorkerPool size (Fabric f (each []))).
Proof.
  intros Hf. split; cbn.
  - apply Forall_forall. intros w Hw. apply list_elem_of_In, repeat_spec in Hw. by subst.
  - intros s. exists []. split; [|done]. unfold into, running. cbn. rewrite get_each, Hf. cbn.
    clear. by induction (Z.to_nat _).
Qed.

Definition sums (p : pool_t) (lost : list TradeEvent) (s : sink) : Prop :=
  into s (world p) ++ (workers p ≫= owed s) ++ lost ≡ₚ
  map (enriched meta) (map fst (handled p) ++ running p).

Lemma sums_take p i event c s lost :
  workers p !! i = Some Idle -> sums p lost s ->
  sums (set_worker i (Busy event (handle_start event)) (set_jobs c p)) lost s.
Proof.
  unfold sums, running. intros Hw Hs. cbn [set_worker set_jobs world workers handled].
  pose proof (owed_insert s _ i _ (Busy event (handle_start event)) Hw) as Ho.
  pose proof (running_insert _ i _ (Busy event (handle_start event)) Hw) as Hr.
  cbn [owed busy_events app handle_start h_call pub_locals publish_start] in Ho, Hr.
  rewrite get_each in Ho. rewrite Ho, Hr. rewrite !map_app in *. cbn [map h_event].
  transitivity (enriched meta event :: into s (world p) ++ (workers p ≫= owed s) ++ lost);
    [solve_Permutation|]. rewrite Hs. solve_Permutation.
Qed.

(** The moves inside a call neither end nor begin the handling of a trade. *)
Lemma sums_work p i event h h' w s lost :
  workers p !! i = Some (Busy event h) -> 
  into s w ++ owed s (Busy event h') ≡ₚ into s (world p) ++ owed s (Busy event h) ->
  sums p lost s -> sums (set_worker i (Busy event h') (set_world w p)) lost s.
Proof.
  unfold sums, running. intros Hw Hio Hs. cbn [set_worker set_world world workers handled].
  pose proof (owed_insert s _ i _ (Busy event h') Hw) as Ho.
  pose proof (running_insert _ i _ (Busy event h') Hw) as Hr. cbn [busy_events] in Hr.
  apply Permutation_app_inv_l in Hr. rewrite Hr, <- Hs.
  apply (Permutation_app_inv_l (owed s (Busy event h))).
  transitivity (into s w ++ (owed s (Busy event h) ++ (<[i:=Busy event h']> (workers p) ≫= owed s)) ++ lost);
    [solve_Permutation|].
  rewrite Ho. transitivity ((into s w ++ owed s (Busy event h')) ++ (workers p ≫= owed s) ++ lost);
    [solve_Permutation|]. rewrite Hio. solve_Permutation.
Qed.

Lemma sums_finish p i event h err s lost :
  workers p !! i = Some (Busy event h) -> h_event h = enriched meta event -> sums p lost s ->
  sums (set_worker i Idle (log_handled (event, err) p)) (owed s (Busy event h) ++ lost) s.
Proof.
  unfold sums, running. intros Hw He Hs. cbn [set_worker log_handled world workers handled].
  pose proof (owed_insert s _ i _ Idle Hw) as Ho. pose proof (running_insert _ i _ Idle Hw) as Hr.
  cbn [busy_events app] in Hr. rewrite <- Hr in Hs.
  transitivity (into s (world p) ++ (owed s (Busy event h) ++ (<[i:=Idle]> (workers p) ≫= owed s)) ++ lost);
    [solve_Permutation|].
  rewrite Ho. cbn [owed app]. rewrite Hs, !map_app. cbn [map fst]. solve_Permutation.
Qed.

Lemma sums_exit p i r s lost :
  workers p !! i = Some Idle -> sums p lost s -> sums (set_worker i (Exited r) p) lost s.
Proof.
  unfold sums, running. intros Hw Hs. cbn [set_worker world workers handled].
  pose proof (owed_insert s _ i _ (Exited r) Hw) as Ho. pose proof (running_insert _ i _ (Exited r) Hw) as Hr.
  cbn [owed busy_events app] in Ho, Hr. by rewrite Ho, Hr.
Qed.

Lemma into_receive s s' w w' : sink_receive s w = Some w' -> into s' w' = into s' w.
Proof.
  unfold sink_receive. destruct (recv _) as [[e c]|] eqn:Hr; [|done]. intros [= <-].
  apply recv_spec in Hr as [Hb _]. unfold into. cbn [seen chans]. rewrite !get_set.
  destruct (decide (s' = s)) as [->|]; [|done]. by rewrite Hb, <- app_assoc.
Qed.

Lemma calls_insert ctx (ws : list worker) i w :
  Forall (call_ok ctx) ws -> call_ok ctx w -> Forall (call_ok ctx) (<[i := w]> ws).
Proof. intros. by apply Forall_insert. Qed.

(** What one move of a call does to its own promises and to each sink. *)
Lemma handle_move_spec ctx l w h w' h' event :
  handle_move ctx l w h = Some (w', h') -> call_ok ctx (Busy event h) ->
  call_ok ctx (Busy event h') /\
  forall s, into s w' ++ owed s (Busy event h') = into s w ++ owed s (Busy event h).
Proof.
  unfold handle_move. destruct (publish_move _ _ _ _ _) as [[f c]|] eqn:Hm; [|done].
  intros [= <- <-] (He & Hn & Herr). apply publish_move_spec in Hm as [Hr Hm].
  destruct h as [e k]. cbn [h_event h_call] in *. destruct l as [s0| |].
  - destruct Hm as (Hp & _ & -> & ->). split; [done|]. intros s. unfold into, owed. cbn [chans seen h_call pub_locals h_event].
    rewrite !get_set. destruct (decide (s = s0)) as [->|]; [|done]. rewrite Hp. cbn [buf].
    rewrite app_nil_r. by rewrite <- app_assoc.
  - destruct Hm as (-> & Hl & Hp & err & -> & Hret). split.
    + split; [done|]. cbn [h_call]. rewrite Hret. split; [done|]. intros err' _. by eexists.
    + intros s. unfold owed. cbn [h_call h_event]. by rewrite Hl.
  - destruct Hm as (-> & Hl & Hp & Hret). split.
    + split; [done|]. cbn [h_call]. rewrite Hret, Hl. done.
    + intros s. unfold owed. cbn [h_call h_event]. by rewrite Hl.
Qed.

Lemma accounted_step p l p' : accounted p -> pstep p l p' -> accounted p'.
Proof.
  intros [Hc Hs] Hstep.
  destruct Hstep as [p event p' Hsub|p event err Hsub|p i event c Hw Hr|p i event h l w' h' Hw Hm
    |p i event h err Hw Hv|p i err Hw Hctx|p err Hctx|p x w' He].
  - unfold Submit in Hsub. destruct (send (jobs p) event); [|done]. injection Hsub as <-. by split.
  - by split.
  - split; [apply calls_insert; [done|by split_and!]|]. intros s. destruct (Hs s) as (lost & Hl & Hctx).
    exists lost. split; [by apply sums_take|done].
  - pose proof (Forall_lookup_1 _ _ _ _ Hc Hw) as Hok.
    destruct (handle_move_spec _ _ _ _ _ _ _ Hm Hok) as [Hok' Hio].
    split; [by apply calls_insert|]. intros s. destruct (Hs s) as (lost & Hl & Hctx).
    exists lost. split; [eapply sums_work; [done|by rewrite Hio|done]|done].
  - destruct (Forall_lookup_1 _ _ _ _ Hc Hw) as (He & Hn & Herr).
    split; [by apply calls_insert|]. intros s. destruct (Hs s) as (lost & Hl & Hctx).
    exists (owed s (Busy event h) ++ lost). split; [by apply sums_finish|].
    cbn [ctx set_worker log_handled]. intros Hlive. rewrite (Hctx Hlive), app_nil_r.
    unfold handle_verdict in Hv. destruct err as [err|].
    + destruct (Herr err Hv). congruence.
    + cbn [owed]. by rewrite (proj1 (publishing_false _) (Hn Hv) s).
  - split; [by apply calls_insert|]. intros s. destruct (Hs s) as (lost & Hl & Hctx').
    exists lost. split; [by apply sums_exit|done].
  - split; [|intros s; destruct (Hs s) as (lost & Hl & _); by exists lost].
    eapply call_ok_mono; [|exact Hc]. intros _. by eexists.
  - split; [done|]. intros s. destruct (Hs s) as (lost & Hl & Hctx). exists lost. split; [|done].
    unfold sums in *. cbn [world workers handled set_world running]. by rewrite (into_receive _ _ _ _ He).
Qed.

(** ** The system's invariant *)

Definition decodable (recs : list kgo_Record) : list TradeEvent := omap decoded recs.

Lemma decodable_snoc recs rec :
  decodable (recs ++ [rec]) = decodable recs ++ option_list (decoded rec).
Proof. unfold decodable. rewrite omap_app. apply (f_equal (app _)).
  change (omap decoded [rec]) with (match decoded rec with Some e => [e] | None => [] end).
  generalize (decoded rec). by intros [|].
Qed.

(** The records consumed so far, and the trades among them that were submitted: all of them
    while the context is live. *)
Record sys_inv (n : nat) (recs : list kgo_Record) (s : system) : Prop := {
  sys_pool_inv : exists pls : list plabel, pool_inv n pls (pool s) /\
    exists consumed refused, recs = consumed ++ todo s /\
      decodable consumed ≡ₚ submitted pls ++ refused /\
      (ctx (pool s) = None -> refused = [] /\ marked s = consumed);
  sys_accounted : accounted (pool s);
}.

Lemma sys_inv_init size fsize recs : sys_inv (pool_size size) recs (init size fsize recs).
Proof.
  split.
  - exists ([] : list plabel). split; [apply pool_inv_new|]. exists [], []. done.
  - apply accounted_new. intros s. unfold NewFanOut. by rewrite get_each.
Qed.

Lemma pstep_ctx p l p' : pstep p l p' -> ctx p' = None -> ctx p = None.
Proof.
  destruct 1 as [p event p' Hs| | | | | | |]; try done.
  unfold Submit in Hs. destruct (send (jobs p) event); [|done]. by injection Hs as <-.
Qed.

Lemma sys_inv_step n recs s l s' : sys_inv n recs s -> sys_step s l s' -> sys_inv n recs s'.
Proof.
  intros [(pls & Hp & consumed & refused & Hrecs & Hsub & Hlive) Hacc] Hstep.
  destruct Hstep as [rec rest m p Hd|rec rest m p event p' Hd Hs|rec rest m p event p' Hd Hs
    |rest m p l p' Hi Hs]; cbn [todo marked pool] in *.
  - split; [|done]. exists pls. split; [done|]. exists (consumed ++ [rec]), refused.
    split; [by rewrite <- app_assoc|]. split.
    + rewrite decodable_snoc, Hd. cbn [option_list]. by rewrite app_nil_r.
    + cbn [marked]. intros Hc. destruct (Hlive Hc) as [-> ->]. done.
  - split; [|by eapply accounted_step]. exists (pls ++ [Submitted event]).
    split; [by eapply pool_inv_step|]. exists (consumed ++ [rec]), refused.
    split; [by rewrite <- app_assoc|]. split.
    + rewrite decodable_snoc, Hd, submitted_snoc, Hsub. cbn [option_list]. solve_Permutation.
    + cbn [marked]. intros Hc. destruct (Hlive (pstep_ctx _ _ _ Hs Hc)) as [-> ->]. done.
  - split; [|by eapply accounted_step]. exists (pls ++ [Rejected event]).
    split; [by eapply pool_inv_step|]. exists (consumed ++ [rec]), (refused ++ [event]).
    split; [by rewrite <- app_assoc|]. split.
    + rewrite decodable_snoc, Hd, submitted_snoc, app_nil_r, Hsub. cbn [option_list]. solve_Permutation.
    + cbn [pool]. inversion Hs as [|? ? err Herr| | | | | |]; subst. unfold Submit_cancelled in Herr. congruence.
  - split; [|by eapply accounted_step]. exists (pls ++ [l]).
    split; [by eapply pool_inv_step|]. exists consumed, refused. split; [done|].
    rewrite submitted_snoc. split.
    + rewrite Hsub. destruct l; try done; by rewrite app_nil_r.
    + cbn [marked pool]. intros Hc. apply Hlive. by eapply pstep_ctx.
Qed.

Lemma sys_inv_trace size fsize recs ls s :
  trace sys_step (init size fsize recs) ls s -> sys_inv (pool_size size) recs s.
Proof.
  intros Htr. eapply (trace_invariant sys_step (sys_inv (pool_size size) recs)); [|exact Htr|apply sys_inv_init].
  intros. by eapply sys_inv_step.
Qed.
End Pipeline.
