(* ===== verification/PipelineFacts.v ===== *)
(** * The pipeline delivers: exactly once, without deadlock, in finitely many steps

    Properties of the system of [Pipeline.v]: accounting (every sink receives every decodable trade
    exactly once), progress and termination (a live pipeline that is not empty can move, and a
    weight bounds the number of moves), order (kept by one worker, not by two) and what
    cancellation can lose. *)
From S2P Require Import Prelude GoBase Decimal Float64 Json GoTime Domain Wire Normalizer Handlers FanOut Pool OrderBookStore RedisWriter Consumer Pipeline.
#[local] Open Scope nat_scope.
#[local] Opaque decoded.

Section Facts.
Context {P : Type} `{MetadataProvider P} (meta : P).
#[local] Abbreviation step := (sys_step meta).

Definition cancels_pool (l : sys_label) : bool :=
  match l with Pool (CancelPool _) => true | _ => false end.
Definition received_by (k : sink) (s : system) : list TradeEvent := get k (seen (world (pool s))).

(** Nothing is left to do: no record, no queued trade, no busy worker, no full channel. *)
Definition quiet (s : system) : Prop :=
  todo s = [] /\ buf (jobs (pool s)) = [] /\ Forall (fun w => w = Idle) (workers (pool s)) /\
  forall k, buf (get k (chans (world (pool s)))) = [].

(** ** Accounting *)

Lemma submitted_submseteq n recs s (pls : list (pool_label (L := publish_label) (E := sink)))
    consumed refused :
  pool_inv n pls (pool s) -> recs = consumed ++ todo s ->
  decodable consumed ≡ₚ submitted pls ++ refused ->
  map fst (handled (pool s)) ++ running (pool s) ⊆+ decodable recs.
Proof.
  intros Hp -> Hsub. unfold decodable. rewrite omap_app. fold (decodable consumed).
  rewrite Hsub, (inv_conserved _ _ _ Hp), (app_assoc _ (running _)), <- !app_assoc, app_assoc.
  by apply submseteq_inserts_r.
Qed.

Lemma delivered_at_most_once n recs s k :
  sys_inv meta n recs s -> received_by k s ⊆+ map (enriched meta) (decodable recs).
Proof.
  intros [(pls & Hp & consumed & refused & Hrecs & Hsub & _) [_ Hacc]].
  destruct (Hacc k) as (lost & Hl & _). unfold into in Hl.
  transitivity (map (enriched meta) (map fst (handled (pool s)) ++ running (pool s))).
  - rewrite <- Hl, <- !app_assoc. apply submseteq_inserts_r. done.
  - apply fmap_submseteq. by eapply submitted_submseteq.
Qed.

Lemma idle_owes_nothing k (ws : list (worker (H := handling))) :
  Forall (fun w => w = Idle) ws -> (ws ≫= owed k) = [] /\ (ws ≫= busy_events) = [].
Proof. induction 1 as [|w ws -> _ [IH1 IH2]]; [done|]. rewrite !bind_cons, IH1, IH2. done. Qed.

Lemma quiet_delivered n recs s k :
  sys_inv meta n recs s -> quiet s -> ctx (pool s) = None ->
  received_by k s ≡ₚ map (enriched meta) (decodable recs) /\ marked s = recs.
Proof.
  intros [(pls & Hp & consumed & refused & Hrecs & Hsub & Hlive) [_ Hacc]] (Ht & Hj & Hw & Hb) Hc.
  destruct (Hlive Hc) as [-> Hm]. rewrite Ht, app_nil_r in Hrecs. subst consumed.
  destruct (Hacc k) as (lost & Hl & Hlost). rewrite (Hlost Hc) in Hl.
  destruct (idle_owes_nothing k _ Hw) as [Howed Hrun].
  unfold into in Hl. rewrite Hb, Howed, !app_nil_r in Hl. split; [|done].
  unfold received_by. rewrite Hl. apply fmap_Permutation.
  rewrite Hsub, (inv_conserved _ _ _ Hp), Hj, !app_nil_r. done.
Qed.

(** ** Progress *)

Definition fan_size (size : Z) : nat :=
  Z.to_nat (if (size <=? 0)%Z then defaultFanOutBuffer else size).
Lemma fan_size_pos size : 0 < fan_size size.
Proof. unfold fan_size, defaultFanOutBuffer. destruct (Z.leb_spec size 0); lia. Qed.

Definition caps (n : nat) (f : FanOut) : Prop := forall k, cap (get k f) = n.

Lemma caps_set n k c f : caps n f -> cap c = cap (get k f) -> caps n (set k c f).
Proof. intros Hf Hc k'. rewrite get_set. destruct (decide (k' = k)); [by rewrite Hc|done]. Qed.

Lemma caps_pstep n p l p' :
  pstep meta p l p' -> caps n (chans (world p)) -> caps n (chans (world p')).
Proof.
  destruct 1 as [p event p' Hs| | |p i event h l w' h' Hw Hm| | | |p x w' He]; try done; intros Hc.
  - unfold Submit in Hs. destruct (send (jobs p) event); [|done]. by injection Hs as <-.
  - cbn. unfold handle_move in Hm. destruct (publish_move _ _ _ _ _) as [[f c]|] eqn:Hpm; [|done].
    injection Hm as <- <-. apply publish_move_spec in Hpm as [_ Hpm]. cbn.
    destruct l; [|by destruct Hpm as (-> & _)..].
    destruct Hpm as (_ & _ & -> & _). by apply caps_set.
  - cbn. unfold sink_receive in He. destruct (recv _) as [[e c]|] eqn:Hr; [|done].
    injection He as <-. apply recv_spec in Hr as [_ Hcap]. by apply caps_set.
Qed.

Lemma caps_trace psize fsize recs ls s :
  trace step (init psize fsize recs) ls s -> caps (fan_size fsize) (chans (world (pool s))).
Proof.
  intros Htr.
  refine (trace_invariant step (fun s => caps (fan_size fsize) (chans (world (pool s)))) _ _ _ _ Htr _).
  - intros s0 l s1 Hc Hstep. destruct Hstep; [done|by eapply caps_pstep..].
  - intros k. cbn. unfold NewFanOut. by rewrite get_each.
Qed.

(** A live pipeline that is not quiet can move without being cancelled. *)
Lemma worker_moves n s i w :
  accounted meta (pool s) -> caps n (chans (world (pool s))) -> 0 < n ->
  (forall k, buf (get k (chans (world (pool s)))) = []) ->
  workers (pool s) !! i = Some w -> w <> Idle -> is_exited w = false ->
  exists l s', cancels_pool l = false /\ step s l s'.
Proof.
  intros [Hcalls _] Hcaps Hn Hempty Hw Hidle Hex. destruct w as [|event h|r]; [done| |done].
  destruct s as [recs m p]. cbn [pool] in *.
  assert (forall l p', internal l = true -> cancels_pool (Pool l) = false -> pstep meta p l p' ->
            exists l s', cancels_pool l = false /\ step (System recs m p) l s') as Hgo.
  { intros l p' Hi Hl Hp. exists (Pool l), (System recs m p'). split; [done|by constructor]. }
  destruct (pub_return (h_call h)) as [err|] eqn:Hret.
  { eapply (Hgo (Finish i)); [done..|]. by econstructor. }
  destruct (publishing (pub_locals (h_call h))) eqn:Hpub.
  - apply publishing_true in Hpub as [k Hk].
    assert (exists r, publish_move (h_event h) (ctx p) (Accept k) (chans (world p)) (h_call h) = Some r) as [[f c] Hm].
    { unfold publish_move, publish_accept, send. rewrite Hret, Hk, Hempty, Hcaps. cbn [length].
      destruct n; [lia|]. eexists. reflexivity. }
    eapply (Hgo (Work i (Accept k))); [done..|]. econstructor; [exact Hw|].
    unfold handle_move. by rewrite Hm.
  - eapply (Hgo (Work i Return)); [done..|]. econstructor; [exact Hw|].
    unfold handle_move, publish_move. by rewrite Hret, Hpub.
Qed.

Lemma not_idle_lookup (ws : list (worker (H := handling))) :
  Forall (fun w => w = Idle) ws \/ exists i w, ws !! i = Some w /\ w <> Idle.
Proof.
  induction ws as [|w ws IH]; [by left|]. destruct w as [|event h|r].
  - destruct IH as [Hall|(i & w & Hi & Hw)]; [left; by constructor|right; by exists (S i), w].
  - right. by exists 0, (Busy event h).
  - right. by exists 0, (Exited r).
Qed.

Lemma progress n fcap recs s :
  sys_inv meta n recs s -> caps fcap (chans (world (pool s))) -> 0 < fcap -> 0 < n ->
  ctx (pool s) = None -> quiet s \/ exists l s', cancels_pool l = false /\ step s l s'.
Proof.
  intros [(pls & Hp & _) Hacc] Hcaps Hf Hn Hc. destruct (inv_size _ _ _ Hp) as (_ & Hlen & Hcap).
  pose proof (inv_exited _ _ _ Hp) as Hex.
  destruct (existsb (fun k => 0 <? length (buf (get k (chans (world (pool s)))))) all_sinks) eqn:He.
  { apply existsb_exists in He as (k & _ & Hk%Nat.ltb_lt). right.
    destruct (buf (get k (chans (world (pool s))))) as [|e q] eqn:Hb; [simpl in Hk; lia|].
    destruct s as [rs m p]. exists (Pool (Env k)). eexists. split; [done|].
    constructor; [done|]. constructor. unfold sink_receive, recv. cbn [pool] in Hb. by rewrite Hb. }
  assert (forall k, buf (get k (chans (world (pool s)))) = []) as Hempty.
  { intros k. destruct (buf _) as [|e q] eqn:Hb; [done|]. exfalso.
    assert (existsb (fun k => 0 <? length (buf (get k (chans (world (pool s)))))) all_sinks = true); [|congruence].
    apply existsb_exists. exists k. rewrite Hb. split; [destruct k; simpl; tauto|done]. }
  destruct (not_idle_lookup (workers (pool s))) as [Hidle|(i & w & Hw & Hni)].
  2: { right. eapply worker_moves; try done. destruct w as [| |r]; [done..|].
       destruct (Hex i r Hw) as [_ [? ?]]. congruence. }
  destruct s as [rs m p]. cbn [pool todo] in *.
  destruct (buf (jobs p)) as [|e q] eqn:Hj.
  - destruct rs as [|rec rs]; [by left|right].
    destruct (decoded rec) as [event|] eqn:Hd; [|exists Skip; eexists; split; [done|by constructor]].
    exists Enqueue. eexists. split; [done|]. econstructor; [done|]. constructor. unfold Submit, send.
    rewrite Hj, Hcap. destruct n; [lia|]. reflexivity.
  - right. destruct (lookup_lt_is_Some_2 (workers p) 0 ltac:(lia)) as [w Hw].
    pose proof (Forall_lookup_1 _ _ _ _ Hidle Hw) as ->.
    exists (Pool (Take 0)). eexists. split; [done|]. constructor; [done|]. constructor; [done|].
    unfold recv. by rewrite Hj.
Qed.

(** ** Termination *)

Definition call_weight (c : publish) : nat :=
  match pub_return c with
  | Some _ => 0
  | None => 1 + 2 * length (filter (fun k => get k (pub_locals c) = true) all_sinks)
  end.
Definition worker_weight (w : worker (H := handling)) : nat :=
  match w with Idle => 1 | Busy _ h => 2 + call_weight (h_call h) | Exited _ => 0 end.
Definition chans_weight (f : FanOut) : nat :=
  sum_list_with (fun k => length (buf (get k f))) all_sinks.
Definition weight (s : system) : nat :=
  10 * length (todo s) + 9 * length (buf (jobs (pool s))) +
  sum_list_with worker_weight (workers (pool s)) + chans_weight (chans (world (pool s))).

Lemma chans_weight_set k c f :
  chans_weight (set k c f) + length (buf (get k f)) = chans_weight f + length (buf c).
Proof. destruct k; cbn; lia. Qed.

Lemma handle_move_weight ctx l w h w' h' :
  handle_move ctx l w h = Some (w', h') ->
  call_weight (h_call h') + chans_weight (chans w') < call_weight (h_call h) + chans_weight (chans w).
Proof.
  unfold handle_move. destruct (publish_move _ _ _ _ _) as [[f c]|] eqn:Hm; [|done].
  intros [= <- <-]. cbn [h_call chans]. apply publish_move_spec in Hm as [Hr Hm].
  unfold call_weight. rewrite Hr. destruct l as [k| |].
  - destruct Hm as (Hk & _ & -> & ->). cbn [pub_return pub_locals].
    pose proof (waiting_set_false k _ Hk).
    pose proof (chans_weight_set k (Channel (cap (get k (chans w))) (buf (get k (chans w)) ++ [h_event h])) (chans w)) as Hcw.
    cbn [buf] in Hcw. rewrite length_app in Hcw. cbn [length] in Hcw. lia.
  - destruct Hm as (-> & _ & _ & err & _ & ->). lia.
  - destruct Hm as (-> & _ & _ & ->). lia.
Qed.

Definition pool_weight (p : WorkerPool (W := fabric) (H := handling)) : nat :=
  9 * length (buf (jobs p)) + sum_list_with worker_weight (workers p) + chans_weight (chans (world p)).

Lemma pstep_weight p l p' :
  pstep meta p l p' -> cancels_pool (Pool l) = false ->
  match l with Submitted _ => pool_weight p' = 9 + pool_weight p | Rejected _ => p' = p
             | _ => pool_weight p' < pool_weight p end.
Proof.
  unfold pool_weight.
  destruct 1 as [p event p' Hs|p event err Hs|p i event c Hw Hr|p i event h l w' h' Hw Hm
    |p i event h err Hw Hv|p i err Hw Hctx|p err Hctx|p x w' He]; intros Hl;
    cbn [set_worker set_jobs set_world log_handled jobs workers world].
  - unfold Submit in Hs. destruct (send (jobs p) event) as [c|] eqn:Hsend; [|done]. injection Hs as <-.
    cbn. rewrite (send_buf _ _ _ Hsend), length_app. cbn. lia.
  - done.
  - apply recv_spec in Hr as [Hb _]. rewrite Hb. cbn [length].
    pose proof (sum_list_with_insert worker_weight _ i _ (Busy event (handle_start meta event)) Hw) as Hsum.
    assert (worker_weight (Busy event (handle_start meta event)) = 9) as He by reflexivity.
    rewrite He in Hsum. cbn [worker_weight] in Hsum. lia.
  - pose proof (sum_list_with_insert worker_weight _ i _ (Busy event h') Hw) as Hsum.
    apply handle_move_weight in Hm. cbn [worker_weight] in Hsum. lia.
  - pose proof (sum_list_with_insert worker_weight _ i _ Idle Hw) as Hsum. cbn [worker_weight] in Hsum. lia.
  - pose proof (sum_list_with_insert worker_weight _ i _ (Exited None) Hw) as Hsum.
    cbn [worker_weight] in Hsum. lia.
  - done.
  - unfold sink_receive in He. destruct (recv _) as [[e c]|] eqn:Hr; [|done]. injection He as <-.
    apply recv_spec in Hr as [Hb _]. cbn [chans].
    pose proof (chans_weight_set x c (chans (world p))) as Hcw. rewrite Hb in Hcw. cbn [length] in Hcw. lia.
Qed.

Lemma step_weight s l s' : step s l s' -> cancels_pool l = false -> weight s' < weight s.
Proof.
  unfold weight. destruct 1 as [rec rest m p Hd|rec rest m p event p' Hd Hs|rec rest m p event p' Hd Hs
    |rest m p l p' Hi Hs]; intros Hl; cbn [todo pool length].
  - lia.
  - apply pstep_weight in Hs; [|done]. cbv beta iota in Hs. unfold pool_weight in Hs. lia.
  - apply pstep_weight in Hs; [|done]. cbv beta iota in Hs. subst. lia.
  - apply pstep_weight in Hs; [|done]. unfold pool_weight in Hs. destruct l; try done; cbv beta iota in Hs; lia.
Qed.

Lemma trace_weight s ls s' :
  trace step s ls s' -> Forall (fun l => cancels_pool l = false) ls -> length ls + weight s' <= weight s.
Proof.
  induction 1 as [|s l s1 ls s' Hs _ IH]; intros Hls; [simpl; lia|].
  apply Forall_cons_1 in Hls as [Hl Hls]. pose proof (step_weight _ _ _ Hs Hl). specialize (IH Hls).
  cbn [length]. lia.
Qed.

Lemma weight_init psize fsize recs :
  weight (init psize fsize recs) = 10 * length recs + pool_size psize.
Proof.
  unfold weight, init, NewWorkerPool. fold (pool_size psize). cbn [todo pool jobs workers world chans].
  assert (sum_list_with worker_weight (repeat Idle (pool_size psize)) = pool_size psize) as ->.
  { induction (pool_size psize) as [|n IH]; [done|]. cbn. by rewrite IH. }
  unfold chans_weight, NewFanOut. cbn. lia.
Qed.

(** ** Order *)

(** With one worker everything is in line: received, in the channel, in the worker's hands,
    queued, and still to be dispatched. *)
Definition in_line (k : sink) (s : system) : list TradeEvent :=
  into k (world (pool s)) ++ (workers (pool s) ≫= owed k) ++
  map (enriched meta) (buf (jobs (pool s))) ++ map (enriched meta) (decodable (todo s)).

Lemma single_worker {A : Type} (ws : list A) i w w' :
  length ws = 1 -> ws !! i = Some w -> ws = [w] /\ <[i := w']> ws = [w'].
Proof.
  destruct ws as [|w0 [|w1 ws]]; [done| |done]. intros _ Hi. destruct i as [|i]; [|done].
  injection Hi as ->. done.
Qed.

Lemma in_line_pstep k rest m p l p' :
  length (workers p) = 1 -> accounted meta p -> pstep meta p l p' -> internal l = true ->
  ctx p' = None -> in_line k (System rest m p') = in_line k (System rest m p).
Proof.
  intros Hlen [Hcalls _] Hstep Hi Hlive. unfold in_line. cbn [pool todo].
  destruct Hstep as [p event p' Hs|p event err Hs|p i event c Hw Hr|p i event h l w' h' Hw Hm
    |p i event h err Hw Hv|p i err Hw Hctx|p err Hctx|p x w' He]; try done;
    cbn [set_worker set_jobs set_world log_handled jobs workers world ctx] in *.
  - destruct (single_worker _ i _ (Busy event (handle_start meta event)) Hlen Hw) as [-> ->].
    apply recv_spec in Hr as [Hb _]. rewrite Hb, !bind_singleton. cbn [owed handle_start h_call h_event].
    unfold publish_start. cbn [pub_locals]. by rewrite get_each.
  - pose proof (Forall_lookup_1 _ _ _ _ Hcalls Hw) as Hok.
    destruct (handle_move_spec _ _ _ _ _ _ _ _ Hm Hok) as [_ Hio].
    destruct (single_worker _ i _ (Busy event h') Hlen Hw) as [-> ->]. rewrite !bind_singleton.
    rewrite !app_assoc. by rewrite Hio.
  - destruct (Forall_lookup_1 _ _ _ _ Hcalls Hw) as (_ & Hn & Herr).
    destruct (single_worker _ i _ Idle Hlen Hw) as [-> ->]. rewrite !bind_singleton.
    unfold handle_verdict in Hv. destruct err as [err|]; [destruct (Herr err Hv); congruence|].
    cbn [owed]. by rewrite (proj1 (publishing_false _) (Hn Hv) k).
  - congruence.
  - by rewrite (into_receive _ _ _ _ He).
Qed.

Lemma in_line_step k recs s l s' :
  sys_inv meta 1 recs s -> step s l s' -> ctx (pool s') = None -> in_line k s' = in_line k s.
Proof.
  intros [(pls & Hp & _) Hacc] Hstep Hlive. destruct (inv_size _ _ _ Hp) as (_ & Hlen & _).
  destruct Hstep as [rec rest m p Hd|rec rest m p event p' Hd Hs|rec rest m p event p' Hd Hs
    |rest m p l p' Hi Hs]; cbn [pool] in *.
  - unfold in_line. cbn [pool todo]. unfold decodable. cbn [omap list_omap]. by rewrite Hd.
  - inversion Hs as [? ? ? Hsub| | | | | | |]; subst. unfold Submit in Hsub.
    destruct (send (jobs p) event) as [c|] eqn:Hsend; [|done]. injection Hsub as <-.
    unfold in_line. cbn [pool todo set_jobs world workers jobs]. rewrite (send_buf _ _ _ Hsend), map_app.
    change (decodable (rec :: rest)) with (match decoded rec with Some e => e :: decodable rest | None => decodable rest end).
    rewrite Hd. cbn [map]. by rewrite <- !app_assoc.
  - inversion Hs as [|? ? err Herr| | | | | |]; subst. unfold Submit_cancelled in Herr. congruence.
  - by eapply in_line_pstep.
Qed.

Lemma live_before s l s' : step s l s' -> ctx (pool s') = None -> ctx (pool s) = None.
Proof. destruct 1; [done|by eapply pstep_ctx..]. Qed.

Lemma in_line_trace k psize fsize recs ls s :
  pool_size psize = 1 -> trace step (init psize fsize recs) ls s -> ctx (pool s) = None ->
  in_line k s = map (enriched meta) (decodable recs).
Proof.
  intros H1 Htr.
  refine (proj2 (trace_invariant step (fun s => sys_inv meta 1 recs s /\
    (ctx (pool s) = None -> in_line k s = map (enriched meta) (decodable recs))) _ _ _ _ Htr _)).
  - intros s0 l s1 [Hinv Hline] Hstep. split; [by eapply sys_inv_step|]. intros Hlive.
    rewrite (in_line_step _ _ _ _ _ Hinv Hstep Hlive). apply Hline. by eapply live_before.
  - split; [rewrite <- H1; apply sys_inv_init|]. intros _. unfold in_line, into, init, NewWorkerPool.
    fold (pool_size psize). rewrite H1. cbn. unfold NewFanOut. by rewrite !get_each.
Qed.
End Facts.

(** ** Executions of the program's own pipeline, for examples *)

Definition run_system (psize fsize : Z) (recs : list kgo_Record) (ls : list sys_label) : option system :=
  run (sys_exec NewDefaultMetadataProvider) ls (init psize fsize recs).

Lemma run_system_trace psize fsize recs ls s :
  run_system psize fsize recs ls = Some s ->
  trace (sys_step NewDefaultMetadataProvider) (init psize fsize recs) ls s.
Proof. apply run_trace. intros. by apply sys_exec_sound. Qed.

(** A record with trade [id], and one that does not decode. *)
Definition trade_record (id : Z) : kgo_Record :=
  {| Partition := 0; Offset := id; RecKey := str "BTCUSDT";
     RecValue := match Marshal (example_trade id) with Ok l => l | Err _ => [] end |}.
Definition bad_record (id : Z) : kgo_Record :=
  {| Partition := 0; Offset := id; RecKey := str "BTCUSDT"; RecValue := str "oops" |}.

Definition accept_all (i : nat) : list sys_label :=
  map (fun k => Pool (Work i (Accept k))) all_sinks ++ [Pool (Work i Return); Pool (Finish i)].
Definition receive_all : list sys_label := map (fun k => Pool (Env k)) all_sinks.

(** Two workers; the malformed record is skipped; one trade per sink buffer. *)
Definition example_recs : list kgo_Record := [trade_record 1; bad_record 2; trade_record 3].
Definition example_run_labels : list sys_label :=
  [Enqueue; Skip; Enqueue; Pool (Take 0); Pool (Take 1)] ++ accept_all 1 ++ receive_all ++
  accept_all 0 ++ receive_all.

(** A decidable form of [quiet], to evaluate on a concrete state. *)
Definition quiet_b (s : system) : bool :=
  match todo s, buf (jobs (pool s)) with [], [] => true | _, _ => false end &&
  forallb (fun w => match w with Idle => true | _ => false end) (workers (pool s)) &&
  forallb (fun k => match buf (get k (chans (world (pool s)))) with [] => true | _ => false end) all_sinks.
Lemma quiet_b_sound s : quiet_b s = true -> quiet s.
Proof.
  unfold quiet_b, quiet. destruct (todo s); [|done]. destruct (buf (jobs (pool s))); [|done].
  intros [[_ Hw]%andb_true_iff Hk]%andb_true_iff. split; [done|]. split; [done|]. split.
  - apply Forall_forall. intros w Hin%list_elem_of_In. rewrite forallb_forall in Hw.
    specialize (Hw w Hin). by destruct w.
  - intros k. rewrite forallb_forall in Hk. specialize (Hk k ltac:(destruct k; simpl; tauto)).
    by destruct (buf _).
Qed.

(** Evaluate a run and a decidable condition on its last state. *)
Definition run_ends (psize fsize : Z) (recs : list kgo_Record) (ls : list sys_label)
    (p : system -> bool) : bool :=
  match run_system psize fsize recs ls with Some s => p s | None => false end.
Lemma run_ends_elim psize fsize recs ls p :
  run_ends psize fsize recs ls p = true -> exists s, run_system psize fsize recs ls = Some s /\ p s = true.
Proof. unfold run_ends. destruct (run_system _ _ _ _) as [s|]; [|done]. by exists s. Qed.
Definition live (s : system) : bool := bool_decide (ctx (pool s) = None).

(** ** Properties *)

(** C3: delivery: whatever the interleaving of the goroutines, no sink ever receives a trade twice or
    one that was not read, even if the pipeline is cancelled in the middle; and when a live
    pipeline has nothing left to do, every sink has received every decodable record exactly once,
    enriched, and every record, malformed ones included, has been marked. *)
Theorem Pipeline_exactly_once {P : Type} `{MetadataProvider P} (meta : P) (psize fsize : Z)
    (recs : list kgo_Record) (ls : list sys_label) (s : system) :
  trace (sys_step meta) (init psize fsize recs) ls s ->
  (forall k, received_by k s ⊆+ map (enriched meta) (decodable recs)) /\
  (quiet s -> ctx (pool s) = None ->
     (forall k, received_by k s ≡ₚ map (enriched meta) (decodable recs)) /\ marked s = recs).
Proof.
  intros Htr%sys_inv_trace. split; [intros k; by eapply delivered_at_most_once|].
  intros Hq Hc. split; [intros k|]; by eapply (quiet_delivered meta); try exact OrderBookSink.
Qed.

Lemma Pipeline_exactly_once_witness :
  exists s, run_system 2 1 example_recs example_run_labels = Some s /\
    (forall k, received_by k s ≡ₚ
       map (enriched NewDefaultMetadataProvider) (decodable example_recs)) /\ marked s = example_recs.
Proof.
  destruct (run_ends_elim 2 1 example_recs example_run_labels (fun s => quiet_b s && live s))
    as (s & Hrun & [Hq Hl]%andb_true_iff); [vm_compute; reflexivity|].
  exists s. split; [exact Hrun|].
  apply (Pipeline_exactly_once NewDefaultMetadataProvider 2 1 example_recs example_run_labels s);
    [by apply run_system_trace|by apply quiet_b_sound|by apply bool_decide_eq_true in Hl].
Defined.

(** C4: liveness: without cancellation the pipeline cannot deadlock and cannot run forever: in any
    reachable live state either everything is delivered or some goroutine can move, and an
    execution that is not cancelled has at most ten moves per record plus one per worker.  So it
    always reaches the state in which every sink has received everything. *)
Theorem Pipeline_drains {P : Type} `{MetadataProvider P} (meta : P) (psize fsize : Z)
    (recs : list kgo_Record) (ls : list sys_label) (s : system) :
  trace (sys_step meta) (init psize fsize recs) ls s ->
  (ctx (pool s) = None ->
     quiet s \/ exists l s', cancels_pool l = false /\ sys_step meta s l s') /\
  (Forall (fun l => cancels_pool l = false) ls -> length ls <= 10 * length recs + pool_size psize).
Proof.
  intros Htr. split.
  - intros Hc. eapply progress; [by eapply sys_inv_trace|by eapply caps_trace|apply fan_size_pos
      |apply pool_size_pos|done].
  - intros Hls. pose proof (trace_weight meta _ _ _ Htr Hls) as Hw. rewrite weight_init in Hw. lia.
Qed.

Lemma Pipeline_drains_witness :
  exists s, run_system 2 1 example_recs example_run_labels = Some s /\
    length example_run_labels <= 10 * length example_recs + pool_size 2.
Proof.
  destruct (run_ends_elim 2 1 example_recs example_run_labels live) as (s & Hrun & _);
    [vm_compute; reflexivity|].
  exists s. split; [exact Hrun|].
  apply (Pipeline_drains NewDefaultMetadataProvider 2 1 example_recs example_run_labels s);
    [by apply run_system_trace|repeat constructor].
Defined.

(** Order: with one worker every sink receives the trades in the order of the topic, so the
    order-book store is at any time the one that a prefix of the topic produces, and in the end
    the one the whole topic produces. *)
Theorem Pipeline_ordered {P : Type} `{MetadataProvider P} (meta : P) (fsize : Z)
    (recs : list kgo_Record) (ls : list sys_label) (s : system) :
  trace (sys_step meta) (init 1 fsize recs) ls s -> ctx (pool s) = None ->
  (forall k, received_by k s `prefix_of` map (enriched meta) (decodable recs)) /\
  (quiet s ->
     OrderBookStore_Run (received_by OrderBookSink s) NewOrderBookStore =
     OrderBookStore_Run (map (enriched meta) (decodable recs)) NewOrderBookStore).
Proof.
  intros Htr Hc.
  assert (forall k, in_line meta k s = map (enriched meta) (decodable recs)) as Hline
    by (intros k; eapply (in_line_trace meta k 1); [reflexivity|exact Htr|exact Hc]).
  split.
  - intros k. rewrite <- (Hline k). unfold in_line, into. rewrite <- app_assoc. by eexists.
  - intros (Ht & Hj & Hw & Hb). f_equal. rewrite <- (Hline OrderBookSink). unfold in_line, into.
    destruct (idle_owes_nothing OrderBookSink _ Hw) as [-> _]. rewrite Hb, Hj, Ht. cbn.
    by rewrite !app_nil_r.
Qed.

Definition example_ordered_labels : list sys_label :=
  [Enqueue; Skip; Pool (Take 0); Enqueue] ++ accept_all 0 ++ receive_all ++ [Pool (Take 0)] ++
  accept_all 0 ++ receive_all.
Lemma Pipeline_ordered_witness :
  exists s, run_system 1 1 example_recs example_ordered_labels = Some s /\
    forall k, received_by k s `prefix_of`
      map (enriched NewDefaultMetadataProvider) (decodable example_recs).
Proof.
  destruct (run_ends_elim 1 1 example_recs example_ordered_labels live) as (s & Hrun & Hl);
    [vm_compute; reflexivity|].
  exists s. split; [exact Hrun|].
  apply (Pipeline_ordered NewDefaultMetadataProvider 1 example_recs example_ordered_labels s);
    [by apply run_system_trace|by apply bool_decide_eq_true in Hl].
Defined.

(** C22: two workers do not keep the order of a symbol: there is an execution of the live pipeline
    with two workers that delivers two trades of one symbol, both of the same partition, to every
    sink in the opposite order; the order book then ends with the older trade on top. *)
Theorem Pipeline_reorders :
  exists ls s,
    trace (sys_step NewDefaultMetadataProvider) (init 2 1 [trade_record 1; trade_record 3]) ls s /\
    quiet s /\ ctx (pool s) = None /\
    forall k, map TradeID (received_by k s) = [3%Z; 1%Z].
Proof.
  set (ls := [Enqueue; Enqueue; Pool (Take 0); Pool (Take 1)] ++ accept_all 1 ++ receive_all ++
             accept_all 0 ++ receive_all).
  exists ls.
  destruct (run_ends_elim 2 1 [trade_record 1; trade_record 3] ls (fun s => quiet_b s && live s &&
    forallb (fun k => bool_decide (map TradeID (received_by k s) = [3%Z; 1%Z])) all_sinks))
    as (s & Hrun & [[Hq Hl]%andb_true_iff Hk]%andb_true_iff); [vm_compute; reflexivity|].
  exists s. split; [by apply run_system_trace|]. split; [by apply quiet_b_sound|].
  split; [by apply bool_decide_eq_true in Hl|]. intros k. rewrite forallb_forall in Hk.
  eapply bool_decide_eq_true, Hk. destruct k; simpl; tauto.
Qed.

(** C23: marks run ahead of the work: [Submit] returns as soon as the trade is queued, so dispatch
    marks a record that no worker has seen.  There is an execution in which the record is marked,
    the context is cancelled and every worker returns, while no sink ever received the trade; the
    group then resumes behind it. *)
Theorem Pipeline_loses_marked :
  exists ls s,
    trace (sys_step NewDefaultMetadataProvider) (init 1 1 [trade_record 1]) ls s /\
    marked s = [trade_record 1] /\ Start_returns (pool s) = true /\
    (forall k, received_by k s = []) /\
    forall G, GroupOffsetsLaws G -> redelivered (marked s) (trade_record 1) = false.
Proof.
  set (ls := [Enqueue; Pool (CancelPool (Sentinel ContextCanceled)); Pool (Exit 0)]).
  exists ls.
  destruct (run_ends_elim 1 1 [trade_record 1] ls (fun s =>
    bool_decide (marked s = [trade_record 1]) && Start_returns (pool s) &&
    forallb (fun k => bool_decide (received_by k s = [])) all_sinks))
    as (s & Hrun & [[Hm Hr]%andb_true_iff Hk]%andb_true_iff); [vm_compute; reflexivity|].
  apply bool_decide_eq_true in Hm.
  exists s. split; [by apply run_system_trace|]. split; [done|]. split; [done|]. split.
  - intros k. rewrite forallb_forall in Hk. eapply bool_decide_eq_true, Hk. destruct k; simpl; tauto.
  - intros G Laws. apply marked_not_redelivered. rewrite Hm. by left.
Qed.
