(* ===== verification/ConsumerLoop.v ===== *)
(** * The consumer's goroutine, one call at a time

    [Pipeline.sys_step] takes a record of the topic in one step: it decodes it, submits the trade and
    marks the record.  Here the goroutine stops between these calls, so that workers and sinks can
    run in between; [consumer_steps_atomic] shows that this adds no behaviour, and
    [sys_step_dispatch] that the step is [dispatch] of [Consumer.v] with [pool.Submit] as its
    handler. *)
From S2P Require Import Prelude GoBase Float64 Json GoTime Domain Wire Normalizer Handlers FanOut Pool OrderBookStore Consumer Pipeline.
#[local] Open Scope nat_scope.

Lemma decoded_eq rec :
  decoded rec = match Unmarshal (RecValue rec) zero_TradeEvent with Ok e => Some e | Err _ => None end.
Proof. reflexivity. Qed.
#[local] Opaque decoded.

Section ConsumerLoop.
Context {P : Type} `{MetadataProvider P} (meta : P).
#[local] Abbreviation pool_t := (WorkerPool (W := fabric) (H := handling)).
#[local] Abbreviation plabel := (pool_label (L := publish_label) (E := sink)).

(** [pool.Submit] returns [err] and leaves the pool as [p']. *)
Inductive submits (event : TradeEvent) (p : pool_t) : option error -> pool_t -> Prop :=
  | submits_nil p' : Submit event p = Some p' -> submits event p None p'
  | submits_err err : Submit_cancelled p = Some err -> submits event p (Some err) p.

Definition consumes (l : sys_label) : bool := match l with Pool _ => false | _ => true end.

(** A step of the consumer is one [dispatch], whose handler is a call of [Submit]. *)
Lemma sys_step_dispatch (c : Context) recs m p s' rec :
  (exists l, consumes l = true /\ sys_step meta (System (rec :: recs) m p) l s') <->
  exists m' p' verdict,
    s' = System recs m' p' /\
    (forall event, decoded rec = Some event -> submits event p verdict p') /\
    (decoded rec = None -> p' = p) /\
    dispatch c rec (fun _ _ _ => (verdict, p')) (m, p) = (tt, (m', p')).
Proof.
  unfold dispatch. pose proof (decoded_eq rec) as Hdec.
  destruct (Unmarshal (RecValue rec) zero_TradeEvent) as [event|e].
  - split.
    + intros (l & Hl & Hstep). inversion Hstep as [? ? ? ? Hd|? ? ? ? ev p' Hd Hs|? ? ? ? ev p' Hd Hs|]; subst; try done;
        [congruence|..]; assert (ev = event) as -> by congruence; inversion Hs; subst.
      * exists (m ++ [rec]), p', None. split_and!; try done; [|congruence]. intros ? [= <-]%(eq_trans (eq_sym Hdec)). by constructor.
      * exists m, p', (Some err). split_and!; try done. intros ? _. by constructor.
    + intros (m' & p' & verdict & -> & Hsub & _ & Hd). destruct (Hsub event Hdec) as [p' Hs|err Hs]; injection Hd as <-.
      * exists Enqueue. split; [done|]. econstructor; [exact Hdec|]. by constructor.
      * exists Refuse. split; [done|]. econstructor; [exact Hdec|]. by econstructor.
  - split.
    + intros (l & Hl & Hstep). inversion Hstep as [? ? ? ? Hd|? ? ? ? ev p' Hd Hs|? ? ? ? ev p' Hd Hs|]; subst; try done;
        try congruence. exists (m ++ [rec]), p, None. by split_and!; try congruence.
    + intros (m' & p' & verdict & -> & _ & Hsame & Hd). injection Hd as <-. rewrite (Hsame Hdec).
      exists Skip. split; [done|]. by constructor.
Qed.

(** ** The goroutine between its calls *)

(** Between two records, in the handler, or about to mark. *)
Inductive consuming :=
  | Between
  | Submitting (rec : kgo_Record) (event : TradeEvent)
  | Marking (rec : kgo_Record).
Record loop := Loop {
  l_at : consuming;
  l_todo : list kgo_Record;
  l_marked : list kgo_Record;
  l_pool : pool_t;
}.

Inductive loop_label := Decode | SubmitReturns (err : option error) | Mark | Others (l : plabel).
Inductive loop_step : loop -> loop_label -> loop -> Prop :=
  | loop_malformed rec recs m p :
      decoded rec = None -> loop_step (Loop Between (rec :: recs) m p) Decode (Loop (Marking rec) recs m p)
  | loop_decoded rec recs m p event :
      decoded rec = Some event ->
      loop_step (Loop Between (rec :: recs) m p) Decode (Loop (Submitting rec event) recs m p)
  | loop_submitted rec event recs m p p' :
      submits event p None p' ->
      loop_step (Loop (Submitting rec event) recs m p) (SubmitReturns None) (Loop (Marking rec) recs m p')
  | loop_refused rec event recs m p err p' :
      submits event p (Some err) p' ->
      loop_step (Loop (Submitting rec event) recs m p) (SubmitReturns (Some err)) (Loop Between recs m p')
  | loop_mark rec recs m p :
      loop_step (Loop (Marking rec) recs m p) Mark (Loop Between recs (m ++ [rec]) p)
  | loop_others at_ recs m p l p' :
      internal l = true -> pstep meta p l p' ->
      loop_step (Loop at_ recs m p) (Others l) (Loop at_ recs m p').

(** The state in which the record at hand has not been touched, or has been marked. *)
Definition abstracted (s : loop) : system :=
  match l_at s with
  | Between => System (l_todo s) (l_marked s) (l_pool s)
  | Submitting rec _ => System (rec :: l_todo s) (l_marked s) (l_pool s)
  | Marking rec => System (l_todo s) (l_marked s ++ [rec]) (l_pool s)
  end.
Definition decoded_right (s : loop) : Prop :=
  match l_at s with Submitting rec event => decoded rec = Some event | _ => True end.

Lemma loop_step_abstracted s l s' :
  decoded_right s -> loop_step s l s' ->
  decoded_right s' /\ (abstracted s' = abstracted s \/ exists l', sys_step meta (abstracted s) l' (abstracted s')).
Proof.
  intros Hd Hstep. destruct Hstep as [rec recs m p Hn|rec recs m p event He|rec event recs m p p' Hs
    |rec event recs m p err p' Hs|rec recs m p|at_ recs m p l p' Hi Hp]; unfold decoded_right, abstracted in *; cbn in *.
  - split; [done|]. right. exists Skip. by constructor.
  - split; [done|]. by left.
  - inversion Hs; subst. split; [done|]. right. exists Enqueue. econstructor; [exact Hd|]. by constructor.
  - inversion Hs; subst. split; [done|]. right. exists Refuse. econstructor; [exact Hd|]. by econstructor.
  - split; [done|]. by left.
  - split; [done|]. right. exists (Pool l). destruct at_; by constructor.
Qed.

(** ** Property *)

(** Decoding, submitting and marking a record are as good as one step: every execution in which the
    other goroutines run between these calls is, up to the record that the consumer has at hand,
    an execution of the pipeline, with the same pool and the same sinks, and when the consumer is
    between two records with exactly the same records marked. *)
Theorem consumer_steps_atomic (psize fsize : Z) (recs : list kgo_Record) (ls : list loop_label) (s : loop) :
  trace loop_step (Loop Between recs [] (pool (init psize fsize recs))) ls s ->
  exists ls' s', trace (sys_step meta) (init psize fsize recs) ls' s' /\
    pool s' = l_pool s /\ (l_at s = Between -> marked s' = l_marked s /\ todo s' = l_todo s).
Proof.
  intros Htr.
  assert (decoded_right s /\ exists ls', trace (sys_step meta) (init psize fsize recs) ls' (abstracted s)) as [_ [ls' Hs]].
  { eapply (trace_invariant loop_step (fun s => decoded_right s /\
      exists ls', trace (sys_step meta) (init psize fsize recs) ls' (abstracted s))); [|exact Htr|].
    - intros s1 l s2 [Hd [ls1 H1]] Hstep. destruct (loop_step_abstracted s1 l s2 Hd Hstep) as [Hd2 [->|[l' Hl]]];
        (split; [done|]); [by exists ls1|]. exists (ls1 ++ [l']). by eapply trace_snoc.
    - split; [done|]. exists []. constructor. }
  exists ls', (abstracted s). split; [done|]. unfold abstracted. by destruct (l_at s).
Qed.
End ConsumerLoop.
