(* ===== verification/SinkStores.v ===== *)
(** * The sinks at work: the order-book goroutine and the Redis writer beside the pipeline

    [Service.Run] starts the goroutine of the order-book store and that of the Redis writer next
    to the pipeline; they share the store, which the one updates while the other takes snapshots
    of it.  A state adds to the pipeline ([Pipeline.v]) what each of the two holds in its hands;
    [writer_move] is [Write] cut at its calls to Redis and to the store, so that the other
    goroutines, and a reader of Redis, can get in between. *)
From S2P Require Import Prelude GoBase Config Decimal Float64 Json GoTime Domain Wire Normalizer Handlers FanOut Pool OrderBookStore RedisWriter Consumer Pipeline PipelineFacts.
#[local] Open Scope nat_scope.
#[local] Opaque decoded.
#[local] Arguments received_by _ _ : simpl never.

(** ** The writer, one call at a time *)

(** What [Write] does next: a trade in hand before each of its calls, and the snapshot it took. *)
Inductive writer :=
  | WriterIdle
  | SetTrade (event : TradeEvent)
  | SetPrice (event : TradeEvent)
  | GetBook (event : TradeEvent)
  | SetBook (event : TradeEvent) (book : OrderBook).

Definition writer_event (w : writer) : option TradeEvent :=
  match w with
  | WriterIdle => None
  | SetTrade event | SetPrice event | GetBook event | SetBook event _ => Some event
  end.

Section Writer.
Context {R : Type} `{Redis R}.

(** One call of [Write]; the error, if it returns one here, is logged by [Run]. *)
Definition writer_move (books : OrderBookStore) (w : writer) (r : R) : R * writer * option error :=
  match w with
  | WriterIdle => (r, WriterIdle, None)
  | SetTrade event =>
      match Marshal event with
      | Err err => (r, WriterIdle, Some (Errorf_w "marshal trade: " err))
      | Ok tradeJson =>
          let '(r, err) := redis_Set (KeyLatestTrade (Symbol event)) (ArgBytes tradeJson) r in
          match err with
          | Some err => (r, WriterIdle, Some (Errorf_w "set latest trade: " err))
          | None => (r, SetPrice event, None)
          end
      end
  | SetPrice event =>
      let '(r, err) := redis_Set (KeyPrice (Symbol event)) (ArgFloat (Price event)) r in
      match err with
      | Some err => (r, WriterIdle, Some (Errorf_w "set price: " err))
      | None => (r, GetBook event, None)
      end
  | GetBook event =>
      let '(book, ok) := OrderBookStore_Get books (Symbol event) in
      (r, if ok then SetBook event book else WriterIdle, None)
  | SetBook event book =>
      match Marshal book with
      | Err err => (r, WriterIdle, Some (Errorf_w "marshal order book: " err))
      | Ok bookJSON =>
          let '(r, err) := redis_Set (KeyOrderBook (Symbol event)) (ArgBytes bookJSON) r in
          (r, WriterIdle, wrap "set order book: " err)
      end
  end.

(** Where a writer that started with [event] on [r0] stands; its snapshot, if it has one, is of
    one of the stores in [past]. *)
Definition midway (past : OrderBookStore -> Prop) (r0 : R) (w : writer) (r : R) : Prop :=
  let set_trade event r1 :=
    exists l, Marshal event = Ok l /\ redis_Set (KeyLatestTrade (Symbol event)) (ArgBytes l) r0 = (r1, None) in
  let set_price event r2 :=
    exists r1, set_trade event r1 /\ redis_Set (KeyPrice (Symbol event)) (ArgFloat (Price event)) r1 = (r2, None) in
  match w with
  | WriterIdle | SetTrade _ => r = r0
  | SetPrice event => set_trade event r
  | GetBook event => set_price event r
  | SetBook event book =>
      set_price event r /\ exists s, past s /\ OrderBookStore_Get s (Symbol event) = (book, true)
  end.

(** Cutting [Write] changes nothing: when the last call has returned, what was done is one [Write]
    over the store as it was when [Get] was called. *)
Lemma writer_move_Write (past : OrderBookStore -> Prop) books event r0 w r r' w' err :
  writer_event w = Some event -> past books -> midway past r0 w r -> writer_move books w r = (r', w', err) ->
  match w' with
  | WriterIdle => exists s, past s /\ Write (Some s) event r0 = (r', err)
  | _ => writer_event w' = Some event /\ err = None /\ midway past r0 w' r'
  end.
Proof.
  intros Hev Hpast Hmid Hmove. destruct w as [|ev|ev|ev|ev book]; injection Hev as <- || discriminate Hev;
    cbn [midway writer_move] in Hmid, Hmove.
  - subst r. destruct (Marshal ev) as [l|e] eqn:Hl.
    + destruct (redis_Set _ _ r0) as [r1 [e|]] eqn:Hs; injection Hmove as <- <- <-.
      * exists books. split; [done|]. unfold Write. by rewrite Hl, Hs.
      * split; [done|]. split; [done|]. by exists l.
    + injection Hmove as <- <- <-. exists books. split; [done|]. unfold Write. by rewrite Hl.
  - destruct Hmid as (l & Hl & Hs). destruct (redis_Set _ _ r) as [r2 [e|]] eqn:Hs2; injection Hmove as <- <- <-.
    + exists books. split; [done|]. unfold Write. by rewrite Hl, Hs, Hs2.
    + split; [done|]. split; [done|]. exists r. split; [by exists l|done].
  - destruct (OrderBookStore_Get books (Symbol ev)) as [book [|]] eqn:Hg; injection Hmove as <- <- <-.
    + split; [done|]. split; [done|]. split; [done|]. by exists books.
    + destruct Hmid as (r1 & (l & Hl & Hs) & Hs2). exists books. split; [done|].
      unfold Write. by rewrite Hl, Hs, Hs2, Hg.
  - destruct Hmid as [(r1 & (l & Hl & Hs) & Hs2) (s & Hps & Hg)].
    destruct (Marshal book) as [lb|e] eqn:Hb.
    + destruct (redis_Set _ _ r) as [r3 e] eqn:Hs3. injection Hmove as <- <- <-. exists s. split; [done|].
      unfold Write. rewrite Hl, Hs, Hs2, Hg. cbn [negb]. by rewrite Hb, Hs3.
    + injection Hmove as <- <- <-. exists s. split; [done|]. unfold Write. rewrite Hl, Hs, Hs2, Hg. cbn [negb].
      by rewrite Hb.
Qed.
End Writer.

(** ** The goroutines together *)

Record processor_state (R : Type) := ProcessorState {
  ps_sys : system;
  ps_hand : option TradeEvent;        (** received by [orderBooks.Run], not yet applied *)
  ps_store : OrderBookStore;
  ps_writer : writer;
  ps_redis : R;
  ps_errs : list error;               (** the write failures logged so far *)
}.
Arguments ProcessorState {R} _ _ _ _ _ _.
Arguments ps_sys {R} _.
Arguments ps_hand {R} _.
Arguments ps_store {R} _.
Arguments ps_writer {R} _.
Arguments ps_redis {R} _.
Arguments ps_errs {R} _.

Inductive ps_label :=
  | Goroutine (l : sys_label)     (** a step of the pipeline, among them the receives of the sinks *)
  | ApplyBook                     (** [Apply] stores the book *)
  | MoveWriter.                   (** the next call of [Write] returns *)

Definition receives (l : sys_label) : option sink := match l with Pool (Env k) => Some k | _ => None end.

Section Sinks.
Context {P R : Type} `{MetadataProvider P} `{Redis R} (meta : P).

Definition ps_init (psize fsize : Z) (recs : list kgo_Record) (r : R) : processor_state R :=
  ProcessorState (init psize fsize recs) None NewOrderBookStore WriterIdle r [].

(** The sink's goroutine has the trade it received, the last of them, in its hands. *)
Definition ps_exec (l : ps_label) (st : processor_state R) : option (processor_state R) :=
  let '(ProcessorState s hand store w r errs) := st in
  match l with
  | Goroutine l =>
      s' ← sys_exec meta l s;
      match receives l with
      | Some OrderBookSink =>
          match hand with
          | None => Some (ProcessorState s' (last (received_by OrderBookSink s')) store w r errs)
          | Some _ => None
          end
      | Some RedisSink =>
          match w, last (received_by RedisSink s') with
          | WriterIdle, Some event => Some (ProcessorState s' hand store (SetTrade event) r errs)
          | _, _ => None
          end
      | _ => Some (ProcessorState s' hand store w r errs)
      end
  | ApplyBook =>
      event ← hand; Some (ProcessorState s None (OrderBookStore_Apply event store) w r errs)
  | MoveWriter =>
      match w with
      | WriterIdle => None
      | _ =>
          let '(r, w, err) := writer_move store w r in
          Some (ProcessorState s hand store w r (errs ++ option_list err))
      end
  end.

Inductive ps_step : processor_state R -> ps_label -> processor_state R -> Prop :=
  | ps_other s l s' hand store w r errs :
      sys_step meta s l s' -> receives l <> Some OrderBookSink -> receives l <> Some RedisSink ->
      ps_step (ProcessorState s hand store w r errs) (Goroutine l) (ProcessorState s' hand store w r errs)
  | ps_receive_book s l s' event store w r errs :
      sys_step meta s l s' -> receives l = Some OrderBookSink ->
      last (received_by OrderBookSink s') = Some event ->
      ps_step (ProcessorState s None store w r errs) (Goroutine l)
              (ProcessorState s' (Some event) store w r errs)
  | ps_receive_redis s l s' event hand store r errs :
      sys_step meta s l s' -> receives l = Some RedisSink -> last (received_by RedisSink s') = Some event ->
      ps_step (ProcessorState s hand store WriterIdle r errs) (Goroutine l)
              (ProcessorState s' hand store (SetTrade event) r errs)
  | ps_apply s event store w r errs :
      ps_step (ProcessorState s (Some event) store w r errs) ApplyBook
              (ProcessorState s None (OrderBookStore_Apply event store) w r errs)
  | ps_write s hand store w r errs event r' w' err :
      writer_event w = Some event -> writer_move store w r = (r', w', err) ->
      ps_step (ProcessorState s hand store w r errs) MoveWriter
              (ProcessorState s hand store w' r' (errs ++ option_list err)).

(** A receive adds the trade to what the sink has seen; nothing else does. *)
Lemma pstep_received k (p p' : WorkerPool (W := fabric) (H := handling)) l :
  pstep meta p l p' ->
  match l with
  | Env k' => exists event, get k (seen (world p')) =
                get k (seen (world p)) ++ (if decide (k = k') then [event] else [])
  | _ => get k (seen (world p')) = get k (seen (world p))
  end.
Proof.
  destruct 1 as [p event p' Hs| | |p i event h l w' h' Hw Hm| | | |p x w' He]; try done.
  - unfold Submit in Hs. destruct (send (jobs p) event); [|done]. by injection Hs as <-.
  - cbn [set_worker set_world world]. unfold handle_move in Hm.
    destruct (publish_move _ _ _ _ _) as [[f c]|]; [|done]. by injection Hm as <- <-.
  - cbn [set_world world]. unfold sink_receive in He. destruct (recv _) as [[e c]|]; [|done].
    injection He as <-. exists e. cbn [seen]. rewrite get_set.
    destruct (decide (k = x)) as [->|]; [done|by rewrite app_nil_r].
Qed.

Lemma sys_received k s l s' :
  sys_step meta s l s' ->
  if decide (receives l = Some k) then exists event, received_by k s' = received_by k s ++ [event]
  else received_by k s' = received_by k s.
Proof.
  unfold received_by.
  destruct 1 as [rec recs m p Hd|rec recs m p event p' Hd Hs|rec recs m p event p' Hd Hs|recs m p l p' Hi Hs];
    cbn [receives pool]; try done; try (by apply (pstep_received k) in Hs).
  apply (pstep_received k) in Hs. destruct l; try done.
  destruct Hs as [event ->]. repeat case_decide; simplify_eq; try done; [by exists event|by rewrite app_nil_r].
Qed.

Lemma ps_exec_sound l st st' : ps_exec l st = Some st' -> ps_step st l st'.
Proof.
  destruct st as [s hand store w r errs], l as [l| |]; cbn [ps_exec].
  - destruct (sys_exec meta l s) as [s'|] eqn:He; [|done]. apply sys_exec_sound in He. cbn [mbind option_bind].
    destruct (receives l) as [[]|] eqn:Hk.
    + destruct hand; [done|]. intros [= <-]. pose proof (sys_received OrderBookSink _ _ _ He) as Hrec.
      rewrite decide_True in Hrec by done. destruct Hrec as [event Hev].
      assert (last (received_by OrderBookSink s') = Some event) as Hl by (by rewrite Hev, last_snoc).
      rewrite Hl. by apply (ps_receive_book _ l).
    + destruct w; [|done..]. destruct (last _) as [event|] eqn:Hl; [|done]. intros [= <-].
      by apply (ps_receive_redis _ l).
    + intros [= <-]. constructor; [done|by rewrite Hk..].
    + intros [= <-]. constructor; [done|by rewrite Hk..].
  - destruct hand as [event|]; [|done]. intros [= <-]. constructor.
  - destruct (writer_event w) as [event|] eqn:Hw; [|by destruct w].
    destruct (writer_move store w r) as [[r' w'] err] eqn:Hm. intros Heq.
    assert (st' = ProcessorState s hand store w' r' (errs ++ option_list err)) as ->
      by (destruct w; [done|injection Heq as <-..]; done).
    by econstructor.
Qed.

(** The pipeline does not notice. *)
Lemma ps_trace_sys psize fsize recs r ls st :
  trace ps_step (ps_init psize fsize recs r) ls st ->
  exists ls', trace (sys_step meta) (init psize fsize recs) ls' (ps_sys st).
Proof.
  intros Htr. refine (trace_invariant ps_step (fun st => exists ls', trace (sys_step meta) _ ls' (ps_sys st)) _ _ _ _ Htr _).
  - intros s0 l s1 [ls' Hls] Hstep. destruct Hstep; cbn [ps_sys] in *; try by exists ls'.
    all: exists (ls' ++ [l]); by eapply trace_snoc.
  - exists []. constructor.
Qed.
End Sinks.

(** ** The detailed writer refines [Write] *)

Lemma RedisWriter_Run_snoc {R : Type} `{Redis R} updates books event (r : R) :
  RedisWriter_Run (updates ++ [(books, event)]) r =
  let '(r1, errs) := RedisWriter_Run updates r in
  let '(r2, err) := Write books event r1 in (r2, errs ++ option_list err).
Proof.
  revert r. induction updates as [|[b e] updates IH]; intros r; cbn [app RedisWriter_Run].
  - destruct (Write books event r) as [r2 err]. by rewrite app_nil_r.
  - destruct (Write b e r) as [r1 err1]. rewrite IH. destruct (RedisWriter_Run updates r1) as [r2 errs].
    destruct (Write books event r2) as [r3 err]. by rewrite app_assoc.
Qed.

Lemma option_list_snoc {A : Type} (l : list A) x : last l = Some x -> exists l', l = l' ++ option_list (Some x).
Proof. intros [l' ->]%last_Some. by exists l'. Qed.

Section Invariants.
Context {P R : Type} `{MetadataProvider P} `{Redis R} (meta : P).
#[local] Abbreviation step := (ps_step meta).

(** A store that the order-book goroutine had after some of the trades [applied]. *)
Definition snapshot_of (applied : list TradeEvent) (s : OrderBookStore) : Prop :=
  exists n, n <= length applied /\ s = OrderBookStore_Run (take n applied) NewOrderBookStore.

Lemma snapshot_of_snoc applied event s : snapshot_of applied s -> snapshot_of (applied ++ [event]) s.
Proof.
  intros (n & Hn & ->). exists n. rewrite length_app, take_app_le by done. split; [lia|done].
Qed.
Lemma snapshot_of_all applied : snapshot_of applied (OrderBookStore_Run applied NewOrderBookStore).
Proof. exists (length applied). by rewrite firstn_all. Qed.

Lemma midway_mono (past past' : OrderBookStore -> Prop) (r0 r : R) w :
  (forall s, past s -> past' s) -> midway past r0 w r -> midway past' r0 w r.
Proof. intros Hp. destruct w; try done. intros [? (s & ? & ?)]. split; [done|]. exists s. eauto. Qed.

(** The store is that of the trades applied; what the writer has done is a run of whole [Write]s,
    each over a snapshot, and the calls of the one it is in. *)
Record refined (r0 : R) (st : processor_state R) (applied : list TradeEvent)
    (updates : list (option OrderBookStore * TradeEvent)) (r1 : R) : Prop := {
  ref_received : received_by OrderBookSink (ps_sys st) = applied ++ option_list (ps_hand st);
  ref_store : ps_store st = OrderBookStore_Run applied NewOrderBookStore;
  ref_run : RedisWriter_Run updates r0 = (r1, ps_errs st);
  ref_written : received_by RedisSink (ps_sys st) = map snd updates ++ option_list (writer_event (ps_writer st));
  ref_books : Forall (fun u => exists s, u.1 = Some s /\ snapshot_of applied s) updates;
  ref_midway : midway (snapshot_of applied) r1 (ps_writer st) (ps_redis st);
}.

Lemma received_same k s l s' : sys_step meta s l s' -> receives l <> Some k -> received_by k s' = received_by k s.
Proof. intros Hs Hk. pose proof (sys_received meta k _ _ _ Hs) as Hr. by rewrite decide_False in Hr. Qed.
Lemma received_next k s l s' event :
  sys_step meta s l s' -> receives l = Some k -> last (received_by k s') = Some event ->
  received_by k s' = received_by k s ++ [event].
Proof.
  intros Hs Hk Hl. pose proof (sys_received meta k _ _ _ Hs) as Hr. rewrite decide_True in Hr by done.
  destruct Hr as [e He]. rewrite He, last_snoc in Hl. injection Hl as ->. done.
Qed.

Lemma refined_step r0 st applied updates r1 l st' :
  refined r0 st applied updates r1 -> step st l st' ->
  exists applied' updates' r1', refined r0 st' applied' updates' r1'.
Proof.
  intros [Hrec Hst Hrun Hwr Hb Hm] Hstep.
  destruct Hstep as [s l s' hand store w r errs Hs Hk1 Hk2|s l s' event store w r errs Hs Hk Hl
    |s l s' event hand store r errs Hs Hk Hl|s event store w r errs|s hand store w r errs event r' w' err Hw Hmove];
    cbn [ps_sys ps_hand ps_store ps_writer ps_redis ps_errs option_list] in *.
  - exists applied, updates, r1.
    split; cbn; try done; by rewrite (received_same _ _ _ _ Hs).
  - exists applied, updates, r1. split; cbn; try done.
    + by rewrite (received_next _ _ _ _ _ Hs Hk Hl), Hrec, app_nil_r.
    + rewrite (received_same _ _ _ _ Hs); [done|]. by rewrite Hk.
  - exists applied, updates, r1. split; cbn; try done.
    + rewrite (received_same _ _ _ _ Hs); [done|]. by rewrite Hk.
    + by rewrite (received_next _ _ _ _ _ Hs Hk Hl), Hwr, app_nil_r.
  - exists (applied ++ [event]), updates, r1. split; cbn; try done.
    + by rewrite Hrec, app_nil_r.
    + rewrite Hst. unfold OrderBookStore_Run. by rewrite fold_left_app.
    + eapply Forall_impl; [exact Hb|]. intros u (s0 & ? & ?). exists s0. split; [done|by apply snapshot_of_snoc].
    + eapply midway_mono; [|exact Hm]. intros s0. apply snapshot_of_snoc.
  - assert (snapshot_of applied store) as Hpast by (rewrite Hst; apply snapshot_of_all).
    pose proof (writer_move_Write _ _ _ _ _ _ _ _ _ Hw Hpast Hm Hmove) as Hres.
    destruct (writer_event w') as [e'|] eqn:Hw'.
    + assert (e' = event /\ err = None /\ midway (snapshot_of applied) r1 w' r') as (-> & -> & Hm')
        by (destruct w'; [done|destruct Hres as (Heq & ? & ?); injection Heq as ->; injection Hw' as ->; done..]).
      exists applied, updates, r1. split; cbn; rewrite ?app_nil_r; try done. by rewrite Hwr, Hw, Hw'.
    + destruct w'; try done. destruct Hres as (s0 & Hs0 & Hwrite).
      exists applied, (updates ++ [(Some s0, event)]), r'. split; cbn; try done.
      * by rewrite RedisWriter_Run_snoc, Hrun, Hwrite.
      * rewrite Hwr, Hw, map_app, app_nil_r. done.
      * apply Forall_app. split; [done|]. repeat constructor. by exists s0.
Qed.

Lemma refined_trace psize fsize recs r0 ls st :
  trace step (ps_init psize fsize recs r0) ls st ->
  exists applied updates r1, refined r0 st applied updates r1.
Proof.
  intros Htr. refine (trace_invariant step (fun st => exists applied updates r1, refined r0 st applied updates r1) _ _ _ _ Htr _).
  - intros s l s' (a & u & r1 & Hr) Hstep. by eapply refined_step.
  - exists [], [], r0. by split; cbn.
Qed.
End Invariants.

(** ** The order book in Redis *)

Section Cached.
Context {P R : Type} `{MetadataProvider P} `{RedisLaws R} (meta : P).
#[local] Abbreviation step := (ps_step meta).

(** Redis holds the book of [symbol] as it is after [events]. *)
Definition cached (symbol : string) (events : list TradeEvent) (r : R) : Prop :=
  match book_after symbol events with
  | None => db r (KeyOrderBook symbol) = None
  | Some book => exists l, Marshal book = Ok l /\ db r (KeyOrderBook symbol) = Some l
  end.

Lemma cached_frame symbol events (r r' : R) :
  db r' (KeyOrderBook symbol) = db r (KeyOrderBook symbol) -> cached symbol events r -> cached symbol events r'.
Proof. intros Hdb. unfold cached. by rewrite Hdb. Qed.

(** Redis holds the book after [m] of the trades applied, and at least [n] of them; a snapshot the
    writer has taken of it is not older. *)
Record fresh (symbol : string) (n : nat) (st : processor_state R) (applied : list TradeEvent) (m : nat) : Prop := {
  fresh_received : received_by OrderBookSink (ps_sys st) = applied ++ option_list (ps_hand st);
  fresh_store : ps_store st = OrderBookStore_Run applied NewOrderBookStore;
  fresh_bounds : n <= m <= length applied;
  fresh_cached : cached symbol (take m applied) (ps_redis st);
  fresh_snapshot : forall event book, ps_writer st = SetBook event book -> Symbol event = symbol ->
    exists m', m <= m' <= length applied /\ book_after symbol (take m' applied) = Some book;
}.

Lemma set_other k v symbol (r r' : R) err :
  redis_Set k v r = (r', err) -> k <> KeyOrderBook symbol ->
  db r' (KeyOrderBook symbol) = db r (KeyOrderBook symbol).
Proof. intros Hs Hk. eapply set_frame; [exact Hs|congruence]. Qed.

(** What one call of the writer does to the cached book. *)
Lemma writer_move_cached symbol n st applied m r' w' err :
  fresh symbol n st applied m -> writer_move (ps_store st) (ps_writer st) (ps_redis st) = (r', w', err) ->
  exists m', m <= m' <= length applied /\ cached symbol (take m' applied) r' /\
    forall event book, w' = SetBook event book -> Symbol event = symbol ->
      exists m'', m' <= m'' <= length applied /\ book_after symbol (take m'' applied) = Some book.
Proof.
  intros [_ Hst Hb Hc Hsnap] Hmove.
  assert (db r' (KeyOrderBook symbol) = db (ps_redis st) (KeyOrderBook symbol) ->
    (forall event book, w' = SetBook event book -> Symbol event = symbol ->
      exists m'', m <= m'' <= length applied /\ book_after symbol (take m'' applied) = Some book) ->
    exists m', m <= m' <= length applied /\ cached symbol (take m' applied) r' /\
    forall event book, w' = SetBook event book -> Symbol event = symbol ->
      exists m'', m' <= m'' <= length applied /\ book_after symbol (take m'' applied) = Some book) as Hsame.
  { intros Hdb Hw. exists m. split; [lia|]. split; [by eapply cached_frame|done]. }
  destruct (ps_writer st) as [|ev|ev|ev|ev book] eqn:Hwr; cbn [writer_move] in Hmove.
  - injection Hmove as <- <- <-. by apply Hsame.
  - destruct (Marshal ev) as [l|e]; [|injection Hmove as <- <- <-; by apply Hsame].
    destruct (redis_Set _ _ _) as [r1 [e|]] eqn:Hs; injection Hmove as <- <- <-;
      (apply Hsame; [by eapply set_other|done]).
  - destruct (redis_Set _ _ _) as [r1 [e|]] eqn:Hs; injection Hmove as <- <- <-;
      (apply Hsame; [by eapply set_other|done]).
  - destruct (OrderBookStore_Get (ps_store st) (Symbol ev)) as [book ok] eqn:Hg. injection Hmove as <- <- <-.
    apply Hsame; [done|]. destruct ok; [|done]. intros ? ? [= <- <-] <-. exists (length applied). split; [lia|].
    unfold OrderBookStore_Get in Hg. rewrite Hst, Run_refines in Hg by apply lookup_empty.
    rewrite firstn_all. destruct (book_after (Symbol ev) applied); [by injection Hg as ->|done].
  - destruct (Marshal book) as [l|e] eqn:Hl; [|injection Hmove as <- <- <-; by apply Hsame].
    destruct (redis_Set _ _ _) as [r1 e] eqn:Hs. injection Hmove as <- <- _.
    destruct (decide (Symbol ev = symbol)) as [<-|Hne].
    + destruct (Hsnap ev book eq_refl eq_refl) as (m' & Hm' & Hbook).
      assert (db r1 (KeyOrderBook (Symbol ev)) = Some l ->
        exists m', m <= m' <= length applied /\ cached (Symbol ev) (take m' applied) r1 /\
        forall event book, WriterIdle = SetBook event book -> Symbol event = Symbol ev ->
          exists m'', m' <= m'' <= length applied /\ book_after (Symbol ev) (take m'' applied) = Some book) as Hnew.
      { intros Hdb. exists m'. split; [done|]. split; [|done]. unfold cached. rewrite Hbook. by exists l. }
      destruct e as [e|]; [|by apply Hnew, (set_stores _ _ _ _ Hs)].
      destruct (set_fails _ _ _ _ _ Hs) as [Hold|Hdb]; [by apply Hsame|by apply Hnew].
    + apply Hsame; [|done]. eapply set_other; [exact Hs|]. by intros ?%(inj KeyOrderBook).
Qed.

Lemma fresh_step symbol n st applied m l st' :
  fresh symbol n st applied m -> step st l st' -> exists applied' m', fresh symbol n st' applied' m'.
Proof.
  intros Hf Hstep. pose proof Hf as [Hrec Hst Hb Hc Hsnap].
  destruct Hstep as [s l s' hand store w r errs Hs Hk1 Hk2|s l s' event store w r errs Hs Hk Hl
    |s l s' event hand store r errs Hs Hk Hl|s event store w r errs|s hand store w r errs event r' w' err Hw Hmove];
    cbn [ps_sys ps_hand ps_store ps_writer ps_redis ps_errs option_list] in *.
  - exists applied, m. split; cbn; try done. by rewrite (received_same meta _ _ _ _ Hs).
  - exists applied, m. split; cbn; try done. by rewrite (received_next meta _ _ _ _ _ Hs Hk Hl), Hrec, app_nil_r.
  - exists applied, m. split; cbn; try done. rewrite (received_same meta _ _ _ _ Hs); [done|]. by rewrite Hk.
  - assert (forall k, k <= length applied -> take k (applied ++ [event]) = take k applied) as Htake
      by (intros k Hk; by apply take_app_le).
    exists (applied ++ [event]), m. split; cbn.
    + by rewrite Hrec, app_nil_r.
    + rewrite Hst. unfold OrderBookStore_Run. by rewrite fold_left_app.
    + rewrite length_app. lia.
    + by rewrite Htake by lia.
    + intros ev book Hw Hs. destruct (Hsnap ev book Hw Hs) as (m' & Hm' & Hbook).
      exists m'. rewrite length_app, Htake by lia. split; [lia|done].
  - destruct (writer_move_cached _ _ _ _ _ _ _ _ Hf Hmove) as (m' & Hm' & Hc' & Hsnap').
    exists applied, m'. split; cbn; try done. lia.
Qed.

Lemma fresh_trace symbol n st ls st' applied m :
  trace step st ls st' -> fresh symbol n st applied m -> exists applied' m', fresh symbol n st' applied' m'.
Proof.
  intros Htr Hf. refine (trace_invariant step (fun st => exists applied m, fresh symbol n st applied m) _ _ _ _ Htr _).
  - intros s l s' (a & k & Hk) Hstep. by eapply fresh_step.
  - by exists applied, m.
Qed.

Lemma fresh_init symbol psize fsize recs (r : R) :
  db r (KeyOrderBook symbol) = None -> fresh symbol 0 (ps_init psize fsize recs r) [] 0.
Proof. intros Hdb. by split; cbn. Qed.

(** The cached book is that of a prefix of what the order-book sink has received. *)
Lemma fresh_prefix symbol n st applied m :
  fresh symbol n st applied m ->
  n <= m <= length (received_by OrderBookSink (ps_sys st)) /\
  cached symbol (take m (received_by OrderBookSink (ps_sys st))) (ps_redis st).
Proof. intros [-> _ Hb Hc _]. rewrite length_app, take_app_le by lia. split; [lia|done]. Qed.
End Cached.

(** ** Executions of the program's own sinks, for examples *)

Definition run_sinks (psize fsize : Z) (recs : list kgo_Record) (ls : list ps_label) :
  option (processor_state mem_redis) :=
  run (ps_exec NewDefaultMetadataProvider) ls (ps_init psize fsize recs empty_redis).
Lemma run_sinks_trace psize fsize recs ls st :
  run_sinks psize fsize recs ls = Some st ->
  trace (ps_step NewDefaultMetadataProvider) (ps_init psize fsize recs empty_redis) ls st.
Proof. apply run_trace. intros. by apply ps_exec_sound. Qed.

Definition run_sinks_ends (psize fsize : Z) (recs : list kgo_Record) (ls : list ps_label)
    (p : processor_state mem_redis -> bool) : bool :=
  match run_sinks psize fsize recs ls with Some st => p st | None => false end.
Lemma run_sinks_elim psize fsize recs ls p :
  run_sinks_ends psize fsize recs ls p = true -> exists st, run_sinks psize fsize recs ls = Some st /\ p st = true.
Proof. unfold run_sinks_ends. destruct (run_sinks _ _ _ _) as [st|]; [|done]. by exists st. Qed.

(** Nothing is left to do, in the pipeline and in the hands of the sinks. *)
Definition settled {R : Type} (st : processor_state R) : Prop :=
  quiet (ps_sys st) /\ ctx (pool (ps_sys st)) = None /\ ps_hand st = None /\ ps_writer st = WriterIdle /\ ps_errs st = [].
Definition settled_b {R : Type} (st : processor_state R) : bool :=
  quiet_b (ps_sys st) && live (ps_sys st) &&
  match ps_hand st, ps_writer st, ps_errs st with None, WriterIdle, [] => true | _, _, _ => false end.
Lemma settled_b_sound {R : Type} (st : processor_state R) : settled_b st = true -> settled st.
Proof.
  unfold settled_b, settled. intros [[Hq Hl]%andb_true_iff Hm]%andb_true_iff.
  split; [by apply quiet_b_sound|]. split; [by apply bool_decide_eq_true in Hl|].
  destruct (ps_hand st); [done|]. destruct (ps_writer st); try done. by destruct (ps_errs st).
Qed.

(** One trade through the pipeline, into the hands of both sinks. *)
Definition both_receive : list ps_label :=
  map Goroutine ([Enqueue; Pool (Take 0)] ++ accept_all 0 ++ receive_all).
(** The order book first, or the writer first. *)
Definition book_first : list ps_label := both_receive ++ [ApplyBook] ++ repeat MoveWriter 4.
Definition writer_first : list ps_label := both_receive ++ repeat MoveWriter 3 ++ [ApplyBook].

(** ** Properties *)

(** C5: refinement: however the goroutines interleave, the store the order-book goroutine maintains is
    that of the trades it has received, up to the one in its hands; and the writer, whose calls
    interleave with everything else, has done to Redis what the same number of uninterrupted
    [Write]s do, one per trade it received, in order, each over a snapshot of the store that is
    the result of some prefix of the trades, with the same errors logged. *)
Theorem sinks_refine {P R : Type} `{MetadataProvider P} `{Redis R} (meta : P) (psize fsize : Z)
    (recs : list kgo_Record) (r0 : R) (ls : list ps_label) (st : processor_state R) :
  trace (ps_step meta) (ps_init psize fsize recs r0) ls st ->
  exists applied updates r1,
    received_by OrderBookSink (ps_sys st) = applied ++ option_list (ps_hand st) /\
    ps_store st = OrderBookStore_Run applied NewOrderBookStore /\
    received_by RedisSink (ps_sys st) = map snd updates ++ option_list (writer_event (ps_writer st)) /\
    Forall (fun u => exists s, u.1 = Some s /\ snapshot_of applied s) updates /\
    RedisWriter_Run updates r0 = (r1, ps_errs st) /\
    (ps_writer st = WriterIdle -> ps_redis st = r1).
Proof.
  intros Htr. apply refined_trace in Htr as (applied & updates & r1 & [H1 H2 H3 H4 H5 H6]).
  exists applied, updates, r1. split_and!; try done. intros Hw. by rewrite Hw in H6.
Qed.

Lemma sinks_refine_witness :
  exists st applied updates r1, run_sinks 1 1 [trade_record 1] book_first = Some st /\
    length (received_by RedisSink (ps_sys st)) = 1 /\
    received_by OrderBookSink (ps_sys st) = applied ++ option_list (ps_hand st) /\
    RedisWriter_Run updates empty_redis = (r1, ps_errs st).
Proof.
  destruct (run_sinks_elim 1 1 [trade_record 1] book_first
    (fun st => Nat.eqb (length (received_by RedisSink (ps_sys st))) 1)) as (st & Hrun & Hl);
    [vm_compute; reflexivity|].
  destruct (sinks_refine NewDefaultMetadataProvider 1 1 [trade_record 1] empty_redis book_first st
    (run_sinks_trace _ _ _ _ _ Hrun)) as (applied & updates & r1 & H1 & _ & _ & _ & H2 & _).
  exists st, applied, updates, r1. split; [exact Hrun|]. split; [by apply Nat.eqb_eq|]. by split.
Defined.

(** C6: the order book in Redis is never torn and never goes back: if there was none at the start, then
    at any time, in the middle of a write too and whatever writes have failed, the book cached for
    a symbol is the one after some prefix of the trades the order-book sink has received, and
    later it is the one after a prefix that is at least as long. *)
Theorem cached_book_advances {P R : Type} `{MetadataProvider P} `{RedisLaws R} (meta : P) (psize fsize : Z)
    (recs : list kgo_Record) (r0 : R) (symbol : string) (ls ls' : list ps_label) (st st' : processor_state R) :
  db r0 (KeyOrderBook symbol) = None ->
  trace (ps_step meta) (ps_init psize fsize recs r0) ls st -> trace (ps_step meta) st ls' st' ->
  exists n n', n <= n' /\ n' <= length (received_by OrderBookSink (ps_sys st')) /\
    cached symbol (take n (received_by OrderBookSink (ps_sys st))) (ps_redis st) /\
    cached symbol (take n' (received_by OrderBookSink (ps_sys st'))) (ps_redis st').
Proof.
  intros Hdb Htr Htr'. destruct (fresh_trace meta _ _ _ _ _ _ _ Htr (fresh_init _ psize fsize recs _ Hdb)) as (a & n & Hf).
  assert (fresh symbol n st a n) as Hn by (destruct Hf; split; (done || lia)).
  destruct (fresh_trace meta _ _ _ _ _ _ _ Htr' Hn) as (a' & n' & Hf').
  apply fresh_prefix in Hn as [_ Hc], Hf' as [Hb Hc']. exists n, n'. split_and!; (lia || done).
Qed.

Lemma cached_book_advances_witness :
  exists st, run_sinks 1 1 [trade_record 1] book_first = Some st /\
    exists n, cached "BTCUSDT" (take n (received_by OrderBookSink (ps_sys st))) (ps_redis st).
Proof.
  destruct (run_sinks_elim 1 1 [trade_record 1] book_first (fun _ => true)) as (st & Hrun & _); [vm_compute; reflexivity|].
  assert (db empty_redis (KeyOrderBook "BTCUSDT") = None) as Hdb by (vm_compute; reflexivity).
  destruct (cached_book_advances NewDefaultMetadataProvider 1 1 [trade_record 1] empty_redis "BTCUSDT" [] book_first _ st
    Hdb (trace_nil _ _) (run_sinks_trace _ _ _ _ _ Hrun)) as (_ & n & _ & _ & _ & Hc).
  exists st. split; [exact Hrun|]. by exists n.
Defined.

(** C7: but the book in Redis may lag for good: the writer takes its snapshot without waiting for the
    order-book goroutine.  There is an execution, live, with one worker and without a failed
    write, after which nothing is left to do, the store has the trade's book and Redis has the
    trade, but no order book of its symbol. *)
Theorem cached_book_lags :
  exists ls st, trace (ps_step NewDefaultMetadataProvider) (ps_init 1 1 [trade_record 1] empty_redis) ls st /\
    settled st /\
    is_Some (db (ps_redis st) (KeyLatestTrade "BTCUSDT")) /\
    (OrderBookStore_Get (ps_store st) "BTCUSDT").2 = true /\
    db (ps_redis st) (KeyOrderBook "BTCUSDT") = None.
Proof.
  exists writer_first.
  destruct (run_sinks_elim 1 1 [trade_record 1] writer_first (fun st => settled_b st &&
    match db (ps_redis st) (KeyLatestTrade "BTCUSDT"), db (ps_redis st) (KeyOrderBook "BTCUSDT") with
    | Some _, None => true | _, _ => false end && (OrderBookStore_Get (ps_store st) "BTCUSDT").2))
    as (st & Hrun & [[Hs Hdb]%andb_true_iff Hst]%andb_true_iff); [vm_compute; reflexivity|].
  exists st. split; [by apply run_sinks_trace|]. split; [by apply settled_b_sound|].
  clear Hrun. destruct (db (ps_redis st) (KeyLatestTrade "BTCUSDT")); [|discriminate Hdb].
  destruct (db (ps_redis st) (KeyOrderBook "BTCUSDT")); [discriminate Hdb|].
  exact (conj (ex_intro _ _ eq_refl) (conj Hst eq_refl)).
Qed.
