(* ===== verification/KafkaLag.v ===== *)
(** * shared/kafka/lag.go: reading a consumer group's lag

    The admin client of the Kafka library is a parameter: a function from a group to the
    description of its lag.  Go ranges over a map in an unspecified order, so [ReadLag] takes the
    order as a parameter too; the theorems show that it does not matter. *)
From S2P Require Import Prelude GoBase.
#[local] Open Scope Z_scope.

(** ** What the admin client reports *)

Record GroupMemberLag := { MemberLag : Z; MemberErr : option error }.
Record DescribedGroupLag := {
  described_State : string;
  described_Members : nat;
  described_Lag : gmap string (gmap Z GroupMemberLag);
  described_Error : option error;
}.
Definition admin_client : Type := string -> result error (gmap string DescribedGroupLag).

(** ** Types *)

Record PartitionLag := { LagPartition : Z; PLag : Z; PError : string }.
#[export] Instance PartitionLag_eq_dec : EqDecision PartitionLag.
Proof. solve_decision. Defined.

Record ConsumerLag := {
  Group : string;
  LagTopic : string;
  State : string;
  Members : Z;
  Total : Z;
  Partitions : list PartitionLag;
}.
#[export] Instance ConsumerLag_eq_dec : EqDecision ConsumerLag.
Proof. solve_decision. Defined.
Definition zero_ConsumerLag : ConsumerLag :=
  {| Group := ""; LagTopic := ""; State := ""; Members := 0; Total := 0; Partitions := [] |}.

Definition Stalled (l : ConsumerLag) : bool := (Members l =? 0) && (0 <? Total l).

Record LagReader := { admin : option admin_client; lag_group : string; lag_topic : string }.

(** [dial] is [kgo.NewClient] followed by [kadm.NewClient]. *)
Definition NewLagReader (dial : list string -> result error admin_client)
    (brokers : list string) (group topic : string) : result error LagReader :=
  if bool_decide (brokers = []) then Err (ErrorString "kafka lag: no broker configured")
  else if bool_decide (group = ""%string) || bool_decide (topic = ""%string)
  then Err (ErrorString "kafka lag: group and topic are required")
  else
    match dial brokers with
    | Err err => Err (Errorf_w "kafka lag: new admin client: " err)
    | Ok client => Ok {| admin := Some client; lag_group := group; lag_topic := topic |}
    end.
Definition NewLagReaderWithAdmin (client : admin_client) (group topic : string) : LagReader :=
  {| admin := Some client; lag_group := group; lag_topic := topic |}.

(** ** ReadLag *)

(** One iteration of the loop over the partitions: the running total and the entries so far. *)
Definition add_partition (acc : Z * list PartitionLag) (pm : Z * GroupMemberLag) : Z * list PartitionLag :=
  let '(total, entries) := acc in
  let '(partition, member) := pm in
  let entry err := {| LagPartition := partition; PLag := MemberLag member; PError := err |} in
  match MemberErr member with
  | Some err => (total, entries ++ [entry (Error err)])
  | None => (wrap64 (total + MemberLag member), entries ++ [entry ""%string])
  end.

Definition before (a b : PartitionLag) : Prop := LagPartition a <= LagPartition b.
#[export] Instance before_dec a b : Decision (before a b).
Proof. unfold before. apply _. Defined.
#[export] Instance before_total : stdpp.base.Total before.
Proof. intros a b. unfold before. lia. Qed.
#[export] Instance before_trans : Transitive before.
Proof. intros a b c. unfold before. lia. Qed.

Section ReadLag.
Context `{Unicode} (range : gmap Z GroupMemberLag -> list (Z * GroupMemberLag)).

Definition ReadLag (l : option LagReader) : result error ConsumerLag :=
  match l with
  | Some {| admin := Some client; lag_group := group; lag_topic := topic |} =>
      match client group with
      | Err err => Err (Errorf_w "kafka lag: " err)
      | Ok lags =>
          match lags !! group with
          | None => Err (ErrorString ("kafka lag: group " ++ Quote group ++ " not found"))
          | Some described =>
              match described_Error described with
              | Some err => Err (Errorf_w ("kafka lag: describe group " ++ Quote group ++ ": ") err)
              | None =>
                  let '(total, entries) :=
                    fold_left add_partition (range (default ∅ (described_Lag described !! topic))) (0, []) in
                  Ok {| Group := group; LagTopic := topic; State := described_State described;
                        Members := Z.of_nat (described_Members described); Total := total;
                        Partitions := merge_sort before entries |}
              end
          end
      end
  | _ => Err (ErrorString "kafka lag: reader not configured")
  end.
End ReadLag.

(** ** Specification *)

(** The lags that could be computed. *)
Definition known_lags (l : list (Z * GroupMemberLag)) : list Z :=
  omap (fun pm => match MemberErr pm.2 with None => Some (MemberLag pm.2) | Some _ => None end) l.
Definition sum (l : list Z) : Z := fold_right Z.add 0 l.
Definition entry_of (pm : Z * GroupMemberLag) : PartitionLag :=
  {| LagPartition := pm.1; PLag := MemberLag pm.2;
     PError := match MemberErr pm.2 with Some err => Error err | None => "" end |}.

Lemma add_partitions l total entries :
  fold_left add_partition l (total, entries) =
  (fold_left (fun t n => wrap64 (t + n)) (known_lags l) total, entries ++ map entry_of l).
Proof.
  revert total entries. induction l as [|[p m] l IH]; intros total entries; cbn.
  - by rewrite app_nil_r.
  - unfold entry_of at 1. cbn. destruct (MemberErr m); by rewrite IH, <- app_assoc.
Qed.

Lemma wrapped_sum l total :
  fold_left (fun t n => wrap64 (t + n)) l (wrap64 total) = wrap64 (total + sum l).
Proof.
  revert total. induction l as [|n l IH]; intros total; cbn; [by rewrite Z.add_0_r|].
  rewrite wrap64_add_l, IH. f_equal. unfold sum. lia.
Qed.

Lemma sum_perm l l' : l ≡ₚ l' -> sum l = sum l'.
Proof. induction 1; cbn; unfold sum in *; lia. Qed.

(** Entries of distinct partitions have one sorted arrangement. *)
Lemma sorted_unique (l1 l2 : list PartitionLag) :
  NoDup (map LagPartition l1) -> l1 ≡ₚ l2 -> StronglySorted before l1 -> StronglySorted before l2 -> l1 = l2.
Proof.
  revert l2. induction l1 as [|a l1 IH]; intros l2 Hnd Hp H1 H2.
  { by apply Permutation_nil in Hp. }
  destruct l2 as [|b l2]; [by apply Permutation_sym, Permutation_nil in Hp|].
  apply StronglySorted_inv in H1 as [H1 Ha], H2 as [H2 Hb].
  cbn [map] in Hnd. apply NoDup_cons in Hnd as [Hna Hnd].
  assert (a = b) as ->.
  { assert (a ∈ b :: l2) as [->|Hin]%elem_of_cons by (rewrite <- Hp; left); [done|].
    assert (b ∈ a :: l1) as [->|Hin']%elem_of_cons by (rewrite Hp; left); [done|].
    rewrite Forall_forall in Ha, Hb. specialize (Ha b Hin'). specialize (Hb a Hin). unfold before in *.
    exfalso. apply Hna. apply list_elem_of_In, in_map_iff. exists b. split; [lia|by apply list_elem_of_In]. }
  f_equal. apply IH; [done| |done|done]. by eapply Permutation_cons_inv.
Qed.

Lemma before_strictly_sorted l :
  NoDup (map LagPartition l) -> StronglySorted before l ->
  StronglySorted Z.lt (map LagPartition l).
Proof.
  induction 2 as [|a l Hs IH Ha]; cbn [map] in *; [constructor|]. apply NoDup_cons in H as [Hna Hnd].
  constructor; [by apply IH|]. apply Forall_forall. intros p Hp.
  apply list_elem_of_In, in_map_iff in Hp as (b & <- & Hb%list_elem_of_In).
  rewrite Forall_forall in Ha. specialize (Ha b Hb). unfold before in Ha.
  destruct (decide (LagPartition a = LagPartition b)) as [He|]; [|lia].
  exfalso. apply Hna. apply list_elem_of_In, in_map_iff. exists b. split; [done|by apply list_elem_of_In].
Qed.

Section Properties.
Context `{Unicode} (range range' : gmap Z GroupMemberLag -> list (Z * GroupMemberLag)).
(** A range over a map visits every entry once, in some order. *)
Context (range_perm : forall m, range m ≡ₚ map_to_list m).
Context (range_perm' : forall m, range' m ≡ₚ map_to_list m).

Lemma range_partitions (r : gmap Z GroupMemberLag -> list (Z * GroupMemberLag)) m :
  (forall m, r m ≡ₚ map_to_list m) -> NoDup (map LagPartition (map entry_of (r m))).
Proof.
  intros Hr. rewrite map_map. cbn. rewrite (Permutation_map fst (Hr m)). apply NoDup_fst_map_to_list.
Qed.

Lemma ReadLag_Ok l lag :
  ReadLag range l = Ok lag ->
  exists client group topic lags described,
    l = Some {| admin := Some client; lag_group := group; lag_topic := topic |} /\
    client group = Ok lags /\ lags !! group = Some described /\ described_Error described = None /\
    let m := default ∅ (described_Lag described !! topic) in
    lag = {| Group := group; LagTopic := topic; State := described_State described;
             Members := Z.of_nat (described_Members described);
             Total := wrap64 (sum (known_lags (range m)));
             Partitions := merge_sort before (map entry_of (range m)) |}.
Proof.
  unfold ReadLag. destruct l as [[[client|] group topic]|]; try done.
  destruct (client group) as [lags|] eqn:Hc; [|done]. destruct (lags !! group) as [described|] eqn:Hg; [|done].
  destruct (described_Error described) eqn:He; [done|]. rewrite add_partitions.
  intros [= <-]. exists client, group, topic, lags, described. split_and!; try done. cbn.
  f_equal. change 0 with (wrap64 0) at 1. by rewrite wrapped_sum.
Qed.

Lemma sorted_entries m :
  merge_sort before (map entry_of (range m)) = merge_sort before (map entry_of (range' m)).
Proof.
  apply sorted_unique; [|by rewrite !merge_sort_Permutation, range_perm, range_perm'|apply StronglySorted_merge_sort; apply _..].
  rewrite (Permutation_map LagPartition (merge_sort_Permutation before (map entry_of (range m)))).
  by apply range_partitions.
Qed.

Lemma known_lags_perm l l' : l ≡ₚ l' -> sum (known_lags l) = sum (known_lags l').
Proof. intros Hp. apply sum_perm. unfold known_lags. by rewrite Hp. Qed.

(** C34: a successful reading lists every partition of the topic exactly once, in ascending order,
    with its lag and with the error of one that could not be computed; the total is the sum (64
    bits wide) of the lags that could be, and the order in which the map is ranged over has no
    influence on the reading. *)
Theorem ReadLag_reports (client : admin_client) (group topic : string) :
  let l := Some {| admin := Some client; lag_group := group; lag_topic := topic |} in
  ReadLag range l = ReadLag range' l /\
  forall lag, ReadLag range l = Ok lag ->
    exists lags described, client group = Ok lags /\ lags !! group = Some described /\
      let m := default ∅ (described_Lag described !! topic) in
      StronglySorted Z.lt (map LagPartition (Partitions lag)) /\
      (forall p, p ∈ Partitions lag <-> exists i g, m !! i = Some g /\ p = entry_of (i, g)) /\
      Total lag = wrap64 (sum (known_lags (map_to_list m))) /\
      Members lag = Z.of_nat (described_Members described).
Proof.
  intros l. split.
  - unfold ReadLag, l. destruct (client group) as [lags|]; [|done].
    destruct (lags !! group) as [described|]; [|done]. destruct (described_Error described); [done|].
    rewrite !add_partitions. cbn. rewrite sorted_entries. f_equal. f_equal.
    change 0 with (wrap64 0). rewrite !wrapped_sum. f_equal. f_equal. apply known_lags_perm.
    by rewrite range_perm, range_perm'.
  - intros lag (client' & group' & topic' & lags & described & [= <- <- <-] & Hc & Hg & _ & ->)%ReadLag_Ok.
    exists lags, described. split; [done|]. split; [done|]. cbn.
    set (m := default ∅ (described_Lag described !! topic)).
    pose proof (merge_sort_Permutation before (map entry_of (range m))) as Hms. split_and!.
    + apply before_strictly_sorted; [|apply StronglySorted_merge_sort; apply _].
      rewrite (Permutation_map LagPartition Hms). by apply range_partitions.
    + intros p. rewrite Hms, list_elem_of_In, in_map_iff. split.
      * intros ([i g] & <- & Hin%list_elem_of_In). exists i, g. split; [|done].
        rewrite range_perm in Hin. by apply elem_of_map_to_list in Hin.
      * intros (i & g & Hi & ->). exists (i, g). split; [done|]. apply list_elem_of_In.
        rewrite range_perm. by apply elem_of_map_to_list.
    + f_equal. by apply known_lags_perm.
    + done.
Qed.
End Properties.

(** A group with three partitions, one of which could not be read. *)
Definition example_partitions : gmap Z GroupMemberLag :=
  {[ 2 := {| MemberLag := 40; MemberErr := None |};
     0 := {| MemberLag := 2; MemberErr := None |};
     1 := {| MemberLag := -1; MemberErr := Some (ErrorString "not leader") |} ]}.
Definition example_group (members : nat) : DescribedGroupLag :=
  {| described_State := "Stable"; described_Members := members;
     described_Lag := {[ "trades.raw" := example_partitions ]}; described_Error := None |}.
Definition example_admin (members : nat) : admin_client := fun _ =>
  Ok {[ "processor-service" := example_group members ]}.
Definition reversed (m : gmap Z GroupMemberLag) : list (Z * GroupMemberLag) := reverse (map_to_list m).
Lemma reversed_perm m : reversed m ≡ₚ map_to_list m.
Proof. unfold reversed. by rewrite reverse_Permutation. Qed.

Lemma ReadLag_reports_witness :
  @ReadLag ascii_only map_to_list
    (Some {| admin := Some (example_admin 1); lag_group := "processor-service"; lag_topic := "trades.raw" |}) =
  @ReadLag ascii_only reversed
    (Some {| admin := Some (example_admin 1); lag_group := "processor-service"; lag_topic := "trades.raw" |}) /\
  exists lag, @ReadLag ascii_only map_to_list
    (Some {| admin := Some (example_admin 1); lag_group := "processor-service"; lag_topic := "trades.raw" |}) = Ok lag /\
    Total lag = 42 /\ map LagPartition (Partitions lag) = [0; 1; 2].
Proof.
  split; [|eexists; split; [vm_compute; reflexivity|split; reflexivity]].
  apply (@ReadLag_reports ascii_only map_to_list reversed (fun m => Permutation_refl _) reversed_perm
           (example_admin 1) "processor-service" "trades.raw").
Defined.
