(* ===== verification/Jitter.v ===== *)
(** * shared/kafka/lag_cache.go: the jitter of the refresh interval

    [defaultJitter] in binary64 as Go computes it, and how far from the interval it can lead. *)
From Stdlib Require Import QArith Lqa.
From S2P Require Import Prelude GoBase Float64 Float64Facts FloatBounds.
#[local] Open Scope Z_scope.

Definition jitterFraction : float64 := round_frac false 2 10.

(** [bits] are the random bits [rand.Float64] draws. *)
Definition defaultJitter (bits d : Z) : Z :=
  let spread := f64_mul (f64_of_int d) jitterFraction in
  wrap64 (wrap64 (d - f64_to_int64 spread) + f64_to_int64 (f64_mul (f64_mul (rand_Float64 bits) f64_two) spread)).

(** ** Bounds over the rationals *)

#[local] Open Scope Q_scope.

Lemma rounds_between x v lo hi :
  rounds x v -> lo <= v <= hi -> 0 <= lo -> lo * (1 - ulp) <= f64_Q x <= hi * (1 + ulp).
Proof. intros (_ & H1 & H2) [Hlo Hhi] H0. unfold ulp in *. lra. Qed.

Lemma moderate_between v lo hi : lo <= v <= hi -> (1 # 2 ^ 100) <= lo -> hi <= (2 ^ 100)%Z # 1 -> moderate v.
Proof. intros [? ?] ? ?. right. split; lra. Qed.

Lemma jitterFraction_value : f64_Q jitterFraction == 3602879701896397 # 2 ^ 54.
Proof. by vm_compute. Qed.

(** The spread is a fifth of the interval, up to three roundings. *)
Lemma spread_bounds d :
  (0 < d <= 2 ^ 62)%Z ->
  let spread := f64_mul (f64_of_int d) jitterFraction in
  f64_nonneg spread /\
  inject_Z d * ((1 # 5) * (1 - 4 * ulp)) <= f64_Q spread <= inject_Z d * ((1 # 5) * (1 + 4 * ulp)).
Proof.
  intros Hd. cbv zeta.
  assert (1 <= inject_Z d <= (2 ^ 62)%Z # 1) as HD by (unfold Qle, inject_Z; cbn [Qnum Qden]; lia).
  assert (rounds (f64_of_int d) (inject_Z d)) as Ha.
  { unfold f64_of_int. destruct (Z.ltb_spec d 0); [lia|]. rewrite Z.abs_eq by lia.
    apply round_frac_rounds; [lia|done|]. change (d # Z.to_pos 1) with (inject_Z d).
    apply (moderate_between _ _ _ HD); by vm_compute. }
  pose proof (rounds_between _ _ _ _ Ha (conj (Qle_refl _) (Qle_refl _)) ltac:(lra)) as [Ha1 Ha2].
  set (a := f64_of_int d) in *. pose proof jitterFraction_value as Hc.
  assert (f64_Q a * f64_Q jitterFraction == f64_Q a * (3602879701896397 # 2 ^ 54)) as Hac by (by rewrite Hc).
  change (3602879701896397 # 2 ^ 54) with (3602879701896397 # 18014398509481984) in Hac.
  change ((2 ^ 62)%Z # 1) with (4611686018427387904 # 1) in HD.
  assert (rounds (f64_mul a jitterFraction) (f64_Q a * f64_Q jitterFraction)) as Hr.
  { apply f64_mul_rounds; [apply Ha|done|]. apply (moderate_between _ (1 # 10) (4611686018427387904 # 1)).
    - unfold ulp in *. lra.
    - by vm_compute.
    - by vm_compute. }
  split; [apply Hr|]. destruct Hr as (_ & H1 & H2). unfold ulp in *. lra.
Qed.

Lemma rand_bounds bits :
  f64_nonneg (rand_Float64 bits) /\ f64_Q (rand_Float64 bits) <= 1 /\
  (f64_Q (rand_Float64 bits) == 0 \/ (1 # 2 ^ 54) <= f64_Q (rand_Float64 bits)).
Proof.
  unfold rand_Float64. set (k := (bits mod 2 ^ 53)%Z).
  assert (0 <= k < 2 ^ 53)%Z as Hk by (apply Z.mod_pos_bound; lia). clearbody k.
  destruct (decide (k = 0%Z)) as [->|Hk0]; [split; [done|]; split; [by vm_compute|left; by vm_compute]|].
  change (2 ^ 53)%Z with 9007199254740992%Z in *.
  assert ((1 # 9007199254740992) <= k # 9007199254740992 <= (9007199254740991 # 9007199254740992)) as Hv
    by (unfold Qle; cbn [Qnum Qden]; lia).
  assert (rounds (round_frac false k 9007199254740992) (k # 9007199254740992)) as Hr.
  { apply (round_frac_rounds k 9007199254740992); [lia|done|].
    apply (moderate_between _ _ _ Hv); by vm_compute. }
  pose proof (rounds_between _ _ _ _ Hr Hv ltac:(lra)) as [H1 H2]. split; [apply Hr|].
  change (1 # 2 ^ 54) with (1 # 18014398509481984). unfold ulp in *. split; [|right]; lra.
Qed.

Lemma zero_or_moderate v lo hi :
  0 <= v -> (v == 0 \/ lo <= v) -> v <= hi -> (1 # 2 ^ 100) <= lo -> hi <= (2 ^ 100)%Z # 1 -> moderate v.
Proof. intros ? [?|?] ? ? ?; [by left|right]; split; lra. Qed.

(** [rand.Float64() * 2 * spread] lies between zero and twice the spread, up to three roundings. *)
Lemma offset_bounds bits spread :
  f64_nonneg spread -> (1 # 10) <= f64_Q spread <= (2 ^ 62)%Z # 1 ->
  let w := f64_mul (f64_mul (rand_Float64 bits) f64_two) spread in
  f64_nonneg w /\ 0 <= f64_Q w <= 2 * f64_Q spread * (1 + 3 * ulp).
Proof.
  intros Hs HS. cbv zeta. destruct (rand_bounds bits) as (Hu & Hu1 & Hu0). set (u := rand_Float64 bits) in *.
  clearbody u. pose proof (f64_Q_nonneg _ Hu). set (S := f64_Q spread) in *.
  change ((2 ^ 62)%Z # 1) with (4611686018427387904 # 1) in HS. change (1 # 2 ^ 54) with (1 # 18014398509481984) in Hu0.
  assert (f64_Q u * f64_Q f64_two == f64_Q u * 2) as H2 by (by assert (f64_Q f64_two == 2) as -> by (by vm_compute)).
  assert (rounds (f64_mul u f64_two) (f64_Q u * f64_Q f64_two)) as Ht.
  { apply f64_mul_rounds; [done|done|]. apply (zero_or_moderate _ (1 # 18014398509481984) 2);
      [lra|destruct Hu0; [left|right]; lra|lra|by vm_compute|by vm_compute]. }
  destruct Ht as (Ht & Ht1 & Ht2). set (t := f64_mul u f64_two) in *. pose proof (f64_Q_nonneg _ Ht).
  assert (f64_Q t <= 2 * (1 + ulp)) as Htu by (unfold ulp in *; lra).
  assert (f64_Q t == 0 \/ (1 # 36028797018963968) <= f64_Q t) as Ht0 by (unfold ulp in *; destruct Hu0; [left|right]; lra).
  assert (f64_Q t * S <= 2 * (1 + ulp) * S) as Hts by (apply Qmult_le_compat_r; lra).
  assert (0 <= f64_Q t * S) by (apply Qmult_le_0_compat; lra).
  assert (rounds (f64_mul t spread) (f64_Q t * S)) as Hr.
  { apply f64_mul_rounds; [done|done|].
    apply (zero_or_moderate _ (1 # 360287970189639680) (18446744073709551616 # 1));
      [done| |fold S; unfold ulp in *; lra|by vm_compute|by vm_compute].
    destruct Ht0 as [Ht0|Ht0]; [left; fold S; rewrite Ht0; ring|right].
    assert ((1 # 36028797018963968) * (1 # 10) <= f64_Q t * S) by (apply Qmult_le_compat_nonneg; split; lra). fold S; lra. }
  split; [apply Hr|]. split; [apply f64_Q_nonneg, Hr|]. destruct Hr as (_ & _ & Hr). unfold ulp in *. lra.
Qed.

(** ** The bound *)

#[local] Open Scope Z_scope.

(** The jittered interval stays within a fifth of the interval, give or take a nanosecond and
    the rounding of the product, which matters only above three days. *)
Lemma defaultJitter_bounds bits d :
  0 < d <= 2 ^ 62 -> 5 * Z.abs (defaultJitter bits d - d) <= d + d / 2 ^ 48 + 6.
Proof.
  intros Hd. unfold defaultJitter. destruct (spread_bounds d Hd) as [Hs HS].
  set (spread := f64_mul (f64_of_int d) jitterFraction) in *.
  assert (1 <= inject_Z d <= 4611686018427387904 # 1)%Q as HD by (unfold Qle, inject_Z; cbn [Qnum Qden]; lia).
  destruct (offset_bounds bits spread Hs) as [Hw HW];
    [change ((2 ^ 62)%Z # 1)%Q with (4611686018427387904 # 1)%Q; unfold ulp in *; split; lra|].
  set (w := f64_mul (f64_mul _ _) spread) in *.
  assert (int64_max # 1 == 9223372036854775807 # 1)%Q as Hmax by (by vm_compute).
  destruct (f64_to_int64_floor spread Hs) as (Hs0 & Hs1 & Hs2); [rewrite Hmax; unfold ulp in *; lra|].
  destruct (f64_to_int64_floor w Hw) as (Hw0 & Hw1 & Hw2); [rewrite Hmax; unfold ulp in *; lra|].
  set (s := f64_to_int64 spread) in *. set (t := f64_to_int64 w) in *. clearbody s t.
  assert (5 * inject_Z s <= inject_Z d * (1 + (1 # 281474976710656)))%Q as Hlo by (unfold ulp in *; lra).
  assert (5 * (inject_Z t - inject_Z s) <= inject_Z d * (1 + (1 # 281474976710656)) + 5)%Q as Hhi by (unfold ulp in *; lra).
  assert (281474976710656 * (5 * s) <= d * 281474976710657) as Hlo'
    by (unfold Qle, Qmult, Qplus, inject_Z in Hlo; cbn [Qnum Qden] in Hlo; lia).
  assert (281474976710656 * (5 * (t - s)) <= d * 281474976710657 + 5 * 281474976710656) as Hhi'
    by (unfold Qminus, Qle, Qmult, Qplus, Qopp, inject_Z in Hhi; cbn [Qnum Qden] in Hhi; lia).
  change (2 ^ 62) with 4611686018427387904 in Hd. change (2 ^ 48) with 281474976710656.
  clear - Hd Hlo' Hhi' Hs0 Hw0. rewrite (wrap64_id (d - s)), wrap64_id by int64_lia.
  pose proof (Z.div_mod d 281474976710656 ltac:(lia)). pose proof (Z.mod_pos_bound d 281474976710656 ltac:(lia)). lia.
Qed.
