(* ===== verification/LagCache.v ===== *)
(** * shared/kafka/lag_cache.go: consumer lag, refreshed in the background and served stale

    The cache is its interval, its staleness bound and the published snapshot ([None]: the atomic
    pointer is nil).  A refresh is given the outcome of the read and the clock; [Run] is given a
    script of rounds.  [snapshot_after] is the specification of what callers see after a history
    of refreshes. *)
From S2P Require Import Prelude GoBase GoTime Retry KafkaLag Jitter.
#[local] Open Scope Z_scope.

Definition DefaultRefreshInterval : Z := 10 * Second.
Definition DefaultStaleMultiple : Z := 3.
Definition refreshTimeout : Z := 5 * Second.

Record LagSnapshot := {
  Lag : ConsumerLag;
  AsOf : Time;
  SErr : option error;
  Failures : Z;
}.
#[export] Instance LagSnapshot_eq_dec : EqDecision LagSnapshot.
Proof. solve_decision. Defined.
Definition zero_LagSnapshot : LagSnapshot :=
  {| Lag := zero_ConsumerLag; AsOf := zero_Time; SErr := None; Failures := 0 |}.

Record LagCache := {
  interval : Z;
  staleAfter : Z;
  snapshot : option LagSnapshot;
}.
Definition NewLagCache (i : Z) : LagCache :=
  let i := if i <=? 0 then DefaultRefreshInterval else i in
  {| interval := i; staleAfter := wrap64 (i * DefaultStaleMultiple); snapshot := None |}.
Definition store (s : LagSnapshot) (c : LagCache) : LagCache :=
  {| interval := interval c; staleAfter := staleAfter c; snapshot := Some s |}.

(** The accessors accept a nil receiver. *)
Definition Snapshot (c : option LagCache) : LagSnapshot :=
  match c with
  | None => zero_LagSnapshot
  | Some c => match snapshot c with Some s => s | None => zero_LagSnapshot end
  end.

(** The result of [source.ReadLag] under its timeout, and [c.now()]. *)
Definition refresh (outcome : result error ConsumerLag) (now : Time) (c : LagCache) : LagCache * option error :=
  let previous := Snapshot (Some c) in
  match outcome with
  | Err err =>
      (store {| Lag := Lag previous; AsOf := AsOf previous; SErr := Some err;
                Failures := wrap64 (Failures previous + 1) |} c, Some err)
  | Ok lag => (store {| Lag := lag; AsOf := now; SErr := None; Failures := 0 |} c, None)
  end.

Definition Age (c : option LagCache) (now : Time) : Z * bool :=
  match c with
  | None => (0, false)
  | Some _ =>
      let s := Snapshot c in
      if IsZero (AsOf s) then (0, false) else (Sub now (AsOf s), true)
  end.

Definition LagCache_Name : string := "kafka_consumer_lag".

Section Check.
Context `{Unicode}.

Definition LagCache_Check (c : option LagCache) (now : Time) : option error :=
  match c with
  | None => Some (ErrorString "lag cache not configured")
  | Some cache =>
      let s := Snapshot c in
      if IsZero (AsOf s) then
        match SErr s with
        | Some err => Some (Errorf_w "no lag reading yet: " err)
        | None => Some (ErrorString "no lag reading yet")
        end
      else
        let age := Sub now (AsOf s) in
        let old := Duration_String (Duration_Round age Second) in
        if staleAfter cache <? age then
          match SErr s with
          | Some err =>
              Some (Errorf_w ("lag reading stale (" ++ old ++ " old, " ++ pretty (Failures s) ++
                              " consecutive failures): ") err)
          | None => Some (ErrorString ("lag reading stale (" ++ old ++ " old)"))
          end
        else if Stalled (Lag s) then
          Some (ErrorString ("consumer group " ++ Quote (Group (Lag s)) ++ " has lag " ++
                             pretty (Total (Lag s)) ++ " but no members"))
        else None
  end.
End Check.

(** The fields of the detail report; the optional ones are [None] when they are left out. *)
Record lag_detail := {
  d_group : string;
  d_topic : string;
  d_state : string;
  d_members : Z;
  d_total : Z;
  d_stalled : bool;
  d_failures : Z;
  d_partitions : option (list PartitionLag);
  d_as_of : option Time;
  d_age_seconds : option Z;
  d_last_error : option string;
}.
(** [int64(d.Seconds())]: whole seconds, truncated. *)
Definition whole_seconds (d : Z) : Z := Z.quot d Second.
Definition LagCache_Details (c : option LagCache) (now : Time) : option lag_detail :=
  match c with
  | None => None
  | Some _ =>
      let s := Snapshot c in
      let lag := Lag s in
      let read := negb (IsZero (AsOf s)) in
      Some {| d_group := Group lag; d_topic := LagTopic lag; d_state := State lag;
              d_members := Members lag; d_total := Total lag; d_stalled := Stalled lag;
              d_failures := Failures s;
              d_partitions := match Partitions lag with [] => None | ps => Some ps end;
              d_as_of := if read then Some (UTC (AsOf s)) else None;
              d_age_seconds := if read then Some (whole_seconds (Sub now (AsOf s))) else None;
              d_last_error := Error <$> SErr s |}
  end.

(** ** Run *)

(** One iteration of the loop ([jitter] is [defaultJitter] outside the tests): the read, the clock,
    whether the context was cancelled when the refresh returned, the random bits of the jitter and
    of the backoff, and whether the context is cancelled before the timer fires. *)
Record lag_round := {
  lr_outcome : result error ConsumerLag;
  lr_now : Time;
  lr_cancelled : bool;
  lr_bits : Z;
  lr_seed : Z;
  lr_cancelled_in_wait : bool;
}.

(** The delays waited for, how the loop ended, and the cache at that point. *)
Fixpoint LagCache_Run_from (b : Backoff) (c : LagCache) (script : list lag_round) :
  list Z * loop_end * LagCache :=
  match script with
  | [] => ([], Running, c)
  | r :: script' =>
      let delay := defaultJitter (lr_bits r) (interval c) in
      let '(c, err) := refresh (lr_outcome r) (lr_now r) c in
      match err with
      | Some _ =>
          if lr_cancelled r then ([], Returned None, c)
          else
            match Next (lr_seed r) b with
            | None => ([], Panicked, c)
            | Some (delay, b) =>
                if lr_cancelled_in_wait r then ([delay], Returned None, c)
                else
                  let '(ds, e, c) := LagCache_Run_from b c script' in (delay :: ds, e, c)
            end
      | None =>
          if lr_cancelled_in_wait r then ([delay], Returned None, c)
          else
            let '(ds, e, c) := LagCache_Run_from (Reset b) c script' in (delay :: ds, e, c)
      end
  end.
Definition LagCache_Run (c : LagCache) (script : list lag_round) : list Z * loop_end * LagCache :=
  LagCache_Run_from NewBackoff c script.

(** ** The specification: what a history of refreshes leaves *)

Definition history : Type := list (result error ConsumerLag * Time).
Definition succeeded (h : result error ConsumerLag * Time) : bool := is_Ok h.1.
Definition failed (h : result error ConsumerLag * Time) : bool := negb (succeeded h).
Definition refreshes (h : history) (c : LagCache) : LagCache :=
  fold_left (fun c o => (refresh o.1 o.2 c).1) h c.

Definition snapshot_after (h : history) : LagSnapshot :=
  let '(lag, at_) :=
    match find_last succeeded h with
    | Some (Ok lag, now) => (lag, now)
    | _ => (zero_ConsumerLag, zero_Time)
    end in
  {| Lag := lag; AsOf := at_;
     SErr := match last h with Some (Err err, _) => Some err | _ => None end;
     Failures := wrap64 (Z.of_nat (trailing failed h)) |}.

Lemma refresh_params o now c :
  interval (refresh o now c).1 = interval c /\ staleAfter (refresh o now c).1 = staleAfter c.
Proof. by destruct o. Qed.

Lemma refreshes_params h c :
  interval (refreshes h c) = interval c /\ staleAfter (refreshes h c) = staleAfter c.
Proof.
  revert c. induction h as [|[o now] h IH]; intros c; [done|]. cbn [refreshes fold_left].
  destruct (refresh_params o now c) as [H1 H2]. destruct (IH (refresh o now c).1) as [H3 H4].
  unfold refreshes in *. cbn [fst snd]. by rewrite H3, H4.
Qed.

Lemma refreshes_snoc h o now c :
  refreshes (h ++ [(o, now)]) c = (refresh o now (refreshes h c)).1.
Proof. unfold refreshes. by rewrite fold_left_app. Qed.

Lemma refresh_Err_snapshot err now c :
  Snapshot (Some (refresh (Err err) now c).1) =
  {| Lag := Lag (Snapshot (Some c)); AsOf := AsOf (Snapshot (Some c)); SErr := Some err;
     Failures := wrap64 (Failures (Snapshot (Some c)) + 1) |}.
Proof. done. Qed.

Lemma refreshes_snapshot h i : Snapshot (Some (refreshes h (NewLagCache i))) = snapshot_after h.
Proof.
  induction h as [|[o now] h IH] using rev_ind; [done|]. rewrite refreshes_snoc.
  unfold snapshot_after. rewrite find_last_snoc, trailing_snoc, last_snoc. unfold failed, succeeded at 1 3.
  destruct o as [lag|err]; [done|]. rewrite refresh_Err_snapshot, IH. cbn [fst is_Ok negb].
  unfold snapshot_after. destruct (find_last succeeded h) as [[[lag|] t]|];
    cbn [Lag AsOf Failures]; f_equal; rewrite wrap64_add_l, Nat2Z.inj_succ; f_equal; lia.
Qed.

(** ** Lemmas on the loop *)

Definition failing (r : lag_round) : bool := negb (is_Ok (lr_outcome r)).
Definition round_cancels (r : lag_round) : bool := (failing r && lr_cancelled r) || lr_cancelled_in_wait r.
Definition refreshed (r : lag_round) : result error ConsumerLag * Time := (lr_outcome r, lr_now r).

(** What the loop promises of the delay of one round, after the rounds [hist]. *)
Definition delay_ok (i : Z) (b : Backoff) (hist : list lag_round) (r : lag_round) (d : Z) : Prop :=
  if failing r then 0 <= d <= Z.min (Base b * 2 ^ Z.of_nat (trailing failing hist)) (Max b)
  else d = defaultJitter (lr_bits r) i.

Lemma Reset_inv b : backoff_inv b -> backoff_inv (Reset b).
Proof. intros (? & ? & _). split; [done|]. split; [done|]. unfold Reset, set_attempt. cbn. int64_lia. Qed.

(** The delays of a run over [script], after the rounds [hist]. *)
Definition delays_ok (i : Z) (b : Backoff) (hist script : list lag_round) (delays : list Z) : Prop :=
  forall k d r, delays !! k = Some d -> script !! k = Some r -> delay_ok i b (hist ++ take k script) r d.

Lemma delays_ok_nil i b hist script : delays_ok i b hist script [].
Proof. by intros []. Qed.
Lemma delays_ok_cons i b b' hist r script d ds :
  Base b' = Base b -> Max b' = Max b -> delay_ok i b hist r d -> delays_ok i b' (hist ++ [r]) script ds ->
  delays_ok i b hist (r :: script) (d :: ds).
Proof.
  intros HB HM Hd Hds [|k] d' r'; cbn [lookup list_lookup take].
  - intros [= <-] [= <-]. by rewrite app_nil_r.
  - intros Hk Hr. specialize (Hds k d' r' Hk Hr). unfold delay_ok in *.
    rewrite HB, HM, <- app_assoc in Hds. exact Hds.
Qed.
Lemma delays_ok_one i b hist r script d : delay_ok i b hist r d -> delays_ok i b hist (r :: script) [d].
Proof. intros Hd. by apply (delays_ok_cons _ _ b); [..|apply delays_ok_nil]. Qed.

(** How a run over [script] ends, with these delays. *)
Definition end_ok (script : list lag_round) (delays : list Z) (e : loop_end) : Prop :=
  match List.find round_cancels script with
  | None => e = Running /\ length delays = length script
  | Some _ => e = Returned None
  end.
Lemma end_ok_cons r script d ds e :
  round_cancels r = false -> end_ok script ds e -> end_ok (r :: script) (d :: ds) e.
Proof.
  intros Hr. unfold end_ok. cbn [List.find length]. rewrite Hr. destruct (List.find _ _); [done|].
  intros [-> ->]. done.
Qed.
Lemma end_ok_cancel r script ds : round_cancels r = true -> end_ok (r :: script) ds (Returned None).
Proof. intros Hr. unfold end_ok. cbn [List.find]. by rewrite Hr. Qed.

Lemma attempt_succ b : backoff_inv b -> wrap64 (attempt b + 1) <= attempt b + 1.
Proof.
  intros (_ & _ & Hatt). unfold wrap64. pose proof (Z.mod_le (attempt b + 1 + 2 ^ 63) (2 ^ 64)). int64_lia.
Qed.

Lemma refreshes_cons r script c n :
  refreshes (map refreshed (take n script)) (refresh (lr_outcome r) (lr_now r) c).1 =
  refreshes (map refreshed (take (S n) (r :: script))) c.
Proof. done. Qed.

Lemma LagCache_Run_from_spec b hist c script delays e c' :
  backoff_inv b -> attempt b <= Z.of_nat (trailing failing hist) ->
  LagCache_Run_from b c script = (delays, e, c') ->
  end_ok script delays e /\ delays_ok (interval c) b hist script delays /\
  exists n, c' = refreshes (map refreshed (take n script)) c.
Proof.
  revert b hist c delays e. induction script as [|r script IH]; intros b hist c delays e Hb Ha Hrun;
    cbn [LagCache_Run_from] in Hrun.
  { simplify_eq. split; [done|]. split; [apply delays_ok_nil|]. by exists 0%nat. }
  destruct (refresh_params (lr_outcome r) (lr_now r) c) as [Hi _].
  pose proof (refreshes_cons r script c) as Hcons. pose proof (trailing_snoc failing hist r) as Htr.
  assert (exists n, (refresh (lr_outcome r) (lr_now r) c).1 = refreshes (map refreshed (take n (r :: script))) c)
    as Hn by (by exists 1%nat).
  assert (failing r = negb (is_Ok (lr_outcome r))) as Hf by done.
  assert (round_cancels r = (failing r && lr_cancelled r) || lr_cancelled_in_wait r) as Hrc by done.
  assert (forall d, delay_ok (interval c) b hist r d = if failing r
     then 0 <= d <= Z.min (Base b * 2 ^ Z.of_nat (trailing failing hist)) (Max b)
     else d = defaultJitter (lr_bits r) (interval c)) as Hdok by done.
  destruct (refresh (lr_outcome r) (lr_now r) c) as [c1 err] eqn:Href. cbn [fst] in *. rewrite <- Hi in *.
  destruct (lr_outcome r) as [lag|er] eqn:Ho; cbn [is_Ok negb refresh] in Hf, Href;
    injection Href as Hc1 <-; clear Hc1; rewrite Hf in *; cbn [andb orb] in Hrc.
  - destruct (lr_cancelled_in_wait r).
    { simplify_eq. split; [by apply end_ok_cancel|]. split; [by apply delays_ok_one; rewrite Hdok|done]. }
    destruct (LagCache_Run_from (Reset b) c1 script) as [[ds e0] c2] eqn:Hr. simplify_eq.
    destruct (IH (Reset b) (hist ++ [r]) c1 ds e) as (H1 & H2 & n & ->); [by apply Reset_inv|cbn; lia|done|].
    split; [by apply end_ok_cons|]. split; [|by exists (S n)].
    apply (delays_ok_cons _ _ (Reset b)); [done|done|by rewrite Hdok|done].
  - destruct (lr_cancelled r).
    { simplify_eq. split; [by apply end_ok_cancel|]. split; [apply delays_ok_nil|done]. }
    destruct (Next (lr_seed r) b) as [[d b']|] eqn:HN.
    2: { destruct Hb as (Hb1 & Hb2 & _). destruct (Next_total (lr_seed r) b Hb1 Hb2) as (? & ? & _). congruence. }
    destruct (Next_inv _ _ _ _ Hb HN) as (Hb' & Hd & ->).
    assert (delay_ok (interval c1) b hist r d).
    { rewrite Hdok. pose proof (ceiling_attempt_le b _ Hb Ha ltac:(lia)). lia. }
    destruct (lr_cancelled_in_wait r).
    { simplify_eq. split; [by apply end_ok_cancel|]. split; [by apply delays_ok_one|done]. }
    destruct (LagCache_Run_from _ c1 script) as [[ds e0] c2] eqn:Hr. simplify_eq.
    destruct (IH (set_attempt (wrap64 (attempt b + 1)) b) (hist ++ [r]) c1 ds e) as (H1 & H2 & n & ->);
      [done|pose proof (attempt_succ b Hb); cbn; lia|done|].
    split; [by apply end_ok_cons|]. split; [|by exists (S n)]. by eapply delays_ok_cons.
Qed.

Lemma LagCache_Run_nil c script delays err c' :
  LagCache_Run c script = (delays, Returned err, c') -> err = None.
Proof.
  intros Hrun. apply (LagCache_Run_from_spec NewBackoff []) in Hrun as (He & _); [|apply NewBackoff_inv|done].
  unfold end_ok in He. destruct (List.find _ _); [congruence|by destruct He].
Qed.

(** ** Lemmas on the check *)

Lemma LagCache_Check_snapshot `{Unicode} (c : LagCache) now :
  LagCache_Check (Some c) now = None <->
  IsZero (AsOf (Snapshot (Some c))) = false /\ Sub now (AsOf (Snapshot (Some c))) <= staleAfter c /\
  Stalled (Lag (Snapshot (Some c))) = false.
Proof.
  unfold LagCache_Check. set (s := Snapshot (Some c)). destruct (IsZero (AsOf s)).
  { destruct (SErr s); split; (done || by intros (? & _)). }
  destruct (Z.ltb_spec (staleAfter c) (Sub now (AsOf s))).
  { destruct (SErr s); split; (done || intros (_ & ? & _); lia). }
  destruct (Stalled (Lag s)); split; (done || by intros (_ & _ & ?)).
Qed.

Lemma find_last_sat {A : Type} (p : A -> bool) l x : find_last p l = Some x -> p x = true.
Proof. unfold find_last. intros H. by apply List.find_some in H as [_ ?]. Qed.

(** ** Properties *)

(** C32: serve-stale: after any history of refreshes the published reading is the last successful
    one with the time it was taken (the zero reading if there was none), the error is that of the
    latest refresh, if it failed, and the counter is the length of the current run of failures;
    the interval and the staleness bound never change. *)
Theorem LagCache_serves_last_good (h : history) (i : Z) :
  Snapshot (Some (refreshes h (NewLagCache i))) = snapshot_after h /\
  interval (refreshes h (NewLagCache i)) = interval (NewLagCache i) /\
  staleAfter (refreshes h (NewLagCache i)) = staleAfter (NewLagCache i).
Proof. split; [apply refreshes_snapshot|apply refreshes_params]. Qed.

(** The health verdict: after any history of refreshes [Check] passes exactly if some refresh has
    succeeded, the last such reading is not older than the staleness bound, and it does not show a
    group with lag and no members; so one more failed refresh never changes the verdict. *)
Theorem LagCache_Check_decides `{Unicode} (h : history) (i : Z) (now : Time) :
  (LagCache_Check (Some (refreshes h (NewLagCache i))) now = None <->
     exists lag t, find_last succeeded h = Some (Ok lag, t) /\ IsZero t = false /\
       Sub now t <= staleAfter (NewLagCache i) /\ Stalled lag = false) /\
  (forall err t', LagCache_Check (Some (refreshes (h ++ [(Err err, t')]) (NewLagCache i))) now = None <->
     LagCache_Check (Some (refreshes h (NewLagCache i))) now = None).
Proof.
  split.
  - rewrite LagCache_Check_snapshot, refreshes_snapshot.
    destruct (refreshes_params h (NewLagCache i)) as [_ ->]. unfold snapshot_after.
    destruct (find_last succeeded h) as [[[lag|err] t]|] eqn:Hf; cbn [AsOf Lag].
    + split; [intros (? & ? & ?); by exists lag, t|]. by intros (? & ? & [= <- <-] & ? & ? & ?).
    + by apply find_last_sat in Hf.
    + split; [by intros (? & _)|]. by intros (? & ? & ? & _).
  - intros err t'. rewrite !LagCache_Check_snapshot, !refreshes_snapshot.
    destruct (refreshes_params h (NewLagCache i)) as [_ ->].
    destruct (refreshes_params (h ++ [(Err err, t')]) (NewLagCache i)) as [_ ->].
    unfold snapshot_after. rewrite find_last_snoc. cbn [succeeded is_Ok fst].
    by destruct (find_last succeeded h) as [[[lag|er] t]|].
Qed.

(** C31: the refresh loop never gives up and never fails: it returns, with nil, only in a round that
    cancels it, and neither panics nor stops before; after a success it waits the interval, give
    or take a fifth of it (and a nanosecond, and the rounding of the floats), after a failure
    between zero and one second doubled once per failure since the last success, at most thirty
    seconds; the cache is then the result of the refreshes made. *)
Theorem LagCache_Run_refreshes (c c' : LagCache) (script : list lag_round) (delays : list Z) (e : loop_end) :
  LagCache_Run c script = (delays, e, c') ->
  match List.find round_cancels script with
  | None => e = Running /\ length delays = length script
  | Some _ => e = Returned None
  end /\
  (forall i d r, delays !! i = Some d -> script !! i = Some r ->
     if failing r then 0 <= d <= Z.min (DefaultBase * 2 ^ Z.of_nat (trailing failing (take i script))) DefaultMax
     else 0 < interval c <= 2 ^ 62 -> 5 * Z.abs (d - interval c) <= interval c + interval c / 2 ^ 48 + 6) /\
  exists n, c' = refreshes (map refreshed (take n script)) c.
Proof.
  intros Hrun. apply (LagCache_Run_from_spec NewBackoff []) in Hrun as (He & Hd & Hn); [|apply NewBackoff_inv|done].
  split; [exact He|]. split; [|exact Hn]. intros i d r Hi Hr. specialize (Hd i d r Hi Hr).
  unfold delay_ok in Hd. destruct (failing r); [exact Hd|]. rewrite Hd. apply defaultJitter_bounds.
Qed.

Definition example_lag_round (o : result error ConsumerLag) (cancel : bool) : lag_round :=
  {| lr_outcome := o; lr_now := {| unix_ns := 1700000000000000000; zone := 0 |}; lr_cancelled := false;
     lr_bits := 1234567890123456789; lr_seed := 123456789; lr_cancelled_in_wait := cancel |}.
Definition example_lag_script : list lag_round :=
  [example_lag_round (Err (ErrorString "timeout")) false; example_lag_round (Err (ErrorString "timeout")) false;
   example_lag_round (Ok zero_ConsumerLag) false; example_lag_round (Ok zero_ConsumerLag) true].

Lemma LagCache_Run_refreshes_witness :
  exists delays c', LagCache_Run (NewLagCache 0) example_lag_script = (delays, Returned None, c') /\
    (forall d, delays !! 2%nat = Some d -> 7999999998 <= d <= 12000000002) /\
    exists n, c' = refreshes (map refreshed (take n example_lag_script)) (NewLagCache 0).
Proof.
  eexists _, _. split; [vm_compute; reflexivity|].
  destruct (LagCache_Run_refreshes (NewLagCache 0) _ example_lag_script _ _ ltac:(vm_compute; reflexivity)) as (_ & Hd & Hn).
  split; [|exact Hn]. intros d Hdel. specialize (Hd 2%nat d _ Hdel eq_refl ltac:(by vm_compute)).
  change (interval (NewLagCache 0)) with 10000000000 in Hd. change (10000000000 / 2 ^ 48) with 0 in Hd. lia.
Defined.

(** C33: an unknown lag reads as a healthy one: if the lag of no partition could be computed (or the
    topic has none), the reading has total zero, so that it never counts as stalled, even with no
    member in the group, and the cache that publishes it passes its check. *)
Theorem LagCache_hides_unknown_lag `{Unicode} (range : gmap Z GroupMemberLag -> list (Z * GroupMemberLag))
    (client : admin_client) (group topic : string) (lags : gmap string DescribedGroupLag)
    (described : DescribedGroupLag) (c : LagCache) (now : Time) :
  (forall m, range m ≡ₚ map_to_list m) ->
  client group = Ok lags -> lags !! group = Some described -> described_Error described = None ->
  (forall i g, default ∅ (described_Lag described !! topic) !! i = Some g -> MemberErr g <> None) ->
  0 <= staleAfter c -> IsZero now = false ->
  exists lag, ReadLag range (Some {| admin := Some client; lag_group := group; lag_topic := topic |}) = Ok lag /\
    Total lag = 0 /\ Stalled lag = false /\ LagCache_Check (Some (refresh (Ok lag) now c).1) now = None.
Proof.
  intros Hrange Hc Hg He Hall Hstale Hnow. unfold ReadLag. rewrite Hc, Hg, He, add_partitions.
  assert (known_lags (range (default ∅ (described_Lag described !! topic))) = []) as ->.
  { unfold known_lags. assert (Forall (fun pm => MemberErr pm.2 <> None)
      (range (default ∅ (described_Lag described !! topic)))) as Hf.
    { apply Forall_forall. intros [i g] Hin. rewrite Hrange in Hin. apply elem_of_map_to_list in Hin.
      by apply (Hall i). }
    induction Hf as [|[i g] l Hx _ IH]; [done|]. cbn in *. by destruct (MemberErr g). }
  eexists. split; [reflexivity|]. split; [done|]. split; [apply andb_false_iff; by right|].
  apply LagCache_Check_snapshot. cbn [refresh fst Snapshot snapshot store AsOf Lag].
  split; [done|]. rewrite Sub_self. split; [done|]. apply andb_false_iff. by right.
Qed.

(** No partition could be read and the group has no members. *)
Definition blind_group : DescribedGroupLag :=
  {| described_State := "Empty"; described_Members := 0;
     described_Lag := {[ "trades.raw" := {[ 0 := {| MemberLag := -1; MemberErr := Some (ErrorString "not leader") |} ]} ]};
     described_Error := None |}.
Definition example_lag_now : Time := {| unix_ns := 1700000000000000000; zone := 0 |}.

Lemma LagCache_hides_unknown_lag_witness :
  exists lag, @ReadLag ascii_only map_to_list
      (Some {| admin := Some (fun _ => Ok {[ "processor-service" := blind_group ]});
               lag_group := "processor-service"; lag_topic := "trades.raw" |}) = Ok lag /\
    Total lag = 0 /\ Stalled lag = false /\
    @LagCache_Check ascii_only (Some (refresh (Ok lag) example_lag_now (NewLagCache 0)).1) example_lag_now = None.
Proof.
  apply (@LagCache_hides_unknown_lag ascii_only map_to_list
           (fun _ => Ok {[ "processor-service" := blind_group ]}) "processor-service" "trades.raw"
           {[ "processor-service" := blind_group ]} blind_group (NewLagCache 0) example_lag_now).
  - intros m. reflexivity.
  - reflexivity.
  - reflexivity.
  - reflexivity.
  - intros i g. change (default ∅ (described_Lag blind_group !! "trades.raw"%string))
      with ({[ 0 := {| MemberLag := -1; MemberErr := Some (ErrorString "not leader") |} ]} : gmap Z GroupMemberLag).
    intros Hi. apply lookup_singleton_Some in Hi as [_ <-]. discriminate.
  - vm_compute. discriminate.
  - reflexivity.
Defined.
