(* ===== verification/HttpServer.v ===== *)
(** * shared/httpserver: the ops server (health.go, server.go), and shared/version

    [runChecks] is a transition system: one goroutine per checker, each with its own deadline, each
    writing its own slot, in any order.  [handleHealth] is the loop over the slots.  [Start] is
    what it returns once the listener has returned or the context has ended. *)
From S2P Require Import Prelude GoBase Handlers.
#[local] Open Scope Z_scope.

(** ** shared/version *)

Record version_Info := { Version : string; Commit : string; VersionDate : string }.
(** The package's variables: a build may set them to other values. *)
Class BuildVars := { build_Version : string; build_Commit : string; build_Date : string }.
Definition default_vars : BuildVars :=
  {| build_Version := "dev"; build_Commit := "none"; build_Date := "unknown" |}.
Definition GetInfo `{BuildVars} : version_Info :=
  {| Version := build_Version; Commit := build_Commit; VersionDate := build_Date |}.

(** ** health.go *)

(** A checker; [c_Details] is [None] if it is not a [Detailer], and [Some None] if its detail is nil. *)
Record Checker (D : Type) := {
  c_Name : string;
  c_Check : Context -> option error;
  c_Details : option (option D);
}.
Arguments c_Name {D} _.
Arguments c_Check {D} _ _.
Arguments c_Details {D} _.

Definition CheckerFunc {D : Type} (name : string) (fn : Context -> option error) : Checker D :=
  {| c_Name := name; c_Check := fn; c_Details := None |}.

(** A registry of any kind of reference to a checker. *)
Record healthRegistry (C : Type) := { checkers : list C }.
Arguments checkers {C} _.
Definition registry_add {C : Type} (c : C) (r : healthRegistry C) : healthRegistry C :=
  {| checkers := checkers r ++ [c] |}.
(** A copy: later registrations do not show in it. *)
Definition registry_snapshot {C : Type} (r : healthRegistry C) : list C := checkers r.

(** ** server.go: runChecks *)

Definition checkTimeout : Z := 2 * Second.

(** [context.WithTimeout(ctx, d)] at the instant [now]. *)
Definition WithTimeout (ctx : Context) (d now : Z) : Context :=
  {| ctx_Err := ctx_Err ctx;
     ctx_Deadline :=
       match ctx_Deadline ctx with
       | Some deadline => Some (Z.min deadline (now + d))
       | None => Some (now + d)
       end |}.

Record checkResult (D : Type) := { r_name : string; r_err : option error; r_detail : option D }.
Arguments r_name {D} _.
Arguments r_err {D} _.
Arguments r_detail {D} _.
Definition zero_checkResult {D : Type} : checkResult D :=
  {| r_name := ""; r_err := None; r_detail := None |}.

(** What the goroutine of one checker, started at [now], computes. *)
Definition check_one {D : Type} (ctx : Context) (now : Z) (c : Checker D) : checkResult D :=
  {| r_name := c_Name c; r_err := c_Check c (WithTimeout ctx checkTimeout now);
     r_detail := match c_Details c with Some d => d | None => None end |}.

Section RunChecks.
Context {D : Type} (ctx : Context) (cs : list (Checker D)).

(** The results slice and, per goroutine, whether it is still running. *)
Record checking := { results : list (checkResult D); pending : list bool }.
Definition runChecks_start : checking :=
  {| results := repeat zero_checkResult (length cs); pending := repeat true (length cs) |}.
(** The label: which goroutine finishes, and when it had started. *)
Definition check_label : Type := (nat * Z)%type.

Inductive check_step : checking -> check_label -> checking -> Prop :=
  | check_done st i now c :
      pending st !! i = Some true -> cs !! i = Some c ->
      check_step st (i, now)
        {| results := <[i := check_one ctx now c]> (results st); pending := <[i := false]> (pending st) |}.

(** [wg.Wait] returns. *)
Definition all_done (st : checking) : Prop := Forall (fun b => b = false) (pending st).

Definition check_exec (l : check_label) (st : checking) : option checking :=
  match pending st !! l.1, cs !! l.1 with
  | Some true, Some c =>
      Some {| results := <[l.1 := check_one ctx l.2 c]> (results st); pending := <[l.1 := false]> (pending st) |}
  | _, _ => None
  end.
Lemma check_exec_sound l st st' : check_exec l st = Some st' -> check_step st l st'.
Proof.
  destruct l as [i now]. unfold check_exec. cbn [fst snd].
  destruct (pending st !! i) as [[]|] eqn:Hp; [|done..]. destruct (cs !! i) as [c|] eqn:Hc; [|done].
  intros [= <-]. by constructor.
Qed.
End RunChecks.
Arguments results {D} _.
Arguments pending {D} _.

(** ** server.go: the handlers *)

Definition StatusOK : Z := 200.
Definition StatusServiceUnavailable : Z := 503.

Record ops_healthResponse (D : Type) := {
  h_Status : string;
  h_Build : version_Info;
  h_Checks : gmap string string;
  h_Details : option (gmap string D);   (** nil when there is none *)
}.
Arguments h_Status {D} _.
Arguments h_Build {D} _.
Arguments h_Checks {D} _.
Arguments h_Details {D} _.

(** The loop body of [handleHealth]: status, checks and details. *)
Definition add_result {D : Type} (acc : string * gmap string string * gmap string D) (r : checkResult D) :
  string * gmap string string * gmap string D :=
  let '(status, checks, details) := acc in
  let '(status, checks) :=
    match r_err r with
    | Some err => ("degraded"%string, <[r_name r := Error err]> checks)
    | None => (status, <[r_name r := "ok"%string]> checks)
    end in
  (status, checks, match r_detail r with Some d => <[r_name r := d]> details | None => details end).

(** The status code and the response, from the results of the checks. *)
Definition handleHealth `{BuildVars} {D : Type} (rs : list (checkResult D)) : Z * ops_healthResponse D :=
  let '(status, checks, details) := fold_left add_result rs ("ok"%string, ∅, ∅) in
  let code := if bool_decide (status <> "ok"%string) then StatusServiceUnavailable else StatusOK in
  (code, {| h_Status := status; h_Build := GetInfo; h_Checks := checks;
            h_Details := if bool_decide (details = ∅) then None else Some details |}).

(** The liveness probe runs no check. *)
Definition handleLive `{BuildVars} : Z * (string * version_Info) := (StatusOK, ("ok"%string, GetInfo)).

(** ** server.go: Start *)

(** What the select of [Start] sees first: [ListenAndServe] has returned an error, or the context
    has ended and [Shutdown] has returned. *)
Inductive serve_end :=
  | Listened (err : option error)
  | ShutDown (err : option error).

Definition Start (e : serve_end) : option error :=
  match e with
  | Listened err => if bool_decide (err <> None) && negb (Is err HTTPErrServerClosed) then err else None
  | ShutDown err => err
  end.

(** ** Lemmas *)

Section RunChecksFacts.
Context {D : Type} (ctx : Context) (cs : list (Checker D)).

(** Finished goroutines have written their own slot, with their own and only start time. *)
Definition slots_ok (ls : list check_label) (st : checking) : Prop :=
  length (results st) = length cs /\ length (pending st) = length cs /\
  forall i, match pending st !! i with
            | Some false => exists now c, (i, now) ∈ ls /\ (forall now', (i, now') ∈ ls -> now' = now) /\
                                          cs !! i = Some c /\ results st !! i = Some (check_one ctx now c)
            | Some true => forall now, (i, now) ∉ ls
            | None => True
            end.

Lemma slots_ok_start : slots_ok [] (runChecks_start cs).
Proof.
  split; [apply repeat_length|]. split; [apply repeat_length|]. intros i. cbn.
  destruct (repeat true (length cs) !! i) as [b|] eqn:Hi; [|done].
  apply list_elem_of_lookup_2, list_elem_of_In, repeat_spec in Hi as ->. intros now. by apply not_elem_of_nil.
Qed.

Lemma slots_ok_step ls st l st' : slots_ok ls st -> check_step ctx cs st l st' -> slots_ok (ls ++ [l]) st'.
Proof.
  intros (Hr & Hp & Hs) Hstep. destruct Hstep as [st i now c Hpi Hci]. unfold slots_ok. cbn [results pending].
  rewrite !length_insert. split; [done|]. split; [done|]. intros j.
  assert (i < length (results st))%nat as Hi.
  { rewrite Hr, <- Hp. by eapply lookup_lt_Some. }
  destruct (decide (i = j)) as [<-|Hne].
  - rewrite list_lookup_insert_eq by (rewrite Hp, <- Hr; done). exists now, c.
    split; [apply elem_of_app; right; left|]. split; [|split; [done|by rewrite list_lookup_insert_eq]].
    intros now' [Hin|[= ->]%list_elem_of_singleton]%elem_of_app; [|done].
    specialize (Hs i). rewrite Hpi in Hs. by destruct (Hs now').
  - rewrite list_lookup_insert_ne by done. specialize (Hs j). destruct (pending st !! j) as [[]|]; [| |done].
    + intros now' [?|[= -> ->]%list_elem_of_singleton]%elem_of_app; [by eapply Hs|done].
    + destruct Hs as (now' & c' & Hin & Huniq & Hc & Hres). exists now', c'.
      split; [apply elem_of_app; by left|]. split; [|split; [done|by rewrite list_lookup_insert_ne]].
      intros now'' [?|[= -> ->]%list_elem_of_singleton]%elem_of_app; [by apply Huniq|done].
Qed.

Lemma slots_ok_trace ls st : trace (check_step ctx cs) (runChecks_start cs) ls st -> slots_ok ls st.
Proof.
  apply (trace_history (check_step ctx cs) slots_ok); [apply slots_ok_start|intros; by eapply slots_ok_step].
Qed.

(** Once all have finished, every slot is filled by its checker. *)
Lemma checks_done ls st :
  trace (check_step ctx cs) (runChecks_start cs) ls st -> all_done st ->
  length (results st) = length cs /\
  forall i c, cs !! i = Some c ->
    exists now, (i, now) ∈ ls /\ (forall now', (i, now') ∈ ls -> now' = now) /\
                results st !! i = Some (check_one ctx now c).
Proof.
  intros (Hr & Hp & Hs)%slots_ok_trace Hdone. split; [done|]. intros i c Hc. specialize (Hs i).
  destruct (lookup_lt_is_Some_2 (pending st) i) as [b Hb]; [rewrite Hp; by eapply lookup_lt_Some|].
  pose proof (Forall_lookup_1 _ _ _ _ Hdone Hb) as ->. rewrite Hb in Hs.
  destruct Hs as (now & c' & Hin & Huniq & Hc' & Hres). exists now. by simplify_eq.
Qed.
End RunChecksFacts.

Definition unhealthy {D : Type} (r : checkResult D) : bool :=
  match r_err r with Some _ => true | None => false end.

Lemma add_results {D : Type} (rs : list (checkResult D)) status checks details :
  status = "ok"%string \/ status = "degraded"%string ->
  let '(status', checks', details') := fold_left add_result rs (status, checks, details) in
  status' = (if existsb unhealthy rs then "degraded"%string else status) /\
  (forall name, checks' !! name =
     match find_last (fun r => bool_decide (r_name r = name)) rs with
     | Some r => Some match r_err r with Some err => Error err | None => "ok"%string end
     | None => checks !! name
     end).
Proof.
  intros Hst. induction rs as [|r rs IH] using rev_ind; [done|].
  rewrite fold_left_app. destruct (fold_left add_result rs (status, checks, details)) as [[s1 c1] d1].
  destruct IH as [-> Hc]. cbn [fold_left add_result]. rewrite existsb_app. cbn [existsb].
  rewrite orb_false_r.
  assert (unhealthy r = match r_err r with Some _ => true | None => false end) as -> by done.
  destruct (r_err r) as [err|] eqn:He; (split; [by destruct (existsb unhealthy rs)|]); intros name;
    rewrite find_last_snoc, lookup_insert; case_decide as Hn.
  - by rewrite bool_decide_eq_true_2, He.
  - by rewrite bool_decide_eq_false_2.
  - by rewrite bool_decide_eq_true_2, He.
  - by rewrite bool_decide_eq_false_2.
Qed.

(** How many goroutines are still running. *)
Lemma running_checks {D : Type} (ctx : Context) (cs : list (Checker D)) ls st :
  trace (check_step ctx cs) (runChecks_start cs) ls st ->
  (length (filter (fun b => b = true) (pending st)) + length ls = length cs)%nat.
Proof.
  apply (trace_history (check_step ctx cs) (fun ls st =>
    (length (filter (fun b => b = true) (pending st)) + length ls = length cs)%nat)).
  - cbn. induction cs as [|c cs' IH]; [done|]. cbn [length repeat]. rewrite filter_cons_True by done.
    cbn [length]. lia.
  - clear ls st. intros ls st l st' IH Hstep. destruct Hstep as [st i now c Hp Hc]. cbn [pending].
    pose proof (length_filter_insert (fun b => b = true) _ i _ false Hp) as Hl.
    rewrite length_app. cbn [length]. rewrite decide_True, decide_False in Hl by done. lia.
Qed.

(** ** Properties *)

(** The checks run independently: in whatever order the goroutines finish, [Wait] returns after
    exactly one run per checker, and then slot [i] holds the verdict of checker [i] under a context
    of its own, whose deadline is at most two seconds after that goroutine started and not after
    the request's, together with its details, whatever the other checkers did. *)
Theorem runChecks_independent {D : Type} (ctx : Context) (cs : list (Checker D)) (ls : list check_label)
    (st : checking) :
  trace (check_step ctx cs) (runChecks_start cs) ls st -> all_done st ->
  length ls = length cs /\ length (results st) = length cs /\
  forall i c, cs !! i = Some c ->
    exists now child deadline, (i, now) ∈ ls /\
      ctx_Err child = ctx_Err ctx /\ ctx_Deadline child = Some deadline /\ deadline <= now + 2 * Second /\
      (forall d, ctx_Deadline ctx = Some d -> deadline <= d) /\
      results st !! i = Some {| r_name := c_Name c; r_err := c_Check c child;
                                r_detail := default None (c_Details c) |}.
Proof.
  intros Htr Hdone. pose proof (running_checks _ _ _ _ Htr) as Hrun.
  assert (filter (fun b => b = true) (pending st) = []) as Hf.
  { clear -Hdone. unfold all_done in Hdone. induction Hdone as [|b l -> _ IH]; [done|].
    by rewrite filter_cons_False. }
  rewrite Hf in Hrun. destruct (checks_done _ _ _ _ Htr Hdone) as [Hr Hs].
  split; [done|]. split; [done|]. intros i c Hc. destruct (Hs i c Hc) as (now & Hin & _ & Hres).
  assert (exists deadline, ctx_Deadline (WithTimeout ctx checkTimeout now) = Some deadline /\
    deadline <= now + 2 * Second /\ forall d, ctx_Deadline ctx = Some d -> deadline <= d) as (deadline & H1 & H2 & H3).
  { unfold WithTimeout, checkTimeout. cbn [ctx_Deadline]. destruct (ctx_Deadline ctx) as [d|]; eexists;
      (split; [done|]); (split; [lia|]); [intros ? [= <-]; lia|done]. }
  exists now, (WithTimeout ctx checkTimeout now), deadline. split; [done|]. split; [done|].
  split; [done|]. split; [done|]. split; [done|]. rewrite Hres. unfold check_one. by destruct (c_Details c).
Qed.

Definition example_checkers : list (Checker Z) :=
  [CheckerFunc "redis" (fun _ => None);
   {| c_Name := "kafka"; c_Check := fun _ => Some (ErrorString "down"); c_Details := Some (Some 7) |}].

Lemma runChecks_independent_witness :
  exists st, run (check_exec Background example_checkers) [(1%nat, 100); (0%nat, 200)]
               (runChecks_start example_checkers) = Some st /\
    length (results st) = 2%nat /\ (@handleHealth default_vars _ (results st)).1 = StatusServiceUnavailable.
Proof.
  eexists. split; [vm_compute; reflexivity|]. split; [|vm_compute; reflexivity].
  refine (proj1 (proj2 (runChecks_independent Background example_checkers [(1%nat, 100); (0%nat, 200)] _ _ _))).
  - eapply run_trace; [apply check_exec_sound|vm_compute; reflexivity].
  - repeat constructor.
Defined.

(** The readiness report: the endpoint answers 503 and "degraded" exactly if some check failed,
    and 200 and "ok" otherwise; under every registered name it shows "ok" or the error text of the
    last result of that name, and no other name; details are nil exactly if no check gave one. *)
Theorem handleHealth_reports `{BuildVars} {D : Type} (rs : list (checkResult D)) :
  let '(code, resp) := handleHealth rs in
  (code = StatusServiceUnavailable <-> exists r err, r ∈ rs /\ r_err r = Some err) /\
  (code = StatusOK \/ code = StatusServiceUnavailable) /\
  h_Status resp = (if decide (code = StatusOK) then "ok"%string else "degraded"%string) /\
  forall name, h_Checks resp !! name =
    match find_last (fun r => bool_decide (r_name r = name)) rs with
    | Some r => Some match r_err r with Some err => Error err | None => "ok"%string end
    | None => None
    end.
Proof.
  unfold handleHealth. pose proof (add_results rs "ok" ∅ ∅ ltac:(by left)) as Hadd.
  destruct (fold_left add_result rs ("ok"%string, ∅, ∅)) as [[status checks] details].
  destruct Hadd as [-> Hchecks]. cbn [h_Status h_Checks].
  assert (existsb unhealthy rs = true <-> exists r err, r ∈ rs /\ r_err r = Some err) as Hex.
  { rewrite existsb_exists. unfold unhealthy. split.
    - intros (r & Hin%list_elem_of_In & Hr). destruct (r_err r) as [err|] eqn:He; [|done]. by exists r, err.
    - intros (r & err & Hin%list_elem_of_In & He). exists r. by rewrite He. }
  split; [rewrite <- Hex|split; [|split]].
  - by destruct (existsb unhealthy rs).
  - destruct (existsb unhealthy rs); [by right|by left].
  - by destruct (existsb unhealthy rs).
  - intros name. by rewrite Hchecks.
Qed.
