(* ===== verification/Publisher.v ===== *)
(** * ingestion-service/internal/publisher.go: the Kafka producer

    [Publish] hands a record to the client, which keeps it in flight until the promise runs
    [onDelivery].  The record log [sent] and the records in flight are the client's state as far
    as the publisher sees it; the ping of the health check is a parameter. *)
From S2P Require Import Prelude GoBase Config Decimal Float64 Json GoTime Domain Wire Handlers.
#[local] Open Scope Z_scope.

(** What is set of a [kgo.Record]. *)
Record ProducerRecord := {
  rec_Topic : string;
  rec_Key : string;
  rec_Value : bytes;
  rec_Timestamp : Time;
}.
#[export] Instance ProducerRecord_eq_dec : EqDecision ProducerRecord.
Proof. solve_decision. Defined.

Record Publisher := {
  sent : list ProducerRecord;          (** every record handed to the client, in order *)
  inflight : list ProducerRecord;      (** those whose promise has not run yet *)
  consecutiveFailures : Z;
  lastFailure : option error;
  lastFailureAt : Time;
}.

(** [new_client] is [kgo.NewClient] with the producer's options: nil or its error. *)
Definition NewPublisher (new_client : list string -> option error) (cfg : KafkaConfig) : result error Publisher :=
  if bool_decide (Brokers cfg = []) then Err (ErrorString "kafka: no broker configured")
  else
    match new_client (Brokers cfg) with
    | Some err => Err (Errorf_w "kafka: new producer: " err)
    | None => Ok {| sent := []; inflight := []; consecutiveFailures := 0; lastFailure := None;
                    lastFailureAt := zero_Time |}
    end.

Definition Produce (rec : ProducerRecord) (p : Publisher) : Publisher :=
  {| sent := sent p ++ [rec]; inflight := inflight p ++ [rec];
     consecutiveFailures := consecutiveFailures p; lastFailure := lastFailure p;
     lastFailureAt := lastFailureAt p |}.

Definition Publish (event : TradeEvent) (p : Publisher) : Publisher * option error :=
  match Marshal event with
  | Err err => (p, Some (Errorf_w "marshal trade event: " err))
  | Ok payload =>
      (Produce {| rec_Topic := TopicTradesRaw; rec_Key := Symbol event; rec_Value := payload;
                  rec_Timestamp := EventTime event |} p, None)
  end.

(** [now] is the clock in the critical section. *)
Definition onDelivery (err : option error) (now : Time) (p : Publisher) : Publisher :=
  match err with
  | None =>
      {| sent := sent p; inflight := inflight p; consecutiveFailures := 0;
         lastFailure := lastFailure p; lastFailureAt := lastFailureAt p |}
  | Some _ =>
      {| sent := sent p; inflight := inflight p; consecutiveFailures := wrap64 (consecutiveFailures p + 1);
         lastFailure := err; lastFailureAt := now |}
  end.

(** The two halves of a failed promise: the counter is raised before the lock is taken. *)
Definition onDelivery_counted (p : Publisher) : Publisher :=
  {| sent := sent p; inflight := inflight p; consecutiveFailures := wrap64 (consecutiveFailures p + 1);
     lastFailure := lastFailure p; lastFailureAt := lastFailureAt p |}.
Definition onDelivery_recorded (err : error) (now : Time) (p : Publisher) : Publisher :=
  {| sent := sent p; inflight := inflight p; consecutiveFailures := consecutiveFailures p;
     lastFailure := Some err; lastFailureAt := now |}.

(** The client finishes its [i]-th record in flight and runs the promise. *)
Definition deliver (i : nat) (err : option error) (now : Time) (p : Publisher) : option Publisher :=
  match inflight p !! i with
  | None => None
  | Some _ =>
      Some (onDelivery err now
        {| sent := sent p; inflight := delete i (inflight p); consecutiveFailures := consecutiveFailures p;
           lastFailure := lastFailure p; lastFailureAt := lastFailureAt p |})
  end.

(** Promises that run, in order: the record in flight, its error and the time. *)
Definition finished : Type := list (nat * option error * Time).
Fixpoint finish (ds : finished) (p : Publisher) : option Publisher :=
  match ds with
  | [] => Some p
  | (i, err, now) :: ds' => p' ← deliver i err now p; finish ds' p'
  end.

(** The client's [Flush], with the promises that run while it waits, the time that takes and its error,
    and its [Close], with the promises that run then. *)
Class ProducerClient := {
  Flush : Z -> Publisher -> finished * Z * option error;
  CloseClient : Publisher -> finished;
}.
(** Flush waits until nothing is in flight and returns nil, or until its context ends and returns an error;
    Close fails what is still in flight. *)
Class ProducerClientLaws `{ProducerClient} := {
  flush_law : forall timeout p ds elapsed err, Flush timeout p = (ds, elapsed, err) ->
    exists p', finish ds p = Some p' /\ match err with None => inflight p' = [] | Some _ => timeout <= elapsed end;
  close_law : forall p, Forall (fun d => d.1.2 <> None) (CloseClient p) /\
    exists p', finish (CloseClient p) p = Some p' /\ inflight p' = [];
}.

Definition flushTimeout : Z := 5 * Second.
(** The second result says whether the flush failed, which is logged. *)
Definition Publisher_Close `{ProducerClient} (p : Publisher) : option (Publisher * bool) :=
  let '(ds, _, err) := Flush flushTimeout p in
  p ← finish ds p;
  p ← finish (CloseClient p) p;
  Some (p, bool_decide (err <> None)).

Definition Publisher_Name : string := "kafka_producer".

Definition deliveryStatus (now : Time) (p : Publisher) : option error :=
  let n := consecutiveFailures p in
  if n =? 0 then None
  else
    let prefix := ("last " ++ pretty n ++ " deliveries failed, most recent " ++
                   Duration_String (Duration_Round (Sub now (lastFailureAt p)) Second) ++ " ago: ")%string in
    match lastFailure p with
    | Some err => Some (Errorf_w prefix err)
    | None => Some (ErrorString (prefix ++ "%!w(<nil>)"))
    end.

Definition Publisher_Check (ping : Context -> option error) (ctx : Context) (now : Time) (p : Publisher) :
  option error :=
  match ping ctx with
  | Some err => Some (Errorf_w "kafka ping: " err)
  | None => deliveryStatus now p
  end.

Lemma finish_counts ds p p' :
  finish ds p = Some p' -> sent p' = sent p /\ (length (inflight p') + length ds = length (inflight p))%nat.
Proof.
  revert p. induction ds as [|[[i err] now] ds IH]; intros p Hf; [injection Hf as ->; cbn; auto with lia|].
  cbn [finish] in Hf. unfold deliver in Hf. destruct (inflight p !! i) as [rec|] eqn:Hi; [|done].
  cbn [mbind option_bind] in Hf. destruct (IH _ Hf) as [Hs Hl]. clear IH Hf.
  pose proof (length_delete (inflight p) i ltac:(by eexists)) as Hd. pose proof (lookup_lt_Some _ _ _ Hi) as Hlt.
  destruct err; cbn [onDelivery sent inflight length] in *; (split; [done|lia]).
Qed.

(** Two clients: one that delivers at once, and one whose broker is gone. *)
Lemma finish_all err now p : exists p', finish (repeat (0%nat, err, now) (length (inflight p))) p = Some p' /\ inflight p' = [].
Proof.
  remember (inflight p) as l eqn:Hl. revert p Hl. induction l as [|rec l IH]; intros p Hl; [by exists p|].
  cbn [length repeat finish]. unfold deliver at 1. rewrite <- Hl. cbn [lookup list_lookup mbind option_bind].
  apply IH. by destruct err.
Qed.
Definition producer_closed : error := ErrorString "client closed".
Definition prompt_client : ProducerClient := {|
  Flush _ p := (repeat (0%nat, None, zero_Time) (length (inflight p)), 0, None);
  CloseClient p := repeat (0%nat, Some producer_closed, zero_Time) (length (inflight p))
|}.
Definition dead_client : ProducerClient := {|
  Flush timeout p := ([], timeout, Some (Sentinel ContextDeadlineExceeded));
  CloseClient p := repeat (0%nat, Some producer_closed, zero_Time) (length (inflight p))
|}.
Lemma prompt_client_laws : @ProducerClientLaws prompt_client.
Proof.
  split.
  - intros timeout p ds elapsed err [= <- _ <-]. apply finish_all.
  - intros p. split; [|apply finish_all]. apply Forall_forall. by intros d ->%list_elem_of_In%repeat_spec.
Qed.
Lemma dead_client_laws : @ProducerClientLaws dead_client.
Proof.
  split.
  - intros timeout p ds elapsed err [= <- <- <-]. exists p. split; [done|lia].
  - intros p. split; [|apply finish_all]. apply Forall_forall. by intros d ->%list_elem_of_In%repeat_spec.
Qed.

(** ** The history of promises *)

Definition promises : Type := list (option error * Time).
Definition delivery_failed (d : option error * Time) : bool := match d.1 with Some _ => true | None => false end.
Definition run_promises (ds : promises) (p : Publisher) : Publisher :=
  fold_left (fun p d => onDelivery d.1 d.2 p) ds p.

Record delivery_inv (ds : promises) (p : Publisher) : Prop := {
  di_failures : consecutiveFailures p = wrap64 (Z.of_nat (trailing delivery_failed ds));
  di_last : trailing delivery_failed ds <> 0%nat ->
            exists err t, last ds = Some (Some err, t) /\ lastFailure p = Some err /\ lastFailureAt p = t;
}.

Lemma onDelivery_inv ds p err now :
  delivery_inv ds p -> delivery_inv (ds ++ [(err, now)]) (onDelivery err now p).
Proof.
  intros [Hf Hl]. split.
  - rewrite trailing_snoc. destruct err as [err|]; cbn [delivery_failed fst onDelivery consecutiveFailures]; [|done].
    rewrite Hf, wrap64_add_l. f_equal. lia.
  - rewrite trailing_snoc, last_snoc. destruct err as [err|]; cbn [delivery_failed fst]; [|done].
    intros _. by exists err, now.
Qed.

Lemma Publish_spec event p :
  match Marshal event with
  | Ok payload =>
      exists rec, rec_Topic rec = TopicTradesRaw /\ rec_Key rec = Symbol event /\ rec_Value rec = payload /\
        rec_Timestamp rec = EventTime event /\ Publish event p = (Produce rec p, None)
  | Err err => Publish event p = (p, Some (Errorf_w "marshal trade event: " err))
  end.
Proof. unfold Publish. destruct (Marshal event); [|done]. eexists. split_and!; [..|reflexivity]; done. Qed.

(** Publishing and finishing a record leave the delivery state alone. *)
Lemma Publish_delivery ds event p : delivery_inv ds p -> delivery_inv ds (Publish event p).1.
Proof. intros [Hf Hl]. unfold Publish. by destruct (Marshal event). Qed.

Lemma deliver_inv ds i err now p p' :
  delivery_inv ds p -> deliver i err now p = Some p' -> delivery_inv (ds ++ [(err, now)]) p'.
Proof.
  intros Hi. unfold deliver. destruct (inflight p !! i); [|done]. intros [= <-]. apply onDelivery_inv.
  by destruct Hi.
Qed.

(** The verdict of the delivery status, from the history of the promises. *)
Lemma deliveryStatus_history ds now p :
  delivery_inv ds p -> Z.of_nat (length ds) < 2 ^ 63 ->
  match deliveryStatus now p with
  | None => trailing delivery_failed ds = 0%nat
  | Some e => exists err t, last ds = Some (Some err, t) /\
      e = Errorf_w ("last " ++ pretty (Z.of_nat (trailing delivery_failed ds)) ++
                    " deliveries failed, most recent " ++
                    Duration_String (Duration_Round (Sub now t) Second) ++ " ago: ") err
  end.
Proof.
  intros [Hf Hl] Hlen. pose proof (trailing_le delivery_failed ds) as Hle.
  assert (consecutiveFailures p = Z.of_nat (trailing delivery_failed ds)) as Hn.
  { rewrite Hf. apply wrap64_id. int64_lia. }
  unfold deliveryStatus. rewrite Hn. destruct (Z.eqb_spec (Z.of_nat (trailing delivery_failed ds)) 0) as [|Hne]; [lia|].
  destruct Hl as (err & t & Hlast & -> & ->); [lia|]. by exists err, t.
Qed.

(** A health check between the two halves of the first failed promise reports a failure without a
    cause, and one between those of a later failure the cause and the age of the one before. *)
Theorem onDelivery_torn (p : Publisher) (err : error) (now : Time) :
  onDelivery (Some err) now p = onDelivery_recorded err now (onDelivery_counted p) /\
  (consecutiveFailures p = 0 -> lastFailure p = None ->
   exists text, deliveryStatus now (onDelivery_counted p) = Some (ErrorString (text ++ "%!w(<nil>)"))) /\
  (forall old, 0 <= consecutiveFailures p < 2 ^ 63 - 1 -> lastFailure p = Some old ->
   exists text, deliveryStatus now (onDelivery_counted p) = Some (Errorf_w text old)).
Proof.
  split; [done|]. unfold deliveryStatus, onDelivery_counted. cbn [consecutiveFailures lastFailure lastFailureAt]. split.
  - intros -> ->. change (wrap64 (0 + 1) =? 0) with false. by eexists.
  - intros old Hn ->. rewrite wrap64_id by int64_lia.
    destruct (Z.eqb_spec (consecutiveFailures p + 1) 0); [lia|]. by eexists.
Qed.
