(* ===== verification/Ingestion.v ===== *)
(** * ingestion-service: symbols, WebSocket workers and their health (service.go, worker.go,
    reconnect.go, health.go)

    The service is a transition system: one worker per symbol, each of them [runSymbol] inside the
    reconnect loop, over the shared connection map and the shared publisher.  [ingest_exec] makes
    one step; the socket, the clock, the random source and the order of the steps are labels. *)
From S2P Require Import Prelude GoBase Config Decimal Float64 Json GoTime Domain Wire Normalizer Runtime Retry Handlers Publisher.
#[local] Open Scope Z_scope.

(** ** service.go: the symbols *)

Section Symbols.
Context `{Unicode}.

Definition stream_name (s : string) : string := ToLower (TrimSpace s).

(** The loop, with the set of names seen. *)
Fixpoint normalize_loop (seen : gset string) (syms : list string) : list string :=
  match syms with
  | [] => []
  | s :: syms' =>
      let sym := stream_name s in
      if bool_decide (sym = ""%string) then normalize_loop seen syms'
      else if bool_decide (sym ∈ seen) then normalize_loop seen syms'
      else sym :: normalize_loop ({[sym]} ∪ seen) syms'
  end.
Definition normalizeSymbols (syms : list string) : list string := normalize_loop ∅ syms.
End Symbols.

(** ** health.go *)

Record wsHealth := { connected : gmap string bool }.
Definition newWSHealth (symbols : list string) : wsHealth :=
  {| connected := fold_left (fun m sym => <[sym := false]> m) symbols ∅ |}.
Definition wsHealth_Name : string := "websocket".
Definition setConnected (symbol : string) (b : bool) (h : wsHealth) : wsHealth :=
  {| connected := <[symbol := b]> (connected h) |}.

(** [range] is the order in which Go iterates over the map. *)
Definition disconnected (range : gmap string bool -> list (string * bool)) (h : wsHealth) : list string :=
  omap (fun kv : string * bool => if kv.2 then None else Some kv.1) (range (connected h)).
Definition wsHealth_Check (range : gmap string bool -> list (string * bool)) (h : wsHealth) : option error :=
  let down := disconnected range h in
  if bool_decide (down = []) then None
  else Some (ErrorString ("disconnected " ++ fmt_strings (merge_sort String.le down))).

(** ** worker.go and reconnect.go *)

(** Where the goroutine of a symbol is: dialling, in its read loop, back from [runSymbol] with a
    result, waiting for its delay, or returned. *)
Inductive link :=
  | Dialing (b : Backoff)
  | Reading (b : Backoff)
  | Dropped (b : Backoff) (result : option error)
  | Waiting (b : Backoff) (delay : Z)
  | Ended (result : option error).

Record ingest := {
  i_ctx : option error;              (** the error of the group's context *)
  i_ws : wsHealth;
  i_links : list (string * link);    (** one per goroutine *)
  i_pub : Publisher;
}.
Definition ingest_init (symbols : list string) (p : Publisher) : ingest :=
  {| i_ctx := None; i_ws := newWSHealth symbols;
     i_links := map (fun sym => (sym, Dialing NewBackoff)) symbols; i_pub := p |}.
Definition set_link (i : nat) (sym : string) (l : link) (s : ingest) : ingest :=
  {| i_ctx := i_ctx s; i_ws := i_ws s; i_links := <[i := (sym, l)]> (i_links s); i_pub := i_pub s |}.
Definition set_ws (h : wsHealth) (s : ingest) : ingest :=
  {| i_ctx := i_ctx s; i_ws := h; i_links := i_links s; i_pub := i_pub s |}.
Definition set_pub (p : Publisher) (s : ingest) : ingest :=
  {| i_ctx := i_ctx s; i_ws := i_ws s; i_links := i_links s; i_pub := p |}.

Inductive ingest_label :=
  | DialFailed (i : nat) (err : error)
  | DialOk (i : nat)
  | Message (i : nat) (raw : bytes) (now : Time)
  | ReadFailed (i : nat) (err : error)
  | Retried (i : nat) (uptime seed : Z)
  | TimerFired (i : nat)
  | WaitCancelled (i : nat)
  | Delivered (n : nat) (err : option error) (now : Time)
  | CtxDone (err : error).

Section Ingestion.
Context `{Unicode}.

(** One message: malformed ones and failed publishes are logged and skipped. *)
Definition handle_message (raw : bytes) (now : Time) (p : Publisher) : Publisher :=
  match normalizeTrade raw (UTC now) with
  | Err _ => p
  | Ok event => (Publish event p).1
  end.

(** What [runSymbol] does up to its next blocking point. *)
Definition dial_failed (i : nat) (sym : string) (b : Backoff) (err : error) (s : ingest) : ingest :=
  set_link i sym (Dropped b (Some (Errorf_w ("dial " ++ sym ++ ": ") err))) s.
Definition dial_ok (i : nat) (sym : string) (b : Backoff) (s : ingest) : ingest :=
  set_ws (setConnected sym true (i_ws s)) (set_link i sym (Reading b) s).
Definition read_failed (i : nat) (sym : string) (b : Backoff) (err : error) (s : ingest) : ingest :=
  let result := match i_ctx s with
                | Some _ => None
                | None => Some (Errorf_w ("read " ++ sym ++ ": ") err)
                end in
  set_ws (setConnected sym false (i_ws s)) (set_link i sym (Dropped b result) s).

(** [WithBackoff] after [work] has returned; [None] is a panic of the random source. *)
Definition retry_link (uptime seed : Z) (b : Backoff) (s : ingest) : option link :=
  match i_ctx s with
  | Some _ => Some (Ended None)
  | None =>
      match Next seed (Observe uptime b) with
      | Some (delay, b') => Some (Waiting b' delay)
      | None => None
      end
  end.

Definition ingest_exec (l : ingest_label) (s : ingest) : option ingest :=
  match l with
  | DialFailed i err =>
      match i_links s !! i with Some (sym, Dialing b) => Some (dial_failed i sym b err s) | _ => None end
  | DialOk i =>
      match i_links s !! i with Some (sym, Dialing b) => Some (dial_ok i sym b s) | _ => None end
  | Message i raw now =>
      match i_links s !! i with
      | Some (_, Reading _) => Some (set_pub (handle_message raw now (i_pub s)) s)
      | _ => None
      end
  | ReadFailed i err =>
      match i_links s !! i with Some (sym, Reading b) => Some (read_failed i sym b err s) | _ => None end
  | Retried i uptime seed =>
      match i_links s !! i with
      | Some (sym, Dropped b _) => k ← retry_link uptime seed b s; Some (set_link i sym k s)
      | _ => None
      end
  | TimerFired i =>
      match i_links s !! i with
      | Some (sym, Waiting b _) => Some (set_link i sym (Dialing b) s)
      | _ => None
      end
  | WaitCancelled i =>
      match i_links s !! i, i_ctx s with
      | Some (sym, Waiting _ _), Some _ => Some (set_link i sym (Ended None) s)
      | _, _ => None
      end
  | Delivered n err now => p ← deliver n err now (i_pub s); Some (set_pub p s)
  | CtxDone err =>
      match i_ctx s with
      | None => Some {| i_ctx := Some err; i_ws := i_ws s; i_links := i_links s; i_pub := i_pub s |}
      | Some _ => None
      end
  end.
Definition ingest_step (s : ingest) (l : ingest_label) (s' : ingest) : Prop := ingest_exec l s = Some s'.

(** ** service.go: [New] and [Run] *)

Definition ingest_setup (new_client : list string -> option error) (cfg : Config) : result error ingest :=
  let symbols := normalizeSymbols (Symbols (Ingestion cfg)) in
  if bool_decide (symbols = []) then Err (ErrorString "ingestion: no symbols configured")
  else
    match NewPublisher new_client (Kafka cfg) with
    | Err err => Err (Errorf_w "kafka publisher: " err)
    | Ok p => Ok (ingest_init symbols p)
    end.

(** [Wait] returns when every goroutine has. *)
Definition link_result (l : link) : option (option error) :=
  match l with Ended r => Some r | _ => None end.
Definition ingest_return `{Errgroup} (s : ingest) : option (option error) :=
  rs ← mapM (fun sl => link_result sl.2) (i_links s); Some (group_Wait rs).
End Ingestion.
