(* ===== verification/IngestionFacts.v ===== *)
(** * ingestion-service: what the workers keep true

    [ingest_inv] ties the connection map to the workers, [ingest_history] what was published and
    delivered to the steps that were taken.  Both hold in every reachable state. *)
From S2P Require Import Prelude GoBase Config Decimal Float64 Json GoTime Domain Wire Normalizer Runtime Retry Handlers Publisher Ingestion.
#[local] Open Scope Z_scope.

(** ** The symbols *)

Section Symbols.
Context `{Unicode}.

Definition nonempty (s : string) : Prop := s <> ""%string.
#[export] Instance nonempty_dec s : Decision (nonempty s).
Proof. unfold nonempty. apply _. Defined.

Lemma normalize_loop_nub seen syms :
  normalize_loop seen syms = filter (fun s => s ∉ seen) (nub (filter nonempty (map stream_name syms))).
Proof.
  revert seen. induction syms as [|s syms IH]; intros seen; [done|]. cbn [normalize_loop map].
  case_bool_decide as He; [rewrite filter_cons_False by (by intros Hn); apply IH|].
  rewrite filter_cons_True by done. cbn [nub].
  case_bool_decide as Hs.
  - rewrite filter_cons_False by (intros Hn; by apply Hn). rewrite IH, list_filter_filter.
    apply list_filter_iff. intros x. split; [|by intros []]. intros Hx. split; [done|]. by intros ->.
  - rewrite filter_cons_True by done. f_equal. rewrite IH, list_filter_filter.
    apply list_filter_iff. intros x. rewrite elem_of_union, elem_of_singleton. tauto.
Qed.

Lemma normalizeSymbols_nub syms :
  normalizeSymbols syms = nub (filter nonempty (map stream_name syms)).
Proof.
  unfold normalizeSymbols. rewrite normalize_loop_nub.
  induction (nub _) as [|x l IH]; [done|]. rewrite filter_cons_True by (by intros ?%elem_of_empty). by rewrite IH.
Qed.
End Symbols.

(** ** The connection map *)

Definition is_reading (l : link) : bool := match l with Reading _ => true | _ => false end.

Record ingest_inv (symbols : list string) (s : ingest) : Prop := {
  inv_names : map fst (i_links s) = symbols;
  inv_status : forall i sym l, i_links s !! i = Some (sym, l) ->
               connected (i_ws s) !! sym = Some (is_reading l);
  inv_dom : forall sym b, connected (i_ws s) !! sym = Some b -> sym ∈ symbols;
}.

Lemma newWSHealth_lookup symbols sym :
  connected (newWSHealth symbols) !! sym = if decide (sym ∈ symbols) then Some false else None.
Proof.
  cbn. induction symbols as [|x symbols IH] using rev_ind.
  { rewrite decide_False by apply not_elem_of_nil. apply lookup_empty. }
  rewrite fold_left_app. cbn [fold_left]. rewrite lookup_insert. destruct (decide (x = sym)) as [->|Hne].
  - rewrite decide_True; [done|]. apply elem_of_app. right. left.
  - rewrite IH. assert (sym ∈ symbols ++ [x] <-> sym ∈ symbols) as Hin.
    { rewrite elem_of_app, list_elem_of_singleton.
      split; [intros [?|?]; [done|congruence]|by left]. }
    destruct (decide (sym ∈ symbols)), (decide (sym ∈ symbols ++ [x])); tauto.
Qed.

Lemma ingest_inv_init symbols p : ingest_inv symbols (ingest_init symbols p).
Proof.
  split.
  - cbn. rewrite map_map. cbn. apply map_id.
  - intros i sym l. cbn [ingest_init i_links i_ws]. rewrite list_lookup_fmap.
    destruct (symbols !! i) as [x|] eqn:Hi; [|done]. intros [= <- <-].
    rewrite newWSHealth_lookup, decide_True; [done|]. by eapply list_elem_of_lookup_2.
  - intros sym b. cbn [ingest_init i_ws]. rewrite newWSHealth_lookup. by case_decide.
Qed.

Section Invariant.
Context (symbols : list string) (Hnd : NoDup symbols).

Lemma link_unique s i j sym l l' :
  ingest_inv symbols s -> i_links s !! i = Some (sym, l) -> i_links s !! j = Some (sym, l') -> i = j.
Proof.
  intros [Hn _ _] Hi Hj. apply (NoDup_lookup symbols i j sym); [done|..];
    rewrite <- Hn, list_lookup_fmap; [by rewrite Hi|by rewrite Hj].
Qed.

Lemma set_link_names s i sym l l' :
  i_links s !! i = Some (sym, l) -> map fst (i_links (set_link i sym l' s)) = map fst (i_links s).
Proof.
  intros Hi. cbn [set_link i_links]. change (map fst) with (fmap (M := list) (@fst string link)).
  rewrite list_fmap_insert. apply list_insert_id. rewrite list_lookup_fmap. by rewrite Hi.
Qed.

(** A worker moves, and the map is told if it entered or left its read loop. *)
Lemma ingest_inv_link s i sym l l' :
  ingest_inv symbols s -> i_links s !! i = Some (sym, l) ->
  ingest_inv symbols (set_ws (setConnected sym (is_reading l') (i_ws s)) (set_link i sym l' s)).
Proof.
  intros Hinv Hi. pose proof Hinv as [Hn Hst Hdom]. split.
  - cbn [set_ws i_links]. by rewrite set_link_names with (l := l).
  - intros j sym' l0. cbn [set_ws set_link i_links i_ws setConnected connected].
    destruct (decide (i = j)) as [<-|Hne].
    + rewrite list_lookup_insert_eq by (by eapply lookup_lt_Some). intros [= <- <-].
      by rewrite lookup_insert_eq.
    + rewrite list_lookup_insert_ne by done. intros Hj. rewrite lookup_insert_ne; [by eapply Hst|].
      intros <-. apply Hne. by eapply link_unique.
  - intros sym' b. cbn [set_ws i_ws setConnected connected]. rewrite lookup_insert. case_decide as Hs; [|by apply Hdom].
    intros _. subst sym'. rewrite <- Hn. apply list_elem_of_lookup. exists i. by rewrite list_lookup_fmap, Hi.
Qed.

Lemma ingest_inv_same s i sym l l' :
  ingest_inv symbols s -> i_links s !! i = Some (sym, l) -> is_reading l' = is_reading l ->
  ingest_inv symbols (set_link i sym l' s).
Proof.
  intros Hinv Hi Hr. destruct (ingest_inv_link s i sym l l' Hinv Hi) as [H1 H2 H3].
  assert (setConnected sym (is_reading l') (i_ws s) = i_ws s) as He.
  { unfold setConnected. rewrite Hr, insert_id by (by eapply inv_status). by destruct (i_ws s). }
  rewrite He in *. by split.
Qed.

Lemma ingest_inv_frame s s' :
  ingest_inv symbols s -> i_links s' = i_links s -> i_ws s' = i_ws s -> ingest_inv symbols s'.
Proof. intros [H1 H2 H3] Hl Hw. split; rewrite ?Hl, ?Hw; done. Qed.

Section Steps.
Context `{Unicode}.

Lemma ingest_inv_step s l s' : ingest_inv symbols s -> ingest_step s l s' -> ingest_inv symbols s'.
Proof.
  intros Hinv Hstep. unfold ingest_step in Hstep. destruct l as [i err|i|i raw now|i err|i up seed|i|i|n err now|err];
    cbn [ingest_exec] in Hstep;
    try (destruct (i_links s !! i) as [[sym []]|] eqn:Hi; try discriminate Hstep).
  - injection Hstep as <-. by eapply ingest_inv_same.
  - injection Hstep as <-. by apply (ingest_inv_link s i sym _ (Reading b) Hinv Hi).
  - injection Hstep as <-. by apply (ingest_inv_frame s).
  - injection Hstep as <-. unfold read_failed. set (result := match i_ctx s with Some _ => None | None => _ end).
    by apply (ingest_inv_link s i sym _ (Dropped b result) Hinv Hi).
  - unfold retry_link in Hstep. destruct (i_ctx s); [|destruct (Next seed (Observe up b)) as [[d b']|]; [|done]];
      injection Hstep as <-; by eapply ingest_inv_same.
  - injection Hstep as <-. by eapply ingest_inv_same.
  - destruct (i_ctx s); [|done]. injection Hstep as <-. by eapply ingest_inv_same.
  - destruct (deliver n err now (i_pub s)) as [p|]; [|done]. injection Hstep as <-. by apply (ingest_inv_frame s).
  - destruct (i_ctx s); [done|]. injection Hstep as <-. by apply (ingest_inv_frame s).
Qed.
End Steps.
End Invariant.

(** ** What was published and delivered *)

Definition messages (ls : list ingest_label) : list (bytes * Time) :=
  omap (fun l => match l with Message _ raw now => Some (raw, now) | _ => None end) ls.
Definition deliveries (ls : list ingest_label) : promises :=
  omap (fun l => match l with Delivered _ err now => Some (err, now) | _ => None end) ls.

Section History.
Context `{Unicode}.

(** The record that a message turns into, if it is a valid trade that can be encoded. *)
Definition outgoing (m : bytes * Time) : option ProducerRecord :=
  match normalizeTrade m.1 (UTC m.2) with
  | Err _ => None
  | Ok ev =>
      match Marshal ev with
      | Err _ => None
      | Ok payload =>
          Some {| rec_Topic := TopicTradesRaw; rec_Key := Symbol ev; rec_Value := payload;
                  rec_Timestamp := EventTime ev |}
      end
  end.

Record ingest_history (ls : list ingest_label) (s : ingest) : Prop := {
  hist_sent : sent (i_pub s) = omap outgoing (messages ls);
  hist_inflight : (length (inflight (i_pub s)) + length (deliveries ls) = length (sent (i_pub s)))%nat;
  hist_delivery : delivery_inv (deliveries ls) (i_pub s);
}.

Lemma handle_message_spec raw now p :
  handle_message raw now p = match outgoing (raw, now) with Some rec => Produce rec p | None => p end.
Proof.
  unfold handle_message, outgoing, Publish. cbn [fst snd]. destruct (normalizeTrade raw (UTC now)); [|done].
  by destruct (Marshal a).
Qed.

(** Steps that neither read a message nor finish a record leave the publisher alone. *)
Lemma ingest_pub_step s l s' :
  ingest_step s l s' ->
  match l with
  | Message _ raw now => i_pub s' = handle_message raw now (i_pub s)
  | Delivered n err now => deliver n err now (i_pub s) = Some (i_pub s')
  | _ => i_pub s' = i_pub s
  end.
Proof.
  intros Hstep. unfold ingest_step in Hstep. destruct l as [i err|i|i raw now|i err|i up seed|i|i|n err now|err];
    cbn [ingest_exec] in Hstep;
    try (destruct (i_links s !! i) as [[sym []]|]; try discriminate Hstep).
  - by injection Hstep as <-.
  - by injection Hstep as <-.
  - by injection Hstep as <-.
  - by injection Hstep as <-.
  - destruct (retry_link up seed b s); [|done]. by injection Hstep as <-.
  - by injection Hstep as <-.
  - destruct (i_ctx s); [|done]. by injection Hstep as <-.
  - destruct (deliver n err now (i_pub s)); [|done]. by injection Hstep as <-.
  - destruct (i_ctx s); [done|]. by injection Hstep as <-.
Qed.

Lemma ingest_history_init symbols p :
  sent p = [] -> inflight p = [] -> consecutiveFailures p = 0 -> ingest_history [] (ingest_init symbols p).
Proof.
  intros Hs Hi Hf. split; cbn [ingest_init i_pub messages deliveries omap list_omap];
    [done|by rewrite Hs, Hi|]. split; [by rewrite Hf|done].
Qed.

Lemma ingest_history_step ls s l s' : ingest_history ls s -> ingest_step s l s' -> ingest_history (ls ++ [l]) s'.
Proof.
  intros [Hs Hi Hd] Hstep%ingest_pub_step.
  assert (messages (ls ++ [l]) = messages ls ++ messages [l]) as Hm by apply omap_app.
  assert (deliveries (ls ++ [l]) = deliveries ls ++ deliveries [l]) as Hdl by apply omap_app.
  destruct l as [i err|i|i raw now|i err|i up seed|i|i|n err now|err];
    cbn [messages deliveries omap list_omap] in Hm, Hdl;
    try (split; rewrite Hstep, ?Hm, ?Hdl, ?app_nil_r; done).
  - rewrite handle_message_spec in Hstep. destruct (outgoing (raw, now)) as [rec|] eqn:Ho; split;
      rewrite Hstep, ?Hm, ?Hdl, ?app_nil_r; cbn [Produce sent inflight]; try done.
    + rewrite omap_app, Hs. cbn [omap list_omap]. by rewrite Ho.
    + rewrite !length_app. cbn [length]. lia.
    + by destruct Hd.
    + rewrite omap_app, Hs. cbn [omap list_omap]. by rewrite Ho, app_nil_r.
  - split; [| |rewrite Hdl; by eapply deliver_inv];
      unfold deliver in Hstep; destruct (inflight (i_pub s) !! n) as [rec|] eqn:Hn; try done;
      injection Hstep as <-; rewrite ?Hm, ?Hdl, ?app_nil_r.
    + by destruct err.
    + pose proof (lookup_lt_Some _ _ _ Hn). rewrite length_app. cbn [length].
      destruct err; cbn [onDelivery inflight sent]; rewrite length_delete by (by exists rec); lia.
Qed.

Lemma ingest_history_trace symbols new_client cfg p ls s :
  NewPublisher new_client cfg = Ok p -> trace ingest_step (ingest_init symbols p) ls s -> ingest_history ls s.
Proof.
  intros Hp Htr. eapply (trace_history ingest_step ingest_history); [|by apply ingest_history_step|exact Htr].
  unfold NewPublisher in Hp. case_bool_decide; [done|]. destruct (new_client (Brokers cfg)); [done|].
  injection Hp as <-. by apply ingest_history_init.
Qed.

Lemma deliveries_le ls : (length (deliveries ls) <= length ls)%nat.
Proof. unfold deliveries. induction ls as [|[] ls IH]; cbn; lia. Qed.

(** ** The workers *)

Definition link_ok (c : option error) (l : link) : Prop :=
  match l with
  | Dialing b | Reading b | Dropped b _ => backoff_inv b /\ Max b = DefaultMax
  | Waiting b d => backoff_inv b /\ Max b = DefaultMax /\ 0 <= d <= DefaultMax
  | Ended r => r = None /\ c <> None
  end.
Definition links_ok (s : ingest) : Prop := Forall (fun sl => link_ok (i_ctx s) sl.2) (i_links s).

Lemma links_ok_set s i sym l : links_ok s -> link_ok (i_ctx s) l -> links_ok (set_link i sym l s).
Proof. intros Hs Hl. unfold links_ok. cbn [set_link i_links i_ctx]. by apply Forall_insert. Qed.

(** A dropped worker always gets on: it ends with nil or waits a bounded delay. *)
Lemma retry_link_ok up seed b s :
  backoff_inv b -> Max b = DefaultMax -> exists l, retry_link up seed b s = Some l /\ link_ok (i_ctx s) l.
Proof.
  intros Hb HM. unfold retry_link. destruct (i_ctx s) as [err|] eqn:Hc; [by exists (Ended None)|].
  pose proof (Observe_inv up b Hb) as Hb'. destruct (Observe_params up b) as (_ & HM' & _).
  destruct Hb' as (Ho1 & Ho2 & Ho3). destruct (Next_total seed _ Ho1 Ho2) as (d & HN & _).
  rewrite HN. eexists. split; [done|].
  destruct (Next_inv _ _ _ _ (Observe_inv up b Hb) HN) as (Hinv & Hd & Heq).
  cbn [link_ok]. split; [done|]. split; [cbn; congruence|]. unfold ceiling in Hd. lia.
Qed.

Lemma links_ok_step s l s' : links_ok s -> ingest_step s l s' -> links_ok s'.
Proof.
  intros Hs Hstep. unfold ingest_step in Hstep. destruct l as [i err|i|i raw now|i err|i up seed|i|i|n err now|err];
    cbn [ingest_exec] in Hstep;
    try (destruct (i_links s !! i) as [[sym k]|] eqn:Hi; [|discriminate Hstep];
         pose proof (Forall_lookup_1 _ _ _ _ Hs Hi) as Hk; destruct k; try discriminate Hstep).
  - injection Hstep as <-. by apply links_ok_set.
  - injection Hstep as <-. by apply (links_ok_set s i sym (Reading b)).
  - by injection Hstep as <-.
  - injection Hstep as <-. by apply (links_ok_set s i sym (Dropped b _)).
  - destruct Hk as [Hb HM]. destruct (retry_link_ok up seed b s Hb HM) as (k & Hr & Hk). rewrite Hr in Hstep.
    injection Hstep as <-. by apply links_ok_set.
  - injection Hstep as <-. apply links_ok_set; [done|]. cbn [snd] in *. by destruct Hk as (? & ? & _).
  - destruct (i_ctx s) eqn:Hc; [|done]. injection Hstep as <-. apply links_ok_set; [done|]. by rewrite Hc.
  - destruct (deliver n err now (i_pub s)); [|done]. by injection Hstep as <-.
  - destruct (i_ctx s) eqn:Hc; [done|]. injection Hstep as <-. unfold links_ok in *. cbn [i_links i_ctx].
    eapply Forall_impl; [exact Hs|]. intros [sym k]. rewrite Hc. cbn [snd]. destruct k; cbn [link_ok]; intuition congruence.
Qed.
End History.

(** ** The health check *)

Definition down_symbols (s : ingest) : list string :=
  omap (fun sl : string * link => if is_reading sl.2 then None else Some sl.1) (i_links s).

Lemma ws_map_links symbols s :
  NoDup symbols -> ingest_inv symbols s ->
  map_to_list (connected (i_ws s)) ≡ₚ map (fun sl => (sl.1, is_reading sl.2)) (i_links s).
Proof.
  intros Hnd [Hn Hst Hdom]. apply NoDup_Permutation.
  - apply NoDup_map_to_list.
  - apply (NoDup_fmap_1 fst). change (fmap fst) with (map (@fst string bool)). rewrite map_map. cbn.
    change (fun x => x.1) with (@fst string link). by rewrite Hn.
  - intros [sym b]. rewrite elem_of_map_to_list. split.
    + intros Hb. pose proof (Hdom _ _ Hb) as Hin. rewrite <- Hn in Hin.
      apply list_elem_of_In, in_map_iff in Hin as ([sym' l] & Heq & Hin%list_elem_of_In). cbn in Heq. subst sym'.
      apply list_elem_of_lookup in Hin as [i Hi]. rewrite (Hst _ _ _ Hi) in Hb. injection Hb as <-.
      apply list_elem_of_In, in_map_iff. exists (sym, l). split; [done|].
      apply list_elem_of_In. by eapply list_elem_of_lookup_2.
    + intros Hin. apply list_elem_of_In, in_map_iff in Hin as ([sym' l] & [= <- <-] & Hin%list_elem_of_In).
      apply list_elem_of_lookup in Hin as [i Hi]. by eapply Hst.
Qed.

Lemma disconnected_down symbols s range :
  NoDup symbols -> ingest_inv symbols s -> (forall m, range m ≡ₚ map_to_list m) ->
  disconnected range (i_ws s) ≡ₚ down_symbols s.
Proof.
  intros Hnd Hinv Hrange. unfold disconnected, down_symbols.
  rewrite Hrange, (ws_map_links symbols s Hnd Hinv).
  induction (i_links s) as [|[sym l] ls IH]; [done|]. cbn. destruct (is_reading l); cbn; [done|by constructor].
Qed.

(** ** Properties *)

Section Properties.
Context `{Unicode}.

(** C36: the readiness of the WebSocket workers: from the configured symbols, deduplicated after trimming
    and lowering them, in every reachable state and whatever the order of Go's map iteration, the
    check passes exactly if every worker is in its read loop, and otherwise names, each once and
    in order, exactly the symbols whose worker is not. *)
Theorem Ingestion_health_tracks (range : gmap string bool -> list (string * bool)) (syms : list string)
    (p : Publisher) (ls : list ingest_label) (s : ingest) :
  (forall m, range m ≡ₚ map_to_list m) ->
  trace ingest_step (ingest_init (normalizeSymbols syms) p) ls s ->
  map fst (i_links s) = nub (filter nonempty (map stream_name syms)) /\
  NoDup (down_symbols s) /\
  (forall sym, sym ∈ down_symbols s <-> exists l, (sym, l) ∈ i_links s /\ is_reading l = false) /\
  wsHealth_Check range (i_ws s) =
    if bool_decide (down_symbols s = []) then None
    else Some (ErrorString ("disconnected " ++ fmt_strings (merge_sort String.le (down_symbols s)))).
Proof.
  intros Hrange Htr. rewrite normalizeSymbols_nub in Htr. set (symbols := nub _) in *.
  assert (NoDup symbols) as Hnd by apply NoDup_nub.
  assert (ingest_inv symbols s) as Hinv.
  { eapply (trace_invariant ingest_step (ingest_inv symbols)); [by apply ingest_inv_step|exact Htr|].
    apply ingest_inv_init. }
  pose proof (disconnected_down symbols s range Hnd Hinv Hrange) as Hd.
  split; [apply Hinv|]. split; [|split].
  - assert (NoDup (map fst (i_links s))) as Hm by (by rewrite (inv_names _ _ Hinv)).
    unfold down_symbols. clear -Hm. induction (i_links s) as [|[sym l] k IH]; [constructor|].
    cbn [map] in Hm. apply NoDup_cons in Hm as [Hx Hm]. cbn [omap list_omap fst snd].
    destruct (is_reading l); [by apply IH|]. constructor; [|by apply IH].
    intros ([sym' l'] & Hin & Hs)%list_elem_of_omap. cbn [fst snd] in *. apply Hx.
    destruct (is_reading l'); [done|]. injection Hs as <-.
    apply list_elem_of_In, in_map_iff. exists (sym', l'). split; [done|by apply list_elem_of_In].
  - intros sym. unfold down_symbols. rewrite list_elem_of_omap. split.
    + intros ([sym' l] & Hin & Hs). cbn [fst snd] in Hs. destruct (is_reading l) eqn:Hl; [done|].
      injection Hs as <-. by exists l.
    + intros (l & Hin & Hl). exists (sym, l). cbn [fst snd]. by rewrite Hl.
  - unfold wsHealth_Check. case_bool_decide as Hn; case_bool_decide as Hn'; [done| | |].
    + rewrite Hn in Hd. by apply Permutation_nil in Hd.
    + rewrite Hn' in Hd. by apply Permutation_sym, Permutation_nil in Hd.
    + do 4 f_equal. apply (Sorted_unique String.le); [apply Sorted_merge_sort; apply _..|].
      by rewrite !merge_sort_Permutation.
Qed.

(** C37: what reaches the client: after any execution the records handed to Kafka are, in the order in
    which the messages were read, one for every message that is a valid and encodable trade and
    none for any other, with the topic, the symbol as key, the JSON of the trade and its event
    time; each of them is in flight or was finished once, and the delivery status reports
    failure exactly while the latest promises failed, with their number and the last error.
    Closing the publisher, whatever its client does in accord with its documentation, leaves
    nothing in flight: every record has been finished once, and without the warning it was while
    the flush waited; with it, the flush has waited five seconds, and the rest has failed. *)
Theorem Ingestion_publishes `{ProducerClientLaws} (syms : list string) (new_client : list string -> option error) (cfg : KafkaConfig)
    (p : Publisher) (ls : list ingest_label) (s : ingest) (now : Time) :
  NewPublisher new_client cfg = Ok p ->
  trace ingest_step (ingest_init syms p) ls s -> Z.of_nat (length ls) < 2 ^ 63 ->
  sent (i_pub s) = omap outgoing (messages ls) /\
  (length (inflight (i_pub s)) + length (deliveries ls) = length (sent (i_pub s)))%nat /\
  match deliveryStatus now (i_pub s) with
  | None => trailing delivery_failed (deliveries ls) = 0%nat
  | Some e => exists err t, last (deliveries ls) = Some (Some err, t) /\
      e = Errorf_w ("last " ++ pretty (Z.of_nat (trailing delivery_failed (deliveries ls))) ++
                    " deliveries failed, most recent " ++
                    Duration_String (Duration_Round (Sub now t) Second) ++ " ago: ") err
  end /\
  forall ds elapsed err, Flush flushTimeout (i_pub s) = (ds, elapsed, err) ->
    exists p1 p', finish ds (i_pub s) = Some p1 /\ Publisher_Close (i_pub s) = Some (p', bool_decide (err <> None)) /\
      sent p' = sent (i_pub s) /\ inflight p' = [] /\
      (length (deliveries ls) + length ds + length (CloseClient p1) = length (sent p'))%nat /\
      Forall (fun d => d.1.2 <> None) (CloseClient p1) /\
      (err <> None -> 5 * Second <= elapsed) /\
      (err = None -> length (deliveries ls) + length ds = length (sent p'))%nat.
Proof.
  intros Hp Htr Hlen. destruct (ingest_history_trace _ _ _ _ _ _ Hp Htr) as [Hs Hi Hd].
  split; [done|]. split; [done|]. split.
  - apply deliveryStatus_history; [done|]. pose proof (deliveries_le ls). lia.
  - intros ds elapsed err Hflush. destruct (flush_law _ _ _ _ _ Hflush) as (p1 & Hp1 & Herr).
    destruct (close_law p1) as [Hfail (p' & Hp' & Hin)].
    pose proof (finish_counts _ _ _ Hp1) as [Hs1 Hl1]. pose proof (finish_counts _ _ _ Hp') as [Hs2 Hl2].
    rewrite Hin in Hl2. cbn [length] in Hl2. rewrite Hs1 in Hs2.
    exists p1, p'. unfold Publisher_Close. rewrite Hflush, Hp1. cbn [mbind option_bind]. rewrite Hp'.
    split_and!; try done; [rewrite Hs2; lia|by destruct err|].
    intros ->. rewrite Herr in Hl1. cbn [length] in Hl1. rewrite Hs2. lia.
Qed.

Lemma links_ok_trace syms p ls s : trace ingest_step (ingest_init syms p) ls s -> links_ok s.
Proof.
  intros Htr. eapply (trace_invariant ingest_step links_ok); [apply links_ok_step|exact Htr|].
  unfold links_ok. apply Forall_forall. intros sl Hin. cbn [ingest_init i_links] in Hin.
  apply list_elem_of_In, in_map_iff in Hin as (sym & <- & _). cbn. split; [apply NewBackoff_inv|done].
Qed.

Lemma Ingestion_returns_nil `{Errgroup} syms p ls s r :
  trace ingest_step (ingest_init syms p) ls s -> ingest_return s = Some r -> r = None.
Proof.
  intros Hok%links_ok_trace Hr. unfold ingest_return in Hr. destruct (mapM _ (i_links s)) as [rs|] eqn:Hm; [|done].
  injection Hr as <-. apply group_Wait_nil. apply mapM_Some_1 in Hm.
  unfold links_ok in Hok. induction Hm as [|[sym k] r links rs Hk _ IH]; [constructor|].
  inversion_clear Hok as [|? ? Hl Hls]. constructor; [|by apply IH].
  destruct k; try done. cbn in Hk. injection Hk as <-. apply Hl.
Qed.

(** C38: no worker ever fails: in every reachable state a worker that has returned did so with nil and
    after the context had ended, so the group as a whole can only return nil; a worker whose
    session is over always gets on, with a wait of at most thirty seconds, and never panics. *)
Theorem Ingestion_never_fails `{Errgroup} (syms : list string) (p : Publisher) (ls : list ingest_label)
    (s : ingest) :
  trace ingest_step (ingest_init syms p) ls s ->
  (forall sym r, (sym, Ended r) ∈ i_links s -> r = None /\ i_ctx s <> None) /\
  (forall r, ingest_return s = Some r -> r = None) /\
  (forall sym b d, (sym, Waiting b d) ∈ i_links s -> 0 <= d <= DefaultMax) /\
  (forall i sym b r up seed, i_links s !! i = Some (sym, Dropped b r) ->
     exists s', ingest_step s (Retried i up seed) s').
Proof.
  intros Htr. pose proof (links_ok_trace _ _ _ _ Htr) as Hok. unfold links_ok in Hok.
  rewrite Forall_forall in Hok. conj.
  - intros sym r Hin. by apply (Hok (sym, Ended r)).
  - intros r. by eapply Ingestion_returns_nil.
  - intros sym b d Hin. by destruct (Hok (sym, Waiting b d) Hin) as (_ & _ & Hd).
  - intros i sym b r up seed Hi. destruct (Hok (sym, Dropped b r)) as [Hb HM].
    { by eapply list_elem_of_lookup_2. }
    destruct (retry_link_ok up seed b s Hb HM) as (k & Hk & _). exists (set_link i sym k s).
    unfold ingest_step. cbn [ingest_exec]. rewrite Hi, Hk. done.
Qed.
End Properties.

(** ** Examples *)

#[local] Instance example_unicode : Unicode := ascii_only.

Definition example_kafka : KafkaConfig := {| Brokers := ["kafka:29093"%string]; LagRefreshInterval := 0 |}.
Definition example_publisher : Publisher :=
  {| sent := []; inflight := []; consecutiveFailures := 0; lastFailure := None; lastFailureAt := zero_Time |}.
Definition example_syms : list string := ["BTCUSDT"; " btcusdt"; ""; "ethusdt"]%string.

(** The first worker reads a trade, whose delivery fails; the second cannot dial. *)
Definition example_live : list ingest_label :=
  [DialOk 0; Message 0 example_raw example_now; Message 0 [] example_now;
   Delivered 0 (Some (ErrorString "broker unreachable")) example_now; DialFailed 1 (ErrorString "no such host")].
Definition example_shutdown : list ingest_label :=
  [CtxDone (Sentinel ContextCanceled); ReadFailed 0 (ErrorString "closed"); Retried 0 0 1; Retried 1 0 1].

Definition example_state (ls : list ingest_label) : ingest :=
  default (ingest_init [] example_publisher) (run ingest_exec ls (ingest_init (normalizeSymbols example_syms) example_publisher)).
Lemma example_trace ls :
  is_Some (run ingest_exec ls (ingest_init (normalizeSymbols example_syms) example_publisher)) ->
  trace ingest_step (ingest_init (normalizeSymbols example_syms) example_publisher) ls (example_state ls).
Proof.
  intros [s Hs]. unfold example_state. rewrite Hs. eapply run_trace; [|exact Hs]. by intros l s0 s1.
Qed.

Lemma Ingestion_health_tracks_witness :
  down_symbols (example_state example_live) = ["ethusdt"%string] /\
  wsHealth_Check map_to_list (i_ws (example_state example_live)) = Some (ErrorString "disconnected [ethusdt]").
Proof.
  split; [vm_compute; reflexivity|].
  rewrite (proj2 (proj2 (proj2 (Ingestion_health_tracks map_to_list example_syms example_publisher example_live
    (example_state example_live) ltac:(done) (example_trace example_live ltac:(vm_compute; eexists; reflexivity)))))).
  vm_compute. reflexivity.
Defined.

Definition example_pending : list ingest_label := [DialOk 0; Message 0 example_raw example_now].

(** The broker fails the only record; and a record in flight when the publisher is closed without a broker. *)
Lemma Ingestion_publishes_witness :
  NewPublisher (fun _ => None) example_kafka = Ok example_publisher /\
  length (sent (i_pub (example_state example_live))) = 1%nat /\
  deliveryStatus example_now (i_pub (example_state example_live)) <> None /\
  exists p', @Publisher_Close dead_client (i_pub (example_state example_pending)) = Some (p', true) /\
    length (sent p') = 1%nat /\ inflight p' = [].
Proof.
  destruct (@Ingestion_publishes _ dead_client dead_client_laws (normalizeSymbols example_syms) (fun _ => None) example_kafka
    example_publisher example_live (example_state example_live) example_now eq_refl
    (example_trace example_live ltac:(vm_compute; eexists; reflexivity)) ltac:(vm_compute; reflexivity)) as (Hs & _ & Hd & _).
  split; [reflexivity|]. split; [rewrite Hs; vm_compute; reflexivity|]. split.
  { intros Hn. rewrite Hn in Hd. vm_compute in Hd. discriminate Hd. }
  destruct (@Ingestion_publishes _ dead_client dead_client_laws (normalizeSymbols example_syms) (fun _ => None) example_kafka
    example_publisher example_pending (example_state example_pending) example_now eq_refl
    (example_trace example_pending ltac:(vm_compute; eexists; reflexivity)) ltac:(vm_compute; reflexivity)) as (_ & _ & _ & Hclose).
  destruct (Hclose _ _ _ eq_refl) as (_ & p' & _ & Hc & Hsent & Hin & _).
  exists p'. split; [exact Hc|]. split; [rewrite Hsent; vm_compute; reflexivity|exact Hin].
Defined.

Definition example_end : list ingest_label := example_live ++ example_shutdown.

Lemma Ingestion_never_fails_witness :
  exists r, @ingest_return first_error_group (example_state example_end) = Some r /\ r = None.
Proof.
  eexists. split; [vm_compute; reflexivity|].
  apply (proj1 (proj2 (Ingestion_never_fails (H0 := first_error_group) (normalizeSymbols example_syms) example_publisher
    example_end (example_state example_end) (example_trace example_end ltac:(vm_compute; eexists; reflexivity))))).
  vm_compute. reflexivity.
Defined.
