(* ===== verification/WsSession.v ===== *)
(** * ingestion-service/internal/worker.go: one WebSocket session

    The inside of [runSymbol]: dialling, the settings of the connection, its ping and pong handlers,
    the watcher that closes it, and the read loop.  The peer and the clock are the labels; what
    the worker relies on of the WebSocket library is in the guard [readable]: a read succeeds only
    on an open connection before its read deadline, and the handlers run inside a read.
    [session_label_of] forgets the control frames: what remains are the steps of [Ingestion.v]. *)
From S2P Require Import Prelude GoBase Config Decimal Float64 Json GoTime Domain Wire Normalizer Retry Handlers Publisher Ingestion IngestionFacts.
#[local] Open Scope Z_scope.

Definition binanceWSBaseURL : string := "wss://stream.binance.com:9443/ws".
Definition wsHandshakeTimeout : Z := 10 * Second.
Definition wsWriteWait : Z := 10 * Second.
Definition wsPongWait : Z := 60 * Second.
Definition wsReadLimit : Z := Z.shiftl 1 20.

(** ** dialBinanceTrade *)

(** What [DialContext] returns: a connection or an error, and a response unless it is nil. *)
Record dialed := { d_conn : result error unit; d_resp : bool }.

(** The result, and whether the body of the response has been closed; [None] is the nil
    dereference of a response missing after a successful handshake. *)
Definition dialBinanceTrade (dial : Z -> string -> dialed) (symbol : string) : option (result error unit * bool) :=
  let d := dial wsHandshakeTimeout (binanceWSBaseURL ++ "/" ++ symbol ++ "@trade")%string in
  match d_conn d with
  | Err err => Some (Err err, d_resp d)
  | Ok conn => if d_resp d then Some (Ok conn, true) else None
  end.

(** ** The connection, as far as the worker sets it up *)

Inductive control :=
  | CloseFrame (deadline : Z)
  | PongFrame (data : bytes) (deadline : Z).

Record conn := {
  read_limit : Z;
  read_deadline : Z;
  conn_closed : bool;
  controls : list control;        (** the control frames written, in order *)
}.
Definition SetReadDeadline (t : Z) (c : conn) : conn :=
  {| read_limit := read_limit c; read_deadline := t; conn_closed := conn_closed c; controls := controls c |}.
Definition WriteControl (f : control) (c : conn) : conn :=
  {| read_limit := read_limit c; read_deadline := read_deadline c; conn_closed := conn_closed c;
     controls := controls c ++ [f] |}.
Definition Close (c : conn) : conn :=
  {| read_limit := read_limit c; read_deadline := read_deadline c; conn_closed := true; controls := controls c |}.

Definition conn_start (now : Z) : conn :=
  {| read_limit := wsReadLimit; read_deadline := now + wsPongWait; conn_closed := false; controls := [] |}.

(** [err] is what [WriteControl], or [SetReadDeadline] in the pong handler, returned. *)
Definition ping_handler (appData : bytes) (now : Z) (err : option error) (c : conn) : conn * option error :=
  (WriteControl (PongFrame appData (now + wsWriteWait)) (SetReadDeadline (now + wsPongWait) c), err).
Definition pong_handler (now : Z) (err : option error) (c : conn) : conn * option error :=
  (SetReadDeadline (now + wsPongWait) c, err).

(** The watcher goroutine, when the context ends. *)
Definition watcher (now : Z) (c : conn) : conn := Close (WriteControl (CloseFrame (now + wsWriteWait)) c).

(** ** The session *)

Record session_state := {
  s_conn : conn;
  s_ctx : option error;
  s_pub : Publisher;
  s_result : option (option error);       (** what [runSymbol] has returned *)
}.

Inductive session_label :=
  | PingFrame (data : bytes) (now : Z) (err : option error)
  | PongReceived (now : Z) (err : option error)
  | DataFrame (raw : bytes) (now : Time)
  | ReadError (err : error)
  | SessionDone (err : error)       (** the context ends *)
  | WatcherCloses (now : Z).        (** the watcher has noticed *)

(** What the read that is going on may still deliver at [now]. *)
Definition readable (c : conn) (now : Z) : bool := negb (conn_closed c) && (now <? read_deadline c).

Section Session.
Context `{Unicode} (symbol : string).

Definition session_init (now : Z) (ctx : option error) (p : Publisher) : session_state :=
  {| s_conn := conn_start now; s_ctx := ctx; s_pub := p; s_result := None |}.

(** The end of the read loop: the deferred calls close the connection. *)
Definition session_return (err : error) (s : session_state) : session_state :=
  {| s_conn := Close (s_conn s); s_ctx := s_ctx s; s_pub := s_pub s;
     s_result := Some (match s_ctx s with
                       | Some _ => None
                       | None => Some (Errorf_w ("read " ++ symbol ++ ": ") err)
                       end) |}.
Definition set_conn (c : conn) (s : session_state) : session_state :=
  {| s_conn := c; s_ctx := s_ctx s; s_pub := s_pub s; s_result := s_result s |}.
(** A handler has run inside [ReadMessage], which returns its error. *)
Definition after_handler (r : conn * option error) (s : session_state) : session_state :=
  let s := set_conn r.1 s in
  match r.2 with Some err => session_return err s | None => s end.

Definition session_exec (l : session_label) (s : session_state) : option session_state :=
  match s_result s with
  | Some _ => None
  | None =>
      match l with
      | PingFrame data now err =>
          if readable (s_conn s) now then Some (after_handler (ping_handler data now err (s_conn s)) s) else None
      | PongReceived now err =>
          if readable (s_conn s) now then Some (after_handler (pong_handler now err (s_conn s)) s) else None
      | DataFrame raw now =>
          if readable (s_conn s) (unix_ns now) then
            Some {| s_conn := s_conn s; s_ctx := s_ctx s; s_pub := handle_message raw now (s_pub s);
                    s_result := None |}
          else None
      | ReadError err => Some (session_return err s)
      | SessionDone err =>
          match s_ctx s with
          | Some _ => None
          | None => Some {| s_conn := s_conn s; s_ctx := Some err; s_pub := s_pub s; s_result := None |}
          end
      | WatcherCloses now =>
          match s_ctx s with
          | Some _ => if conn_closed (s_conn s) then None else Some (set_conn (watcher now (s_conn s)) s)
          | None => None
          end
      end
  end.
Definition session_step (s : session_state) (l : session_label) (s' : session_state) : Prop :=
  session_exec l s = Some s'.
End Session.

(** ** The session refines the reading phase of a worker *)

Definition reading_link (b : Backoff) (s : session_state) : link :=
  match s_result s with None => Reading b | Some r => Dropped b r end.
Record simulates (i : nat) (sym : string) (b : Backoff) (s : session_state) (ist : ingest) : Prop := {
  sim_link : i_links ist !! i = Some (sym, reading_link b s);
  sim_ctx : i_ctx ist = s_ctx s;
  sim_pub : i_pub ist = s_pub s;
}.

(** The step of worker [i] that a label is, if it is one. *)
Definition session_label_of (i : nat) (l : session_label) : list ingest_label :=
  match l with
  | PingFrame _ _ None | PongReceived _ None | WatcherCloses _ => []
  | PingFrame _ _ (Some err) | PongReceived _ (Some err) | ReadError err => [ReadFailed i err]
  | DataFrame raw now => [Message i raw now]
  | SessionDone err => [CtxDone err]
  end.

Section Refinement.
Context `{Unicode} (i : nat) (sym : string) (b : Backoff).

Lemma simulates_same s s' ist :
  s_result s' = s_result s -> s_ctx s' = s_ctx s -> s_pub s' = s_pub s -> simulates i sym b s ist ->
  simulates i sym b s' ist.
Proof. intros Hr Hc Hp [Hl Hx Hq]. split; [|congruence..]. unfold reading_link in *. by rewrite Hr. Qed.

Lemma simulates_return s err ist :
  s_result s = None -> simulates i sym b s ist ->
  exists ist', ingest_step ist (ReadFailed i err) ist' /\ simulates i sym b (session_return sym err s) ist'.
Proof.
  intros Hr [Hl Hc Hp]. unfold reading_link in Hl. rewrite Hr in Hl. eexists.
  split; [unfold ingest_step; cbn [ingest_exec]; rewrite Hl; reflexivity|].
  split; cbn; [|done|done]. rewrite list_lookup_insert_eq by (by eapply lookup_lt_Some). rewrite Hc. done.
Qed.

Lemma simulates_handler s s1 r ist :
  s_result s = None -> simulates i sym b s ist -> s1 = after_handler sym r s ->
  exists ist', trace ingest_step ist (match r.2 with Some err => [ReadFailed i err] | None => [] end) ist' /\
    simulates i sym b s1 ist'.
Proof.
  intros Hr Hsim ->. unfold after_handler. destruct r as [c [err|]]; cbn [fst snd].
  - assert (simulates i sym b (set_conn c s) ist) as Hc by (eapply simulates_same; [| | |exact Hsim]; done).
    destruct (simulates_return (set_conn c s) err ist Hr Hc) as (ist' & Hstep & Hs).
    exists ist'. split; [by econstructor; [|constructor]|done].
  - exists ist. split; [constructor|]. by eapply simulates_same; [| | |exact Hsim].
Qed.

Lemma simulates_step s l s' ist :
  simulates i sym b s ist -> session_step sym s l s' ->
  exists ist', trace ingest_step ist (session_label_of i l) ist' /\ simulates i sym b s' ist'.
Proof.
  unfold session_step, session_exec. intros Hsim Hstep. destruct (s_result s) eqn:Hr; [done|].
  destruct l as [data now err|now err|raw now|err|err|now]; cbn [session_label_of].
  - destruct (readable _ _); [|done]. injection Hstep as <-.
    destruct (simulates_handler s _ (ping_handler data now err (s_conn s)) ist Hr Hsim eq_refl) as (ist' & Htr & Hs).
    exists ist'. split; [|done]. by destruct err.
  - destruct (readable _ _); [|done]. injection Hstep as <-.
    destruct (simulates_handler s _ (pong_handler now err (s_conn s)) ist Hr Hsim eq_refl) as (ist' & Htr & Hs).
    exists ist'. split; [|done]. by destruct err.
  - destruct (readable _ _); [|done]. injection Hstep as <-. destruct Hsim as [Hl Hc Hp].
    unfold reading_link in Hl. rewrite Hr in Hl.
    exists (set_pub (handle_message raw now (i_pub ist)) ist).
    split; [econstructor; [unfold ingest_step; cbn [ingest_exec]; by rewrite Hl|constructor]|].
    split; cbn; [done|done|by rewrite Hp].
  - injection Hstep as <-. destruct (simulates_return s err ist Hr Hsim) as (ist' & Hs & Hsim').
    exists ist'. split; [by econstructor; [|constructor]|done].
  - destruct (s_ctx s) eqn:Hctx; [done|]. injection Hstep as <-. destruct Hsim as [Hl Hc Hp].
    unfold reading_link in Hl. rewrite Hr in Hl. eexists.
    split; [econstructor; [unfold ingest_step; cbn [ingest_exec]; by rewrite Hc, Hctx|constructor]|].
    by split; cbn.
  - destruct (s_ctx s) eqn:Hctx; [|done]. destruct (conn_closed _); [done|]. injection Hstep as <-.
    exists ist. split; [constructor|]. eapply simulates_same; [| | |exact Hsim]; done.
Qed.
End Refinement.

(** ** Deadlines *)

Definition control_time (l : session_label) : option Z :=
  match l with PingFrame _ now _ | PongReceived now _ => Some now | _ => None end.
Definition frame_time (l : session_label) : option Z :=
  match l with DataFrame _ now => Some (unix_ns now) | _ => control_time l end.
(** A frame of the peer that the worker handles without an error. *)
Definition plain_frame (l : session_label) : bool :=
  match l with PingFrame _ _ None | PongReceived _ None | DataFrame _ _ => true | _ => false end.
Definition last_control (t0 : Z) (ls : list session_label) : Z := default t0 (last (omap control_time ls)).

Lemma last_control_in t0 ls : last_control t0 ls ∈ t0 :: omap control_time ls.
Proof.
  unfold last_control. destruct (last _) as [t|] eqn:Hl; [|left].
  apply last_Some in Hl as [l' ->]. right. apply elem_of_app. right. left.
Qed.

Lemma control_is_frame (t : Z) (ls : list session_label) : t ∈ omap control_time ls -> t ∈ omap frame_time ls.
Proof.
  intros (l & Hin & Ht)%list_elem_of_omap. apply list_elem_of_omap. exists l. split; [done|]. by destruct l.
Qed.

(** In order of time the last control frame is the latest. *)
Lemma last_control_max t0 ls t :
  StronglySorted Z.le (t0 :: omap frame_time ls) -> t ∈ t0 :: omap control_time ls -> t <= last_control t0 ls.
Proof.
  induction ls as [|l ls IH] using rev_ind; intros Hs Hin.
  { apply list_elem_of_singleton in Hin. by subst. }
  rewrite omap_app, app_comm_cons in Hs, Hin. unfold last_control. rewrite omap_app.
  pose proof (StronglySorted_app_1_l _ _ _ Hs) as Hs'. pose proof (IH Hs') as IH'. unfold last_control in IH'.
  cbn [omap list_omap] in *. destruct (control_time l) as [c|] eqn:Hc; [|rewrite app_nil_r in *; by apply IH'].
  assert (frame_time l = Some c) as Hf by (by destruct l). rewrite Hf in Hs. rewrite last_snoc. cbn [default from_option id].
  apply elem_of_app in Hin as [Hin|Hin%list_elem_of_singleton]; [|lia].
  eapply (StronglySorted_app_1_elem_of _ _ _ _ _ Hs); [|left].
  apply elem_of_cons in Hin as [->|Hin]; [left|right; by apply control_is_frame].
Qed.

Section Deadlines.
Context `{Unicode} (sym : string) (t0 : Z) (ctx : option error) (p : Publisher).

Definition open_until (d : Z) (s : session_state) : Prop :=
  s_result s = None /\ conn_closed (s_conn s) = false /\ read_deadline (s_conn s) = d.

Lemma frames_open ls s :
  forallb plain_frame ls = true -> run (session_exec sym) ls (session_init t0 ctx p) = Some s ->
  open_until (last_control t0 ls + wsPongWait) s.
Proof.
  revert s. induction ls as [|l ls IH] using rev_ind; intros s Hp Hrun.
  { injection Hrun as <-. done. }
  rewrite forallb_app in Hp. apply andb_true_iff in Hp as [Hp Hl]. rewrite run_app in Hrun.
  destruct (run _ ls _) as [s1|]; [|done]. destruct (IH s1 Hp eq_refl) as (Hr & Hc & Hd). cbn [run] in Hrun.
  unfold session_exec in Hrun. rewrite Hr in Hrun. unfold last_control. rewrite omap_app.
  destruct l as [data now []|now []|raw now|err|err|now]; try done; cbn [omap list_omap control_time];
    (destruct (readable _ _); [|done]); injection Hrun as <-; rewrite ?last_snoc; [done|done|].
  rewrite app_nil_r. by split_and!.
Qed.

Lemma frame_read l s d t :
  plain_frame l = true -> frame_time l = Some t -> open_until d s ->
  is_Some (session_exec sym l s) <-> t < d.
Proof.
  intros Hp Ht (Hr & Hc & Hd). unfold session_exec. rewrite Hr.
  assert (readable (s_conn s) t = (t <? d)) as Hread by (unfold readable; by rewrite Hc, Hd).
  destruct l as [data now []|now []|raw now|err|err|now]; try done; injection Ht as ->; rewrite Hread;
    destruct (Z.ltb_spec t d); (split; [intros []; (done || lia)|intros ?; (by eexists) || lia]).
Qed.
End Deadlines.

(** ** Properties *)

Section Properties.
Context `{Unicode}.

(** C39: refinement: a session, with its control frames, handlers and watcher, is the reading phase of
    its worker in the transition system of the service: whatever happens on the connection, the
    messages it delivers, the end of the context and the end of the session are steps of worker
    [i], in the same order, and they leave the same publisher and the same result of [runSymbol];
    so what holds of every execution of the service holds of these. *)
Theorem session_refines (i : nat) (sym : string) (b : Backoff) (now : Z) (ist : ingest)
    (ls : list session_label) (s : session_state) :
  i_links ist !! i = Some (sym, Reading b) ->
  trace (session_step sym) (session_init now (i_ctx ist) (i_pub ist)) ls s ->
  exists ist', trace ingest_step ist (ls ≫= session_label_of i) ist' /\
    i_links ist' !! i = Some (sym, reading_link b s) /\ i_ctx ist' = s_ctx s /\ i_pub ist' = s_pub s.
Proof.
  intros Hi Htr. enough (forall s0 ist, simulates i sym b s0 ist -> trace (session_step sym) s0 ls s ->
    exists ist', trace ingest_step ist (ls ≫= session_label_of i) ist' /\ simulates i sym b s ist') as Hgen.
  { destruct (Hgen _ ist (Build_simulates i sym b (session_init now (i_ctx ist) (i_pub ist)) ist Hi eq_refl eq_refl) Htr)
      as (ist' & Htr' & []). by exists ist'. }
  clear. intros s0 ist Hsim Htr. revert ist Hsim.
  induction Htr as [s|s l s1 ls s2 Hstep _ IH]; intros ist Hsim; [exists ist; split; [constructor|done]|].
  destruct (simulates_step i sym b _ _ _ _ Hsim Hstep) as (ist1 & Htr1 & Hsim1).
  destruct (IH ist1 Hsim1) as (ist2 & Htr2 & Hsim2). exists ist2. split; [|done].
  rewrite bind_cons. by eapply trace_app.
Qed.

(** C40: when the read deadline cuts a session: take frames of the peer in the order of time that the
    worker handles without error.  The session reads all of them exactly if each of them comes
    less than sixty seconds after the start of the session or after some ping or pong before it;
    so pings that come in time keep it open for ever, and a connection that delivers trades all
    the time but no control frame is dropped after sixty seconds. *)
Theorem session_alive (sym : string) (t0 : Z) (ctx : option error) (p : Publisher) (ls : list session_label) :
  forallb plain_frame ls = true -> StronglySorted Z.le (t0 :: omap frame_time ls) ->
  is_Some (run (session_exec sym) ls (session_init t0 ctx p)) <->
  forall pre l post t, ls = pre ++ l :: post -> frame_time l = Some t ->
    exists t', t' ∈ t0 :: omap control_time pre /\ t < t' + 60 * Second.
Proof.
  change (60 * Second) with wsPongWait.
  induction ls as [|l ls IH] using rev_ind; intros Hp Hs.
  { split; [|by eexists]. by intros _ [|? ?]. }
  rewrite forallb_app in Hp. apply andb_true_iff in Hp as [Hp Hl]. cbn [forallb] in Hl. rewrite andb_true_r in Hl.
  rewrite omap_app, app_comm_cons in Hs. pose proof (StronglySorted_app_1_l _ _ _ Hs) as Hs'.
  specialize (IH Hp Hs'). rewrite run_app. cbn [run].
  assert (exists t, frame_time l = Some t) as [t Ht] by (destruct l; try done; by eexists).
  destruct (run _ ls _) as [s|] eqn:Hrun.
  - pose proof (frame_read sym l s _ t Hl Ht (frames_open sym t0 ctx p ls s Hp Hrun)) as Hread.
    assert (is_Some (match session_exec sym l s with Some s' => Some s' | None => None end) <->
            is_Some (session_exec sym l s)) as -> by (by destruct (session_exec sym l s)).
    rewrite Hread. split.
    + intros Hlt pre l' post t' Heq Ht'. destruct post as [|x post _] using rev_ind.
      * apply app_inj_tail in Heq as [-> ->]. exists (last_control t0 pre).
        split; [apply last_control_in|congruence].
      * rewrite app_comm_cons, app_assoc in Heq. apply app_inj_tail in Heq as [-> ->].
        by apply (proj1 IH ltac:(by eexists) pre l' post).
    + intros Hall. destruct (Hall ls l [] t eq_refl Ht) as (t' & Hin & Hlt).
      pose proof (last_control_max t0 ls t' Hs' Hin). lia.
  - split; [by intros []|]. intros Hall. destruct (proj2 IH) as [s ?]; [|done].
    intros pre l' post t' -> Ht'. apply (Hall pre l' (post ++ [l])); [by rewrite <- app_assoc|done].
Qed.
End Properties.

(** ** Examples *)

#[local] Instance example_unicode : Unicode := ascii_only.

Definition at_second (n : Z) : Time := {| unix_ns := n * Second; zone := 0 |}.
(** A ping after fifty seconds keeps the connection, the same frames without it lose it. *)
Definition frames_with_ping : list session_label :=
  [DataFrame example_raw (at_second 30); PingFrame [] (50 * Second) None; DataFrame example_raw (at_second 100)].
Definition frames_without_ping : list session_label :=
  [DataFrame example_raw (at_second 30); DataFrame example_raw (at_second 60)].

Lemma session_alive_witness :
  is_Some (run (session_exec "btcusdt") frames_with_ping (session_init 0 None example_publisher)) /\
  ~ is_Some (run (session_exec "btcusdt") frames_without_ping (session_init 0 None example_publisher)).
Proof.
  split.
  - apply (session_alive "btcusdt" 0 None example_publisher frames_with_ping); [reflexivity|repeat constructor; vm_compute; discriminate|].
    intros pre l post t Heq Ht. destruct pre as [|x1 [|x2 [|x3 [|]]]]; injection Heq; intros; subst; try discriminate;
      injection Ht as <-; [exists 0|exists 0|exists (50 * Second)]; (split; [|vm_compute; reflexivity]);
      cbn; rewrite ?elem_of_cons; tauto.
  - intros Hs. pose proof (proj1 (session_alive "btcusdt" 0 None example_publisher frames_without_ping
      eq_refl ltac:(repeat constructor; vm_compute; discriminate)) Hs) as Hs'.
    destruct (Hs' [DataFrame example_raw (at_second 30)] _ [] _ eq_refl eq_refl) as (t' & Hin & Hlt).
    apply list_elem_of_singleton in Hin. subst. vm_compute in Hlt. discriminate.
Defined.

(** The first worker of the example service, connected, sees the frames and loses the connection. *)
Lemma session_refines_witness :
  let ist := example_state [DialOk 0] in
  exists s ist', run (session_exec "btcusdt") (frames_with_ping ++ [ReadError (ErrorString "i/o timeout")])
                   (session_init 0 (i_ctx ist) (i_pub ist)) = Some s /\
    s_result s = Some (Some (Errorf_w "read btcusdt: " (ErrorString "i/o timeout"))) /\
    trace ingest_step ist [Message 0 example_raw (at_second 30); Message 0 example_raw (at_second 100);
                           ReadFailed 0 (ErrorString "i/o timeout")] ist' /\
    i_pub ist' = s_pub s.
Proof.
  cbv zeta. set (ist := example_state [DialOk 0]).
  set (ls := frames_with_ping ++ [ReadError (ErrorString "i/o timeout")]).
  assert (exists s, run (session_exec "btcusdt") ls (session_init 0 (i_ctx ist) (i_pub ist)) = Some s /\
    s_result s = Some (Some (Errorf_w "read btcusdt: " (ErrorString "i/o timeout")))) as (s & Hrun & Hres)
    by (eexists; split; vm_compute; reflexivity).
  destruct (session_refines 0 "btcusdt" NewBackoff 0 ist ls s ltac:(vm_compute; reflexivity)
    (run_trace _ _ (fun l s0 s1 Hx => Hx) _ _ _ Hrun)) as (ist' & Htr & _ & _ & Hp).
  exists s, ist'. split; [exact Hrun|]. split; [exact Hres|]. split; [exact Htr|exact Hp].
Defined.
