(* ===== verification/Api.v ===== *)
(** * api-service/rest: the public read endpoints (redis.go, trade.go, orderbook.go, respond.go)

    A handler maps the path parameter and the state of the Redis client to a [reply]: the status
    and the value that [writeJSON] encodes.  The handlers are proved against the interface
    [RedisLaws] that the writer of the processor also uses, so the theorems about them compose
    with those about [Write]. *)
From S2P Require Import Prelude GoBase Config Decimal Float64 Json GoTime GoTimeFacts Domain Wire Normalizer WireTypes Handlers OrderBookStore RedisWriter HttpServer.
#[local] Open Scope Z_scope.

(** ** respond.go *)

Definition StatusBadRequest : Z := 400.
Definition StatusNotFound : Z := 404.
Definition StatusInternalServerError : Z := 500.

Record ErrorResponse := { er_Error : string }.
Record tradeResponse := { tr_Symbol : string; tr_Trades : list TradeEvent; tr_Source : string }.
Record orderBookResponse := {
  ob_Symbol : string;
  ob_Bids : slice PriceLevel;
  ob_Asks : slice PriceLevel;
  ob_BestBid : option PriceLevel;
  ob_BestAsk : option PriceLevel;
  ob_LastUpdate : Time;
  ob_Source : string;
}.

(** The values the handlers respond with. *)
Inductive body :=
  | BodyError (e : ErrorResponse)
  | BodyTrade (t : tradeResponse)
  | BodyBook (b : orderBookResponse).

Definition encode_tradeResponse (t : tradeResponse) : result error json :=
  trades ← json_list encode_TradeEvent (tr_Trades t);
  Ok (JObject (member "symbol" (json_string (tr_Symbol t)) ++
               member "trades" (JArray trades) ++
               member "source" (json_string (tr_Source t)))).
Definition encode_best (name : string) (l : option PriceLevel) : result error members :=
  match l with
  | None => Ok []
  | Some l => member name <$> encode_PriceLevel l
  end.
Definition encode_orderBookResponse (b : orderBookResponse) : result error json :=
  bids ← json_slice encode_PriceLevel (ob_Bids b);
  asks ← json_slice encode_PriceLevel (ob_Asks b);
  best_bid ← encode_best "best_bid" (ob_BestBid b);
  best_ask ← encode_best "best_ask" (ob_BestAsk b);
  last_update ← json_time (ob_LastUpdate b);
  Ok (JObject (member "symbol" (json_string (ob_Symbol b)) ++ member "bids" bids ++ member "asks" asks ++
               best_bid ++ best_ask ++ member "last_update" last_update ++
               member "source" (json_string (ob_Source b)))).
Definition encode_body (b : body) : result error json :=
  match b with
  | BodyError e => Ok (JObject (member "error" (json_string (er_Error e))))
  | BodyTrade t => encode_tradeResponse t
  | BodyBook b => encode_orderBookResponse b
  end.

(** The header, the status and the bytes: nothing if the value cannot be encoded, since by then
    the status has been sent and the error is dropped. *)
Record reply := { code : Z; content_type : string; payload : body }.
Definition written (r : reply) : bytes :=
  match encode_body (payload r) with
  | Ok j => print j ++ [ascii_of_nat 10]
  | Err _ => []
  end.
Definition writeJSON (status : Z) (value : body) : reply :=
  {| code := status; content_type := "application/json"; payload := value |}.
Definition writeError (status : Z) (message : string) : reply :=
  writeJSON status (BodyError {| er_Error := message |}).

(** ** redis.go *)

Section RedisReader.
Context {R : Type} `{Redis R} `{Unicode}.

(** [dial] is [redis.NewClient]. *)
Definition NewRedisReader (dial : RedisConfig -> R) (addr password : string) (n : Z) : result error R :=
  if bool_decide (addr = ""%string) then Err (ErrorString "redis: addr is required")
  else Ok (dial {| RedisAddr := addr; RedisPassword := password; RedisDB := n |}).

Definition RedisReader_Name : string := "redis".
Definition RedisReader_Check (r : R) : option error :=
  match redis_Ping r with
  | Some err => Some (Errorf_w "redis ping: " err)
  | None => None
  end.

(** ** trade.go and orderbook.go *)

Definition normalizeSymbol (symbol : string) : string := ToUpper (TrimSpace symbol).

Definition LatestTrade (param : string) (r : R) : reply :=
  let symbol := normalizeSymbol param in
  if bool_decide (symbol = ""%string) then writeError StatusBadRequest "symbol is required"
  else
    match redis_Get (KeyLatestTrade symbol) r with
    | Err err =>
        if errors_Is err RedisNil then writeError StatusNotFound "trade not found"
        else writeError StatusServiceUnavailable "redis unavailable"
    | Ok raw =>
        match Unmarshal raw zero_TradeEvent with
        | Err _ => writeError StatusInternalServerError "cached trade is invalid"
        | Ok trade =>
            writeJSON StatusOK (BodyTrade {| tr_Symbol := symbol; tr_Trades := [trade]; tr_Source := "redis" |})
        end
    end.

Definition limitLevels (levels : slice PriceLevel) (limit : nat) : slice PriceLevel :=
  if (length (elems levels) <=? limit)%nat then levels else Some (take limit (elems levels)).

(** The pointer set by [if level, ok := ...; ok]. *)
Definition best (l : PriceLevel * bool) : option PriceLevel := if l.2 then Some l.1 else None.

Definition book_response (book : OrderBook) : orderBookResponse :=
  {| ob_Symbol := BookSymbol book; ob_Bids := limitLevels (Bids book) 20;
     ob_Asks := limitLevels (Asks book) 20; ob_BestBid := best (BestBid book);
     ob_BestAsk := best (BestAsk book); ob_LastUpdate := LastUpdate book; ob_Source := "redis" |}.

Definition OrderBook_handler (param : string) (r : R) : reply :=
  let symbol := normalizeSymbol param in
  if bool_decide (symbol = ""%string) then writeError StatusBadRequest "symbol is required"
  else
    match redis_Get (KeyOrderBook symbol) r with
    | Err err =>
        if errors_Is err RedisNil then writeError StatusNotFound "order book not found"
        else writeError StatusServiceUnavailable "redis unavailable"
    | Ok raw =>
        match Unmarshal raw zero_OrderBook with
        | Err _ => writeError StatusInternalServerError "cached order book is invalid"
        | Ok book => writeJSON StatusOK (BodyBook (book_response book))
        end
    end.

(** ** Lemmas *)

Lemma limitLevels_prefix levels limit :
  elems (limitLevels levels limit) = take limit (elems levels).
Proof.
  unfold limitLevels. destruct (Nat.leb_spec (length (elems levels)) limit); [|done].
  by rewrite take_ge.
Qed.

(** The failed reads. *)
Definition unavailable (k : string) (r : R) : Prop :=
  exists err, redis_Get k r = Err err /\ errors_Is err RedisNil = false.

Lemma get_cases `{!RedisLaws R} k r :
  unavailable k r \/ (exists err, redis_Get k r = Err err /\ errors_Is err RedisNil = true /\ db r k = None) \/
  (exists b, redis_Get k r = Ok b /\ db r k = Some b).
Proof.
  destruct (redis_Get k r) as [b|err] eqn:Hg.
  - right. right. exists b. split; [done|]. by apply get_reads.
  - destruct (errors_Is err RedisNil) eqn:He; [right; left|left; by exists err].
    exists err. split; [done|]. split; [done|]. by eapply get_nil.
Qed.

(** ** What a run of the writer leaves for the readers *)

(** After a run without errors the database has the last trade of every symbol. *)
Lemma Run_latest_trade `{!RedisLaws R} updates (r r' : R) symbol :
  RedisWriter_Run updates r = (r', []) ->
  db r' (KeyLatestTrade symbol) =
  match find_last (of_symbol symbol) (map snd updates) with
  | Some ev => match Marshal ev with Ok l => Some l | Err _ => None end
  | None => db r (KeyLatestTrade symbol)
  end.
Proof.
  revert r. induction updates as [|[books ev] updates IH]; intros r Hrun; cbn [RedisWriter_Run] in Hrun.
  { by injection Hrun as ->. }
  destruct (Write books ev r) as [r1 err] eqn:Hw.
  destruct (RedisWriter_Run updates r1) as [r2 errs] eqn:Hr. injection Hrun as -> Herrs.
  destruct err as [err|]; [done|]. cbn in Herrs. rewrite Herrs in Hr. rewrite (IH r1 Hr).
  change (map snd ((books, ev) :: updates)) with ([ev] ++ map snd updates).
  rewrite find_last_app. destruct (find_last (of_symbol symbol) (map snd updates)); [done|].
  destruct (Write_success _ _ _ _ Hw) as [Hdone Hframe].
  unfold find_last. cbn [rev app List.find]. unfold of_symbol. case_bool_decide as Hs.
  - destruct (Hdone {| w_key := KeyLatestTrade (Symbol ev); w_value := encoded "marshal trade: " ev;
                       w_error := "set latest trade: " |}) as (v & Hv & Hdb); [left|].
    cbn [w_value w_key] in Hv, Hdb. rewrite Hs in Hdb. rewrite Hdb. unfold encoded in Hv.
    destruct (Marshal ev); [|done]. by injection Hv as <-.
  - apply Hframe. intros [Hk%(inj KeyLatestTrade)|[Hk|Hk]]%plan_key; [congruence|discriminate..].
Qed.
End RedisReader.

(** The store that [Write] snapshots is the one the order-book sink maintains. *)
Lemma Run_store_ok events s : Forall trade_ok events -> store_ok s -> store_ok (OrderBookStore_Run events s).
Proof.
  intros He. revert s. unfold OrderBookStore_Run. induction He as [|ev events Hev _ IH]; intros s Hs; [done|].
  cbn [fold_left]. by apply IH, Apply_store_ok.
Qed.

Lemma Run_new_lookup events symbol :
  data (OrderBookStore_Run events NewOrderBookStore) !! symbol = book_after symbol events.
Proof. apply Run_refines. apply lookup_empty. Qed.

Lemma best_head (l : slice PriceLevel) :
  best (match elems l with [] => (zero_PriceLevel, false) | x :: _ => (x, true) end) = head (elems l).
Proof. by destruct (elems l). Qed.

Lemma limit_top side symbol events : limitLevels (top side symbol events) 20 = top side symbol events.
Proof. unfold top. by destruct (find_last _ events). Qed.

(** The types of the bodies, and the bodies that carry a zone of a day or more. *)
Definition body_typed (b : body) : Prop :=
  match b with
  | BodyError _ => True
  | BodyTrade t => Forall trade_typed (tr_Trades t)
  | BodyBook b =>
      Forall level_ok (elems (ob_Bids b)) /\ Forall level_ok (elems (ob_Asks b)) /\
      from_option level_ok True (ob_BestBid b) /\ from_option level_ok True (ob_BestAsk b) /\
      time_typed (ob_LastUpdate b)
  end.
Definition body_far (b : body) : Prop :=
  match b with
  | BodyError _ => False
  | BodyTrade t => Exists (fun ev => far_zone (EventTime ev) \/ far_zone (IngestTime ev)) (tr_Trades t)
  | BodyBook b => far_zone (ob_LastUpdate b)
  end.
#[export] Instance body_far_dec b : Decision (body_far b).
Proof. destruct b; apply _. Defined.

Lemma json_list_typed l :
  Forall trade_typed l ->
  (is_Ok (json_list encode_TradeEvent l) = true <->
   ~ Exists (fun ev => far_zone (EventTime ev) \/ far_zone (IngestTime ev)) l).
Proof.
  induction 1 as [|ev l Hev _ IH]; [rewrite Exists_nil; cbn; tauto|]. rewrite Exists_cons.
  pose proof (encode_TradeEvent_typed ev Hev) as He. cbn [json_list].
  destruct (encode_TradeEvent ev); [|cbn [is_Ok mbind result_bind] in *; split; [done|tauto]].
  destruct (json_list encode_TradeEvent l); cbn [is_Ok mbind result_bind] in *; tauto.
Qed.

Lemma encode_best_typed name l : from_option level_ok True l -> exists ms, encode_best name l = Ok ms.
Proof.
  destruct l as [l|]; [|by eexists]. intros [Hp Hq]. cbn [encode_best]. unfold encode_PriceLevel.
  destruct (json_float_spec _ Hp) as (? & -> & _), (json_float_spec _ Hq) as (? & -> & _). by eexists.
Qed.

Lemma encode_body_typed b : body_typed b -> (is_Ok (encode_body b) = true <-> ~ body_far b).
Proof.
  destruct b as [e|t|b]; cbn [body_typed encode_body body_far]; [cbn [is_Ok]; tauto| |].
  - intros Ht. pose proof (json_list_typed _ Ht) as Hl. unfold encode_tradeResponse.
    destruct (json_list encode_TradeEvent (tr_Trades t)); cbn [is_Ok mbind result_bind] in *; tauto.
  - intros (Hb & Ha & Hbb & Hba & Ht). unfold encode_orderBookResponse.
    destruct (json_levels_spec _ None Hb) as (? & -> & _), (json_levels_spec _ None Ha) as (? & -> & _).
    destruct (encode_best_typed "best_bid" _ Hbb) as [? ->], (encode_best_typed "best_ask" _ Hba) as [? ->].
    pose proof (json_time_typed _ Ht) as Hl. cbn [mbind result_bind].
    destruct (json_time (ob_LastUpdate b)); cbn [is_Ok mbind result_bind] in *; tauto.
Qed.

Lemma written_typed rep : body_typed (payload rep) -> (written rep = [] <-> body_far (payload rep)).
Proof.
  intros Ht. pose proof (encode_body_typed _ Ht) as Hb. unfold written. destruct (encode_body (payload rep)) as [j|].
  - cbn [is_Ok] in Hb. split; [by intros [_ ?]%app_eq_nil|]. intros Hf. by destruct (proj1 Hb eq_refl Hf).
  - cbn [is_Ok] in Hb. split; [intros _|done].
    destruct (decide (body_far (payload rep))); [done|]. intuition discriminate.
Qed.

Lemma limit_typed l n : Forall level_ok (elems l) -> Forall level_ok (elems (limitLevels l n)).
Proof. rewrite limitLevels_prefix. apply Forall_take. Qed.

Lemma best_typed (l : slice PriceLevel) : Forall level_ok (elems l) -> from_option level_ok True (head (elems l)).
Proof. by destruct 1. Qed.

(** ** Properties *)

Section ApiProperties.
Context {R : Type} `{RedisLaws R} `{Unicode}.

(** End to end through Redis: once the writer has run over a sequence of trades without an error,
    the endpoint of a symbol answers 503 if Redis cannot be read, and otherwise serves exactly the
    last trade of that symbol, field for field as it was written, or 404 if there was none; what
    other symbols did has no influence. *)
Lemma LatestTrade_after_run (updates : list (option OrderBookStore * TradeEvent)) (r r' : R)
    (param symbol : string) :
  Forall trade_ok (map snd updates) -> RedisWriter_Run updates r = (r', []) ->
  normalizeSymbol param = symbol -> symbol <> ""%string -> db r (KeyLatestTrade symbol) = None ->
  (unavailable (KeyLatestTrade symbol) r' ->
   LatestTrade param r' = writeError StatusServiceUnavailable "redis unavailable") /\
  (~ unavailable (KeyLatestTrade symbol) r' -> LatestTrade param r' =
    match find_last (of_symbol symbol) (map snd updates) with
    | Some ev => writeJSON StatusOK (BodyTrade {| tr_Symbol := symbol; tr_Trades := [ev]; tr_Source := "redis" |})
    | None => writeError StatusNotFound "trade not found"
    end).
Proof.
  intros Hok Hrun Hn Hs Hdb. unfold LatestTrade. rewrite Hn, bool_decide_eq_false_2 by done.
  pose proof (Run_latest_trade _ _ _ symbol Hrun) as Hlast. rewrite Hdb in Hlast.
  assert (forall ev, find_last (of_symbol symbol) (map snd updates) = Some ev -> trade_ok ev) as Hev.
  { intros ev Hf. unfold find_last in Hf. apply List.find_some in Hf as [Hin%in_rev _].
    rewrite Forall_forall in Hok. by apply Hok, list_elem_of_In. }
  split; [by intros (err & -> & ->)|]. intros Hav.
  destruct (get_cases (KeyLatestTrade symbol) r') as [Hu|[(err & Hg & He & Hd)|(b & Hg & Hd)]]; [done|..].
  - rewrite Hg, He. rewrite Hd in Hlast. destruct (find_last _ _) as [ev|]; [|done].
    destruct (marshal_total ev (Hev ev eq_refl)) as [l Hl]. by rewrite Hl in Hlast.
  - rewrite Hg. rewrite Hd in Hlast. destruct (find_last _ _) as [ev|]; [|done].
    destruct (Marshal ev) as [l|] eqn:Hl; [|done]. injection Hlast as ->.
    by rewrite (unmarshal_marshal (A := TradeEvent) ev l zero_TradeEvent (Hev ev eq_refl) eq_refl Hl).
Qed.

(** End to end for the order book: after a successful write of a trade, with the store as it is
    after any sequence of events that traded the symbol, the endpoint of the symbol answers 503 if
    Redis cannot be read, and otherwise serves the book of those events: its only ask, which is
    the best ask, is the last buy, its only bid the last sell, its time that of the last trade. *)
Theorem OrderBook_serves_book (events : list TradeEvent) (ev last_ev : TradeEvent) (r r' : R) (param : string) :
  Forall trade_ok events ->
  Write (Some (OrderBookStore_Run events NewOrderBookStore)) ev r = (r', None) ->
  normalizeSymbol param = Symbol ev -> Symbol ev <> ""%string ->
  find_last (of_symbol (Symbol ev)) events = Some last_ev ->
  (unavailable (KeyOrderBook (Symbol ev)) r' /\
   OrderBook_handler param r' = writeError StatusServiceUnavailable "redis unavailable") \/
  OrderBook_handler param r' =
    writeJSON StatusOK (BodyBook {|
      ob_Symbol := Symbol ev; ob_Bids := top SideSell (Symbol ev) events;
      ob_Asks := top SideBuy (Symbol ev) events;
      ob_BestBid := head (elems (top SideSell (Symbol ev) events));
      ob_BestAsk := head (elems (top SideBuy (Symbol ev) events));
      ob_LastUpdate := EventTime last_ev; ob_Source := "redis" |}).
Proof.
  intros Hok Hw Hn Hs Hlast. unfold OrderBook_handler. rewrite Hn, bool_decide_eq_false_2 by done.
  destruct (Write_success _ _ _ _ Hw) as [Hdone _].
  set (st := OrderBookStore_Run events NewOrderBookStore) in *.
  assert (data st !! Symbol ev = book_after (Symbol ev) events) as Hbook by apply Run_new_lookup.
  unfold book_after in Hbook. rewrite Hlast in Hbook.
  assert (store_ok st) as Hst by (by apply Run_store_ok; [|apply NewOrderBookStore_ok]).
  destruct (Hst _ _ Hbook) as [_ Hbok]. set (book := {| BookSymbol := _ |}) in Hbook, Hbok.
  destruct (marshal_total (A := OrderBook) book Hbok) as [l Hl].
  assert (db r' (KeyOrderBook (Symbol ev)) = Some l) as Hdb.
  { destruct (Hdone {| w_key := KeyOrderBook (Symbol ev); w_value := encoded "marshal order book: " book;
                       w_error := "set order book: " |}) as (v & Hv & Hdb).
    { unfold plan, book_of. cbn [mbind option_bind]. rewrite Hbook. apply elem_of_app. right. left. }
    cbn [w_value w_key] in Hv, Hdb. unfold encoded in Hv. rewrite Hl in Hv. by injection Hv as <-. }
  destruct (get_cases (KeyOrderBook (Symbol ev)) r') as [Hu|[(err & _ & _ & Hd)|(b & Hg & Hd)]].
  - left. split; [done|]. destruct Hu as (err & -> & ->). done.
  - congruence.
  - right. rewrite Hg. assert (b = l) as -> by congruence.
    rewrite (unmarshal_marshal (A := OrderBook) book l zero_OrderBook Hbok eq_refl Hl).
    unfold book_response, BestBid, BestAsk, book. cbn [BookSymbol Bids Asks LastUpdate].
    by rewrite !limit_top, !best_head.
Qed.

(** C27: the order-book endpoint on every branch: 400 exactly for a blank symbol, 404 exactly if nothing
    is cached, 503 exactly if Redis fails, 500 exactly if the cached text does not decode, and 200
    otherwise, with the first twenty levels of each side of the cached book and the best levels
    the heads of its sides. *)
Theorem OrderBook_answers (param : string) (r : R) :
  let symbol := normalizeSymbol param in
  let rep := OrderBook_handler param r in
  (code rep = StatusBadRequest <-> symbol = ""%string) /\
  (code rep = StatusNotFound <-> symbol <> ""%string /\
     exists err, redis_Get (KeyOrderBook symbol) r = Err err /\ errors_Is err RedisNil = true) /\
  (code rep = StatusServiceUnavailable <-> symbol <> ""%string /\ unavailable (KeyOrderBook symbol) r) /\
  (code rep = StatusInternalServerError <-> symbol <> ""%string /\
     exists raw err, redis_Get (KeyOrderBook symbol) r = Ok raw /\ Unmarshal raw zero_OrderBook = Err err) /\
  (code rep = StatusOK <-> symbol <> ""%string /\
     exists raw book resp, redis_Get (KeyOrderBook symbol) r = Ok raw /\
       Unmarshal raw zero_OrderBook = Ok book /\ payload rep = BodyBook resp /\
       elems (ob_Bids resp) = take 20 (elems (Bids book)) /\
       elems (ob_Asks resp) = take 20 (elems (Asks book)) /\
       ob_BestBid resp = head (elems (Bids book)) /\ ob_BestAsk resp = head (elems (Asks book)) /\
       ob_Symbol resp = BookSymbol book /\ ob_LastUpdate resp = LastUpdate book).
Proof.
  cbv zeta. unfold OrderBook_handler, unavailable. case_bool_decide as Hs.
  { split_and!; (split; [done|]); try done; by intros [? _]. }
  destruct (redis_Get (KeyOrderBook (normalizeSymbol param)) r) as [raw|err] eqn:Hg.
  - destruct (Unmarshal raw zero_OrderBook) as [book|err] eqn:Hu; cbn [code writeError writeJSON payload].
    + split_and!; (split; [try done|try done; intros (_ & ? & ?); deex; congruence]).
      intros _. split; [done|]. exists raw, book, (book_response book).
      unfold book_response, BestBid, BestAsk. cbn [ob_Bids ob_Asks ob_BestBid ob_BestAsk ob_Symbol ob_LastUpdate].
      by rewrite !limitLevels_prefix, !best_head.
    + split_and!; (split; [try done|try done; intros (_ & ? & ?); deex; congruence]).
      intros _. split; [done|]. by exists raw, err.
  - destruct (errors_Is err RedisNil) eqn:He; cbn [code writeError writeJSON];
      split_and!; (split; [try done|try done; intros (_ & ? & ?); deex; congruence]);
      intros _; (split; [done|]); by exists err.
Qed.
(** C26: every value the two handlers respond with has the types of the domain, whatever text is
    cached: prices and quantities are finite binary64 numbers, trade ids fit 64 bits, instants lie
    in the years 0 to 9999; so the body of the response is never empty, with one exception: a
    cached time whose zone is a day or more off decodes but cannot be encoded, the error of the
    encoder is dropped, and the client gets the status with no body. *)
Theorem replies_typed (param : string) (r : R) (rep : reply) :
  rep = LatestTrade param r \/ rep = OrderBook_handler param r ->
  body_typed (payload rep) /\ (written rep = [] <-> body_far (payload rep)) /\
  (body_far (payload rep) -> code rep = StatusOK).
Proof.
  intros Hrep. assert (body_typed (payload rep) /\ (body_far (payload rep) -> code rep = StatusOK)) as [Hb Hc].
  { destruct Hrep as [-> | ->]; [unfold LatestTrade|unfold OrderBook_handler]; (case_bool_decide; [done|]).
    - destruct (redis_Get _ _) as [raw|err]; [|by destruct (errors_Is err RedisNil)].
      destruct (Unmarshal raw zero_TradeEvent) as [t|] eqn:Hu; [|done].
      split; [|done]. repeat constructor; by eapply Unmarshal_TradeEvent_typed.
    - destruct (redis_Get _ _) as [raw|err]; [|by destruct (errors_Is err RedisNil)].
      destruct (Unmarshal raw zero_OrderBook) as [b|] eqn:Hu; [|done].
      apply Unmarshal_OrderBook_typed in Hu as [Hbids Hasks Ht]. split; [|done].
      cbn [payload writeJSON body_typed]. unfold book_response, BestBid, BestAsk.
      cbn [ob_Bids ob_Asks ob_BestBid ob_BestAsk ob_LastUpdate]. rewrite !best_head.
      split_and!; try apply limit_typed; try apply best_typed; done. }
  split; [done|]. split; [by apply written_typed|done].
Qed.
End ApiProperties.

(** ** Examples *)

#[local] Instance example_unicode : Unicode := ascii_only.

Definition example_last_trade : TradeEvent :=
  {| Symbol := Symbol example_event; Price := f64_one; Quantity := f64_one; TradeSide := SideSell; TradeID := 7;
     Notional := f64_one; Market := Market example_event; IsWhale := false;
     EventTime := EventTime example_event; IngestTime := IngestTime example_event |}.
Lemma example_last_trade_ok : trade_ok example_last_trade.
Proof. split; vm_compute; repeat first [reflexivity | discriminate | split]. Qed.

Definition example_events : list TradeEvent := [example_event; example_last_trade].
Lemma example_events_ok : Forall trade_ok example_events.
Proof. repeat constructor; apply example_event_ok || apply example_last_trade_ok. Qed.

Lemma OrderBook_serves_book_witness :
  let w := Write (Some (OrderBookStore_Run example_events NewOrderBookStore)) example_last_trade empty_redis in
  w = (w.1, None) /\
  ((unavailable (KeyOrderBook "BTCUSDT") w.1 /\ code (OrderBook_handler "BTCUSDT" w.1) = StatusServiceUnavailable) \/
   exists resp, OrderBook_handler "BTCUSDT" w.1 = writeJSON StatusOK (BodyBook resp) /\
     ob_BestBid resp = Some {| LevelPrice := f64_one; LevelQuantity := f64_one |}).
Proof.
  cbv zeta. set (r' := (Write _ _ empty_redis).1).
  assert (Write (Some (OrderBookStore_Run example_events NewOrderBookStore)) example_last_trade empty_redis = (r', None))
    as Hw by (vm_compute; reflexivity).
  split; [exact Hw|].
  destruct (OrderBook_serves_book example_events example_last_trade example_last_trade empty_redis r' "BTCUSDT"
              example_events_ok Hw ltac:(vm_compute; reflexivity) ltac:(discriminate) ltac:(vm_compute; reflexivity))
    as [[Hu Hl]|Hl]; rewrite Hl.
  - left. split; [exact Hu|reflexivity].
  - right. eexists. split; [reflexivity|]. vm_compute. reflexivity.
Defined.

(** A cached trade with a zone of 24 hours, and what the client gets. *)
Definition quoted (s : string) : string := String dquote s ++ String dquote "".
Definition far_trade : string := "{" ++ quoted "event_time" ++ ":" ++ quoted "2024-01-02T03:04:05+24:00" ++ "}".
Definition far_redis : mem_redis := {| mem := {[ KeyLatestTrade "BTCUSDT" := str far_trade ]}; up := true |}.

Lemma replies_typed_witness :
  let rep := LatestTrade "btcusdt" far_redis in
  code rep = StatusOK /\ written rep = [] /\ body_typed (payload rep).
Proof.
  cbv zeta. pose proof (replies_typed "btcusdt" far_redis _ (or_introl eq_refl)) as (Hb & Hw & Hc).
  assert (body_far (payload (LatestTrade "btcusdt" far_redis))) as Hf.
  { apply (bool_decide_unpack _). vm_compute. reflexivity. }
  split; [by apply Hc|]. split; [by apply Hw|done].
Defined.
