(* ===== verification/ApiHealth.v ===== *)
(** * api-service: the public health report (rest/health.go) and the wiring (internal/)

    [LagReporter] is the interface the handler holds; [cache_reporter] is the lag cache behind it
    and [notConfiguredLag] the null object.  [api_setup] is what [Service.Run] builds before it
    starts its goroutines, [PublicServer_Run] what the public listener returns. *)
From S2P Require Import Prelude GoBase Config GoTime Domain Runtime Handlers Pool RedisWriter KafkaLag LagCache HttpServer Api.
#[local] Open Scope Z_scope.

(** ** rest/health.go *)

Definition redisCheckTimeout : Z := 2 * Second.
Definition lagCheckTimeout : Z := 500 * Millisecond.

(** Two separate calls: what [Snapshot] returns may be newer than what [Check] judged. *)
Record LagReporter := {
  reporter_Snapshot : LagSnapshot;
  reporter_Check : Context -> option error;
}.
Definition notConfiguredLag : LagReporter :=
  {| reporter_Snapshot := zero_LagSnapshot; reporter_Check _ := Some (Sentinel ErrLagNotConfigured) |}.
(** The cache as it is when [Check] is called at [now], and as it is when [Snapshot] is. *)
Definition cache_reporter `{Unicode} (c c' : LagCache) (now : Time) : LagReporter :=
  {| reporter_Snapshot := Snapshot (Some c'); reporter_Check _ := LagCache_Check (Some c) now |}.

Record healthResponse := {
  hr_Status : string;
  hr_Service : string;
  hr_Build : version_Info;
  hr_Checks : gmap string string;
}.

Record HealthHandler := { redis : Context -> option error; lag : LagReporter }.
Definition NewHealthHandler (redis : Context -> option error) (lag : option LagReporter) : HealthHandler :=
  {| redis := redis; lag := default notConfiguredLag lag |}.

(** The lag entry of the report, and whether it is degraded. *)
Definition lagStatus (h : HealthHandler) (ctx : Context) (checks : gmap string string) : gmap string string * bool :=
  let err := reporter_Check (lag h) ctx in
  if Is err ErrLagNotConfigured then (<["kafka_consumer_lag" := "not_configured"]> checks, false)%string
  else match err with
       | Some err => (<["kafka_consumer_lag"%string := Error err]> checks, true)
       | None =>
           (<["kafka_consumer_lag"%string := pretty (Total (Lag (reporter_Snapshot (lag h))))]> checks, false)
       end.

(** [t1] and [t2] are the instants at which the two budgets start. *)
Definition Health `{BuildVars} (h : HealthHandler) (ctx : Context) (t1 t2 : Z) : Z * healthResponse :=
  let resp status checks :=
    {| hr_Status := status; hr_Service := "api-service"; hr_Build := GetInfo; hr_Checks := checks |} in
  let '(checks, degraded) := lagStatus h (WithTimeout ctx lagCheckTimeout t1) ∅ in
  let status := if degraded then "degraded"%string else "ok"%string in
  match redis h (WithTimeout ctx redisCheckTimeout t2) with
  | Some err => (StatusServiceUnavailable, resp "degraded"%string (<["redis"%string := Error err]> checks))
  | None => (StatusOK, resp status (<["redis" := "ok"]> checks)%string)
  end.

(** ** internal/server.go *)

(** [ListenAndServe] returned an error that is [http.ErrServerClosed], or any other outcome. *)
Definition PublicServer_Run (e : serve_end) : option error :=
  match e with
  | Listened err => if bool_decide (err <> None) && Is err HTTPErrServerClosed then err else None
  | ShutDown err => err
  end.

(** ** internal/service.go *)

(** The checkers the service registers with its ops server; the second refers to the lag cache, which
    goes on changing, so what they report is only known in a [world]. *)
Inductive api_checker := CheckRedis | CheckLag.

Record world (R : Type) := { world_redis : R; world_cache : LagCache; world_now : Time }.
Arguments world_redis {R} _.
Arguments world_cache {R} _.
Arguments world_now {R} _.

Section Service.
Context {R : Type} `{Redis R} `{Unicode}.
Context (dial_redis : RedisConfig -> R).
Context (dial_kafka : list string -> result error admin_client).

Definition checker_in (w : world R) (c : api_checker) : Checker lag_detail :=
  match c with
  | CheckRedis =>
      {| c_Name := RedisReader_Name; c_Check _ := RedisReader_Check (world_redis w); c_Details := None |}
  | CheckLag =>
      {| c_Name := LagCache_Name; c_Check _ := LagCache_Check (Some (world_cache w)) (world_now w);
         c_Details := Some (LagCache_Details (Some (world_cache w)) (world_now w)) |}
  end.

(** The reader that the background refresh uses, and the new cache ([None]: nil is returned). *)
Definition startLagCache (cfg : Config) (ops : healthRegistry api_checker) :
  option (LagReader * LagCache) * healthRegistry api_checker :=
  match NewLagReader dial_kafka (Brokers (Kafka cfg)) ConsumerGroupProcessor TopicTradesRaw with
  | Err _ => (None, ops)
  | Ok reader =>
      (Some (reader, NewLagCache (LagRefreshInterval (Kafka cfg))), registry_add CheckLag ops)
  end.

(** What [Run] has built when it starts its goroutines. *)
Record api_wiring := {
  w_reader : R;
  w_lag : option (LagReader * LagCache);
  w_public_addr : string;
  w_ops : healthRegistry api_checker;
}.
Definition api_setup (cfg : Config) (ops : healthRegistry api_checker) : result error api_wiring :=
  let rc := RedisCfg cfg in
  match NewRedisReader dial_redis (RedisAddr rc) (RedisPassword rc) (RedisDB rc) with
  | Err err => Err (Errorf_w "redis reader: " err)
  | Ok reader =>
      let ops := registry_add CheckRedis ops in
      let '(lag, ops) := startLagCache cfg ops in
      Ok {| w_reader := reader; w_lag := lag; w_public_addr := PublicAddr (API cfg); w_ops := ops |}
  end.

(** The handler behind the public endpoint; both its reads of the cache see the same world. *)
Definition public_health (s : api_wiring) (w : world R) : HealthHandler :=
  NewHealthHandler (fun _ => RedisReader_Check (world_redis w))
    ((fun _ => cache_reporter (world_cache w) (world_cache w) (world_now w)) <$> w_lag s).
(** The results [runChecks] collects on the ops server. *)
Definition ops_checks (s : api_wiring) (w : world R) (ctx : Context) (now : Z) : list (checkResult lag_detail) :=
  map (fun c => check_one ctx now (checker_in w c)) (registry_snapshot (w_ops s)).

(** [Run] waits for the public server and, if there is one, the refresh loop. *)
Definition api_Run `{Errgroup} (cfg : Config) (ops : healthRegistry api_checker) (e : serve_end)
    (refresher : option error) : option error :=
  match api_setup cfg ops with
  | Err err => Some err
  | Ok s =>
      group_Wait (match w_lag s with Some _ => [refresher] | None => [] end ++ [PublicServer_Run e])
  end.
End Service.

(** ** Lemmas *)

Definition lag_ok (h : HealthHandler) (ctx : Context) : Prop :=
  let err := reporter_Check (lag h) ctx in err = None \/ Is err ErrLagNotConfigured = true.

(** What the lag entry of the report says. *)
Definition lag_text (h : HealthHandler) (ctx : Context) : string :=
  match reporter_Check (lag h) ctx with
  | None => pretty (Total (Lag (reporter_Snapshot (lag h))))
  | Some err => if errors_Is err ErrLagNotConfigured then "not_configured"%string else Error err
  end.

Lemma lagStatus_spec h ctx checks :
  (lagStatus h ctx checks).1 = <["kafka_consumer_lag"%string := lag_text h ctx]> checks /\
  ((lagStatus h ctx checks).2 = false <-> lag_ok h ctx).
Proof.
  unfold lagStatus, lag_text, lag_ok. destruct (reporter_Check (lag h) ctx) as [err|]; cbn [Is].
  - destruct (errors_Is err ErrLagNotConfigured); (split; [done|]); split; try done; [by right|by intros [|]].
  - split; [done|]. split; [by left|done].
Qed.

Lemma degraded_not_ok : "degraded"%string <> "ok"%string.
Proof. done. Qed.

(** The error of the lag cache is never the one of the null object. *)
Lemma LagCache_Check_configured `{Unicode} (c : LagCache) now :
  (forall err, SErr (Snapshot (Some c)) = Some err -> errors_Is err ErrLagNotConfigured = false) ->
  Is (LagCache_Check (Some c) now) ErrLagNotConfigured = false.
Proof.
  intros Herr. unfold LagCache_Check. destruct (IsZero _).
  { destruct (SErr _) as [err|] eqn:He; cbn [Is]; [by apply (Herr err)|done]. }
  destruct (_ <? _).
  { destruct (SErr _) as [err|] eqn:He; cbn [Is]; [by apply (Herr err)|done]. }
  by destruct (Stalled _).
Qed.

Lemma handleHealth_code `{BuildVars} {D : Type} (rs : list (checkResult D)) :
  (handleHealth rs).1 = if existsb unhealthy rs then StatusServiceUnavailable else StatusOK.
Proof.
  unfold handleHealth. pose proof (add_results rs "ok" ∅ ∅ ltac:(by left)) as Hadd.
  destruct (fold_left add_result rs ("ok"%string, ∅, ∅)) as [[status checks] details].
  destruct Hadd as [-> _]. by destruct (existsb unhealthy rs).
Qed.

Lemma wrapped_None prefix (err : option error) :
  match err with Some err => Some (Errorf_w prefix err) | None => None end = None <-> err = None.
Proof. by destruct err. Qed.

(** ** Properties *)

(** The public health report: 503 exactly if Redis does not answer within its own two-second budget,
    200 otherwise, whatever the lag; the status is "ok" exactly if Redis answers and the lag check,
    under a budget of its own, passes or is not configured, and "degraded" otherwise; the checks
    are exactly the two, each with "ok", its error, the total lag or "not_configured". *)
Theorem Health_decides `{BuildVars} (h : HealthHandler) (ctx : Context) (t1 t2 : Z) :
  let '(code, resp) := Health h ctx t1 t2 in
  let err := redis h (WithTimeout ctx redisCheckTimeout t2) in
  let lag_ctx := WithTimeout ctx lagCheckTimeout t1 in
  (code = StatusServiceUnavailable <-> err <> None) /\ (code = StatusOK <-> err = None) /\
  (hr_Status resp = "ok"%string <-> err = None /\ lag_ok h lag_ctx) /\
  (hr_Status resp = "ok"%string \/ hr_Status resp = "degraded"%string) /\
  hr_Checks resp = {[ "redis" := match err with Some err => Error err | None => "ok" end;
                      "kafka_consumer_lag" := lag_text h lag_ctx ]}%string /\
  hr_Build resp = GetInfo.
Proof.
  unfold Health. destruct (lagStatus_spec h (WithTimeout ctx lagCheckTimeout t1) ∅) as [Hc Hd].
  destruct (lagStatus h _ ∅) as [checks degraded]. cbn [fst snd] in Hc, Hd. subst checks.
  destruct (redis h (WithTimeout ctx redisCheckTimeout t2)) as [err|]; cbn [hr_Status hr_Checks hr_Build].
  - conj; try done.
    + split; [by intros ?%degraded_not_ok|by intros [? _]].
    + by right.
  - conj; try done.
    + rewrite <- Hd. destruct degraded; [|done]. split; [by intros ?%degraded_not_ok|by intros [_ ?]].
    + destruct degraded; [by right|by left].
Qed.

Section WiringProperties.
Context {R : Type} `{Redis R} `{Unicode} `{BuildVars}.

(** C28: the two health reports of api-service, once it is wired: in every state of Redis and of the lag
    cache the public one takes the instance out of rotation exactly if Redis does not answer, while
    that of the ops server also fails if a lag cache runs and its check fails; so a lagging or
    dead pipeline behind a reachable Redis never stops the public reads. *)
Theorem api_health_reports (dial_redis : RedisConfig -> R)
    (dial_kafka : list string -> result error admin_client) (cfg : Config) (s : api_wiring (R := R))
    (w : world R) (ctx : Context) (t1 t2 now : Z) :
  api_setup dial_redis dial_kafka cfg {| checkers := [] |} = Ok s ->
  let public := Health (public_health s w) ctx t1 t2 in
  let ops := handleHealth (ops_checks s w ctx now) in
  let lag_err := LagCache_Check (Some (world_cache w)) (world_now w) in
  (public.1 = StatusServiceUnavailable <-> redis_Ping (world_redis w) <> None) /\
  (ops.1 = StatusServiceUnavailable <->
     redis_Ping (world_redis w) <> None \/ (w_lag s <> None /\ lag_err <> None)) /\
  (w_lag s = None -> hr_Checks public.2 !! "kafka_consumer_lag"%string = Some "not_configured"%string).
Proof.
  intros Hs. unfold api_setup in Hs. destruct (NewRedisReader _ _ _ _) as [reader|]; [|done].
  destruct (startLagCache dial_kafka cfg _) as [lag ops] eqn:Hlag. injection Hs as <-. cbv zeta.
  assert (redis_Ping (world_redis w) <> None <-> RedisReader_Check (world_redis w) <> None) as Hping.
  { unfold RedisReader_Check. by rewrite wrapped_None. }
  pose proof (lagStatus_spec (public_health
    {| w_reader := reader; w_lag := lag; w_public_addr := PublicAddr (API cfg); w_ops := ops |} w)
    (WithTimeout ctx lagCheckTimeout t1) ∅) as [Hc _].
  unfold Health. destruct (lagStatus _ _ ∅) as [checks degraded]. cbn [fst] in Hc. subst checks.
  cbn [public_health NewHealthHandler redis]. unfold ops_checks, registry_snapshot.
  rewrite handleHealth_code. cbn [w_ops w_lag]. unfold startLagCache in Hlag. conj.
  - rewrite Hping. destruct (RedisReader_Check (world_redis w)); cbn [fst]; [done|]. split; [done|by intros []].
  - rewrite Hping. destruct (NewLagReader _ _ _ _) as [lr|]; injection Hlag as <- <-;
      cbn [checkers registry_add app map check_one checker_in existsb unhealthy r_err c_Check fst];
      destruct (RedisReader_Check (world_redis w)); cbn [orb]; try (split; [by left|done]).
    + destruct (LagCache_Check _ _); cbn [orb]; split; (done || (intros _; right; done) || intros [?|[_ ?]]; done).
    + split; [done|intros [?|[? _]]; done].
  - intros ->. destruct (RedisReader_Check (world_redis w)); cbn [snd hr_Checks];
      by rewrite lookup_insert_ne, lookup_insert_eq by done.
Qed.

(** A public listener that fails is not reported: for every error other than the one of a deliberate
    shutdown, the public server returns nil where the ops server returns the error, and so the
    whole service returns nil; only the harmless error comes back as a failure. *)
Theorem PublicServer_hides_failure `{Errgroup} (dial_redis : RedisConfig -> R)
    (dial_kafka : list string -> result error admin_client) (cfg : Config) (s : api_wiring (R := R)) (err : error) :
  api_setup dial_redis dial_kafka cfg {| checkers := [] |} = Ok s ->
  errors_Is err HTTPErrServerClosed = false ->
  Start (Listened (Some err)) = Some err /\ PublicServer_Run (Listened (Some err)) = None /\
  api_Run dial_redis dial_kafka cfg {| checkers := [] |} (Listened (Some err)) None = None /\
  Start (Listened (Some (Sentinel HTTPErrServerClosed))) = None /\
  PublicServer_Run (Listened (Some (Sentinel HTTPErrServerClosed))) = Some (Sentinel HTTPErrServerClosed).
Proof.
  intros Hs He.
  assert (PublicServer_Run (Listened (Some err)) = None) as Hnone.
  { unfold PublicServer_Run. cbn [Is]. by rewrite He, andb_false_r. }
  unfold api_Run. rewrite Hs, Hnone. unfold Start. cbn [Is]. rewrite He.
  split; [done|]. split; [done|]. split; [|done].
  apply group_Wait_nil. destruct (w_lag s); repeat constructor.
Qed.
End WiringProperties.

(** ** An instance: the configuration of docker-compose, a broker that cannot be reached *)

Definition compose_wiring : result error (api_wiring (R := mem_redis)) :=
  api_setup (fun _ => empty_redis) (fun _ => Ok (fun _ => Err (ErrorString "unable to dial"))) compose_config
    {| checkers := [] |}.
Definition compose_world : world mem_redis :=
  {| world_redis := empty_redis; world_now := example_lag_now;
     world_cache := (refresh (Err (ErrorString "unable to dial")) example_lag_now (NewLagCache (10 * Second))).1 |}.

(** Redis is up, the lag is unknown: 200 for the public, 503 for operations. *)
Lemma api_health_reports_witness :
  exists s, compose_wiring = Ok s /\
    (Health (H := default_vars) (@public_health _ _ ascii_only s compose_world) Background 0 0).1 <> StatusServiceUnavailable /\
    (handleHealth (H := default_vars) (@ops_checks _ _ ascii_only s compose_world Background 0)).1 = StatusServiceUnavailable.
Proof.
  eexists. split; [reflexivity|].
  pose proof (@api_health_reports mem_redis _ ascii_only default_vars (fun _ => empty_redis)
    (fun _ => Ok (fun _ => Err (ErrorString "unable to dial"))) compose_config _ compose_world Background 0 0 0 eq_refl)
    as (Hpub & Hops & _).
  split.
  - intros Hp. by apply Hpub.
  - apply Hops. right. split; [discriminate|]. vm_compute. discriminate.
Defined.

Lemma PublicServer_hides_failure_witness :
  exists s, compose_wiring = Ok s /\ w_public_addr s = ""%string /\
    PublicServer_Run (Listened (Some (ErrorString "listen tcp :80: bind: permission denied"))) = None.
Proof.
  eexists. split; [reflexivity|]. split; [vm_compute; reflexivity|].
  apply (@PublicServer_hides_failure mem_redis first_error_group (fun _ => empty_redis)
    (fun _ => Ok (fun _ => Err (ErrorString "unable to dial"))) compose_config _
    (ErrorString "listen tcp :80: bind: permission denied") eq_refl eq_refl).
Defined.
