(* ===== verification/HealthWire.v ===== *)
(** * What the health endpoints write: the JSON of rest/health.go, httpserver/server.go and kafka/lag.go

    The struct tags of the two health reports and of the lag details, and the text each endpoint
    sends; a map is written with its keys in order.  [healthResponse_fields] is what a client
    that decodes a report into the struct of rest/health.go reads. *)
From S2P Require Import Prelude GoBase Decimal Float64 Json JsonFacts GoTime GoTimeFacts Domain Wire WireTypes Handlers KafkaLag LagCache HttpServer Api ApiHealth.
From stdpp Require Import sorting.
#[local] Open Scope Z_scope.

(** ** Maps *)

Definition key_le {V : Type} (a b : string * V) : Prop := String.leb a.1 b.1 = true.
#[export] Instance key_le_dec {V : Type} : RelDecision (@key_le V).
Proof. intros a b. unfold key_le. apply _. Defined.

Definition sorted_entries {V : Type} (m : gmap string V) : list (string * V) := merge_sort key_le (map_to_list m).
Definition encode_entry {V : Type} (enc : V -> result error json) (kv : string * V) : result error (bytes * json) :=
  j ← enc kv.2; Ok (escape kv.1, j).
Fixpoint encode_entries {V : Type} (enc : V -> result error json) (kvs : list (string * V)) : result error members :=
  match kvs with
  | [] => Ok []
  | kv :: kvs' => e ← encode_entry enc kv; es ← encode_entries enc kvs'; Ok (e :: es)
  end.
Definition encode_map {V : Type} (enc : V -> result error json) (m : gmap string V) : result error json :=
  JObject <$> encode_entries enc (sorted_entries m).
Definition encode_string_map : gmap string string -> result error json := encode_map (fun s => Ok (json_string s)).

Fixpoint decode_entries (kvs : members) (m : gmap string string) : result error (gmap string string) :=
  match kvs with
  | [] => Ok m
  | (k, v) :: kvs' => x ← decode_string v ""%string; decode_entries kvs' (<[unescape k := x]> m)
  end.
Definition decode_string_map : decoder (gmap string string) := fun j old =>
  match j with
  | JNull => Ok ∅
  | JObject kvs => decode_entries kvs old
  | _ => Err UnmarshalTypeError
  end.

(** ** The reports *)

Definition encode_version_Info (i : version_Info) : json :=
  JObject (member "version" (json_string (Version i)) ++ member "commit" (json_string (Commit i)) ++
           member "date" (json_string (VersionDate i))).

(** rest/health.go: the public report. *)
Definition encode_healthResponse (r : healthResponse) : result error json :=
  checks ← encode_string_map (hr_Checks r);
  Ok (JObject (member "status" (json_string (hr_Status r)) ++ member "service" (json_string (hr_Service r)) ++
               member "build" (encode_version_Info (hr_Build r)) ++ member "checks" checks)).

(** httpserver/server.go: the report of the ops server; its handler leaves the service name empty,
    and [omitempty] drops it; [detail] is the encoding of the checkers' details. *)
Definition encode_details {D : Type} (detail : D -> result error json) (details : option (gmap string D)) :
  result error members :=
  match details with
  | None => Ok []
  | Some m => member "details" <$> encode_map detail m
  end.
Definition encode_ops_healthResponse {D : Type} (detail : D -> result error json) (r : ops_healthResponse D) :
  result error json :=
  checks ← encode_string_map (h_Checks r);
  details ← encode_details detail (h_Details r);
  Ok (JObject (member "status" (json_string (h_Status r)) ++ member "build" (encode_version_Info (h_Build r)) ++
               member "checks" checks ++ details)).

(** The liveness report. *)
Definition encode_live (r : string * version_Info) : json :=
  JObject (member "status" (json_string r.1) ++ member "build" (encode_version_Info r.2)).

(** kafka/lag.go and lag_cache.go: the details of the lag checker, a map whose keys are written in order. *)
Definition encode_PartitionLag (p : PartitionLag) : json :=
  JObject (member "partition" (json_int (LagPartition p)) ++ member "lag" (json_int (PLag p)) ++
           omitempty (bool_decide (PError p = ""%string)) (member "error" (json_string (PError p)))).
Definition present {A : Type} (name : string) (enc : A -> json) (x : option A) : members :=
  match x with Some a => member name (enc a) | None => [] end.
Definition encode_lag_detail (d : lag_detail) : result error json :=
  as_of ← match d_as_of d with None => Ok [] | Some t => member "as_of" <$> json_time t end;
  Ok (JObject (present "age_seconds" json_int (d_age_seconds d) ++ as_of ++
               member "failures" (json_int (d_failures d)) ++ member "group" (json_string (d_group d)) ++
               present "last_error" json_string (d_last_error d) ++
               member "members" (json_int (d_members d)) ++
               present "partitions" (fun ps => JArray (map encode_PartitionLag ps)) (d_partitions d) ++
               member "stalled" (JBool (d_stalled d)) ++ member "state" (json_string (d_state d)) ++
               member "topic" (json_string (d_topic d)) ++ member "total" (json_int (d_total d)))).

(** What [json.NewEncoder(w).Encode] has written when it returns: all or, on an error, nothing. *)
Definition Encode (j : result error json) : bytes :=
  match j with Ok j => print j ++ [ascii_of_nat 10] | Err _ => [] end.

(** ** A client of the reports *)

Definition zero_version_Info : version_Info := {| Version := ""; Commit := ""; VersionDate := "" |}.
Definition zero_healthResponse : healthResponse :=
  {| hr_Status := ""; hr_Service := ""; hr_Build := zero_version_Info; hr_Checks := ∅ |}.
Definition version_Info_fields : fields version_Info := [
  field "version" Version (fun x i => {| Version := x; Commit := Commit i; VersionDate := VersionDate i |}) decode_string;
  field "commit" Commit (fun x i => {| Version := Version i; Commit := x; VersionDate := VersionDate i |}) decode_string;
  field "date" VersionDate (fun x i => {| Version := Version i; Commit := Commit i; VersionDate := x |}) decode_string].
Definition healthResponse_fields : fields healthResponse := [
  field "status" hr_Status
    (fun x r => {| hr_Status := x; hr_Service := hr_Service r; hr_Build := hr_Build r; hr_Checks := hr_Checks r |}) decode_string;
  field "service" hr_Service
    (fun x r => {| hr_Status := hr_Status r; hr_Service := x; hr_Build := hr_Build r; hr_Checks := hr_Checks r |}) decode_string;
  field "build" hr_Build
    (fun x r => {| hr_Status := hr_Status r; hr_Service := hr_Service r; hr_Build := x; hr_Checks := hr_Checks r |})
    (decode_struct version_Info_fields);
  field "checks" hr_Checks
    (fun x r => {| hr_Status := hr_Status r; hr_Service := hr_Service r; hr_Build := hr_Build r; hr_Checks := x |})
    decode_string_map].
Definition read_report (l : bytes) : result error healthResponse :=
  unmarshal (decode_struct healthResponse_fields) l zero_healthResponse.

(** ** Lemmas *)

Definition ascii_entry (kv : string * string) : Prop := isASCII kv.1 = true /\ isASCII kv.2 = true.

Lemma sorted_entries_perm {V : Type} (m : gmap string V) : sorted_entries m ≡ₚ map_to_list m.
Proof. apply merge_sort_Permutation. Qed.

Lemma sorted_entries_map {V : Type} (m : gmap string V) : list_to_map (sorted_entries m) = m.
Proof.
  rewrite <- (list_to_map_to_list m) at 2. apply list_to_map_proper; [|apply sorted_entries_perm].
  rewrite sorted_entries_perm. apply NoDup_fst_map_to_list.
Qed.

Lemma sorted_entries_nodup {V : Type} (m : gmap string V) : NoDup (sorted_entries m).*1.
Proof. rewrite sorted_entries_perm. apply NoDup_fst_map_to_list. Qed.

Lemma sorted_entries_forall {V : Type} (P : string * V -> Prop) (m : gmap string V) :
  map_Forall (fun k v => P (k, v)) m -> Forall P (sorted_entries m).
Proof.
  intros Hm. apply Forall_forall. intros [k v] Hin. rewrite sorted_entries_perm in Hin.
  apply elem_of_map_to_list in Hin. by apply Hm.
Qed.

(** A map whose values encode to well-formed trees is encoded to one. *)
Lemma encode_entries_wf {V : Type} (enc : V -> result error json) d kvs :
  Forall (fun kv => isASCII kv.1 = true /\ exists j, enc kv.2 = Ok j /\ wf d j) kvs ->
  exists ms, encode_entries enc kvs = Ok ms /\ Forall (member_wf d) ms.
Proof.
  induction 1 as [|[k v] kvs (Hk & j & Hj & Hw) _ (ms & Hms & Hws)]; [by exists []|].
  exists ((escape k, j) :: ms). cbn [encode_entries encode_entry fst snd]. unfold encode_entry.
  cbn [fst snd] in *. rewrite Hj, Hms. split; [done|]. constructor; [|done]. split; [by apply escape_raw_ok|done].
Qed.

Lemma encode_map_wf {V : Type} (enc : V -> result error json) d (m : gmap string V) :
  map_Forall (fun k v => isASCII k = true /\ exists j, enc v = Ok j /\ wf d j) m ->
  exists j, encode_map enc m = Ok j /\ wf (S d) j.
Proof.
  intros Hm. destruct (encode_entries_wf enc d (sorted_entries m)) as (ms & Hms & Hw).
  { by apply (sorted_entries_forall (fun kv => isASCII kv.1 = true /\ exists j, enc kv.2 = Ok j /\ wf d j)). }
  exists (JObject ms). unfold encode_map. by rewrite Hms.
Qed.

Lemma decode_entries_encoded kvs m0 :
  NoDup kvs.*1 -> Forall ascii_entry kvs ->
  exists ms, encode_entries (fun s => Ok (json_string s)) kvs = Ok ms /\ Forall (member_wf 0) ms /\
    decode_entries ms m0 = Ok (list_to_map kvs ∪ m0).
Proof.
  intros Hnd Ha. revert m0 Hnd. induction Ha as [|[k v] kvs [Hk Hv] _ IH]; intros m0 Hnd.
  { exists []. split; [done|]. split; [done|]. cbn. by rewrite (left_id_L ∅ (∪)). }
  rewrite fmap_cons in Hnd. apply NoDup_cons in Hnd as [Hni Hnd]. cbn [fst snd] in *.
  destruct (IH (<[k := v]> m0) Hnd) as (ms & Hms & Hw & Hd).
  exists ((escape k, json_string v) :: ms). cbn [encode_entries]. unfold encode_entry. cbn [fst snd mbind result_bind].
  rewrite Hms. split; [done|]. split.
  - constructor; [|done]. split; [by apply escape_raw_ok|by apply json_string_wf].
  - cbn [decode_entries]. rewrite decode_json_string by done. cbn [mbind result_bind].
    rewrite unescape_escape, Hd by done. f_equal. cbn [list_to_map]. rewrite <- insert_union_r, insert_union_l; [done|].
    by apply not_elem_of_list_to_map.
Qed.

Lemma string_map_spec (m : gmap string string) :
  map_Forall (fun k v => ascii_entry (k, v)) m ->
  exists j, encode_string_map m = Ok j /\ (forall d, wf (S d) j) /\ decode_string_map j ∅ = Ok m.
Proof.
  intros Hm. destruct (decode_entries_encoded (sorted_entries m) ∅) as (ms & Hms & Hw & Hd).
  { apply sorted_entries_nodup. }
  { by apply sorted_entries_forall. }
  exists (JObject ms). unfold encode_string_map, encode_map. rewrite Hms. split; [done|]. split.
  - intros d. apply wf_object. eapply Forall_impl; [exact Hw|]. intros kv [? ?]. split; [done|].
    eapply (wf_depth 0); [lia|done].
  - cbn [decode_string_map]. rewrite Hd, sorted_entries_map. by rewrite (right_id_L ∅ (∪)).
Qed.

Definition info_ok (i : version_Info) : Prop :=
  isASCII (Version i) = true /\ isASCII (Commit i) = true /\ isASCII (VersionDate i) = true.
(** All the text in a report is ASCII. *)
Record report_ok (r : healthResponse) : Prop := {
  ok_status : isASCII (hr_Status r) = true;
  ok_service : isASCII (hr_Service r) = true;
  ok_build : info_ok (hr_Build r);
  ok_checks : map_Forall (fun k v => ascii_entry (k, v)) (hr_Checks r);
}.

Lemma info_spec i :
  info_ok i ->
  (forall d, wf (S d) (encode_version_Info i)) /\
  decode_struct version_Info_fields (encode_version_Info i) zero_version_Info = Ok i.
Proof.
  intros (Hv & Hc & Hd). split; [intros d; apply wf_object; wf_members|].
  cbn [decode_struct encode_version_Info]. rewrite <- (app_nil_r (member "date" _)).
  repeat (erewrite decode_member; [|reflexivity|by apply decode_json_string]). by destruct i.
Qed.

Lemma encode_healthResponse_spec r :
  report_ok r ->
  exists j, encode_healthResponse r = Ok j /\ wf 2 j /\ decode_struct healthResponse_fields j zero_healthResponse = Ok r.
Proof.
  intros [Hs Hv Hb Hc]. destruct (string_map_spec _ Hc) as (jc & Hjc & Hcw & Hcd), (info_spec _ Hb) as [Hbw Hbd].
  unfold encode_healthResponse. rewrite Hjc. eexists. split; [reflexivity|]. split.
  - apply wf_object. wf_members.
  - cbn [decode_struct]. rewrite <- (app_nil_r (member "checks" _)).
    erewrite decode_member; [|reflexivity|by apply decode_json_string].
    erewrite decode_member; [|reflexivity|by apply decode_json_string].
    erewrite decode_member; [|reflexivity|exact Hbd].
    erewrite decode_member; [|reflexivity|exact Hcd]. by destruct r.
Qed.

(** What a client reads of the ops report: all but the details. *)
Definition without_details {D : Type} (r : ops_healthResponse D) : healthResponse :=
  {| hr_Status := h_Status r; hr_Service := ""; hr_Build := h_Build r; hr_Checks := h_Checks r |}.

Lemma encode_ops_spec {D : Type} (detail : D -> result error json) n (r : ops_healthResponse D) :
  report_ok (without_details r) ->
  (forall m, h_Details r = Some m ->
     map_Forall (fun k v => isASCII k = true /\ exists j, detail v = Ok j /\ wf n j) m) ->
  exists j, encode_ops_healthResponse detail r = Ok j /\ wf (S (S n)) j /\
            decode_struct healthResponse_fields j zero_healthResponse = Ok (without_details r).
Proof.
  intros [Hs Hv Hb Hc] Hdet. destruct (string_map_spec _ Hc) as (jc & Hjc & Hcw & Hcd), (info_spec _ Hb) as [Hbw Hbd].
  cbn [without_details hr_Status hr_Build hr_Checks] in *.
  assert (exists ms, encode_details detail (h_Details r) = Ok ms /\ Forall (member_wf (S n)) ms /\
            forall a, decode_members healthResponse_fields ms a = Ok a) as (ms & Hms & Hmw & Hmd).
  { unfold encode_details. destruct (h_Details r) as [m|]; [|by exists []].
    destruct (encode_map_wf detail n m (Hdet m eq_refl)) as (jd & -> & Hw). eexists. split; [reflexivity|].
    split; [apply member_wf_intro; [intros ?; reflexivity|done]|]. done. }
  unfold encode_ops_healthResponse. rewrite Hjc. cbn [mbind result_bind]. rewrite Hms. eexists.
  split; [reflexivity|]. split.
  - apply wf_object. repeat apply Forall_app_2; try done; wf_members.
  - cbn [decode_struct].
    erewrite decode_member; [|reflexivity|by apply decode_json_string].
    erewrite decode_member; [|reflexivity|exact Hbd].
    erewrite decode_member; [|reflexivity|exact Hcd]. by rewrite Hmd.
Qed.

(** The newline of the encoder is white space after the document. *)
Lemma read_sent d j :
  (d <= maxNestingDepth)%nat -> wf d j ->
  read_report (print j ++ [ascii_of_nat 10]) = decode_struct healthResponse_fields j zero_healthResponse.
Proof. intros Hd Hw. unfold read_report, unmarshal. by rewrite (parse_line d). Qed.

(** A detail whose text is ASCII and whose reading has a year that can be written. *)
Record detail_ok (d : lag_detail) : Prop := {
  ok_group : isASCII (d_group d) = true;
  ok_topic : isASCII (d_topic d) = true;
  ok_state : isASCII (d_state d) = true;
  ok_partitions : Forall (fun p => isASCII (PError p) = true) (default [] (d_partitions d));
  ok_as_of : from_option time_ok True (d_as_of d);
  ok_last_error : from_option (fun s => isASCII s = true) True (d_last_error d);
}.

Lemma present_wf {A : Type} d name (enc : A -> json) x :
  raw_ok (str name) -> (forall a, x = Some a -> wf d (enc a)) -> Forall (member_wf d) (present name enc x).
Proof. intros Hn Hw. destruct x as [a|]; [|done]. apply member_wf_intro; [done|by apply Hw]. Qed.

Lemma encode_lag_detail_wf d : detail_ok d -> exists j, encode_lag_detail d = Ok j /\ wf 3 j.
Proof.
  intros [Hg Ht Hs Hp Ha Hl]. unfold encode_lag_detail.
  assert (exists ms, match d_as_of d with None => Ok [] | Some t => member "as_of" <$> json_time t end = @Ok error members ms /\
            Forall (member_wf 2) ms) as (ms & Hms & Hmw).
  { destruct (d_as_of d) as [t|]; [|by exists []]. destruct (json_time_spec t Ha) as (j & -> & Hw & _).
    eexists. split; [reflexivity|]. apply member_wf_intro; [raw_name|done]. }
  unfold members in *. rewrite Hms. eexists. split; [reflexivity|]. apply wf_object.
  repeat apply Forall_app_2; try done; try (apply present_wf; [raw_name|]); wf_members.
  - intros n _. apply json_int_wf.
  - intros s He. rewrite He in Hl. by apply json_string_wf.
  - intros ps He. rewrite He in Hp. change (Forall (wf 1) (map encode_PartitionLag ps)). apply Forall_map.
    eapply Forall_impl; [exact Hp|]. intros p Hpe. change (isASCII (PError p) = true) in Hpe. apply wf_object. wf_members.
Qed.

(** The details in a report are those of its results. *)
Lemma add_results_details {D : Type} (rs : list (checkResult D)) status checks :
  let details := (fold_left add_result rs (status, checks, ∅)).2 in
  (forall k d, details !! k = Some d -> exists r, r ∈ rs /\ r_name r = k /\ r_detail r = Some d) /\
  (details = ∅ -> forall r, r ∈ rs -> r_detail r = None).
Proof.
  induction rs as [|r rs IH] using rev_ind; [split; [by intros k d|intros _ r Hr; by apply elem_of_nil in Hr]|].
  rewrite fold_left_app. destruct (fold_left add_result rs (status, checks, ∅)) as [[s1 c1] d1]. cbv zeta in *.
  destruct IH as [Hin Hout]. cbn [fold_left snd] in *.
  assert ((add_result (s1, c1, d1) r).2 = match r_detail r with Some d => <[r_name r := d]> d1 | None => d1 end) as ->.
  { unfold add_result. by destruct (r_err r). }
  destruct (r_detail r) as [d0|] eqn:Hd; (split; [intros k d Hk|intros He r' Hr']).
  - apply lookup_insert_Some in Hk as [[<- <-]|[_ Hk]].
    + exists r. split; [apply elem_of_app; right; left|done].
    + destruct (Hin k d Hk) as (r' & Hr' & ?). exists r'. split; [apply elem_of_app; by left|done].
  - by apply insert_non_empty in He.
  - destruct (Hin k d Hk) as (r' & Hr' & ?). exists r'. split; [apply elem_of_app; by left|done].
  - apply elem_of_app in Hr' as [Hr'| ->%list_elem_of_singleton]; [by apply Hout|done].
Qed.

Lemma handleHealth_details `{BuildVars} {D : Type} (rs : list (checkResult D)) :
  match h_Details (handleHealth rs).2 with
  | Some m => (forall k d, m !! k = Some d -> exists r, r ∈ rs /\ r_name r = k /\ r_detail r = Some d) /\
              (exists r, r ∈ rs /\ r_detail r <> None)
  | None => forall r, r ∈ rs -> r_detail r = None
  end.
Proof.
  unfold handleHealth. pose proof (add_results_details rs "ok" ∅) as Hd.
  destruct (fold_left add_result rs _) as [[status checks] details]. cbn [snd h_Details] in *.
  destruct Hd as [Hin Hout]. case_bool_decide as He; [by apply Hout|]. split; [done|].
  destruct (map_choose _ He) as (k & d & Hk). destruct (Hin k d Hk) as (r & Hr & _ & Hd). exists r. by rewrite Hd.
Qed.

Lemma encode_ops_keys {D : Type} (detail : D -> result error json) (r : ops_healthResponse D) j :
  encode_ops_healthResponse detail r = Ok j ->
  exists kvs, j = JObject kvs /\ (str "details" ∈ kvs.*1 <-> h_Details r <> None).
Proof.
  unfold encode_ops_healthResponse, encode_details. destruct (encode_string_map _) as [jc|]; [|done].
  cbn [mbind result_bind]. destruct (h_Details r) as [m|].
  - destruct (encode_map detail m) as [jd|]; [|done]. intros [= <-]. eexists. split; [reflexivity|].
    split; [done|]. intros _. cbn. do 3 right. left.
  - intros [= <-]. eexists. split; [reflexivity|]. cbn. split; [|done]. intros Hin.
    repeat (apply elem_of_cons in Hin as [Hin|Hin]; [discriminate|]). by apply elem_of_nil in Hin.
Qed.

(** ** Properties *)

(** C21: what the two health endpoints send, if all text is ASCII and no reading of the lag is dated
    outside the years 0 to 9999, is one JSON document which a client that decodes it into the
    report gets back without any change: status, service, build and every check; the ops report has
    "details" exactly if some checker gave some, and they do not disturb the rest. *)
Theorem health_texts `{BuildVars} (h : HealthHandler) (ctx : Context) (t1 t2 : Z) (rs : list (checkResult lag_detail)) :
  report_ok (Health h ctx t1 t2).2 -> report_ok (without_details (handleHealth rs).2) ->
  Forall (fun r => isASCII (r_name r) = true /\ from_option detail_ok True (r_detail r)) rs ->
  let public := (Health h ctx t1 t2).2 in
  let ops := (handleHealth rs).2 in
  let ops_text := Encode (encode_ops_healthResponse encode_lag_detail ops) in
  read_report (Encode (encode_healthResponse public)) = Ok public /\
  read_report ops_text = Ok (without_details ops) /\
  exists kvs, parse ops_text = Some (JObject kvs) /\
    (str "details" ∈ kvs.*1 <-> exists r, r ∈ rs /\ r_detail r <> None).
Proof.
  intros Hp Ho Hrs public ops ops_text.
  assert (2 <= maxNestingDepth /\ 5 <= maxNestingDepth)%nat as [H2 H5] by (unfold maxNestingDepth; lia).
  destruct (encode_healthResponse_spec _ Hp) as (j & Hj & Hw & Hd). fold public in Hj.
  pose proof (handleHealth_details rs) as Hdet. fold ops in Hdet, Ho.
  destruct (encode_ops_spec encode_lag_detail 3 ops Ho) as (jo & Hjo & Hwo & Hdo).
  { intros m Hm k d Hk. rewrite Hm in Hdet. destruct (proj1 Hdet k d Hk) as (r & Hin & <- & Hr).
    rewrite Forall_forall in Hrs. destruct (Hrs r Hin) as [Ha Hok]. rewrite Hr in Hok.
    split; [done|by apply encode_lag_detail_wf]. }
  subst ops_text. rewrite Hj, Hjo. cbn [Encode]. rewrite !(read_sent _ _ H2 Hw), (read_sent _ _ H5 Hwo).
  split; [done|]. split; [done|]. destruct (encode_ops_keys _ _ _ Hjo) as (kvs & -> & Hk).
  exists kvs. rewrite (parse_line _ _ H5 Hwo), Hk. split; [done|]. destruct (h_Details ops); split; try done.
  - intros _. apply Hdet.
  - intros (r & Hin & Hr). by destruct Hr, (Hdet r Hin).
Qed.

#[export] Instance ascii_entry_dec kv : Decision (ascii_entry kv).
Proof. unfold ascii_entry. apply _. Defined.

(** A lag of 42 over two partitions, of which one could not be read. *)
Definition example_detail : lag_detail :=
  {| d_group := "processor"; d_topic := "trades.raw"; d_state := "Stable"; d_members := 1; d_total := 42;
     d_stalled := false; d_failures := 1;
     d_partitions := Some [{| LagPartition := 0; PLag := 42; PError := "" |};
                           {| LagPartition := 1; PLag := -1; PError := "offset unknown" |}];
     d_as_of := Some (UnixMilli 1700000000123); d_age_seconds := Some 7; d_last_error := Some "context deadline exceeded"%string |}.
Definition example_results : list (checkResult lag_detail) :=
  [{| r_name := "redis"; r_err := Some (ErrorString "redis ping: EOF"); r_detail := None |};
   {| r_name := "kafka_consumer_lag"; r_err := None; r_detail := Some example_detail |}].
Definition example_handler : HealthHandler := NewHealthHandler (fun _ => Some (ErrorString "redis ping: EOF")) None.

Lemma health_texts_witness :
  read_report (Encode (encode_healthResponse (@Health default_vars example_handler Background 0 0).2)) =
    Ok (@Health default_vars example_handler Background 0 0).2 /\
  exists kvs, parse (Encode (encode_ops_healthResponse encode_lag_detail (@handleHealth default_vars _ example_results).2)) =
    Some (JObject kvs) /\ str "details" ∈ kvs.*1.
Proof.
  destruct (@health_texts default_vars example_handler Background 0 0 example_results) as (Hp & _ & kvs & Hk & Hd).
  - split; [reflexivity|reflexivity|by repeat split|]. refine (bool_decide_unpack _ _). vm_compute. exact I.
  - split; [reflexivity|reflexivity|by repeat split|]. refine (bool_decide_unpack _ _). vm_compute. exact I.
  - repeat constructor; vm_compute; by repeat constructor.
  - split; [exact Hp|]. exists kvs. split; [exact Hk|]. apply Hd.
    exists {| r_name := "kafka_consumer_lag"; r_err := None; r_detail := Some example_detail |}.
    split; [right; left|discriminate].
Defined.
