(* ===== verification/Routes.v ===== *)
(** * The routes of the two HTTP servers: httpserver/server.go and api-service/internal/server.go

    The ops server is a standard [ServeMux]: [mux_Handle] registers path patterns without a method,
    a host or a wildcard, the only kind the program has, and [mux_find] is what it does with a
    clean path.  The public server is a chi router: [NewRouter] is what is declared to it, and what
    chi does with a declaration is the parameter [Chi]. *)
From S2P Require Import Prelude GoBase Config Decimal Float64 Json GoTime Domain Wire Handlers OrderBookStore RedisWriter KafkaLag LagCache HttpServer Api ApiHealth HealthWire.
#[local] Open Scope Z_scope.
#[local] Open Scope string_scope.

(** ** net/http: ServeMux *)

Definition ends_with_slash (s : string) : bool :=
  match rev (str s) with c :: _ => Ascii.eqb c "/" | [] => false end.

Section Mux.
Context {H : Type}.
Definition mux : Type := list (string * H).

Definition mux_lookup (m : mux) (pattern : string) : option H :=
  snd <$> List.find (fun e => bool_decide (e.1 = pattern)) m.
(** [None]: the registration panics. *)
Definition mux_Handle (m : mux) (pattern : string) (h : H) : option mux :=
  if bool_decide (pattern = "") then None
  else match mux_lookup m pattern with Some _ => None | None => Some (m ++ [(pattern, h)])%list end.

Inductive mux_answer :=
  | Serve (h : H)
  | MovedPermanently (path : string)
  | PageNotFound.

(** The longest pattern that ends in a slash and begins the path. *)
Definition better (path : string) (acc : option (string * H)) (e : string * H) : option (string * H) :=
  if ends_with_slash e.1 && String.prefix e.1 path then
    match acc with
    | Some a => if (String.length a.1 <? String.length e.1)%nat then Some e else acc
    | None => Some e
    end
  else acc.
(** The answer for a path that is clean and has no escapes (others are redirected to one). *)
Definition mux_find (m : mux) (path : string) : mux_answer :=
  match mux_lookup m path with
  | Some h => Serve h
  | None =>
      match (if ends_with_slash path then None else mux_lookup m (path ++ "/")) with
      | Some _ => MovedPermanently (path ++ "/")
      | None => match fold_left (better path) m None with Some e => Serve e.2 | None => PageNotFound end
      end
  end.
End Mux.
Arguments mux : clear implicits.
Arguments mux_answer : clear implicits.

(** ** httpserver/server.go: New, RegisterChecker, Mount *)

Inductive ops_handler (M : Type) :=
  | HandleHealth
  | HandleLive
  | Metrics                    (** the Prometheus library's *)
  | Mounted (h : M).
Arguments HandleHealth {M}.
Arguments HandleLive {M}.
Arguments Metrics {M}.
Arguments Mounted {M} _.

Definition ReadHeaderTimeout : Z := 5 * Second.
Record Server (C M : Type) := {
  s_Addr : string;
  s_ReadHeaderTimeout : Z;
  s_mux : mux (ops_handler M);
  s_health : healthRegistry C;
}.
Arguments s_Addr {C M} _.
Arguments s_ReadHeaderTimeout {C M} _.
Arguments s_mux {C M} _.
Arguments s_health {C M} _.

Section Ops.
Context {C M : Type}.

Definition New (addr : string) : option (Server C M) :=
  m ← mux_Handle [] "/health" HandleHealth;
  m ← mux_Handle m "/health/live" HandleLive;
  m ← mux_Handle m "/metrics" Metrics;
  Some {| s_Addr := addr; s_ReadHeaderTimeout := ReadHeaderTimeout; s_mux := m; s_health := {| checkers := [] |} |}.

Definition RegisterChecker (c : C) (s : Server C M) : Server C M :=
  {| s_Addr := s_Addr s; s_ReadHeaderTimeout := s_ReadHeaderTimeout s; s_mux := s_mux s;
     s_health := registry_add c (s_health s) |}.
(** [None]: the panic of the mux. *)
Definition Mount (pattern : string) (h : M) (s : Server C M) : option (Server C M) :=
  m ← mux_Handle (s_mux s) pattern (Mounted h);
  Some {| s_Addr := s_Addr s; s_ReadHeaderTimeout := s_ReadHeaderTimeout s; s_mux := m; s_health := s_health s |}.

(** What the owner of the server does with it before and while it serves. *)
Inductive ops_call :=
  | CallRegister (c : C)
  | CallMount (pattern : string) (h : M).
Definition ops_apply (s : Server C M) (call : ops_call) : option (Server C M) :=
  match call with
  | CallRegister c => Some (RegisterChecker c s)
  | CallMount pattern h => Mount pattern h s
  end.
Fixpoint ops_calls (calls : list ops_call) (s : Server C M) : option (Server C M) :=
  match calls with
  | [] => Some s
  | call :: calls' => s' ← ops_apply s call; ops_calls calls' s'
  end.
End Ops.
Arguments ops_call : clear implicits.

(** A reply of the program's own: status, content type and text. *)
Record text_reply := { t_code : Z; t_type : string; t_text : bytes }.
Definition json_reply (code : Z) (j : result error json) : text_reply :=
  {| t_code := code; t_type := "application/json"; t_text := Encode j |}.

Inductive ops_reply (M : Type) :=
  | OpsText (r : text_reply)
  | OpsOther (a : mux_answer (ops_handler M)).
Arguments OpsText {M} _.
Arguments OpsOther {M} _.

(** The answer to a request; [rs] is what [runChecks] returned for it. *)
Definition ops_serve `{BuildVars} {C D M : Type} (detail : D -> result error json) (s : Server C M)
    (rs : list (checkResult D)) (path : string) : ops_reply M :=
  match mux_find (s_mux s) path with
  | Serve HandleHealth =>
      let '(code, resp) := handleHealth rs in OpsText (json_reply code (encode_ops_healthResponse detail resp))
  | Serve HandleLive => let '(code, resp) := handleLive in OpsText (json_reply code (Ok (encode_live resp)))
  | a => OpsOther a
  end.

(** ** api-service/internal/server.go: NewRouter *)

Inductive middleware := RequestID | ClientIPFromHeader (header : string) | Recoverer.
Inductive endpoint := GetHealth | GetLatestTrade | GetOrderBook.
Record chi_route := { cr_method : string; cr_pattern : string }.
Record router := { uses : list middleware; routes : list (chi_route * endpoint) }.

Definition Use (m : middleware) (r : router) : router := {| uses := uses r ++ [m]; routes := routes r |}.
Definition Get (pattern : string) (h : endpoint) (rs : list (chi_route * endpoint)) : list (chi_route * endpoint) :=
  (rs ++ [({| cr_method := "GET"; cr_pattern := pattern |}, h)])%list.
(** The routes that [fn] declares on a fresh router, under a prefix. *)
Definition Route (prefix : string) (fn : list (chi_route * endpoint) -> list (chi_route * endpoint)) (r : router) : router :=
  {| uses := uses r;
     routes := routes r ++ map (fun e => ({| cr_method := cr_method e.1; cr_pattern := prefix ++ cr_pattern e.1 |}, e.2)) (fn []) |}.

Definition NewRouter : router :=
  let router := {| uses := []; routes := [] |} in
  let router := Use RequestID router in
  let router := Use (ClientIPFromHeader "CF-Connecting-IP") router in
  let router := Use Recoverer router in
  Route "/api/v1" (fun r =>
    let r := Get "/health" GetHealth r in
    let r := Get "/trades/{symbol}" GetLatestTrade r in
    Get "/orderbook/{symbol}" GetOrderBook r) router.

Record public_server := { ps_Addr : string; ps_ReadHeaderTimeout : Z; ps_Handler : router }.
Definition NewPublicServer (addr : string) : public_server :=
  {| ps_Addr := addr; ps_ReadHeaderTimeout := ReadHeaderTimeout; ps_Handler := NewRouter |}.

(** ** What chi does with the routes *)

Inductive chi_answer :=
  | Found (route : nat) (params : list (string * string))
  | ChiNotFound
  | ChiMethodNotAllowed.

(** A string at its last slash. *)
Fixpoint split_last (s : string) : option (string * string) :=
  match s with
  | "" => None
  | String c s' =>
      match split_last s' with
      | Some (p, v) => Some (String c p, v)
      | None => if Ascii.eqb c "/" then Some ("", s') else None
      end
  end.
Definition no_slash (s : string) : bool := forallb (fun c => negb (Ascii.eqb c "/")) (str s).
(** The name in a segment [{name}]. *)
Definition param_of (segment : string) : option string :=
  match str segment, rev (str segment) with
  | c :: l, d :: _ => if Ascii.eqb c "{" && Ascii.eqb d "}" then Some (unstr (removelast l)) else None
  | _, _ => None
  end.
Definition plain (s : string) : bool :=
  forallb (fun c => negb (existsb (Ascii.eqb c) ["{"; "}"; "*"]%char)) (str s).
(** Text, or text and a last segment [{name}]: the patterns the program declares. *)
Definition plain_pattern (pattern : string) : bool :=
  String.prefix "/" pattern &&
  match split_last pattern with
  | Some (p, seg) => plain p && match param_of seg with Some name => plain name | None => plain seg end
  | None => false
  end.
(** How chi documents them: a parameter stands for any text without a slash. *)
Definition match_pattern (pattern path : string) : option (list (string * string)) :=
  match split_last pattern, split_last path with
  | Some (p, seg), Some (q, value) =>
      match param_of seg with
      | Some name => if bool_decide (p = q /\ value <> "") then Some [(name, value)] else None
      | None => if bool_decide (pattern = path) then Some [] else None
      end
  | _, _ => None
  end.
Definition methods : list string :=
  ["CONNECT"; "DELETE"; "GET"; "HEAD"; "OPTIONS"; "PATCH"; "POST"; "PUT"; "TRACE"].

(** The routes, the method and the path (its escaped form, if the URL has one of its own). *)
Class Chi := chi_find : list chi_route -> string -> string -> chi_answer.
(** The only route whose pattern matches the path serves the request if it has its method; a path
    that only routes of other methods match is answered with 405, one that no route matches 404. *)
Class ChiLaws `{Chi} := {
  chi_found : forall rs method path i r params,
    Forall (fun r => plain_pattern (cr_pattern r) = true) rs -> method ∈ methods ->
    rs !! i = Some r -> cr_method r = method -> match_pattern (cr_pattern r) path = Some params ->
    (forall j r', rs !! j = Some r' -> j <> i -> match_pattern (cr_pattern r') path = None) ->
    chi_find rs method path = Found i params;
  chi_wrong_method : forall rs method path r,
    Forall (fun r => plain_pattern (cr_pattern r) = true) rs ->
    r ∈ rs -> match_pattern (cr_pattern r) path <> None ->
    (forall r, r ∈ rs -> match_pattern (cr_pattern r) path <> None -> cr_method r <> method) ->
    chi_find rs method path = ChiMethodNotAllowed;
  chi_not_found : forall rs method path,
    Forall (fun r => plain_pattern (cr_pattern r) = true) rs -> method ∈ methods ->
    (forall r, r ∈ rs -> match_pattern (cr_pattern r) path = None) -> chi_find rs method path = ChiNotFound;
}.

(** A router that obeys them: the first route that matches. *)
Definition first_route : Chi := fun rs method path =>
  match list_find (fun r => cr_method r = method /\ match_pattern (cr_pattern r) path <> None) rs with
  | Some (i, r) => Found i (default [] (match_pattern (cr_pattern r) path))
  | None =>
      if existsb (fun r => bool_decide (match_pattern (cr_pattern r) path <> None)) rs then ChiMethodNotAllowed
      else ChiNotFound
  end.

(** ** What the public server answers *)

Inductive public_reply :=
  | PublicText (r : text_reply)
  | PublicStatus (code : Z).        (** chi's own reply *)
Definition URLParam (name : string) (params : list (string * string)) : string :=
  default "" (snd <$> List.find (fun e => bool_decide (e.1 = name)) params).
Definition reply_text (r : reply) : text_reply :=
  {| t_code := code r; t_type := content_type r; t_text := written r |}.
Definition StatusMethodNotAllowed : Z := 405.

Definition public_serve `{Chi} `{BuildVars} `{Redis R} `{Unicode} (s : public_server) (reader : R) (health : HealthHandler)
    (ctx : Context) (t1 t2 : Z) (method path : string) : public_reply :=
  match chi_find (map fst (routes (ps_Handler s))) method path with
  | Found i params =>
      match snd <$> routes (ps_Handler s) !! i with
      | Some GetHealth =>
          let '(code, resp) := Health health ctx t1 t2 in PublicText (json_reply code (encode_healthResponse resp))
      | Some GetLatestTrade => PublicText (reply_text (LatestTrade (URLParam "symbol" params) reader))
      | Some GetOrderBook => PublicText (reply_text (OrderBook_handler (URLParam "symbol" params) reader))
      | None => PublicStatus StatusNotFound
      end
  | ChiMethodNotAllowed => PublicStatus StatusMethodNotAllowed
  | ChiNotFound => PublicStatus StatusNotFound
  end.

(** ** Lemmas *)

Lemma no_slash_cons c s : no_slash (String c s) = negb (Ascii.eqb c "/") && no_slash s.
Proof. done. Qed.

Lemma split_last_none s : no_slash s = true -> split_last s = None.
Proof.
  induction s as [|c s IH]; [done|]. rewrite no_slash_cons. intros [Hc Hs]%andb_prop. cbn [split_last].
  rewrite IH by done. apply negb_true_iff in Hc. by rewrite Hc.
Qed.

Lemma split_last_app p v : no_slash v = true -> split_last (p ++ "/" ++ v) = Some (p, v).
Proof.
  intros Hv. induction p as [|c p IH].
  - change ("" ++ "/" ++ v) with (String "/" v). cbn [split_last]. by rewrite split_last_none.
  - change (String c p ++ "/" ++ v) with (String c (p ++ "/" ++ v)). cbn [split_last]. by rewrite IH.
Qed.

Lemma split_last_Some s p v : split_last s = Some (p, v) -> s = p ++ "/" ++ v /\ no_slash v = true.
Proof.
  revert p v. induction s as [|c s IH]; intros p v; [done|]. cbn [split_last].
  destruct (split_last s) as [[p' v']|] eqn:Hs.
  - intros [= <- <-]. destruct (IH p' v' eq_refl) as [-> Hv]. done.
  - destruct (Ascii.eqb_spec c "/") as [->|]; [|done]. intros [= <- <-]. split; [done|].
    clear IH. induction s as [|c s IH]; [done|]. cbn [split_last] in Hs.
    destruct (split_last s) as [[]|]; [done|]. rewrite no_slash_cons. destruct (Ascii.eqb c "/"); [done|]. by apply IH.
Qed.

(** A pattern whose last segment is a parameter. *)
Lemma match_param pattern p name path params :
  split_last pattern = Some (p, "{" ++ name ++ "}") -> param_of ("{" ++ name ++ "}") = Some name ->
  (match_pattern pattern path = Some params <->
   exists value, path = p ++ "/" ++ value /\ no_slash value = true /\ value <> "" /\ params = [(name, value)]).
Proof.
  intros Hs Hn. unfold match_pattern. rewrite Hs, Hn. split.
  - destruct (split_last path) as [[q value]|] eqn:Hq; [|done]. apply split_last_Some in Hq as [-> Hv].
    case_bool_decide as Hb; [|done]. destruct Hb as [<- Hne]. intros [= <-]. by exists value.
  - intros (value & -> & Hv & Hne & ->). rewrite split_last_app by done. by rewrite bool_decide_eq_true_2.
Qed.

#[export] Instance first_route_laws : @ChiLaws first_route.
Proof.
  split; unfold chi_find, first_route.
  - intros rs method path i r params _ _ Hi Hm Hp Hother.
    assert (list_find (fun r => cr_method r = method /\ match_pattern (cr_pattern r) path <> None) rs = Some (i, r)) as ->.
    { apply list_find_Some. split; [done|]. split; [split; [done|congruence]|]. intros j y Hj Hlt [_ Hy].
      apply Hy, (Hother j y Hj). lia. }
    by rewrite Hp.
  - intros rs method path r _ Hin Hp Hother.
    destruct (list_find _ rs) as [[i r']|] eqn:Hf.
    { apply list_find_Some in Hf as (Hi & [Hm Hr'] & _). destruct (Hother r'); [by eapply list_elem_of_lookup_2|done..]. }
    assert (existsb (fun r => bool_decide (match_pattern (cr_pattern r) path <> None)) rs = true) as ->; [|done].
    apply existsb_exists. exists r. split; [by apply list_elem_of_In|]. by apply bool_decide_eq_true_2.
  - intros rs method path _ _ Hother.
    destruct (list_find _ rs) as [[i r']|] eqn:Hf.
    { apply list_find_Some in Hf as (Hi & [_ Hr'] & _). destruct Hr'. apply Hother. by eapply list_elem_of_lookup_2. }
    destruct (existsb _ rs) eqn:He; [|done]. apply existsb_exists in He as (r & Hin%list_elem_of_In & Hr).
    apply bool_decide_eq_true in Hr. exfalso. exact (Hr (Hother r Hin)).
Qed.

(** ** The public routes *)

Definition health_route : chi_route := {| cr_method := "GET"; cr_pattern := "/api/v1/health" |}.
Definition trades_route : chi_route := {| cr_method := "GET"; cr_pattern := "/api/v1/trades/{symbol}" |}.
Definition orderbook_route : chi_route := {| cr_method := "GET"; cr_pattern := "/api/v1/orderbook/{symbol}" |}.
Definition public_routes : list chi_route := [health_route; trades_route; orderbook_route].

Lemma public_routes_declared : map fst (routes NewRouter) = public_routes.
Proof. reflexivity. Qed.
Lemma public_routes_plain : Forall (fun r => plain_pattern (cr_pattern r) = true) public_routes.
Proof. repeat constructor. Qed.

(** The path a request needs to reach a route, and the parameters it then has. *)
Definition reaches (r : nat) (path : string) (params : list (string * string)) : Prop :=
  match r with
  | 0%nat => path = "/api/v1/health" /\ params = []
  | 1%nat => exists symbol, path = "/api/v1/trades/" ++ symbol /\ no_slash symbol = true /\ symbol <> "" /\
                            params = [("symbol", symbol)]
  | 2%nat => exists symbol, path = "/api/v1/orderbook/" ++ symbol /\ no_slash symbol = true /\ symbol <> "" /\
                            params = [("symbol", symbol)]
  | _ => False
  end.

Lemma reaches_match i r path params :
  public_routes !! i = Some r -> match_pattern (cr_pattern r) path = Some params <-> reaches i path params.
Proof.
  destruct i as [|[|[|i]]]; intros [= <-]; cbn [cr_pattern reaches health_route trades_route orderbook_route].
  - unfold match_pattern. change (split_last "/api/v1/health") with (Some ("/api/v1", "health")). cbv iota beta.
    change (param_of "health") with (@None string). cbv iota. split.
    + destruct (split_last path) as [[q v]|]; [|done]. case_bool_decide as Hb; [|done]. by intros [= <-].
    + intros [-> ->]. reflexivity.
  - exact (match_param "/api/v1/trades/{symbol}" "/api/v1/trades" "symbol" path params eq_refl eq_refl).
  - exact (match_param "/api/v1/orderbook/{symbol}" "/api/v1/orderbook" "symbol" path params eq_refl eq_refl).
Qed.

Lemma reaches_unique i j path params params' : reaches i path params -> reaches j path params' -> i = j.
Proof.
  destruct i as [|[|[|i]]]; destruct j as [|[|[|j]]]; cbn [reaches]; try done;
    repeat match goal with |- _ /\ _ -> _ => intros [-> _] | |- (exists _, _) -> _ => intros (? & ? & _) end;
    subst; try discriminate; intros; destruct_and?; try discriminate; congruence.
Qed.

Lemma chi_public `{ChiLaws} i path params r :
  public_routes !! i = Some r -> reaches i path params -> chi_find public_routes "GET" path = Found i params.
Proof.
  intros Hi Hr. eapply (chi_found public_routes); [apply public_routes_plain|by repeat constructor|exact Hi| | |].
  - destruct i as [|[|[|i]]]; by simplify_eq/=.
  - by apply (reaches_match i r).
  - intros j r' Hj Hne. destruct (match_pattern (cr_pattern r') path) as [params'|] eqn:Hm; [|done].
    apply (reaches_match j r' path params' Hj) in Hm. by destruct Hne, (reaches_unique j i path params' params).
Qed.

Section Served.
Context `{ChiLaws} `{BuildVars} {R : Type} `{Redis R} `{Unicode}.
Context (addr : string) (reader : R) (health : HealthHandler) (ctx : Context) (t1 t2 : Z).
#[local] Abbreviation serve := (public_serve (NewPublicServer addr) reader health ctx t1 t2 "GET").

Lemma public_trade symbol :
  no_slash symbol = true -> symbol <> "" ->
  serve ("/api/v1/trades/" ++ symbol) = PublicText (reply_text (LatestTrade symbol reader)).
Proof.
  intros Hn Hne. unfold public_serve. cbn [ps_Handler NewPublicServer]. rewrite public_routes_declared.
  by rewrite (chi_public 1 _ [("symbol", symbol)] trades_route) by (done || by exists symbol).
Qed.

Lemma public_book symbol :
  no_slash symbol = true -> symbol <> "" ->
  serve ("/api/v1/orderbook/" ++ symbol) = PublicText (reply_text (OrderBook_handler symbol reader)).
Proof.
  intros Hn Hne. unfold public_serve. cbn [ps_Handler NewPublicServer]. rewrite public_routes_declared.
  by rewrite (chi_public 2 _ [("symbol", symbol)] orderbook_route) by (done || by exists symbol).
Qed.

Lemma normalizeSymbol_nonempty symbol : normalizeSymbol symbol <> "" -> symbol <> "".
Proof. by intros Hs ->. Qed.
End Served.

(** The paths that have an endpoint. *)
Definition endpoint_path (path : string) : Prop :=
  path = "/api/v1/health" \/
  exists symbol, no_slash symbol = true /\ symbol <> "" /\
    (path = "/api/v1/trades/" ++ symbol \/ path = "/api/v1/orderbook/" ++ symbol).

Lemma endpoint_reaches path : endpoint_path path <-> exists i params, reaches i path params.
Proof.
  split.
  - intros [->|(symbol & Hn & Hne & [->| ->])].
    + by exists 0%nat, [].
    + exists 1%nat, [("symbol", symbol)]. by exists symbol.
    + exists 2%nat, [("symbol", symbol)]. by exists symbol.
  - intros (i & params & Hr). destruct i as [|[|[|i]]]; cbn [reaches] in Hr; [left; by destruct Hr|..|done];
      destruct Hr as (symbol & -> & Hn & Hne & _); right; exists symbol; auto.
Qed.

Lemma endpoint_route path : endpoint_path path <-> exists r, r ∈ public_routes /\ match_pattern (cr_pattern r) path <> None.
Proof.
  rewrite endpoint_reaches. split.
  - intros (i & params & Hr). destruct (public_routes !! i) as [r|] eqn:Hi.
    + exists r. split; [by eapply list_elem_of_lookup_2|]. by rewrite (proj2 (reaches_match i r path params Hi) Hr).
    + by destruct i as [|[|[|i]]].
  - intros (r & [i Hi]%list_elem_of_lookup & Hm). destruct (match_pattern (cr_pattern r) path) as [params|] eqn:Hp; [|done].
    exists i, params. by apply (reaches_match i r).
Qed.

(** ** The registrations of the ops server *)

Section MuxFacts.
Context {H : Type}.

Lemma mux_lookup_app (m m' : mux H) pattern :
  mux_lookup (m ++ m')%list pattern = match mux_lookup m pattern with Some h => Some h | None => mux_lookup m' pattern end.
Proof.
  unfold mux_lookup. induction m as [|e m IH]; [done|]. cbn [app List.find]. by case_bool_decide.
Qed.

Lemma mux_Handle_Some (m m' : mux H) pattern h :
  mux_Handle m pattern h = Some m' <-> pattern <> "" /\ mux_lookup m pattern = None /\ m' = (m ++ [(pattern, h)])%list.
Proof.
  unfold mux_Handle. case_bool_decide; [split; [done|by intros [? _]]|].
  destruct (mux_lookup m pattern); split; try done; try (by intros (_ & ? & _)); [by intros [= <-]|by intros (_ & _ & ->)].
Qed.

Lemma mux_find_registered (m : mux H) pattern h : mux_lookup m pattern = Some h -> mux_find m pattern = Serve h.
Proof. intros Hl. unfold mux_find. by rewrite Hl. Qed.
End MuxFacts.

Section OpsFacts.
Context {C M : Type}.
#[local] Abbreviation call := (ops_call C M).

Definition registered (calls : list call) : list C :=
  omap (fun c => match c with CallRegister c => Some c | CallMount _ _ => None end) calls.
Definition mounts (calls : list call) : mux (ops_handler M) :=
  omap (fun c => match c with CallRegister _ => None | CallMount pattern h => Some (pattern, Mounted h) end) calls.

Lemma ops_calls_effect (calls : list call) s s' :
  ops_calls calls s = Some s' ->
  s_mux s' = (s_mux s ++ mounts calls)%list /\ checkers (s_health s') = (checkers (s_health s) ++ registered calls)%list /\
  s_Addr s' = s_Addr s /\ s_ReadHeaderTimeout s' = s_ReadHeaderTimeout s.
Proof.
  revert s. induction calls as [|c calls IH]; intros s Hs.
  { injection Hs as <-. by rewrite !app_nil_r. }
  cbn [ops_calls] in Hs. destruct (ops_apply s c) as [s1|] eqn:Hc; [|done]. cbn [mbind option_bind] in Hs.
  destruct (IH s1 Hs) as (Hm & Hr & Ha & Ht). destruct c as [c|pattern h]; cbn [ops_apply] in Hc.
  - injection Hc as <-. cbn in *. rewrite Hm, Hr. by rewrite <- app_assoc.
  - unfold Mount in Hc. destruct (mux_Handle _ _ _) as [m|] eqn:Hh; [|done]. injection Hc as <-.
    apply mux_Handle_Some in Hh as (_ & _ & ->). cbn in *. rewrite Hm, Hr. by rewrite <- app_assoc.
Qed.

Lemma ops_calls_keep (calls : list call) s s' pattern h :
  ops_calls calls s = Some s' -> mux_lookup (s_mux s) pattern = Some h -> mux_lookup (s_mux s') pattern = Some h.
Proof. intros (-> & _)%ops_calls_effect Hl. by rewrite mux_lookup_app, Hl. Qed.
End OpsFacts.

(** Only its three paths reach the mux of a new server. *)
Lemma mux_find_built_in {M : Type} path :
  path ∉ ["/health"; "/health/live"; "/metrics"] ->
  mux_find [("/health", HandleHealth (M := M)); ("/health/live", HandleLive); ("/metrics", Metrics)] path = PageNotFound.
Proof.
  rewrite !not_elem_of_cons. intros (H1 & H2 & H3 & _). unfold mux_find, mux_lookup. cbn [List.find fst].
  rewrite !bool_decide_eq_false_2 by done. destruct (ends_with_slash path); [done|].
  assert (forall p : string, ends_with_slash p = false -> p <> path ++ "/") as Hne.
  { intros p Hp ->. unfold ends_with_slash in Hp. rewrite str_app, rev_app_distr in Hp. done. }
  rewrite !bool_decide_eq_false_2 by (by apply Hne). done.
Qed.

(** ** Properties *)

(** C19: the ops server: whatever was registered and mounted before a request, in every interleaving of
    its checks "/health" is answered with 503 exactly if the check of some registered checker,
    under a deadline of its own, failed, and with 200 otherwise; "/health/live" with 200 and the
    same text whatever the dependencies do; "/metrics" by the metrics library; nothing can be
    mounted over these three (it panics), and nothing else is served if nothing was mounted. *)
Theorem ops_server_answers `{BuildVars} {D M : Type} (detail : D -> result error json) (addr : string)
    (calls : list (ops_call (Checker D) M)) (s0 s : Server (Checker D) M) (ctx : Context) (ls : list check_label)
    (st : checking) :
  New addr = Some s0 -> ops_calls calls s0 = Some s ->
  trace (check_step ctx (registry_snapshot (s_health s))) (runChecks_start (registry_snapshot (s_health s))) ls st ->
  all_done st ->
  let serve := ops_serve detail s (results st) in
  (exists code body, serve "/health" = OpsText (json_reply code body) /\ (code = 200 \/ code = 503) /\
     (code = 503 <-> exists i c now err, registered calls !! i = Some c /\ (i, now) ∈ ls /\
                       c_Check c (WithTimeout ctx (2 * Second) now) = Some err)) /\
  serve "/health/live" = OpsText (json_reply 200 (Ok (encode_live ("ok", GetInfo)))) /\
  serve "/metrics" = OpsOther (Serve Metrics) /\
  (forall pattern h, pattern ∈ [""; "/health"; "/health/live"; "/metrics"] -> Mount pattern h s = None) /\
  (mounts calls = [] ->
   forall path, path ∉ ["/health"; "/health/live"; "/metrics"] -> serve path = OpsOther PageNotFound).
Proof.
  intros [= <-] Hcalls Htr Hdone serve. destruct (checks_done _ _ _ _ Htr Hdone) as [Hlen Hres].
  destruct (ops_calls_effect _ _ _ Hcalls) as (Hmux & Hreg & _). cbn [s_mux s_health checkers app] in Hmux, Hreg.
  assert (forall pattern h, mux_lookup [("/health", HandleHealth); ("/health/live", HandleLive); ("/metrics", Metrics)] pattern = Some h ->
            mux_lookup (s_mux s) pattern = Some h) as Hkeep by (intros pattern h; by apply (ops_calls_keep _ _ _ _ _ Hcalls)).
  unfold serve, ops_serve. split; [|split; [|split; [|split]]].
  - rewrite (mux_find_registered _ _ HandleHealth) by (by apply Hkeep).
    pose proof (handleHealth_code (results st)) as Hcode. destruct (handleHealth (results st)) as [code resp].
    cbn [fst] in Hcode. do 2 eexists. split; [reflexivity|]. subst code. split; [destruct (existsb _ _); auto|].
    transitivity (existsb unhealthy (results st) = true); [by destruct (existsb _ _)|].
    unfold registry_snapshot in Hres. rewrite Hreg in Hres. rewrite existsb_exists. split.
    + intros (r & [i Hi]%list_elem_of_In%list_elem_of_lookup & Hr). pose proof (lookup_lt_Some _ _ _ Hi) as Hlt.
      rewrite Hlen in Hlt. unfold registry_snapshot in Hlt. rewrite Hreg in Hlt.
      apply lookup_lt_is_Some in Hlt as [c Hc]. destruct (Hres i c Hc) as (now & Hin & _ & Hr'). simplify_eq.
      unfold unhealthy in Hr. cbn [check_one r_err] in Hr. destruct (c_Check c _) as [err|] eqn:He; [|done].
      by exists i, c, now, err.
    + intros (i & c & now & err & Hc & Hin & He). destruct (Hres i c Hc) as (now' & _ & Huniq & Hr).
      rewrite (Huniq now Hin) in He. exists (check_one ctx now' c).
      split; [by eapply list_elem_of_In, list_elem_of_lookup_2|]. unfold unhealthy. cbn [check_one r_err].
      change HttpServer.checkTimeout with (2 * Second). by rewrite He.
  - by rewrite (mux_find_registered _ _ HandleLive) by (by apply Hkeep).
  - by rewrite (mux_find_registered _ _ Metrics) by (by apply Hkeep).
  - intros pattern h Hin. unfold Mount, mux_Handle. case_bool_decide as Hp; [done|].
    repeat (apply elem_of_cons in Hin as [->|Hin]; [try done; by erewrite Hkeep by reflexivity|]). by apply elem_of_nil in Hin.
  - intros Hm path Hpath. rewrite Hm in Hmux. rewrite Hmux. by rewrite mux_find_built_in.
Qed.

Definition example_calls : list (ops_call (Checker Z) unit) :=
  [CallRegister (CheckerFunc "redis" (fun _ => None)); CallMount "/debug" tt;
   CallRegister (CheckerFunc "kafka" (fun _ => Some (ErrorString "down")))].

Lemma ops_server_answers_witness :
  exists s0 s st code body, New ":9090" = Some s0 /\ ops_calls example_calls s0 = Some s /\
    ops_serve (M := unit) (D := Z) (H := default_vars) (fun n => Ok (json_int n)) s (results st) "/health" = OpsText (json_reply code body) /\
    code = 503 /\ Mount "/metrics" tt s = None.
Proof.
  destruct (New (C := Checker Z) (M := unit) ":9090") as [s0|] eqn:H0; [|discriminate].
  destruct (ops_calls example_calls s0) as [s|] eqn:Hs; [|injection H0 as <-; discriminate].
  pose proof Hs as Hcalls. injection H0 as <-. injection Hs as <-.
  eexists _, _. destruct (run (check_exec Background (registered example_calls)) [(1%nat, 100); (0%nat, 200)]
    (runChecks_start (registered example_calls))) as [st|] eqn:Hrun; [|discriminate].
  destruct (@ops_server_answers default_vars Z unit (fun n => Ok (json_int n)) ":9090" example_calls _ _ Background
    [(1%nat, 100); (0%nat, 200)] st eq_refl Hcalls) as ((code & body & Hserve & _ & Hcode) & _ & _ & Hmount & _).
  - eapply run_trace; [apply check_exec_sound|exact Hrun].
  - injection Hrun as <-. repeat constructor.
  - exists st, code, body. split; [reflexivity|]. split; [exact Hcalls|]. split; [exact Hserve|]. split.
    + apply Hcode. exists 1%nat, (CheckerFunc "kafka" (fun _ => Some (ErrorString "down"))), 100, (ErrorString "down").
      split; [reflexivity|]. split; [left|reflexivity].
    + apply Hmount. do 3 right. left.
Defined.

(** C20: the public server: a GET of the path of a trade or an order book is answered by its handler with
    exactly the text after the last slash as the symbol, a GET of the health path by the health
    report; another method on one of these paths gets 405, and every other path 404: no ops
    endpoint and no internal detail can be reached through it. *)
Theorem public_server_answers `{ChiLaws} `{BuildVars} `{Redis R} `{Unicode} (addr : string) (reader : R)
    (health : HealthHandler) (ctx : Context) (t1 t2 : Z) (method path : string) :
  method ∈ methods ->
  let serve := public_serve (NewPublicServer addr) reader health ctx t1 t2 in
  let report := Health health ctx t1 t2 in
  serve "GET" "/api/v1/health" = PublicText (json_reply report.1 (encode_healthResponse report.2)) /\
  (forall symbol, no_slash symbol = true -> symbol <> "" ->
     serve "GET" ("/api/v1/trades/" ++ symbol) = PublicText (reply_text (LatestTrade symbol reader)) /\
     serve "GET" ("/api/v1/orderbook/" ++ symbol) = PublicText (reply_text (OrderBook_handler symbol reader))) /\
  (endpoint_path path -> method <> "GET" -> serve method path = PublicStatus 405) /\
  (~ endpoint_path path -> serve method path = PublicStatus 404).
Proof.
  intros Hmethod serve report. unfold serve. conj.
  - unfold public_serve. cbn [ps_Handler NewPublicServer]. rewrite public_routes_declared.
    rewrite (chi_public 0 "/api/v1/health" [] health_route) by done. cbn [routes NewRouter Route Get map app lookup list_lookup].
    subst report. by destruct (Health _ _ _ _).
  - intros symbol Hn Hne. split; [by apply public_trade|by apply public_book].
  - intros (r & Hin & Hr)%endpoint_route Hm. unfold public_serve. cbn [ps_Handler NewPublicServer].
    rewrite public_routes_declared, (chi_wrong_method _ _ _ _ public_routes_plain Hin Hr); [done|].
    intros r' Hin' _. apply not_eq_sym.
    repeat (apply elem_of_cons in Hin' as [->|Hin']; [done|]). by apply elem_of_nil in Hin'.
  - intros Hno. unfold public_serve. cbn [ps_Handler NewPublicServer]. rewrite public_routes_declared, (chi_not_found _ _ _ public_routes_plain Hmethod); [done|]. intros r' Hin.
    destruct (match_pattern (cr_pattern r') path) eqn:Hr; [|done]. destruct Hno. apply endpoint_route.
    exists r'. by rewrite Hr.
Qed.

Lemma public_server_answers_witness :
  let serve := @public_serve first_route default_vars mem_redis mem_Redis ascii_only (NewPublicServer ":8080") empty_redis
                 example_handler Background 0 0 in
  serve "GET" "/api/v1/trades/btcusdt" = PublicText (reply_text (writeError StatusNotFound "trade not found")) /\
  serve "POST" "/api/v1/health" = PublicStatus 405 /\ serve "GET" "/metrics" = PublicStatus 404.
Proof.
  pose proof (@public_server_answers first_route first_route_laws default_vars mem_redis mem_Redis ascii_only ":8080"
    empty_redis example_handler Background 0 0) as Hserve. intros serve. conj.
  - destruct (Hserve "GET" "/" ltac:(by repeat constructor)) as (_ & Htrade & _).
    etransitivity; [exact (proj1 (Htrade "btcusdt" eq_refl ltac:(discriminate)))|vm_compute; reflexivity].
  - destruct (Hserve "POST" "/api/v1/health" ltac:(by repeat constructor)) as (_ & _ & Hwrong & _).
    apply Hwrong; [left; reflexivity|discriminate].
  - destruct (Hserve "GET" "/metrics" ltac:(by repeat constructor)) as (_ & _ & _ & Hnone).
    apply Hnone. intros [?|(symbol & _ & _ & [?|?])]; discriminate.
Defined.
