(* ===== verification/Processor.v ===== *)
(** * processor-service: what [Service.Run] sets up around the pipeline, and how it ends

    [processor_setup] is [Run] up to its goroutines: the Kafka consumer, the Redis writer and their
    health checkers, with the pipeline of [Pipeline.v] in its initial state; [processor_return] is
    the result of the group once all five goroutines have returned. *)
From S2P Require Import Prelude GoBase Config Domain Runtime Handlers FanOut Pool OrderBookStore RedisWriter Consumer Pipeline PipelineFacts HttpServer.
#[local] Open Scope Z_scope.
#[local] Opaque decoded.

(** ** consumer.go: [NewConsumer] *)

(** [new_client] is [kgo.NewClient] with the group and the topic. *)
Definition NewConsumer {C : Type} (new_client : list string -> string -> string -> result error C)
    (cfg : KafkaConfig) : result error C :=
  if bool_decide (Brokers cfg = []) then Err (ErrorString "kafka: no broker configured")
  else
    match new_client (Brokers cfg) ConsumerGroupProcessor TopicTradesRaw with
    | Err err => Err (Errorf_w "kafka: new consumer: " err)
    | Ok client => Ok client
    end.

(** ** service.go *)

Inductive processor_checker := CheckConsumer | CheckWriter.

Record processor_wiring (C R : Type) := {
  pw_client : C;
  pw_redis : R;
  pw_pool_size : Z;
  pw_fanout_buffer : Z;
  pw_ops : healthRegistry processor_checker;
}.
Arguments pw_client {C R} _.
Arguments pw_redis {C R} _.
Arguments pw_pool_size {C R} _.
Arguments pw_fanout_buffer {C R} _.
Arguments pw_ops {C R} _.

Definition processor_setup {C R : Type} (new_client : list string -> string -> string -> result error C)
    (dial_redis : RedisConfig -> R) (cfg : Config) (ops : healthRegistry processor_checker) :
  result error (processor_wiring C R) :=
  match NewConsumer new_client (Kafka cfg) with
  | Err err => Err (Errorf_w "kafka consumer: " err)
  | Ok consumer =>
      let ops := registry_add CheckConsumer ops in
      match NewRedisWriter (RedisCfg cfg) (dial_redis (RedisCfg cfg)) with
      | Err err => Err (Errorf_w "redis writer " err)
      | Ok writer =>
          Ok {| pw_client := consumer; pw_redis := writer; pw_pool_size := PoolSize (Processor cfg);
                pw_fanout_buffer := Config.FanOutBuffer (Processor cfg);
                pw_ops := registry_add CheckWriter ops |}
      end
  end.
Definition processor_init {C R : Type} (w : processor_wiring C R) (recs : list kgo_Record) : system :=
  init (pw_pool_size w) (pw_fanout_buffer w) recs.

(** The pool, the consumer, which only returns nil, and the three sinks. *)
Definition processor_return `{Errgroup} (s : system) : option (option error) :=
  if Start_returns (pool s) then Some (group_Wait [Start_return (pool s); None; None; None; None]) else None.

(** ** Lemmas *)

Lemma processor_returns_nil {C R P : Type} `{MetadataProvider P} `{Errgroup} (meta : P) (w : processor_wiring C R)
    recs ls s r :
  trace (sys_step meta) (processor_init w recs) ls s -> processor_return s = Some r ->
  r = None /\ is_Some (ctx (pool s)).
Proof.
  intros [(pls & Hp & _) _]%sys_inv_trace Hret. unfold processor_return in Hret.
  destruct (Start_returns (pool s)) eqn:Hs; [|done]. injection Hret as <-.
  destruct (pool_inv_return _ pls (pool s) (pool_size_pos _) Hp Hs) as [Hctx ->]. split; [|done].
  apply group_Wait_nil. repeat constructor.
Qed.

(** ** Properties *)

(** The lifetime of the processor: its setup fails exactly without a broker, with a client that cannot
    be made, or without a Redis address, and says so; once it is set up, the group returns only
    after the context has ended and then always nil, whatever the handlers and Redis did. *)
Theorem Processor_ends {C R P : Type} `{MetadataProvider P} `{Errgroup} (meta : P)
    (new_client : list string -> string -> string -> result error C) (dial_redis : RedisConfig -> R)
    (cfg : Config) (ops : healthRegistry processor_checker) :
  match processor_setup new_client dial_redis cfg ops with
  | Err err =>
      (Brokers (Kafka cfg) = [] /\
       Error err = "kafka consumer: kafka: no broker configured"%string) \/
      (exists e, new_client (Brokers (Kafka cfg)) ConsumerGroupProcessor TopicTradesRaw = Err e /\
         err = Errorf_w "kafka consumer: " (Errorf_w "kafka: new consumer: " e)) \/
      (RedisAddr (RedisCfg cfg) = ""%string /\ Error err = "redis writer redis: addr is required"%string)
  | Ok w =>
      Brokers (Kafka cfg) <> [] /\ RedisAddr (RedisCfg cfg) <> ""%string /\
      checkers (pw_ops w) = checkers ops ++ [CheckConsumer; CheckWriter] /\
      forall recs ls s r, trace (sys_step meta) (processor_init w recs) ls s ->
        processor_return s = Some r -> r = None /\ is_Some (ctx (pool s))
  end.
Proof.
  unfold processor_setup, NewConsumer. case_bool_decide as Hb; [by left|].
  destruct (new_client _ _ _) as [client|e] eqn:Hc; [|right; left; by exists e].
  unfold NewRedisWriter. case_bool_decide as Ha; [by right; right|].
  split; [done|]. split; [done|]. split; [cbn; by rewrite <- app_assoc|]. intros recs ls s r. by apply processor_returns_nil.
Qed.
