(* ===== verification/Commands.v ===== *)
(** * The six commands: cmd/main.go of every service, shared/log, and the signals of shared/runtime

    [main] is what all six files do: load the configuration, build the logger, the ops server and
    the service, and run the ops server next to the service until both have returned.
    [service_ends] says how the service of each command can end, from the models of the services,
    [Signals] how the process takes SIGINT and SIGTERM while it runs. *)
From S2P Require Import Prelude GoBase Config Decimal Float64 Json GoTime Domain Wire Normalizer Runtime Retry FxRate Handlers FanOut Pool OrderBookStore RedisWriter Consumer Pipeline PipelineFacts KafkaLag LagCache HttpServer Publisher Ingestion IngestionFacts Api ApiHealth Processor.
#[local] Open Scope Z_scope.
#[local] Opaque decoded.

(** ** shared/log *)

Inductive log_writer := JSONToStdout | ConsoleToStderr.
Record logger (L : Type) := { log_writer_of : log_writer; log_level : L; log_service : string }.
Arguments log_writer_of {L} _.
Arguments log_level {L} _.
Arguments log_service {L} _.

(** [ParseLevel] and the level info are the logging library's. *)
Definition log_New {L : Type} (ParseLevel : string -> result error L) (InfoLevel : L)
    (serviceName env level : string) : logger L :=
  let lvl := match ParseLevel level with Ok l => l | Err _ => InfoLevel end in
  {| log_writer_of := if bool_decide (env = "prod"%string) then JSONToStdout else ConsoleToStderr;
     log_level := lvl; log_service := serviceName |}.

(** ** shared/runtime: SignalContext *)

(** [signal.NotifyContext] registers a channel of capacity one for the two signals and starts a
    goroutine that waits for a signal on it, or for the end of the context, and then cancels the
    context.  As os/signal documents, it is the returned function that unregisters the channel: until
    it has been called no signal has its default effect, which is to kill the process. *)
Module Signals.
Inductive signal := SIGINT | SIGTERM.

Record signals := {
  registered : bool;              (** the channel is registered for the signals *)
  sig_chan : list signal;         (** what is buffered in it *)
  watching : bool;                (** the goroutine has not left its select *)
  sig_ctx : option error;         (** the error of the context *)
  killed : bool;
}.
Definition cancelled : error := Sentinel ContextCanceled.

Definition SignalContext : signals :=
  {| registered := true; sig_chan := []; watching := true; sig_ctx := None; killed := false |}.
Definition cancel_ctx (p : signals) : option error := Some (default cancelled (sig_ctx p)).
(** The returned function. *)
Definition cancel (p : signals) : signals :=
  {| registered := false; sig_chan := sig_chan p; watching := watching p; sig_ctx := cancel_ctx p; killed := killed p |}.
(** A signal arrives; the send to the channel never blocks. *)
Definition arrive (s : signal) (p : signals) : signals :=
  if registered p then
    {| registered := true; sig_chan := if (length (sig_chan p) <? 1)%nat then sig_chan p ++ [s] else sig_chan p;
       watching := watching p; sig_ctx := sig_ctx p; killed := killed p |}
  else {| registered := false; sig_chan := sig_chan p; watching := watching p; sig_ctx := sig_ctx p; killed := true |}.
(** The goroutine; [None] while it waits, and once it has ended. *)
Definition watch (p : signals) : option signals :=
  if watching p then
    match sig_chan p, sig_ctx p with
    | _ :: rest, _ => Some {| registered := registered p; sig_chan := rest; watching := false;
                              sig_ctx := cancel_ctx p; killed := killed p |}
    | [], Some _ => Some {| registered := registered p; sig_chan := []; watching := false;
                            sig_ctx := sig_ctx p; killed := killed p |}
    | [], None => None
    end
  else None.

Inductive sig_label := Arrives (s : signal) | Watches.
Definition sig_step (p : signals) (l : sig_label) (p' : signals) : Prop :=
  match l with
  | Arrives s => p' = arrive s p
  | Watches => watch p = Some p'
  end.
(** A signal, and the goroutine as far as it gets. *)
Definition notify (p : signals) (s : signal) : signals :=
  let p' := arrive s p in default p' (watch p').
End Signals.
Import Signals.

(** ** cmd/main.go *)

Inductive command :=
  | AnalyticsService | ApiService | FxRateService | IngestionService | NotificationService | ProcessorService.
Definition serviceName (c : command) : string :=
  match c with
  | AnalyticsService => "analytics-service"
  | ApiService => "api-service"
  | FxRateService => "fx-rate-service"
  | IngestionService => "ingestion-service"
  | NotificationService => "notification-service"
  | ProcessorService => "processor-service"
  end.

(** How the process ends, and what it printed to standard error itself. *)
Inductive outcome :=
  | ExitStatus (status : Z) (stderr : option string)
  | Crashed                     (** a goroutine panicked *)
  | KilledBySignal.

Definition is_panic (e : loop_end) : bool := match e with Panicked => true | _ => false end.
Definition returned (e : loop_end) : option (option error) :=
  match e with Returned r => Some r | _ => None end.

(** [p]: the signals when the components have returned; [ends]: how the ops server and the service
    end, in the order in which they do; [None] while one of them is running.  The second result is
    what becomes of the signals: [os.Exit] and [log.Fatal] leave without the deferred [cancel]. *)
Definition main_run `{Errgroup} (cfg : result error Config) (p : signals) (ends : list loop_end) :
  option (outcome * signals) :=
  match cfg with
  | Err err => Some (ExitStatus 1 (Some ("config load failed: " ++ Error err)%string), p)
  | Ok _ =>
      if killed p then Some (KilledBySignal, p)
      else if existsb is_panic ends then Some (Crashed, p)
      else
        rs ← mapM returned ends;
        match runtime_Run (sig_ctx p) rs with
        | Some _ => Some (ExitStatus 1 None, p)
        | None => Some (ExitStatus 0 None, cancel p)
        end
  end.
(** [sigs]: the signals that have arrived, and have been seen, before the components have returned. *)
Definition main `{Errgroup} (cfg : result error Config) (sigs : list signal) (ends : list loop_end) : option outcome :=
  fst <$> main_run cfg (fold_left notify sigs SignalContext) ends.
(** The six files. *)
Section Mains.
Context `{Errgroup} {V : Type} `{Viper V}.
Definition analytics_service (sigs : list signal) (ends : list loop_end) : option outcome :=
  main (Load "analytics-service") sigs ends.
Definition api_service (sigs : list signal) (ends : list loop_end) : option outcome :=
  main (Load "api-service") sigs ends.
Definition fx_rate_service (sigs : list signal) (ends : list loop_end) : option outcome :=
  main (Load "fx-rate-service") sigs ends.
Definition ingestion_service (sigs : list signal) (ends : list loop_end) : option outcome :=
  main (Load "ingestion-service") sigs ends.
Definition notification_service (sigs : list signal) (ends : list loop_end) : option outcome :=
  main (Load "notification-service") sigs ends.
Definition processor_service (sigs : list signal) (ends : list loop_end) : option outcome :=
  main (Load "processor-service") sigs ends.
Definition command_main (c : command) : list signal -> list loop_end -> option outcome :=
  match c with
  | AnalyticsService => analytics_service
  | ApiService => api_service
  | FxRateService => fx_rate_service
  | IngestionService => ingestion_service
  | NotificationService => notification_service
  | ProcessorService => processor_service
  end.
End Mains.

(** ** analytics- and notification-service: the skeletons *)

(** [Run] waits for its context; [ctx_ended] says whether it has ended. *)
Definition analytics_Run (ctx_ended : bool) : loop_end := if ctx_ended then Returned None else Running.
Definition notification_Run (ctx_ended : bool) : loop_end := if ctx_ended then Returned None else Running.

(** ** How the services end *)

(** The clients the services make, each as its constructor. *)
Record clients (C R : Type) := {
  new_producer : list string -> option error;
  new_consumer : list string -> string -> string -> result error C;
  dial_redis : RedisConfig -> R;
  dial_kafka : list string -> result error admin_client;
}.
Arguments new_producer {C R} _ _.
Arguments new_consumer {C R} _ _ _ _.
Arguments dial_redis {C R} _ _.
Arguments dial_kafka {C R} _ _.

Section Services.
Context {C R P : Type} `{Redis R} `{Unicode} `{MetadataProvider P} `{Errgroup} (meta : P) (env : clients C R).

(** [listener]: how the listener of the public server ended, if one was started. *)
Inductive service_ends_by (cfg : Config) : command -> option serve_end -> loop_end -> Prop :=
  | ends_analytics b : service_ends_by cfg AnalyticsService None (analytics_Run b)
  | ends_notification b : service_ends_by cfg NotificationService None (notification_Run b)
  | ends_fx ss : service_ends_by cfg FxRateService None (fx_Run cfg ss).2
  | ends_ingestion_setup err :
      ingest_setup (new_producer env) cfg = Err err -> service_ends_by cfg IngestionService None (Returned (Some err))
  | ends_ingestion s0 ls s r :
      ingest_setup (new_producer env) cfg = Ok s0 -> trace ingest_step s0 ls s -> ingest_return s = Some r ->
      service_ends_by cfg IngestionService None (Returned r)
  | ends_processor_setup ops err :
      processor_setup (new_consumer env) (dial_redis env) cfg ops = Err err ->
      service_ends_by cfg ProcessorService None (Returned (Some err))
  | ends_processor ops w recs ls s r :
      processor_setup (new_consumer env) (dial_redis env) cfg ops = Ok w ->
      trace (sys_step meta) (processor_init w recs) ls s -> processor_return s = Some r ->
      service_ends_by cfg ProcessorService None (Returned r)
  | ends_api_setup ops err :
      api_setup (dial_redis env) (dial_kafka env) cfg ops = Err err ->
      service_ends_by cfg ApiService None (Returned (Some err))
  | ends_api ops s listener c script delays refresher c' :
      api_setup (dial_redis env) (dial_kafka env) cfg ops = Ok s -> LagCache_Run c script = (delays, Returned refresher, c') ->
      service_ends_by cfg ApiService (Some listener)
        (Returned (api_Run (dial_redis env) (dial_kafka env) cfg ops listener refresher)).
Definition service_ends (cfg : Config) (c : command) (e : loop_end) : Prop :=
  exists listener, service_ends_by cfg c listener e.

(** The configurations with which the setup of a service fails. *)
Definition setup_fails (cfg : Config) (c : command) : Prop :=
  match c with
  | IngestionService =>
      normalizeSymbols (Symbols (Ingestion cfg)) = [] \/ Brokers (Kafka cfg) = [] \/
      new_producer env (Brokers (Kafka cfg)) <> None
  | ProcessorService =>
      Brokers (Kafka cfg) = [] \/ (exists e, new_consumer env (Brokers (Kafka cfg)) ConsumerGroupProcessor TopicTradesRaw = Err e) \/
      RedisAddr (RedisCfg cfg) = ""%string
  | ApiService => RedisAddr (RedisCfg cfg) = ""%string
  | _ => False
  end.
End Services.

(** ** Lemmas *)

(** While the channel is registered nothing kills the process, and the context ends by a signal. *)
Record sig_inv (ls : list sig_label) (p : signals) : Prop := {
  si_registered : registered p = true;
  si_alive : killed p = false;
  si_watching : watching p = false -> sig_ctx p <> None;
  si_signal : sig_chan p <> [] \/ sig_ctx p <> None -> exists s, Arrives s ∈ ls;
  si_pending : (exists s, Arrives s ∈ ls) -> sig_ctx p <> None \/ sig_chan p <> [];
}.
Lemma sig_inv_start : sig_inv [] SignalContext.
Proof. split; try done; [by intros [|]|by intros (s & ?%elem_of_nil)]. Qed.
Lemma sig_inv_step ls p l p' : sig_inv ls p -> sig_step p l p' -> sig_inv (ls ++ [l]) p'.
Proof.
  intros [Hr Hk Hw Hs Hp] Hstep. destruct l as [s|].
  - cbn in Hstep. subst p'. unfold arrive. rewrite Hr. split; cbn [registered sig_chan watching sig_ctx killed]; try done.
    + intros _. exists s. apply elem_of_app. right. left.
    + intros _. right. destruct (sig_chan p); [done|]. by destruct (_ <? _)%nat.
  - cbn in Hstep. unfold watch in Hstep. destruct (watching p) eqn:Hwatch; [|done].
    destruct (sig_chan p) as [|s rest] eqn:Hc.
    + destruct (sig_ctx p) as [e|] eqn:He; [|done]. injection Hstep as <-.
      split; cbn [registered sig_chan watching sig_ctx killed]; try done.
      * intros _. destruct Hs as [s Hs]; [by right|]. exists s. apply elem_of_app. by left.
      * intros _. by left.
    + injection Hstep as <-. split; cbn [registered sig_chan watching sig_ctx killed cancel_ctx]; try done.
      * intros _. destruct Hs as [s' Hs']; [by left|]. exists s'. apply elem_of_app. by left.
      * intros _. by left.
Qed.
Lemma sig_inv_trace ls p : trace sig_step SignalContext ls p -> sig_inv ls p.
Proof. intros Htr. eapply (trace_history sig_step sig_inv); [apply sig_inv_start|by apply sig_inv_step|exact Htr]. Qed.

Lemma notify_spec p s :
  registered p = true -> killed p = false -> (watching p = false -> sig_ctx p <> None) ->
  let p' := notify p s in registered p' = true /\ killed p' = false /\ sig_ctx p' <> None.
Proof.
  intros Hr Hk Hw. unfold notify, arrive, watch. rewrite Hr. cbn [registered sig_chan watching sig_ctx killed].
  destruct (watching p); [|cbn; auto].
  destruct (sig_chan p) as [|s' rest]; [done|].
  by destruct (_ <? _)%nat.
Qed.

Lemma notify_all sigs :
  let p := fold_left notify sigs SignalContext in
  registered p = true /\ killed p = false /\ (sig_ctx p = None <-> sigs = []).
Proof.
  enough (registered (fold_left notify sigs SignalContext) = true /\ killed (fold_left notify sigs SignalContext) = false /\
    ((sigs = [] /\ fold_left notify sigs SignalContext = SignalContext) \/
     (sigs <> [] /\ sig_ctx (fold_left notify sigs SignalContext) <> None))) as (Hr & Hk & Hc).
  { split; [done|]. split; [done|]. by destruct Hc as [[-> ->]|[]]. }
  induction sigs as [|s sigs IH] using rev_ind; [split_and!; [done..|by left]|]. rewrite fold_left_app. cbn [fold_left].
  destruct IH as (Hr & Hk & Hc). destruct (notify_spec _ s Hr Hk) as (Hr' & Hk' & Hc').
  { destruct Hc as [[_ ->]|[_ ?]]; done. }
  split_and!; [done..|]. right. split; [by intros []%app_eq_nil|done].
Qed.

Lemma NewPublisher_fails new_client cfg :
  (exists e, NewPublisher new_client cfg = Err e) <-> Brokers cfg = [] \/ new_client (Brokers cfg) <> None.
Proof.
  unfold NewPublisher. case_bool_decide as Hb; [split; [by left|by eexists]|].
  destruct (new_client (Brokers cfg)); split; try done; try by eexists.
  - by right.
  - by intros [].
  - by intros [|].
Qed.

Lemma ingest_setup_fails `{Unicode} new_client cfg :
  (exists e, ingest_setup new_client cfg = Err e) <->
  normalizeSymbols (Symbols (Ingestion cfg)) = [] \/ Brokers (Kafka cfg) = [] \/
  new_client (Brokers (Kafka cfg)) <> None.
Proof.
  unfold ingest_setup. case_bool_decide as Hs; [split; [by left|by eexists]|]. rewrite <- NewPublisher_fails.
  destruct (NewPublisher new_client (Kafka cfg)) as [p|e]; split.
  - by intros [].
  - by intros [?|[]].
  - intros _. right. by exists e.
  - by eexists.
Qed.

Lemma processor_setup_fails {C R : Type} new_client (dial : RedisConfig -> R) cfg ops :
  (exists e, processor_setup (C := C) new_client dial cfg ops = Err e) <->
  Brokers (Kafka cfg) = [] \/ (exists e, new_client (Brokers (Kafka cfg)) ConsumerGroupProcessor TopicTradesRaw = Err e) \/
  RedisAddr (RedisCfg cfg) = ""%string.
Proof.
  unfold processor_setup, NewConsumer, NewRedisWriter. case_bool_decide as Hb; [split; [by left|by eexists]|].
  destruct (new_client _ _ _) as [c|e] eqn:Hc.
  - case_bool_decide as Ha; split; try by eexists.
    + intros _. by right; right.
    + by intros [].
    + by intros [?|[[]|?]].
  - split; [|by eexists]. intros _. right. left. by eexists.
Qed.

Section ServiceFacts.
Context {C R P : Type} `{Redis R} `{Unicode} `{MetadataProvider P} `{Errgroup} (meta : P) (env : clients C R).
#[local] Abbreviation ends := (service_ends_by meta env).

Lemma service_panics cfg c l : ends cfg c l Panicked -> c = FxRateService /\ PollInterval (FX cfg) <= 0.
Proof.
  intros He. remember Panicked as e eqn:Hend. destruct He as [[]|[]|ss| | | | | |]; try discriminate Hend.
  - split; [done|]. destruct (Z.le_gt_cases (PollInterval (FX cfg)) 0) as [|Hp]; [done|].
    destruct (fx_Run_survives cfg ss) as [Hok _]. specialize (Hok Hp).
    destruct (fx_Run cfg ss) as [ds e]. cbn [snd] in *. destruct Hok as [[?|?] _]; congruence.
Qed.

Lemma fx_must_panic cfg c l r : ends cfg c l (Returned r) -> c = FxRateService -> 0 < PollInterval (FX cfg).
Proof.
  intros He Hc. remember (Returned r) as e eqn:Hend. destruct He as [| |ss| | | | | |]; try done. clear Hc.
  destruct (Z.le_gt_cases (PollInterval (FX cfg)) 0) as [Hp|]; [|lia].
  destruct (fx_Run_survives cfg ss) as [_ Hbad]. destruct ss; [discriminate Hend|]. by rewrite Hbad in Hend.
Qed.

Lemma fx_no_error cfg ss err : (fx_Run cfg ss).2 <> Returned (Some err).
Proof.
  intros Hs. destruct (fx_Run_survives cfg ss) as [Hok Hbad].
  destruct (Z.le_gt_cases (PollInterval (FX cfg)) 0) as [Hp|Hp].
  - destruct ss; [discriminate Hs|]. by rewrite Hbad in Hs.
  - specialize (Hok Hp). destruct (fx_Run cfg ss) as [ds e]. cbn [snd] in *. destruct Hok as [[?|?] _]; congruence.
Qed.

(** The listener of a service reported an error. *)
Definition listener_failed (l : option serve_end) : Prop := exists public, l = Some public /\ PublicServer_Run public <> None.

Lemma api_setup_fails (dial : RedisConfig -> R) dial_kafka cfg ops :
  (exists err, api_setup dial dial_kafka cfg ops = Err err) <-> RedisAddr (RedisCfg cfg) = ""%string.
Proof.
  unfold api_setup, NewRedisReader. case_bool_decide as Ha; [split; [done|by eexists]|].
  destruct (startLagCache _ _ _). split; [by intros []|done].
Qed.

(** A service fails exactly if its setup did, or its public listener reported an error. *)
Lemma service_error cfg c l r :
  ends cfg c l (Returned r) -> (r <> None <-> setup_fails env cfg c \/ listener_failed l).
Proof.
  intros He. remember (Returned r) as e eqn:Hend.
  assert (~ listener_failed None) as Hno by (by intros (? & ? & _)).
  destruct He as [[]|[]|ss|e He|s0 ls s r' Hs Htr Hr|ops e He|ops w recs ls s r' Hw Htr Hr|ops err He
    |ops s public c0 script delays refresher c' Hs Hrun]; try discriminate Hend; try (injection Hend as <-); cbn [setup_fails].
  - split; [done|]. by intros [|?%Hno].
  - split; [done|]. by intros [|?%Hno].
  - destruct r as [err|]; [by apply fx_no_error in Hend|]. split; [done|]. by intros [|?%Hno].
  - split; [|done]. intros _. left. apply ingest_setup_fails. by eexists.
  - assert (r' = None) as ->.
    { unfold ingest_setup in Hs. case_bool_decide; [done|]. destruct (NewPublisher _ _) as [p|]; [|done].
      injection Hs as <-. by apply (Ingestion_returns_nil _ _ _ _ _ Htr) in Hr. }
    split; [done|]. intros [[err Hf]%ingest_setup_fails|?%Hno]; [congruence|done].
  - split; [|done]. intros _. left. apply (processor_setup_fails (new_consumer env) (dial_redis env) cfg ops). by eexists.
  - apply (processor_returns_nil _ _ _ _ _ _ Htr) in Hr as [-> _]. split; [done|].
    intros [[err Hf]%(processor_setup_fails (new_consumer env) (dial_redis env) cfg ops)|?%Hno]; [congruence|done].
  - split; [|done]. intros _. left. eapply api_setup_fails. by eexists.
  - assert (refresher = None) as -> by (by apply LagCache_Run_nil in Hrun).
    unfold api_Run. rewrite Hs. split.
    + intros Hg. right. exists public. split; [done|]. intros Hpub. apply Hg, group_Wait_nil. rewrite Hpub.
      destruct (w_lag s); by repeat constructor.
    + intros [[err Hf]%(api_setup_fails (dial_redis env) (dial_kafka env) cfg ops)|(public' & [= <-] & Hp)]; [congruence|].
      rewrite group_Wait_iff. intros Hall. rewrite Forall_forall in Hall. apply Hp, Hall, elem_of_app. right. left.
Qed.
End ServiceFacts.

Lemma command_main_load `{Errgroup} {V : Type} `{Viper V} c sigs ends : command_main c sigs ends = main (Load (serviceName c)) sigs ends.
Proof. by destruct c. Qed.

Lemma main_returned `{Errgroup} cfg sigs rs :
  main (Ok cfg) sigs (map Returned rs) =
  Some (ExitStatus (match runtime_Run (sig_ctx (fold_left notify sigs SignalContext)) rs with Some _ => 1 | None => 0 end) None).
Proof.
  unfold main, main_run. destruct (notify_all sigs) as (_ & -> & _).
  assert (existsb is_panic (map Returned rs) = false) as -> by (by induction rs).
  assert (mapM returned (map Returned rs) = Some rs) as ->.
  { induction rs as [|r rs IH]; [done|]. cbn [map mapM]. by rewrite IH. }
  cbn [mbind option_bind]. by destruct (runtime_Run _ rs).
Qed.

Lemma mapM_returned ends rs : mapM returned ends = Some rs -> ends = map Returned rs.
Proof.
  intros Hm%mapM_Some_1. induction Hm as [|e r ends rs He _ IH]; [done|].
  destruct e; try done. injection He as ->. by rewrite IH.
Qed.

(** What [main] makes of the two components, once both have returned. *)
Lemma main_both `{Errgroup} cfg sigs ends a e o :
  ends ≡ₚ [Returned a; e] -> main (Ok cfg) sigs ends = Some o -> e <> Panicked ->
  exists r, e = Returned r /\ exists status, o = ExitStatus status None /\ (status = 0 \/ status = 1) /\
    (status = 1 <-> sigs = [] /\ (a <> None \/ r <> None)).
Proof.
  intros Hends Ho Hne. destruct (notify_all sigs) as (_ & Hk & Hctx).
  assert (exists r rs, e = Returned r /\ ends = map Returned rs) as (r & rs & -> & ->).
  { unfold main, main_run in Ho. rewrite Hk in Ho. destruct (existsb is_panic ends) eqn:Hex.
    - apply existsb_exists in Hex as (x & Hin%list_elem_of_In & Hx). rewrite Hends in Hin.
      apply elem_of_cons in Hin as [->|Hin%list_elem_of_singleton]; [done|]. subst x. by destruct e.
    - destruct (mapM returned ends) as [rs|] eqn:Hm; [|done]. apply mapM_returned in Hm as ->.
      assert (e ∈ map Returned rs) as Hin by (rewrite Hends; right; left).
      apply list_elem_of_In, in_map_iff in Hin as (r & <- & _). by exists r, rs. }
  exists r. split; [done|]. rewrite main_returned in Ho. injection Ho as <-.
  destruct (runtime_Run_reports (sig_ctx (fold_left notify sigs SignalContext)) rs) as [Hrun _].
  assert ((exists err, Some err ∈ rs) <-> a <> None \/ r <> None) as Herr.
  { assert (forall x, x ∈ rs <-> x = a \/ x = r) as Hrs.
    { intros x. transitivity (Returned x ∈ map Returned rs).
      - split; [intros Hx; by apply list_elem_of_In, in_map, list_elem_of_In|]. intros Hx.
        apply list_elem_of_In, in_map_iff in Hx as (y & [= ->] & Hy). by apply list_elem_of_In.
      - rewrite Hends, elem_of_cons, list_elem_of_singleton. split; intros [?|?]; (left; congruence) || (right; congruence). }
    split.
    - intros [err [<-|<-]%Hrs]; [by left|by right].
    - intros [Hx|Hx]; [destruct a as [err|]|destruct r as [err|]]; try done; exists err; apply Hrs; [by left|by right]. }
  rewrite Hctx, Herr in Hrun. eexists. split; [reflexivity|].
  destruct (runtime_Run _ _) eqn:Hr; (split; [by auto|]); rewrite <- Hrun; by split.
Qed.

(** ** Properties *)

(** C17: the exit of every command: without a configuration it is status 1 with a message; a panic of a
    goroutine, which happens exactly in the FX poller and with an interval that is not positive,
    crashes the process; otherwise, once the ops server and the service have returned, the status
    is 0 if a signal has arrived, and if none has, it is 1 exactly if the ops listener failed, the
    setup of the service did, or the public listener that this run of the API started has ended in
    a way that [PublicServer.Run] reports, and 0 else. *)
Theorem command_exit {C R P V : Type} `{Redis R} `{Unicode} `{MetadataProvider P} `{Errgroup} `{Viper V} (meta : P)
    (env : clients C R) (c : command) (sigs : list signal) :
  match Load (serviceName c) with
  | Err err => forall ends,
      command_main c sigs ends = Some (ExitStatus 1 (Some ("config load failed: " ++ Error err)%string))
  | Ok cfg => forall listener e ops ends o,
      service_ends_by meta env cfg c listener e -> ends ≡ₚ [Returned (Start ops); e] -> command_main c sigs ends = Some o ->
      o <> KilledBySignal /\ (o = Crashed <-> e = Panicked) /\
      (e = Panicked <-> c = FxRateService /\ PollInterval (FX cfg) <= 0) /\
      (e <> Panicked -> exists status, o = ExitStatus status None /\ (status = 0 \/ status = 1) /\
         (sigs <> [] -> status = 0) /\
         (sigs = [] -> (status = 1 <-> Start ops <> None \/ setup_fails env cfg c \/
            exists public, listener = Some public /\ PublicServer_Run public <> None)))
  end.
Proof.
  destruct (Load (serviceName c)) as [cfg|err] eqn:Hload; [|intros ends; by rewrite command_main_load, Hload].
  intros listener e ops ends o He Hends Ho. rewrite command_main_load, Hload in Ho.
  destruct (notify_all sigs) as (_ & Hk & Hctx). destruct (is_panic e) eqn:Hpan.
  { destruct e; try done. assert (existsb is_panic ends = true) as Hex.
    { apply existsb_exists. exists Panicked. split; [|done]. apply list_elem_of_In. rewrite Hends. right. left. }
    unfold main, main_run in Ho. rewrite Hk, Hex in Ho. injection Ho as <-. split_and!; try done.
    split; [intros _; by eapply service_panics|done]. }
  assert (e <> Panicked) as Hne by (by intros ->).
  destruct (main_both cfg sigs ends (Start ops) e o Hends Ho Hne) as (r & -> & Hmain).
  split_and!; try (by destruct Hmain as (status & -> & _)).
  { split; [done|]. intros [Hc Hp]. pose proof (fx_must_panic meta env cfg c _ r He Hc). lia. }
  intros _. destruct Hmain as (status & -> & H01 & Hone). exists status. split_and!; try done.
  - intros Hs. destruct H01 as [|Hst]; [done|]. by apply Hone in Hst as [? _].
  - intros Hs. rewrite Hone. rewrite (service_error meta env cfg c listener r He). unfold listener_failed. tauto.
Qed.

(** C18: a drain cannot be forced: whatever signals arrive and however the goroutine of
    [NotifyContext] is scheduled among them, while the components of [main] run no signal has
    killed the process, and [main] goes on waiting for every component that has not returned; the
    context has ended only if a signal has arrived, and if one has, it has ended or the next step
    of the goroutine ends it.  Once the components have returned, a further signal kills
    the process exactly if [main] has reached its end with status 0, where the deferred [cancel]
    runs: not before, and not when [log.Fatal] has ended it. *)
Theorem drain_not_forced `{Errgroup} (cfg : Config) (ls : list sig_label) (p : signals) (ends : list loop_end) :
  trace sig_step SignalContext ls p ->
  killed p = false /\ (forall s, killed (arrive s p) = false) /\
  (sig_ctx p <> None -> exists s, Arrives s ∈ ls) /\
  ((exists s, Arrives s ∈ ls) -> sig_ctx p <> None \/ exists p', sig_step p Watches p' /\ sig_ctx p' <> None) /\
  (Running ∈ ends -> Panicked ∉ ends -> main_run (Ok cfg) p ends = None) /\
  (forall o p', main_run (Ok cfg) p ends = Some (o, p') ->
     o <> KilledBySignal /\ killed p' = false /\
     forall s, killed (arrive s p') = true <-> o = ExitStatus 0 None).
Proof.
  intros Htr. destruct (sig_inv_trace ls p Htr) as [Hr Hk Hw Hs Hp].
  assert (forall s, killed (arrive s p) = false) as Harr by (intros s; unfold arrive; by rewrite Hr).
  split; [done|]. split; [done|]. split; [auto|]. split; [|split].
  - intros Hin. destruct (sig_ctx p) as [err|] eqn:Hc; [by left|right].
    destruct (Hp Hin) as [|Hchan]; [done|]. cbn. unfold watch.
    destruct (watching p); [|by destruct Hw]. destruct (sig_chan p) as [|s rest]; [done|].
    eexists. split; [reflexivity|]. by cbn.
  - intros Hrun Hpan. unfold main_run. rewrite Hk. destruct (existsb is_panic ends) eqn:Hex.
    + apply existsb_exists in Hex as (x & Hin%list_elem_of_In & Hx). by destruct x.
    + destruct (mapM returned ends) as [rs|] eqn:Hm; [|done]. apply mapM_returned in Hm as ->.
      apply list_elem_of_In, in_map_iff in Hrun as (r & ? & _). done.
  - intros o p' Hmain. unfold main_run in Hmain. rewrite Hk in Hmain.
    destruct (existsb is_panic ends).
    { injection Hmain as <- <-. split_and!; try done. intros s. by rewrite Harr. }
    destruct (mapM returned ends) as [rs|]; [|done]. cbn [mbind option_bind] in Hmain.
    destruct (runtime_Run _ rs); injection Hmain as <- <-; (split; [done|]); (split; [done|]).
    + intros s. by rewrite Harr.
    + intros s. done.
Qed.

(** ** Examples *)

(** Three signals, of which the goroutine of the context sees the first before the others arrive. *)
Definition three_signals : list sig_label := [Arrives SIGINT; Watches; Arrives SIGINT; Arrives SIGTERM].
Definition after_three : signals :=
  {| registered := true; sig_chan := [SIGINT]; watching := false; sig_ctx := Some cancelled; killed := false |}.
Lemma drain_not_forced_witness :
  @main_run first_error_group (Ok compose_config) after_three [Returned None; Running] = None /\
  sig_ctx after_three <> None /\ killed (arrive SIGINT after_three) = false /\
  exists p', @main_run first_error_group (Ok compose_config) after_three [Returned None; Returned None] =
      Some (ExitStatus 0 None, p') /\ killed (arrive SIGINT p') = true.
Proof.
  assert (trace sig_step SignalContext three_signals after_three) as Htr by (repeat (econstructor; [reflexivity|]); constructor).
  destruct (@drain_not_forced first_error_group compose_config three_signals after_three [Returned None; Running] Htr)
    as (_ & Harr & _ & _ & Hwait & _).
  destruct (@drain_not_forced first_error_group compose_config three_signals after_three [Returned None; Returned None] Htr)
    as (_ & _ & _ & _ & _ & Hend).
  split; [apply Hwait; [right; left|]|].
  { intros Hin. repeat (apply elem_of_cons in Hin as [Hin|Hin]; [discriminate|]). by apply elem_of_nil in Hin. }
  split; [discriminate|]. split; [apply Harr|]. eexists. split; [reflexivity|].
  refine (proj2 (proj2 (proj2 (Hend _ _ _)) SIGINT) _); reflexivity.
Defined.

(** The stack of docker-compose: a processor whose client cannot be made, without a signal; the
    notification skeleton after SIGTERM; and, without a signal, an API whose public port is taken. *)
Definition compose_clients : clients unit mem_redis :=
  {| new_producer _ := None; new_consumer _ _ _ := Err (ErrorString "unable to dial"); dial_redis _ := empty_redis;
     dial_kafka _ := Err (ErrorString "unable to dial") |}.
Definition compose_processor_error : error :=
  Errorf_w "kafka consumer: " (Errorf_w "kafka: new consumer: " (ErrorString "unable to dial")).
Definition port_taken : serve_end := Listened (Some (ErrorString "listen tcp :8080: bind: address already in use")).
Definition stopped_refresh : lag_round :=
  {| lr_outcome := Ok zero_ConsumerLag; lr_now := zero_Time; lr_cancelled := true; lr_bits := 0; lr_seed := 0;
     lr_cancelled_in_wait := true |}.

Lemma command_exit_witness :
  (exists o, @command_main first_error_group _ compose_viper ProcessorService [] [Returned (Some compose_processor_error); Returned None] = Some o /\
     exists status, o = ExitStatus status None /\ status = 1) /\
  (exists o, @command_main first_error_group _ compose_viper NotificationService [SIGTERM] [Returned None; Returned None] = Some o /\
     exists status, o = ExitStatus status None /\ status = 0) /\
  (exists o, @command_main first_error_group _ compose_viper ApiService [] [Returned None; Returned None] = Some o /\
     exists status, o = ExitStatus status None /\ status <> 1).
Proof.
  split; [|split]; eexists; (split; [vm_compute; reflexivity|]).
  - pose proof (@command_exit unit mem_redis StaticMetadataProvider _ mem_Redis ascii_only _ first_error_group compose_viper
      NewDefaultMetadataProvider compose_clients ProcessorService []) as Hexit.
    rewrite compose_load in Hexit.
    destruct (Hexit None (Returned (Some compose_processor_error)) (ShutDown None)
      [Returned (Some compose_processor_error); Returned None] (ExitStatus 1 None)) as (_ & _ & _ & Hok);
      [by eapply (ends_processor_setup _ _ _ {| checkers := [] |})|apply perm_swap|vm_compute; reflexivity|].
    destruct (Hok ltac:(discriminate)) as (status & Ho & _ & _ & Hone). exists status. split; [exact Ho|].
    apply Hone; [reflexivity|right; left; right; left; by eexists].
  - pose proof (@command_exit unit mem_redis StaticMetadataProvider _ mem_Redis ascii_only _ first_error_group compose_viper
      NewDefaultMetadataProvider compose_clients NotificationService [SIGTERM]) as Hexit.
    rewrite compose_load in Hexit.
    destruct (Hexit None (Returned None) (ShutDown None)
      [Returned None; Returned None] (ExitStatus 0 None)) as (_ & _ & _ & Hok);
      [apply (ends_notification _ _ _ true)|reflexivity|vm_compute; reflexivity|].
    destruct (Hok ltac:(discriminate)) as (status & Ho & _ & Hzero & _). exists status. split; [exact Ho|].
    by apply Hzero.
  - pose proof (@command_exit unit mem_redis StaticMetadataProvider _ mem_Redis ascii_only _ first_error_group compose_viper
      NewDefaultMetadataProvider compose_clients ApiService []) as Hexit.
    rewrite compose_load in Hexit.
    destruct (Hexit (Some port_taken) (Returned None) (ShutDown None)
      [Returned None; Returned None] (ExitStatus 0 None)) as (_ & _ & _ & Hok);
      [|reflexivity|vm_compute; reflexivity|].
    { refine (eq_ind (@api_Run mem_redis (dial_redis compose_clients) (dial_kafka compose_clients) first_error_group _
          {| checkers := [] |} port_taken None) (fun r => service_ends_by _ _ _ _ _ (Returned r)) _ None _).
      - eapply (ends_api _ _ _ _ _ _ (NewLagCache 0) [stopped_refresh]); reflexivity.
      - vm_compute. reflexivity. }
    destruct (Hok ltac:(discriminate)) as (status & Ho & _ & _ & Hone). exists status. split; [exact Ho|].
    intros [Hops|[Hset|(public & [= <-] & Hpub)]]%Hone; [| | |reflexivity].
    + apply Hops. reflexivity.
    + vm_compute in Hset. discriminate Hset.
    + apply Hpub. vm_compute. reflexivity.
Defined.
