(* ===== verification/Lifetime.v ===== *)
(** * A process from its start to its exit: the groups of goroutines, the contexts and the clients

    [main] runs the ops server next to the service ([runtime.Run]), and every [Service.Run] opens
    clients, starts goroutines in a group of its own and waits for them.  Both groups are
    [errgroup]s: the first error ends the context of the group, and the context of the outer one,
    which a signal ends too, is above that of the inner one.  [life_step] is the whole process as
    one transition system; what a goroutine may do is a [goroutine], taken from the models of the
    services, and [service_of] lists those of each command. *)
From S2P Require Import Prelude GoBase Config Domain Runtime Retry FxRate Handlers Pool Consumer Pipeline PipelineFacts RedisWriter KafkaLag LagCache HttpServer Publisher Ingestion IngestionFacts Api ApiHealth Processor Commands.
Import Signals.
#[local] Open Scope Z_scope.

(** ** Goroutines, clients and services *)

Inductive client := RedisClient | KafkaConsumer | KafkaProducer | KafkaAdmin.
#[export] Instance client_eq_dec : EqDecision client.
Proof. solve_decision. Defined.

(** What the Close methods release; the producer is flushed before ([Publisher_Close]), and a lag reader that
    [NewLagReader] has made has a client. *)
Definition RedisReader_Close : list client := [RedisClient].
Definition RedisWriter_Close : list client := [RedisClient].
Definition Consumer_Close : list client := [KafkaConsumer].
Definition LagReader_Close (l : option LagReader) : list client := match l with Some _ => [KafkaAdmin] | None => [] end.
Definition Publisher_client : list client := [KafkaProducer].

(** Why a goroutine returns: because its context has ended, or for what its listener did. *)
Inductive cause := Stop | Serve (e : serve_end).
(** How a goroutine may end, given whether its context has ended, and the clients it closes then. *)
Record goroutine := {
  g_ends : bool -> cause -> option loop_end;
  g_closes : list client;
}.
(** The first thing a service does, in order: a condition, or a client to make. *)
Inductive setup_step :=
  | Require (err : option error)
  | Open (c : client) (err : option error).
Record service := {
  setup : list setup_step;
  goroutines : list goroutine;
  defers : list client;         (** what [Service.Run] closes when it returns, in order *)
}.

(** The clients made, and the error that ended the setup. *)
Fixpoint run_setup (steps : list setup_step) (opened : list client) : list client * option error :=
  match steps with
  | [] => (opened, None)
  | Require None :: steps' => run_setup steps' opened
  | Open c None :: steps' => run_setup steps' (opened ++ [c])
  | Require (Some err) :: _ | Open _ (Some err) :: _ => (opened, Some err)
  end.

(** ** The goroutines of the program *)

(** A loop that only its context ends, and then with nil. *)
Definition until_done (closes : list client) : goroutine :=
  {| g_ends done _ := if done then Some (Returned None) else None; g_closes := closes |}.

(** A listener fails at any time; it is shut down only when the context has ended. *)
Definition listening (done : bool) (e : serve_end) : bool :=
  match e with Listened (Some _) => true | _ => done end.
Definition public_goroutine : goroutine :=
  {| g_ends done c :=
       match c with
       | Serve e => if listening done e then Some (Returned (PublicServer_Run e)) else None
       | Stop => None
       end;
     g_closes := [] |}.
(** The FX poller: its ticker panics if the interval is not positive. *)
Definition fx_goroutine (cfg : Config) : goroutine :=
  {| g_ends done _ :=
       if PollInterval (FX cfg) <=? 0 then Some Panicked else if done then Some (Returned None) else None;
     g_closes := [] |}.

Definition result_error {A : Type} (r : result error A) : option error :=
  match r with Ok _ => None | Err err => Some err end.

Section ServiceOf.
Context {C R : Type} `{Unicode} (env : clients C R) (cfg : Config).

Definition ingestion_of : service :=
  let symbols := normalizeSymbols (Symbols (Ingestion cfg)) in
  {| setup :=
       [Require (if bool_decide (symbols = []) then Some (ErrorString "ingestion: no symbols configured") else None);
        Open KafkaProducer (Errorf_w "kafka publisher: " <$> result_error (NewPublisher (new_producer env) (Kafka cfg)))];
     goroutines := map (fun _ => until_done []) symbols;
     defers := Publisher_client |}.

(** The pool, the consumer and the three sinks. *)
Definition processor_of : service :=
  {| setup :=
       [Open KafkaConsumer (Errorf_w "kafka consumer: " <$> result_error (NewConsumer (new_consumer env) (Kafka cfg)));
        Open RedisClient (Errorf_w "redis writer " <$> result_error (NewRedisWriter (RedisCfg cfg) (dial_redis env (RedisCfg cfg))))];
     goroutines := repeat (until_done []) 5;
     defers := RedisWriter_Close ++ Consumer_Close |}.

(** The refresher, if the admin client could be made, closes it when it ends. *)
Definition api_of : service :=
  let rc := RedisCfg cfg in
  let redis := Open RedisClient (Errorf_w "redis reader: " <$>
                 result_error (NewRedisReader (dial_redis env) (RedisAddr rc) (RedisPassword rc) (RedisDB rc))) in
  match NewLagReader (dial_kafka env) (Brokers (Kafka cfg)) ConsumerGroupProcessor TopicTradesRaw with
  | Ok reader =>
      {| setup := [redis; Open KafkaAdmin None];
         goroutines := [until_done (LagReader_Close (Some reader)); public_goroutine]; defers := RedisReader_Close |}
  | Err _ => {| setup := [redis]; goroutines := [public_goroutine]; defers := RedisReader_Close |}
  end.

(** The skeletons and the FX poller do their work in [Run] itself: a group of one. *)
Definition service_of (c : command) : service :=
  match c with
  | IngestionService => ingestion_of
  | ProcessorService => processor_of
  | ApiService => api_of
  | FxRateService => {| setup := []; goroutines := [fx_goroutine cfg]; defers := [] |}
  | AnalyticsService | NotificationService =>
      {| setup := []; goroutines := [until_done []]; defers := [] |}
  end.
End ServiceOf.

(** ** The process *)

Record process := {
  sigs : list signal;                  (** the signals that have arrived *)
  ops_live : bool;
  svc_live : bool;
  top_ends : list (option error);      (** the results of the two, in the order they ended *)
  live : list bool;                    (** which goroutines of the service are running *)
  inner_ends : list (option error);    (** the results of the others, in the order they ended *)
  closed : list client;
  exit : option outcome;
}.

(** An error in a group, or an end of the context above it, ends its context. *)
Definition group_failed (ends : list (option error)) : bool := bool_decide (first_error ends <> None).
Definition top_done (p : process) : bool := bool_decide (sigs p <> []) || group_failed (top_ends p).
Definition inner_done (p : process) : bool := top_done p || group_failed (inner_ends p).

Section Life.
Context (svc : service) (cfg : Config).

Definition start : process :=
  match run_setup (setup svc) [] with
  | (opened, None) =>
      {| sigs := []; ops_live := true; svc_live := true; top_ends := [];
         live := repeat true (length (goroutines svc)); inner_ends := []; closed := []; exit := None |}
  | (opened, Some err) =>
      {| sigs := []; ops_live := true; svc_live := false; top_ends := [Some err];
         live := []; inner_ends := []; closed := rev opened; exit := None |}
  end.

Inductive life_label :=
  | Signal (s : signal)
  | OpsEnds (e : serve_end)
  | Ends (i : nat) (c : cause)
  | ServiceReturns
  | Exits.

Definition life_exec (l : life_label) (p : process) : option process :=
  match exit p with
  | Some _ => None
  | None =>
      match l with
      | Signal s =>
          Some {| sigs := sigs p ++ [s]; ops_live := ops_live p; svc_live := svc_live p; top_ends := top_ends p;
                  live := live p; inner_ends := inner_ends p; closed := closed p; exit := None |}
      | OpsEnds e =>
          if ops_live p && listening (top_done p) e then
            Some {| sigs := sigs p; ops_live := false; svc_live := svc_live p; top_ends := top_ends p ++ [Start e];
                    live := live p; inner_ends := inner_ends p; closed := closed p; exit := None |}
          else None
      | Ends i c =>
          match goroutines svc !! i, live p !! i with
          | Some g, Some true =>
              match g_ends g (inner_done p) c with
              | Some (Returned r) =>
                  Some {| sigs := sigs p; ops_live := ops_live p; svc_live := svc_live p; top_ends := top_ends p;
                          live := <[i := false]> (live p); inner_ends := inner_ends p ++ [r];
                          closed := closed p ++ g_closes g; exit := None |}
              | Some Panicked =>
                  Some {| sigs := sigs p; ops_live := ops_live p; svc_live := svc_live p; top_ends := top_ends p;
                          live := live p; inner_ends := inner_ends p; closed := closed p; exit := Some Crashed |}
              | _ => None
              end
          | _, _ => None
          end
      | ServiceReturns =>
          if svc_live p && forallb negb (live p) then
            Some {| sigs := sigs p; ops_live := ops_live p; svc_live := false;
                    top_ends := top_ends p ++ [first_error (inner_ends p)];
                    live := live p; inner_ends := inner_ends p; closed := closed p ++ defers svc; exit := None |}
          else None
      | Exits =>
          if ops_live p || svc_live p then None
          else
            o ← @main first_error_group (Ok cfg) (sigs p) (map Returned (top_ends p));
            Some {| sigs := sigs p; ops_live := ops_live p; svc_live := svc_live p; top_ends := top_ends p;
                    live := live p; inner_ends := inner_ends p; closed := closed p; exit := Some o |}
      end
  end.
Definition life_step (p : process) (l : life_label) (p' : process) : Prop := life_exec l p = Some p'.
End Life.

(** ** Lemmas: contexts only end, and every step but a signal uses the process up *)

Lemma group_failed_app es es' : group_failed es = true -> group_failed (es ++ es') = true.
Proof.
  unfold group_failed. rewrite !bool_decide_eq_true. intros Hf Hn. apply Hf. revert Hn. clear.
  induction es as [|[e|] es IH]; [done|done|exact IH].
Qed.

Definition is_signal (l : life_label) : bool := match l with Signal _ => true | _ => false end.
Definition remaining (p : process) : nat :=
  length (filter (fun b => b = true) (live p)) + Nat.b2n (ops_live p) + Nat.b2n (svc_live p) +
  match exit p with Some _ => 0 | None => 1 end.

(** Take a step apart: the label, its guards, and the state after it. *)
Ltac life_inv H :=
  unfold life_step, life_exec in H;
  repeat match type of H with
  | context [match exit ?p with _ => _ end] => destruct (exit p) eqn:?; [discriminate H|]
  | context [match goroutines ?svc !! ?i with _ => _ end] => destruct (goroutines svc !! i) eqn:?; [|discriminate H]
  | context [match live ?p !! ?i with _ => _ end] => destruct (live p !! i) as [[]|] eqn:?; try discriminate H
  | context [match g_ends ?g ?d ?c with _ => _ end] => destruct (g_ends g d c) as [[]|] eqn:?; try discriminate H
  | context [if ?b then _ else _] => destruct b eqn:?; try discriminate H
  | context [main ?c ?s ?e] => destruct (main c s e) eqn:?; [cbn [mbind option_bind] in H|discriminate H]
  end;
  try (injection H as <-).

Section LifeFacts.
Context (svc : service) (cfg : Config).
#[local] Abbreviation step := (life_step svc cfg).

Lemma top_done_step p l p' : top_done p = true -> step p l p' -> top_done p' = true.
Proof.
  unfold top_done. rewrite !orb_true_iff, !bool_decide_eq_true. intros Hd Hstep.
  destruct l as [s|e|i c| |]; life_inv Hstep; cbn [sigs top_ends]; destruct Hd as [Hd|Hd]; auto using group_failed_app.
  left. by intros []%app_eq_nil.
Qed.

Lemma step_remaining p l p' :
  step p l p' ->
  (remaining p' + (if is_signal l then 0 else 1) <= remaining p)%nat /\ exit p = None.
Proof.
  intros Hstep. destruct l as [s|e|i c| |]; life_inv Hstep; unfold remaining; cbn [live ops_live svc_live exit is_signal];
    (split; [|done]); repeat match goal with H : exit _ = None |- _ => rewrite H; clear H end; try lia.
  - apply andb_prop in Heqb as [-> _]. cbn. lia.
  - pose proof (length_filter_insert (fun b => b = true) _ i _ false Heqo1) as Hl.
    rewrite decide_True, decide_False in Hl by done. lia.
  - apply andb_prop in Heqb as [-> _]. cbn. lia.
Qed.

Lemma trace_remaining p ls p' :
  trace step p ls p' ->
  (remaining p' + length (filter (fun l => is_signal l = false) ls) <= remaining p)%nat.
Proof.
  induction 1 as [|p l p1 ls p' Hstep _ IH]; [cbn; lia|]. apply step_remaining in Hstep as [Hr _].
  destruct (is_signal l) eqn:Hl.
  - rewrite filter_cons_False by congruence. lia.
  - rewrite filter_cons_True by done. cbn [length]. lia.
Qed.

Lemma start_remaining : (remaining (start svc) <= length (goroutines svc) + 3)%nat.
Proof.
  unfold start, remaining. destruct (run_setup _ _) as [opened [err|]]; cbn [live ops_live svc_live exit]; [cbn; lia|].
  pose proof (length_filter (fun b => b = true) (repeat true (length (goroutines svc)))) as Hl.
  rewrite repeat_length in Hl. cbn. lia.
Qed.

(** ** The clients *)

(** What running goroutines will close. *)
Fixpoint open_by (bs : list bool) (gs : list goroutine) : list client :=
  match bs, gs with
  | b :: bs', g :: gs' => (if b then g_closes g else []) ++ open_by bs' gs'
  | _, _ => []
  end.
Definition still_open (p : process) : list client :=
  open_by (live p) (goroutines svc) ++ (if svc_live p then defers svc else []).

Lemma open_by_insert bs gs i g :
  bs !! i = Some true -> gs !! i = Some g -> open_by bs gs ≡ₚ g_closes g ++ open_by (<[i := false]> bs) gs.
Proof.
  revert gs i. induction bs as [|b bs IH]; intros [|g' gs] [|i] Hb Hg; try done; cbn in *.
  - by simplify_eq.
  - rewrite (IH gs i Hb Hg). perm.
Qed.

Lemma open_by_all gs : open_by (repeat true (length gs)) gs = flat_map g_closes gs.
Proof. induction gs as [|g gs IH]; [done|]. cbn. by rewrite IH. Qed.
Lemma open_by_none bs gs : forallb negb bs = true -> open_by bs gs = [].
Proof.
  revert gs. induction bs as [|b bs IH]; intros [|g gs] Hb; try done. cbn in *.
  apply andb_prop in Hb as [Hb ?]. destruct b; [done|]. by apply IH.
Qed.

(** Every client has one owner, and once it has been closed, that owner is gone. *)
Definition closes_well : Prop :=
  (run_setup (setup svc) []).2 = None -> flat_map g_closes (goroutines svc) ++ defers svc ≡ₚ (run_setup (setup svc) []).1.
Definition clients_ok (p : process) : Prop :=
  closed p ++ still_open p ≡ₚ (run_setup (setup svc) []).1.

Lemma clients_ok_start : closes_well -> clients_ok (start svc).
Proof.
  unfold closes_well, clients_ok, start, still_open. destruct (run_setup _ _) as [opened [err|]]; cbn.
  - intros _. rewrite app_nil_r. by rewrite <- Permutation_rev.
  - intros Hc. by rewrite open_by_all, Hc.
Qed.

Lemma clients_ok_step p l p' : clients_ok p -> step p l p' -> clients_ok p'.
Proof.
  unfold clients_ok, still_open. intros Hok Hstep. destruct l as [s|e|i c| |]; life_inv Hstep;
    cbn [closed live svc_live]; try exact Hok.
  - rewrite <- Hok, (open_by_insert (live p) (goroutines svc) i g) by done. perm.
  - apply andb_prop in Heqb as [Hs Hl]. rewrite Hs in Hok. rewrite <- Hok, (open_by_none _ _ Hl). perm.
Qed.

(** ** The shape of a reachable state *)

Record life_ok (p : process) : Prop := {
  lo_clients : clients_ok p;
  lo_live : svc_live p = true -> length (live p) = length (goroutines svc);
  lo_gone : svc_live p = false -> forallb negb (live p) = true;
  lo_exit : forall o, exit p = Some o -> o <> Crashed ->
    ops_live p = false /\ svc_live p = false /\ @main first_error_group (Ok cfg) (sigs p) (map Returned (top_ends p)) = Some o;
  lo_crash : exit p = Some Crashed -> exists g d c, g ∈ goroutines svc /\ g_ends g d c = Some Panicked;
}.

Lemma life_ok_start : closes_well -> life_ok (start svc).
Proof.
  intros Hc. pose proof (clients_ok_start Hc) as Hok. unfold start in *. destruct (run_setup _ _) as [opened [err|]]; split; try done.
  intros _. cbn. apply repeat_length.
Qed.

Lemma not_live bs i : forallb negb bs = true -> bs !! i <> Some true.
Proof. intros Hb Hi. rewrite forallb_forall in Hb. by apply list_elem_of_lookup_2, list_elem_of_In, Hb in Hi. Qed.

Lemma life_ok_step p l p' : life_ok p -> step p l p' -> life_ok p'.
Proof.
  intros [Hc Hl Hg He Hcr] Hstep. pose proof (clients_ok_step p l p' Hc Hstep) as Hc'.
  destruct l as [s|e|i c| |]; life_inv Hstep; split; cbn [svc_live live exit ops_live sigs top_ends] in *;
    try done; try (intros ? [= <-]; done).
  - intros Hs. rewrite length_insert. by apply Hl.
  - intros Hs. by destruct (not_live (live p) i (Hg Hs)).
  - intros _. exists g, (inner_done p), c. split; [by eapply list_elem_of_lookup_2|done].
  - intros _. by apply andb_prop in Heqb as [_ ?].
  - intros o' [= <-] _. by apply orb_false_iff in Heqb as [-> ->].
  - intros [= ->]. by match goal with H : main _ _ _ = Some Crashed |- _ => rewrite main_returned in H end.
Qed.

Lemma life_ok_trace ls p : closes_well -> trace step (start svc) ls p -> life_ok p.
Proof.
  intros Hc Htr. eapply (trace_invariant step life_ok); [apply life_ok_step|exact Htr|by apply life_ok_start].
Qed.

(** ** Progress *)

(** A goroutine whose context has ended can end. *)
Definition responsive : Prop :=
  Forall (fun g => exists c, g_ends g true c <> None /\ g_ends g true c <> Some Running) (goroutines svc).

Lemma life_progress p :
  responsive -> life_ok p -> exit p = None -> top_done p = true -> exists l p', is_signal l = false /\ step p l p'.
Proof.
  intros Hresp [Hc Hl Hg He _] Hex Hdone. unfold life_step, life_exec. destruct (ops_live p) eqn:Hops.
  { exists (OpsEnds (ShutDown None)). rewrite Hex, ?Hops. cbn [listening andb]. rewrite Hdone. by eexists. }
  destruct (svc_live p) eqn:Hsvc.
  - destruct (forallb negb (live p)) eqn:Hlive.
    { exists ServiceReturns. rewrite Hex, ?Hsvc, ?Hlive. by eexists. }
    assert (exists i, live p !! i = Some true) as [i Hi].
    { clear -Hlive. induction (live p) as [|[] bs IH]; [done|by exists 0%nat|]. destruct (IH Hlive) as [i Hi]. by exists (S i). }
    destruct (lookup_lt_is_Some_2 (goroutines svc) i) as [g Hgi]; [rewrite <- Hl by done; by eapply lookup_lt_Some|].
    unfold responsive in Hresp. rewrite Forall_forall in Hresp.
    destruct (Hresp g ltac:(by eapply list_elem_of_lookup_2)) as (c & Hn & Hr). exists (Ends i c).
    rewrite Hex, Hgi, Hi. assert (inner_done p = true) as -> by (unfold inner_done; by rewrite Hdone).
    destruct (g_ends g true c) as [[]|]; try done; by eexists.
  - exists Exits. rewrite Hex, ?Hops, ?Hsvc. cbn [orb]. rewrite main_returned. cbn [mbind option_bind]. by eexists.
Qed.

(** A failed ops server ends the outer context. *)
Lemma ops_failure p err :
  ops_live p = true -> exit p = None -> errors_Is err HTTPErrServerClosed = false ->
  exists q, step p (OpsEnds (Listened (Some err))) q /\ top_done q = true.
Proof.
  intros Hops Hex He. unfold life_step, life_exec. rewrite Hex, Hops. cbn [listening andb].
  eexists. split; [reflexivity|]. unfold top_done. cbn [sigs top_ends Start Is]. rewrite He.
  apply orb_true_iff. right. unfold group_failed. apply bool_decide_eq_true.
  by induction (top_ends p) as [|[] es IH].
Qed.
End LifeFacts.

(** ** The services *)

Section ServiceFacts.
Context {C R : Type} `{Unicode} (env : clients C R) (cfg : Config).

Lemma flat_map_nil {A B : Type} (f : A -> list B) l : Forall (fun x => f x = []) l -> flat_map f l = [].
Proof. induction 1 as [|x l Hx _ IH]; [done|]. cbn. by rewrite Hx, IH. Qed.

(** The setup of each service is that of its own model. *)
Lemma setup_of_ingestion :
  (run_setup (setup (ingestion_of env cfg)) []).2 = result_error (ingest_setup (new_producer env) cfg).
Proof.
  unfold ingestion_of, ingest_setup. cbn [setup run_setup]. case_bool_decide; [done|].
  by destruct (NewPublisher _ _).
Qed.
Lemma setup_of_processor ops :
  (run_setup (setup (processor_of env cfg)) []).2 = result_error (processor_setup (new_consumer env) (dial_redis env) cfg ops).
Proof.
  unfold processor_of, processor_setup. cbn [setup run_setup]. destruct (NewConsumer _ _); [|done].
  cbn [result_error fmap option_fmap option_map]. by destruct (NewRedisWriter _ _).
Qed.
Lemma setup_of_api ops :
  (run_setup (setup (api_of env cfg)) []).2 = result_error (api_setup (dial_redis env) (dial_kafka env) cfg ops).
Proof.
  unfold api_of, api_setup. destruct (NewRedisReader _ _ _ _) eqn:Hr; cbn [result_error fmap option_fmap option_map];
    unfold startLagCache; by destruct (NewLagReader _ _ _ _).
Qed.

Lemma service_closes_well c :
  closes_well (service_of env cfg c) /\ NoDup (run_setup (setup (service_of env cfg c)) []).1.
Proof.
  unfold closes_well. destruct c; cbn [service_of]; try (by repeat constructor).
  - unfold api_of. destruct (NewLagReader _ _ _ _); cbn [setup goroutines defers run_setup];
      destruct (Errorf_w "redis reader: " <$> _); (split; [|apply (bool_decide_unpack _); vm_compute; exact I]); try done.
    intros _. apply Permutation_swap.
  - unfold ingestion_of. cbn [setup goroutines defers run_setup]. case_bool_decide; [split; [done|constructor]|].
    destruct (Errorf_w "kafka publisher: " <$> _); (split; [|apply (bool_decide_unpack _); vm_compute; exact I]); [done|].
    intros _. rewrite flat_map_nil; [done|]. apply Forall_map, Forall_true. done.
  - unfold processor_of. cbn [setup goroutines defers run_setup]. destruct (Errorf_w "kafka consumer: " <$> _); [split; [done|constructor]|].
    cbn [app]. destruct (Errorf_w "redis writer " <$> _); (split; [|apply (bool_decide_unpack _); vm_compute; exact I]); [done|].
    intros _. apply Permutation_swap.
Qed.

Lemma service_responsive c : responsive (service_of env cfg c).
Proof.
  assert (forall cl, exists c, g_ends (until_done cl) true c <> None /\ g_ends (until_done cl) true c <> Some Running) as Hu
    by (intros cl; by exists Stop).
  assert (exists c, g_ends public_goroutine true c <> None /\ g_ends public_goroutine true c <> Some Running) as Hp
    by (by exists (Serve (ShutDown None))).
  unfold responsive. destruct c; cbn [service_of goroutines]; try (by repeat constructor).
  - unfold api_of. destruct (NewLagReader _ _ _ _); cbn [goroutines]; by repeat constructor.
  - constructor; [|constructor]. exists Stop. cbn. by destruct (_ <=? 0).
  - unfold ingestion_of. cbn [goroutines]. apply Forall_map, Forall_true. intros _. apply Hu.
Qed.

(** Only the FX poller panics. *)
Lemma service_panics_fx c g d x :
  g ∈ goroutines (service_of env cfg c) -> g_ends g d x = Some Panicked -> c = FxRateService /\ PollInterval (FX cfg) <= 0.
Proof.
  assert (forall cl, g_ends (until_done cl) d x <> Some Panicked) as Hu by (intros cl; by destruct d).
  assert (g_ends public_goroutine d x <> Some Panicked) as Hp by (destruct x as [|e]; [done|]; cbn; by destruct (listening d e)).
  intros Hin Hpan. destruct c; cbn [service_of goroutines] in Hin.
  - apply list_elem_of_singleton in Hin as ->. by destruct (Hu []).
  - unfold api_of in Hin. destruct (NewLagReader _ _ _ _); cbn [goroutines] in Hin;
      repeat (apply elem_of_cons in Hin as [->|Hin]; [by first [destruct (Hu [KafkaAdmin])|destruct Hp]|]); by apply elem_of_nil in Hin.
  - apply list_elem_of_singleton in Hin as ->. cbn in Hpan. destruct (Z.leb_spec (PollInterval (FX cfg)) 0); [done|].
    by destruct d.
  - cbn [ingestion_of goroutines] in Hin. apply list_elem_of_In, in_map_iff in Hin as (? & <- & _). by destruct (Hu []).
  - apply list_elem_of_singleton in Hin as ->. by destruct (Hu []).
  - cbn [processor_of goroutines] in Hin. apply list_elem_of_In, repeat_spec in Hin as ->. by destruct (Hu []).
Qed.

(** ** Every end of a service is one of a process *)

Lemma ends_all svc before gs cs rs p :
  goroutines svc = before ++ gs -> live p = repeat false (length before) ++ repeat true (length gs) ->
  inner_done p = true -> exit p = None ->
  Forall3 (fun g c r => g_ends g true c = Some (Returned r)) gs cs rs ->
  exists ls p', trace (life_step svc cfg) p ls p' /\ forallb negb (live p') = true /\ exit p' = None /\ inner_ends p' = inner_ends p ++ rs /\ svc_live p' = svc_live p /\ top_ends p' = top_ends p.
Proof.
  intros Hgs Hlive Hdone Hex Hends. revert before p Hgs Hlive Hdone Hex.
  induction Hends as [|g c r gs cs rs Hg _ IH]; intros before p Hgs Hlive Hdone Hex.
  - exists [], p. split; [constructor|]. rewrite Hlive. cbn [length repeat]. rewrite !app_nil_r.
    split_and!; try done. clear. by induction (length before).
  - set (q := {| sigs := sigs p; ops_live := ops_live p; svc_live := svc_live p; top_ends := top_ends p;
                 live := <[length before := false]> (live p); inner_ends := inner_ends p ++ [r];
                 closed := closed p ++ g_closes g; exit := None |}).
    destruct (IH (before ++ [g]) q) as (ls & p' & Htr & Hl & He & Hi & Hs & Ht).
    + by rewrite <- app_assoc.
    + cbn [live q]. rewrite Hlive, length_app, repeat_app, <- app_assoc.
      rewrite insert_app_r_alt by (by rewrite repeat_length). by rewrite repeat_length, Nat.sub_diag.
    + unfold inner_done, top_done in *. cbn [sigs top_ends inner_ends q]. apply orb_true_iff in Hdone as [->|Hf]; [done|].
      by rewrite group_failed_app, orb_true_r.
    + done.
    + exists (Ends (length before) c :: ls), p'. split; [|split_and!; try done].
      * econstructor; [|exact Htr]. unfold life_step, life_exec. rewrite Hex, Hgs, list_lookup_middle by done.
        assert (live p !! length before = Some true) as ->.
        { rewrite Hlive, lookup_app_r by (by rewrite repeat_length). by rewrite repeat_length, Nat.sub_diag. }
        by rewrite Hdone, Hg.
      * rewrite Hi. cbn [inner_ends q]. by rewrite <- app_assoc.
Qed.

Lemma service_lives svc cs rs :
  (run_setup (setup svc) []).2 = None ->
  Forall3 (fun g c r => g_ends g true c = Some (Returned r)) (goroutines svc) cs rs ->
  exists ls p, trace (life_step svc cfg) (start svc) ls p /\ svc_live p = false /\ top_ends p = [first_error rs].
Proof.
  unfold start. destruct (run_setup _ _) as [opened [err|]] eqn:Hs; cbn [snd]; [discriminate|]. intros _ Hends.
  set (p := {| sigs := [SIGTERM]; ops_live := true; svc_live := true; top_ends := [];
               live := repeat true (length (goroutines svc)); inner_ends := []; closed := []; exit := None |}).
  destruct (ends_all svc [] (goroutines svc) cs rs p) as (ls & q & Htr & Hl & He & Hi & Hv & Ht); try done.
  exists (Signal SIGTERM :: ls ++ [ServiceReturns]). eexists. split.
  - econstructor; [reflexivity|]. eapply trace_snoc; [exact Htr|]. unfold life_step, life_exec.
    rewrite He, Hv, Hl. cbn [svc_live p andb]. reflexivity.
  - cbn [svc_live top_ends]. by rewrite Ht, Hi.
Qed.
End ServiceFacts.

(** ** Properties *)

(** C15: a process always drains.  Besides the signals, it takes at most three steps more than its service
    has goroutines; once a context ends, by a signal, a failed setup or a component that fails, it
    can go on at any time until it has exited.  Then every client it made has been closed, exactly
    once, by the goroutine or the [defer] that owns it; the ops server and the service are gone, and
    the status is that of [main]; the only other end is the crash of the FX poller. *)
Theorem process_drains {C R : Type} `{Unicode} (env : clients C R) (cfg : Config) (c : command)
    (ls : list life_label) (p : process) :
  let svc := service_of env cfg c in
  trace (life_step svc cfg) (start svc) ls p ->
  (length (filter (fun l => is_signal l = false) ls) <= length (goroutines svc) + 3)%nat /\
  (top_done p = true -> forall ls' q, trace (life_step svc cfg) p ls' q ->
     exit q <> None \/ exists l q', is_signal l = false /\ life_step svc cfg q l q') /\
  (forall o, exit p = Some o ->
     (o = Crashed /\ c = FxRateService /\ PollInterval (FX cfg) <= 0) \/
     (closed p ≡ₚ (run_setup (setup svc) []).1 /\ NoDup (closed p) /\ ops_live p = false /\ svc_live p = false /\
      @main first_error_group (Ok cfg) (sigs p) (map Returned (top_ends p)) = Some o)).
Proof.
  intros svc Htr. destruct (service_closes_well env cfg c) as [Hcw Hnd]. fold svc in Hcw, Hnd.
  pose proof (life_ok_trace svc cfg ls p Hcw Htr) as Hok. split; [|split].
  - pose proof (trace_remaining svc cfg _ _ _ Htr). pose proof (start_remaining svc). lia.
  - intros Hd ls' q Hq. destruct (exit q) eqn:Hex; [by left|right].
    apply (life_progress svc cfg); [apply service_responsive| |done|].
    + eapply life_ok_trace; [done|]. by eapply trace_app.
    + eapply (trace_invariant (life_step svc cfg) (fun q => top_done q = true)); [|exact Hq|done].
      intros s l s' Hs. by apply top_done_step.
  - intros o Ho. destruct Hok as [Hc _ Hg He Hcr]. assert (o = Crashed \/ o <> Crashed) as [->|Hne] by (destruct o; by constructor).
    + left. split; [done|]. destruct (Hcr Ho) as (g & d & x & Hin & Hpan). by eapply service_panics_fx.
    + right. destruct (He o Ho Hne) as (Hops & Hsvc & Hmain). unfold clients_ok, still_open in Hc.
      rewrite Hsvc, (open_by_none _ _ (Hg Hsvc)), !app_nil_r in Hc. split_and!; try done. by rewrite Hc.
Qed.

(** C29: a public listener that fails strands the process.  Whatever the error of the listener, other than
    that of a deliberate shutdown, [PublicServer.Run] returns nil, so no context ends: until a signal
    comes or the ops server fails, the process does not exit, and the ops server goes on answering
    for it.  With a lag refresher nothing at all can happen; without one the service may return nil,
    closing the Redis client that the ops server goes on asking.  The ops server's [Start] returns
    the same error, which ends the process. *)
Theorem public_failure_strands {C R : Type} (env : clients C R) (cfg : Config) (err : error)
    (ls : list life_label) (p : process) :
  let svc := api_of env cfg in
  let refreshing := bool_decide (length (goroutines svc) = 2%nat) in
  (run_setup (setup svc) []).2 = None -> errors_Is err HTTPErrServerClosed = false ->
  trace (life_step svc cfg) (start svc) (Ends (Nat.b2n refreshing) (Serve (Listened (Some err))) :: ls) p ->
  Forall (fun l => is_signal l = false /\ forall e, l <> OpsEnds e) ls ->
  exit p = None /\ ops_live p = true /\ top_done p = false /\ live p !! Nat.b2n refreshing = Some false /\
  (if refreshing then ls = [] /\ svc_live p = true /\ closed p = []
   else ls = [] \/ (ls = [ServiceReturns] /\ svc_live p = false /\ top_ends p = [None] /\ closed p = [RedisClient])) /\
  (exists q, life_step svc cfg p (OpsEnds (Listened (Some err))) q /\ top_done q = true).
Proof.
  intros svc refreshing Hs He Htr Hls. subst svc refreshing. unfold api_of in *.
  destruct (NewLagReader _ _ _ _); cbn [setup goroutines run_setup] in *;
    (destruct (Errorf_w "redis reader: " <$> _) eqn:Hopen; [discriminate Hs|]); clear Hs;
    inversion Htr as [|? ? p1 ? ? H1 Htr1]; subst; clear Htr; unfold life_step, life_exec, start in H1;
    cbn [setup goroutines run_setup] in H1; cbn in H1; rewrite He in H1; injection H1 as <-.
  all: clear Hopen; inversion Htr1 as [|? l p2 ls' ? H2 Htr2]; subst;
    [split_and!; try reflexivity; [by (constructor || cbn; auto)..|by apply ops_failure]|];
    apply Forall_cons in Hls as [[Hsig Hops] Hls]; unfold life_step, life_exec in H2; cbn in H2.
  - destruct l as [|x|[|[|i]] c| |]; [discriminate Hsig|by destruct (Hops x)|discriminate H2..].
  - destruct l as [|x|[|i] c| |]; [discriminate Hsig|by destruct (Hops x)|discriminate H2|discriminate H2| |discriminate H2].
    injection H2 as <-. inversion Htr2 as [|? l p3 ls'' ? H3 Htr3]; subst.
    + split_and!; try reflexivity; [by right|by apply ops_failure].
    + apply Forall_cons in Hls as [[Hsig3 Hops3] _]. unfold life_step, life_exec in H3. cbn in H3.
      destruct l as [|x|[|i] c| |]; [discriminate Hsig3|by destruct (Hops3 x)|discriminate H3..].
Qed.

(** ** Examples: the stack of docker-compose *)

Definition compose_up : clients unit mem_redis :=
  {| new_producer _ := None; new_consumer _ _ _ := Ok tt; dial_redis _ := empty_redis;
     dial_kafka _ := Ok (fun _ => Err (ErrorString "unable to dial")) |}.
Definition compose_service : command -> service := @service_of _ _ ascii_only compose_up compose_config.
Definition compose_state (c : command) (ls : list life_label) : process :=
  default (start (compose_service c))
    (run (life_exec (compose_service c) compose_config) ls (start (compose_service c))).
Lemma compose_trace c ls :
  is_Some (run (life_exec (compose_service c) compose_config) ls (start (compose_service c))) ->
  trace (life_step (compose_service c) compose_config) (start (compose_service c)) ls (compose_state c ls).
Proof. intros [p Hp]. unfold compose_state. rewrite Hp. eapply run_trace; [|exact Hp]. by intros l s0 s1. Qed.

(** The processor, stopped by SIGTERM. *)
Definition compose_drain : list life_label :=
  [Signal SIGTERM; Ends 3 Stop; OpsEnds (ShutDown None); Ends 0 Stop; Ends 1 Stop; Ends 4 Stop; Ends 2 Stop;
   ServiceReturns; Exits].
Lemma process_drains_witness :
  exit (compose_state ProcessorService compose_drain) = Some (ExitStatus 0 None) /\
  closed (compose_state ProcessorService compose_drain) ≡ₚ [KafkaConsumer; RedisClient].
Proof.
  assert (exit (compose_state ProcessorService compose_drain) = Some (ExitStatus 0 None)) as Hex by (vm_compute; reflexivity).
  split; [exact Hex|].
  destruct (@process_drains _ _ ascii_only compose_up compose_config ProcessorService compose_drain
    (compose_state ProcessorService compose_drain)) as (_ & _ & Hexit).
  { apply (compose_trace ProcessorService). vm_compute. eexists. reflexivity. }
  destruct (Hexit _ Hex) as [[Hc _]|[Hc _]]; [discriminate Hc|exact Hc].
Defined.

(** The public server of the stack cannot listen on its port. *)
Definition listen_error : error := ErrorString "listen tcp :80: bind: permission denied".
Definition compose_stranded : process := compose_state ApiService [Ends 1 (Serve (Listened (Some listen_error)))].
Lemma public_failure_strands_witness :
  exit compose_stranded = None /\ ops_live compose_stranded = true /\ svc_live compose_stranded = true /\
  top_done compose_stranded = false.
Proof.
  destruct (public_failure_strands compose_up compose_config listen_error [] compose_stranded)
    as (He & Ho & Hd & _ & Hl & _).
  - vm_compute. reflexivity.
  - reflexivity.
  - apply (compose_trace ApiService). vm_compute. eexists. reflexivity.
  - constructor.
  - split; [exact He|]. split; [exact Ho|]. split; [exact (proj1 (proj2 Hl))|exact Hd].
Defined.
