(* ===== verification/ServiceEnds.v ===== *)
(** * How a service can end: the goroutines of a process and the models of the services agree

    [Lifetime.v] runs every service as a group of goroutines that do nothing but end;
    [Commands.service_ends] says how each service ends from the model of what it does.  Here the two
    are shown to allow the same results: every goroutine of the detailed models can stop and stops
    only as its [goroutine] does. *)
From S2P Require Import Prelude GoBase Config GoTime Domain Runtime Retry FxRate Handlers FanOut Pool RedisWriter Consumer Pipeline PipelineFacts KafkaLag LagCache HttpServer Publisher Ingestion IngestionFacts Api ApiHealth Processor Commands Lifetime.
Import Signals.
#[local] Open Scope Z_scope.
#[local] Opaque decoded.

(** ** What the service of a process has returned *)

Section Results.
Context (svc : service) (cfg : Config).
#[local] Abbreviation step := (life_step svc cfg).

Definition svc_result (p : process) : option error :=
  match (run_setup (setup svc) []).2 with Some err => Some err | None => first_error (inner_ends p) end.
Definition can_return (r : option error) : Prop :=
  exists g d c, g ∈ goroutines svc /\ g_ends g d c = Some (Returned r).

Record result_ok (p : process) : Prop := {
  ro_live : svc_live p = true ->
    (run_setup (setup svc) []).2 = None /\ (length (top_ends p) + Nat.b2n (ops_live p) = 1)%nat;
  ro_gone : svc_live p = false ->
    svc_result p ∈ top_ends p /\ (length (top_ends p) + Nat.b2n (ops_live p) = 2)%nat /\ forallb negb (live p) = true;
  ro_inner : Forall can_return (inner_ends p);
  ro_count : (run_setup (setup svc) []).2 = None ->
    (length (inner_ends p) + length (filter (fun b => b = true) (live p)) = length (goroutines svc))%nat;
}.

Lemma result_ok_start : result_ok (start svc).
Proof.
  unfold start. destruct (run_setup (setup svc) []) as [opened [err|]] eqn:Hs; split; cbn; try done; try (by rewrite Hs).
  - intros _. unfold svc_result. rewrite Hs. split; [by left|done].
  - intros _. clear. induction (goroutines svc) as [|g gs IH]; [done|]. cbn [length repeat].
    rewrite filter_cons_True by done. cbn. by rewrite IH.
Qed.

Lemma result_ok_step p l p' : result_ok p -> step p l p' -> result_ok p'.
Proof.
  intros [Hl Hg Hi Hn] Hstep. destruct l as [s|e|i c| |]; life_inv Hstep; split;
    cbn [svc_live ops_live top_ends inner_ends live] in *; try done.
  - intros Hs. destruct (Hl Hs) as [? Hlen]. split; [done|]. apply andb_prop in Heqb as [Hops _]. rewrite Hops in Hlen.
    rewrite length_app. cbn in *. lia.
  - intros Hs. destruct (Hg Hs) as (Hin & Hlen & ?). apply andb_prop in Heqb as [Hops _]. rewrite Hops in Hlen.
    rewrite elem_of_app, length_app. split; [by left|]. split; [cbn in *; lia|done].
  - intros Hs. destruct (Hg Hs) as (_ & _ & Hlive). by destruct (not_live (live p) i Hlive).
  - apply Forall_app. split; [done|]. constructor; [|constructor]. exists g, (inner_done p), c.
    split; [by eapply list_elem_of_lookup_2|done].
  - intros Hs. pose proof (length_filter_insert (fun b => b = true) _ i _ false Heqo1) as Hf.
    rewrite decide_True, decide_False in Hf by done. specialize (Hn Hs). rewrite length_app. cbn [length]. lia.
  - intros _. apply andb_prop in Heqb as [Hs Hlive]. destruct (Hl Hs) as [Hnone Hlen].
    rewrite elem_of_app, length_app. cbn [length]. split; [|split; [lia|done]].
    right. unfold svc_result. rewrite Hnone. cbn [inner_ends]. by left.
Qed.

(** The result of the service, once it has returned and nothing else has. *)
Lemma service_result ls p r :
  trace step (start svc) ls p -> svc_live p = false -> top_ends p = [r] ->
  (run_setup (setup svc) []).2 <> None /\ r = (run_setup (setup svc) []).2 \/
  (run_setup (setup svc) []).2 = None /\
    exists rs, r = first_error rs /\ Forall can_return rs /\ length rs = length (goroutines svc).
Proof.
  intros Htr Hs Ht.
  assert (result_ok p) as [_ Hg Hi Hn].
  { eapply (trace_invariant step result_ok); [apply result_ok_step|exact Htr|apply result_ok_start]. }
  destruct (Hg Hs) as (Hin & _ & Hlive). rewrite Ht in Hin. apply list_elem_of_singleton in Hin as <-. unfold svc_result.
  destruct (run_setup (setup svc) []).2 as [err|] eqn:Hset; [by left|right]. split; [done|]. exists (inner_ends p).
  split_and!; try done. rewrite <- Hn by done. assert (filter (fun b => b = true) (live p) = []) as ->; [|cbn; lia].
  clear -Hlive. induction (live p) as [|[] bs IH]; [done|done|]. rewrite filter_cons_False by done. by apply IH.
Qed.

Lemma start_failed err : (run_setup (setup svc) []).2 = Some err -> svc_live (start svc) = false /\ top_ends (start svc) = [Some err].
Proof. unfold start. destruct (run_setup (setup svc) []) as [opened e]. by intros [= ->]. Qed.
End Results.

(** ** The detailed models can stop *)

Lemma ingestion_stops `{Unicode} `{Errgroup} syms p :
  exists ls s, trace ingest_step (ingest_init syms p) ls s /\ ingest_return s = Some None.
Proof.
  enough (forall rest before s, is_Some (i_ctx s) ->
    i_links s = map (fun sym => (sym, Ended None)) before ++ map (fun sym => (sym, Dialing NewBackoff)) rest ->
    exists ls s', trace ingest_step s ls s' /\ i_links s' = map (fun sym => (sym, Ended None)) (before ++ rest)) as Hall.
  { set (s0 := ingest_init syms p).
    destruct (Hall syms [] {| i_ctx := Some cancelled; i_ws := i_ws s0; i_links := i_links s0; i_pub := i_pub s0 |})
      as (ls & s & Htr & Hl); [by eexists|done|].
    exists (CtxDone cancelled :: ls), s. split; [by econstructor|]. unfold ingest_return. rewrite Hl. cbn [app].
    assert (mapM (fun sl : string * link => link_result sl.2) (map (fun sym => (sym, Ended None)) syms) = Some (map (fun _ => None) syms)) as ->.
    { clear. induction syms as [|sym syms IH]; [done|]. cbn [map mapM]. by rewrite IH. }
    cbn [mbind option_bind]. f_equal. apply group_Wait_nil, Forall_map, Forall_true. done. }
  induction rest as [|sym rest IH]; intros before s Hctx Hl.
  - exists [], s. split; [constructor|]. by rewrite Hl, !app_nil_r.
  - set (i := length before). set (err := ErrorString "dial").
    assert (i_links s !! i = Some (sym, Dialing NewBackoff)) as Hi.
    { rewrite Hl, lookup_app_r by (by rewrite length_map). by rewrite length_map, Nat.sub_diag. }
    set (s1 := dial_failed i sym NewBackoff err s).
    set (s2 := set_link i sym (Ended None) s1).
    assert (i < length (i_links s))%nat as Hlt by (by eapply lookup_lt_Some).
    destruct (IH (before ++ [sym]) s2) as (ls & s' & Htr & Hl').
    + exact Hctx.
    + cbn [i_links s2 s1 set_link dial_failed]. rewrite list_insert_insert_eq, Hl, map_app, <- app_assoc.
      rewrite insert_app_r_alt by (by rewrite length_map). by rewrite length_map, Nat.sub_diag.
    + exists (DialFailed i err :: Retried i 0 0 :: ls), s'. split; [|by rewrite Hl', <- app_assoc].
      econstructor; [unfold ingest_step, ingest_exec; by rewrite Hi|].
      econstructor; [|exact Htr]. unfold ingest_step, ingest_exec. cbn [i_links dial_failed set_link].
      rewrite list_lookup_insert_eq by done. unfold retry_link. destruct Hctx as [e He].
      cbn [i_ctx dial_failed set_link]. by rewrite He.
Qed.

Lemma processor_stops {C R P : Type} `{MetadataProvider P} `{Errgroup} (meta : P) (w : processor_wiring C R) :
  exists ls s, trace (sys_step meta) (processor_init w []) ls s /\ processor_return s = Some None.
Proof.
  enough (forall k before (p : WorkerPool (W := fabric) (H := handling)), is_Some (Pool.ctx p) ->
    workers p = repeat (Exited None) before ++ repeat Idle k ->
    exists ls s', trace (sys_step meta) (System [] [] p) ls s' /\ workers (pool s') = repeat (Exited None) (before + k)) as Hall.
  { set (p0 := pool (processor_init w [])).
    destruct (Hall (length (workers p0)) 0%nat (cancel_pool cancelled p0)) as (ls & s & Htr & Hw); [by eexists| |].
    - cbn [cancel_pool workers repeat app]. unfold p0, processor_init, init, NewWorkerPool. cbn [pool workers]. by rewrite repeat_length.
    - exists (Pool (CancelPool cancelled) :: ls), s. split.
      + econstructor; [|exact Htr]. constructor; [done|]. by constructor.
      + unfold processor_return, Start_returns, Start_return. rewrite Hw. cbn [Nat.add].
        set (n := length (workers p0)).
        assert (forallb is_exited (repeat (Exited (H := handling) None) n) = true) as -> by (clear; by induction n).
        rewrite group_Wait_nil; [done|]. constructor; [|by repeat constructor]. rewrite group_Wait_nil; [done|].
        clear. induction n as [|n IH]; [constructor|]. cbn. by constructor. }
  induction k as [|k IH]; intros before p Hctx Hw.
  - exists [], (System [] [] p). split; [constructor|]. cbn [pool]. rewrite Hw. cbn [repeat]. by rewrite app_nil_r, Nat.add_0_r.
  - destruct (IH (S before) (set_worker before (Exited None) p)) as (ls & s' & Htr & Hl).
    + exact Hctx.
    + cbn [workers set_worker]. rewrite Hw, insert_app_r_alt by (by rewrite repeat_length).
      rewrite repeat_length, Nat.sub_diag. clear. cbn. induction before as [|n IH]; [done|]. cbn [repeat app]. by rewrite IH.
    + destruct Hctx as [e He]. exists (Pool (Exit before) :: ls), s'. split; [|rewrite Hl; f_equal; lia].
      econstructor; [|exact Htr]. constructor; [done|]. econstructor; [|exact He].
      rewrite Hw, lookup_app_r by (by rewrite repeat_length). by rewrite repeat_length, Nat.sub_diag.
Qed.

Lemma fx_stops cfg : 0 < PollInterval (FX cfg) -> exists ss, (fx_Run cfg ss).2 = Returned None.
Proof.
  intros Hp. exists [{| s_events := [Done]; s_cancelled := true; s_uptime := 0; s_seed := 0; s_cancelled_in_wait := true |}].
  unfold fx_Run. cbn [session_rounds s_events]. unfold pollSession.
  assert ((PollInterval (FX cfg) <=? 0) = false) as -> by (by apply Z.leb_gt). reflexivity.
Qed.

Lemma refresher_stops c : exists script delays c', LagCache_Run c script = (delays, Returned None, c').
Proof.
  exists [{| lr_outcome := Ok zero_ConsumerLag; lr_now := zero_Time; lr_cancelled := true; lr_bits := 0; lr_seed := 0;
             lr_cancelled_in_wait := true |}].
  by repeat eexists.
Qed.

(** ** Lemmas: the goroutines of the services *)

Section Goroutines.
Context {C R : Type} `{Unicode} (env : clients C R) (cfg : Config).

(** Without an error in its setup, a service returns nil, or what the public server returned. *)
Lemma service_can_return c r :
  can_return (service_of env cfg c) r ->
  (c = FxRateService -> 0 < PollInterval (FX cfg)) /\
  (r = None \/ c = ApiService /\ exists public, r = PublicServer_Run public).
Proof.
  intros (g & d & x & Hin & Hg).
  assert (forall cl, g_ends (until_done cl) d x = Some (Returned r) -> r = None) as Hu
    by (intros cl Hu; cbn in Hu; destruct d; [by injection Hu|done]).
  destruct c; cbn [service_of goroutines] in Hin; (split; [try done|]).
  - apply list_elem_of_singleton in Hin as ->. left. by eapply Hu.
  - unfold api_of in Hin. destruct (NewLagReader _ _ _ _); cbn [goroutines] in Hin;
      repeat (apply elem_of_cons in Hin as [->|Hin]); try (by apply elem_of_nil in Hin); try (left; by eapply Hu);
      right; (split; [done|]); cbn in Hg; destruct x as [|se]; try done; destruct (listening d se); try done; injection Hg as <-; by exists se.
  - intros _. apply list_elem_of_singleton in Hin as ->. cbn in Hg. destruct (Z.leb_spec (PollInterval (FX cfg)) 0); [done|lia].
  - apply list_elem_of_singleton in Hin as ->. cbn in Hg. destruct (_ <=? 0); [done|]. left. by eapply (Hu []).
  - unfold ingestion_of in Hin. cbn [goroutines] in Hin. apply list_elem_of_In, in_map_iff in Hin as (? & <- & _). left. by eapply Hu.
  - apply list_elem_of_singleton in Hin as ->. left. by eapply Hu.
  - unfold processor_of in Hin. cbn [goroutines] in Hin. apply list_elem_of_In, repeat_spec in Hin as ->. left. by eapply Hu.
Qed.

(** A group whose goroutines only wait for the context returns nil. *)
Lemma until_done_all gs :
  Forall (fun g => exists cl, g = until_done cl) gs ->
  exists cs rs, Forall3 (fun g c r => g_ends g true c = Some (Returned r)) gs cs rs /\ first_error rs = None.
Proof.
  induction 1 as [|g gs [cl ->] _ (cs & rs & Hf & He)]; [by exists [], []; split; [constructor|]|].
  exists (Stop :: cs), (None :: rs). split; [by constructor|done].
Qed.

(** The services that wait for the context return nil when it has ended. *)
Lemma service_stops c :
  (run_setup (setup (service_of env cfg c)) []).2 = None -> c <> ApiService ->
  (c = FxRateService -> 0 < PollInterval (FX cfg)) ->
  exists ls p, trace (life_step (service_of env cfg c) cfg) (start (service_of env cfg c)) ls p /\
    svc_live p = false /\ top_ends p = [None].
Proof.
  intros Hs Hc Hfx.
  assert (exists cs rs, Forall3 (fun g c r => g_ends g true c = Some (Returned r)) (goroutines (service_of env cfg c)) cs rs /\
    first_error rs = None) as (cs & rs & Hf & He).
  { destruct c; cbn [service_of goroutines]; try done.
    2: { exists [Stop], [None]. split; [|done]. constructor; [|constructor]. cbn.
         specialize (Hfx eq_refl). by rewrite (proj2 (Z.leb_gt _ _)). }
    all: apply until_done_all; try (by repeat constructor; eexists).
    unfold ingestion_of. cbn [goroutines]. apply Forall_map, Forall_true. intros _. by eexists. }
  destruct (service_lives cfg _ cs rs Hs Hf) as (ls & p & Htr & Hg & Ht). exists ls, p. by rewrite Ht, He.
Qed.
End Goroutines.

(** ** Property *)

Section Agreement.
Context {C R P : Type} `{Redis R} `{Unicode} `{MetadataProvider P} (meta : P) (env : clients C R) (cfg : Config).
#[local] Existing Instance first_error_group.
#[local] Abbreviation returns c r :=
  (exists ls p, trace (life_step (service_of env cfg c) cfg) (start (service_of env cfg c)) ls p /\
     svc_live p = false /\ top_ends p = [r]).

Lemma returns_setup c err :
  (run_setup (setup (service_of env cfg c)) []).2 = Some err -> returns c (Some err).
Proof. intros [Hl Ht]%start_failed. exists [], (start (service_of env cfg c)). split; [constructor|done]. Qed.

(** The two models of api-service. *)
Lemma api_returns ops public refresher :
  refresher = None -> returns ApiService (api_Run (dial_redis env) (dial_kafka env) cfg ops public refresher).
Proof.
  intros ->. pose proof (setup_of_api env cfg ops) as Hs. unfold api_Run.
  destruct (api_setup _ _ _ _) as [s|err] eqn:Hset; cbn [result_error] in Hs; [|by apply returns_setup].
  assert (forall e, listening true e = true) as Hlis by (by intros [[]|]).
  unfold api_setup, startLagCache in Hset. destruct (NewRedisReader _ _ _ _); [|done].
  assert (exists cs, Forall3 (fun g c r => g_ends g true c = Some (Returned r)) (goroutines (api_of env cfg)) cs
    (match w_lag s with Some _ => [None] | None => [] end ++ [PublicServer_Run public])) as [cs Hcs].
  { unfold api_of. destruct (NewLagReader _ _ _ _); injection Hset as <-; cbn [goroutines w_lag app].
    - exists [Stop; Serve public]. repeat constructor. cbn. by rewrite Hlis.
    - exists [Serve public]. repeat constructor. cbn. by rewrite Hlis. }
  by destruct (service_lives cfg (service_of env cfg ApiService) cs _ Hs Hcs) as (ls & p & Htr & Hl & Ht); eauto 6.
Qed.
Lemma api_ends public :
  (run_setup (setup (api_of env cfg)) []).2 = None -> service_ends meta env cfg ApiService (Returned (PublicServer_Run public)).
Proof.
  intros Hs. destruct (refresher_stops (NewLagCache 0)) as (script & delays & c' & Hrun).
  rewrite (setup_of_api env cfg {| checkers := [] |}) in Hs.
  destruct (api_setup _ _ _ _) as [s|] eqn:Hset; [|done].
  pose proof (ends_api meta env cfg {| checkers := [] |} s public _ _ _ _ _ Hset Hrun) as He. unfold api_Run in He.
  rewrite Hset in He. exists (Some public). destruct (w_lag s); cbn in He; by destruct (PublicServer_Run public).
Qed.

Lemma setup_ends c err :
  (run_setup (setup (service_of env cfg c)) []).2 = Some err -> service_ends meta env cfg c (Returned (Some err)).
Proof.
  intros Hs. destruct c; cbn [service_of] in *; try done.
  - rewrite (setup_of_api env cfg {| checkers := [] |}) in Hs.
    destruct (api_setup _ _ _ _) eqn:Hset; [done|]. injection Hs as <-. exists None. by eapply ends_api_setup.
  - rewrite (setup_of_ingestion env cfg) in Hs. destruct (ingest_setup _ _) eqn:He; [done|]. injection Hs as <-.
    exists None. by apply ends_ingestion_setup.
  - rewrite (setup_of_processor env cfg {| checkers := [] |}) in Hs. destruct (processor_setup _ _ _ _) eqn:He; [done|].
    injection Hs as <-. exists None. by eapply ends_processor_setup.
Qed.
Lemma nil_ends c :
  (run_setup (setup (service_of env cfg c)) []).2 = None -> (c = FxRateService -> 0 < PollInterval (FX cfg)) ->
  service_ends meta env cfg c (Returned None).
Proof.
  intros Hs Hfx. destruct c; cbn [service_of] in *.
  - exists None. apply (ends_analytics meta env cfg true).
  - by apply (api_ends (ShutDown None)).
  - destruct (fx_stops cfg (Hfx eq_refl)) as [ss <-]. exists None. constructor.
  - rewrite (setup_of_ingestion env cfg) in Hs. destruct (ingest_setup _ _) as [s0|] eqn:Hset; [|done].
    pose proof Hset as Hset'. unfold ingest_setup in Hset'. case_bool_decide; [done|].
    destruct (NewPublisher _ _) as [pub|]; [|done]. injection Hset' as <-.
    destruct (ingestion_stops (normalizeSymbols (Symbols (Ingestion cfg))) pub) as (ls' & s & Htr' & Hr).
    exists None. by eapply ends_ingestion.
  - exists None. apply (ends_notification meta env cfg true).
  - rewrite (setup_of_processor env cfg {| checkers := [] |}) in Hs. destruct (processor_setup _ _ _ _) as [w|] eqn:Hset; [|done].
    destruct (processor_stops meta w) as (ls' & s & Htr' & Hr). exists None. by eapply ends_processor.
Qed.

(** C16: the goroutines of a process end as the services do.  A service can return a result as one of the
    groups of a process, in some execution of [life_step] in which nothing else has returned,
    exactly if the model of what that service does can: the reconnect loops of the ingestion
    workers, the worker pool with its pipeline, the public server with the lag refresher, and the
    polling sessions. *)
Theorem service_ends_agree (c : command) (r : option error) :
  service_ends meta env cfg c (Returned r) <->
  exists ls p, trace (life_step (service_of env cfg c) cfg) (start (service_of env cfg c)) ls p /\
    svc_live p = false /\ top_ends p = [r].
Proof.
  split.
  - intros [l He]. pose proof (fx_must_panic meta env cfg c l r He) as Hfx. remember (Returned r) as e eqn:Hend.
    destruct He as [[]|[]|ss|e He|s0 ls s r' Hs Htr Hr|ops e He|ops w recs ls s r' Hw Htr Hr|ops e He
      |ops s public c0 script delays refresher c' Hs Hrun]; try discriminate Hend; try (injection Hend as <-).
    + by apply service_stops.
    + by apply service_stops.
    + destruct r as [err|]; [by apply fx_no_error in Hend|]. by apply service_stops.
    + apply returns_setup. cbn [service_of]. by rewrite setup_of_ingestion, He.
    + pose proof (setup_of_ingestion env cfg) as Hset. rewrite Hs in Hset.
      unfold ingest_setup in Hs. case_bool_decide; [done|]. destruct (NewPublisher _ _) as [p|]; [|done].
      injection Hs as <-. apply (Ingestion_returns_nil _ _ _ _ _ Htr) in Hr as ->. by apply service_stops.
    + apply returns_setup. cbn [service_of]. by rewrite (setup_of_processor env cfg ops), He.
    + apply (processor_returns_nil _ _ _ _ _ _ Htr) in Hr as [-> _].
      pose proof (setup_of_processor env cfg ops) as Hset. rewrite Hw in Hset. by apply service_stops.
    + apply returns_setup. cbn [service_of]. by rewrite (setup_of_api env cfg ops), He.
    + apply api_returns. by apply LagCache_Run_nil in Hrun.
  - intros (ls & p & Htr & Hl & Ht).
    destruct (service_result _ cfg ls p r Htr Hl Ht) as [[Hs ->]|(Hs & rs & -> & Hrs & Hlen)].
    + destruct (run_setup (setup (service_of env cfg c)) []).2 as [err|] eqn:Herr; [|done]. by apply setup_ends.
    + destruct (first_error rs) as [err|] eqn:Hf.
      * apply first_error_in in Hf. rewrite Forall_forall in Hrs.
        apply Hrs, service_can_return in Hf as [_ [?|[-> [public ->]]]]; [done|by apply api_ends].
      * apply nil_ends; [done|]. intros ->. destruct rs as [|r rs]; [done|].
        apply Forall_cons in Hrs as [[Hfx _]%service_can_return _]. auto.
Qed.
End Agreement.
