(* ===== verification/ServiceHealth.v ===== *)
(** * The readiness of the ingestion and processor services: what their ops servers answer

    [ingest_New] and [ingest_Run] are the constructor of the ingestion service and [Run] up to its
    goroutines, with the health checkers they register; [ingest_checks] and [processor_checks] are
    the results that [runChecks] collects from the checkers of the two services.  The checks of one
    request run concurrently with the service, so each of them sees a state of its own. *)
From S2P Require Import Prelude GoBase Config GoTime Domain Runtime Retry Handlers FanOut Pool RedisWriter Consumer Pipeline HttpServer Publisher Ingestion IngestionFacts Api ApiHealth Processor.
#[local] Open Scope Z_scope.
#[local] Opaque decoded.

(** ** ingestion-service/internal/service.go: [New], and [Run] up to its goroutines *)

Inductive ingest_checker := CheckWS | CheckPublisher.

Record ingest_service := {
  is_symbols : list string;
  is_ws : wsHealth;
  is_ops : healthRegistry ingest_checker;
}.

Section IngestService.
Context `{Unicode}.

Definition ingest_New (cfg : Config) (ops : healthRegistry ingest_checker) : ingest_service :=
  let symbols := normalizeSymbols (Symbols (Ingestion cfg)) in
  let wsh := newWSHealth symbols in
  {| is_symbols := symbols; is_ws := wsh; is_ops := registry_add CheckWS ops |}.

(** The registry is the ops server's, so it keeps what was registered before an error. *)
Definition ingest_Run (new_client : list string -> option error) (cfg : KafkaConfig) (svc : ingest_service) :
  healthRegistry ingest_checker * result error ingest :=
  if bool_decide (is_symbols svc = []) then
    (is_ops svc, Err (ErrorString "ingestion: no symbols configured"))
  else
    match NewPublisher new_client cfg with
    | Err err => (is_ops svc, Err (Errorf_w "kafka publisher: " err))
    | Ok pub =>
        (registry_add CheckPublisher (is_ops svc),
         Ok {| i_ctx := None; i_ws := is_ws svc;
               i_links := map (fun sym => (sym, Dialing NewBackoff)) (is_symbols svc); i_pub := pub |})
    end.
End IngestService.

(** ** The checkers *)

Section Checks.
Context {D : Type}.

(** [range] is the order of Go's map iteration, [ping] the producer's [Ping]; [seen] is the state of
    the service when a check runs, [now] the clock. *)
Definition ingest_checker_in (range : gmap string bool -> list (string * bool)) (ping : Context -> option error)
    (seen : ingest_checker -> ingest) (now : Time) (c : ingest_checker) : Checker D :=
  match c with
  | CheckWS =>
      {| c_Name := wsHealth_Name; c_Check _ := wsHealth_Check range (i_ws (seen CheckWS)); c_Details := None |}
  | CheckPublisher =>
      {| c_Name := Publisher_Name; c_Check ctx := Publisher_Check ping ctx now (i_pub (seen CheckPublisher));
         c_Details := None |}
  end.
Definition ingest_checks range ping seen now (ops : healthRegistry ingest_checker) (ctx : Context) (start : Z) :
  list (checkResult D) :=
  map (fun c => check_one ctx start (ingest_checker_in range ping seen now c)) (registry_snapshot ops).

(** The processor's: [ping] is the consumer's [Ping] under a timeout, [now] the monotonic clock. *)
Definition processor_checker_in {R : Type} `{Redis R} (ping : Z -> option error) (redis : R) (now : Z)
    (c : processor_checker) : Checker D :=
  match c with
  | CheckConsumer =>
      {| c_Name := Consumer_Name; c_Check ctx := Consumer_Check ping ctx now; c_Details := None |}
  | CheckWriter =>
      {| c_Name := RedisWriter_Name; c_Check _ := RedisWriter_Check redis; c_Details := None |}
  end.
Definition processor_checks {R : Type} `{Redis R} ping (redis : R) now (ops : healthRegistry processor_checker)
    (ctx : Context) (start : Z) : list (checkResult D) :=
  map (fun c => check_one ctx start (processor_checker_in ping redis now c)) (registry_snapshot ops).
End Checks.

(** ** Lemmas *)

Section Facts.
Context `{Unicode}.

(** [New] and [Run] together are the setup of [Ingestion.v]. *)
Lemma ingest_Run_setup new_client cfg ops :
  (ingest_Run new_client (Kafka cfg) (ingest_New cfg ops)).2 = ingest_setup new_client cfg.
Proof.
  unfold ingest_Run, ingest_setup, ingest_New. cbn [is_symbols is_ws is_ops]. case_bool_decide; [done|].
  by destruct (NewPublisher _ _).
Qed.

Lemma wsHealth_Check_down range symbols p ls s :
  NoDup symbols -> (forall m, range m ≡ₚ map_to_list m) -> trace ingest_step (ingest_init symbols p) ls s ->
  (wsHealth_Check range (i_ws s) <> None <-> down_symbols s <> []).
Proof.
  intros Hnd Hrange Htr.
  assert (ingest_inv symbols s) as Hinv.
  { eapply (trace_invariant ingest_step (ingest_inv symbols)); [by apply ingest_inv_step|exact Htr|apply ingest_inv_init]. }
  pose proof (disconnected_down symbols s range Hnd Hinv Hrange) as Hd. unfold wsHealth_Check.
  case_bool_decide as Hn.
  - rewrite Hn in Hd. apply Permutation_nil in Hd. by rewrite Hd.
  - split; [|done]. intros _ Hdn. rewrite Hdn in Hd. by apply Permutation_sym, Permutation_nil in Hd.
Qed.

Lemma deliveryStatus_streak symbols new_client cfg p ls s now :
  NewPublisher new_client cfg = Ok p -> trace ingest_step (ingest_init symbols p) ls s -> Z.of_nat (length ls) < 2 ^ 63 ->
  (deliveryStatus now (i_pub s) <> None <-> trailing delivery_failed (deliveries ls) <> 0%nat).
Proof.
  intros Hp Htr Hlen. destruct (ingest_history_trace _ _ _ _ _ _ Hp Htr) as [_ _ Hd].
  pose proof (deliveryStatus_history (deliveries ls) now (i_pub s) Hd) as Hs. pose proof (deliveries_le ls).
  destruct (deliveryStatus now (i_pub s)) as [e|].
  - split; [|done]. intros _. destruct Hs as (err & t & Hl & _); [lia|].
    apply last_Some in Hl as [ds ->]. by rewrite trailing_snoc.
  - split; [done|]. intros Ht. destruct Ht. apply Hs. lia.
Qed.

Lemma wsHealth_Check_text range h err : wsHealth_Check range h = Some err -> Error err <> "ok"%string.
Proof. unfold wsHealth_Check. case_bool_decide; [done|]. by intros [= <-]. Qed.

Lemma fresh_down symbols p : down_symbols (ingest_init symbols p) = symbols.
Proof. unfold down_symbols. cbn [ingest_init i_links]. induction symbols as [|sym symbols IH]; [done|]. cbn in *. by rewrite IH. Qed.

Lemma normalizeSymbols_NoDup syms : NoDup (normalizeSymbols syms).
Proof. rewrite normalizeSymbols_nub. apply NoDup_nub. Qed.

(** The producer's check fails if the ping does, and else if the deliveries do. *)
Lemma Publisher_Check_fails ping ctx now p :
  Publisher_Check ping ctx now p <> None <-> ping ctx <> None \/ deliveryStatus now p <> None.
Proof.
  unfold Publisher_Check. destruct (ping ctx); [split; [by left|done]|]. split; [by right|by intros []].
Qed.

(** The readiness report, with one check and with two. *)
Lemma health_one `{BuildVars} {D : Type} (r : checkResult D) :
  (handleHealth [r]).1 = StatusServiceUnavailable <-> r_err r <> None.
Proof. rewrite handleHealth_code. cbn [existsb]. unfold unhealthy. by destruct (r_err r). Qed.
Lemma health_two `{BuildVars} {D : Type} (r r' : checkResult D) :
  ((handleHealth [r; r']).1 = StatusServiceUnavailable <-> r_err r <> None \/ r_err r' <> None) /\
  (r_name r <> r_name r' ->
   h_Checks (handleHealth [r; r']).2 !! r_name r = Some match r_err r with Some err => Error err | None => "ok"%string end).
Proof.
  split.
  - rewrite handleHealth_code. cbn [existsb]. unfold unhealthy.
    destruct (r_err r), (r_err r'); cbn; split; (done || (intros _; by left) || (intros _; by right) || by intros []).
  - intros Hne. pose proof (handleHealth_reports [r; r']) as Hh. destruct (handleHealth [r; r']) as [code resp].
    destruct Hh as (_ & _ & _ & Hc). cbn [snd]. rewrite Hc. unfold find_last. cbn [rev app List.find].
    rewrite (bool_decide_eq_false_2 (r_name r' = r_name r)) by done. by rewrite bool_decide_eq_true_2.
Qed.
End Facts.

(** ** Properties *)

(** C30: the readiness of the ingestion service.  From its constructor on, the ops server asks the WebSocket
    check; once [Run] has its publisher, it asks the producer too, and then the answer is 503 exactly
    if the worker of some symbol is not in its read loop, the broker does not answer the ping under
    a deadline of two seconds, or the latest promises failed, whatever the two checks saw of a
    service that goes on running; until a worker has dialled it is 503.  The report shows "ok" for
    the WebSockets exactly if every worker is reading. *)
Theorem ingestion_readiness `{Unicode} `{BuildVars} {D : Type} (new_client : list string -> option error) (cfg : Config)
    (range : gmap string bool -> list (string * bool)) (ping : Context -> option error) (ctx : Context)
    (start : Z) (now : Time) :
  (forall m, range m ≡ₚ map_to_list m) ->
  let svc := ingest_New cfg {| checkers := [] |} in
  let '(ops, r) := ingest_Run new_client (Kafka cfg) svc in
  let report seen ops := handleHealth (ingest_checks (D := D) range ping seen now ops ctx start) in
  checkers (is_ops svc) = [CheckWS] /\
  (forall seen, i_ws (seen CheckWS) = is_ws svc ->
     ((report seen (is_ops svc)).1 = StatusServiceUnavailable <-> is_symbols svc <> [])) /\
  match r with
  | Err err => ingest_setup new_client cfg = Err err /\ checkers ops = [CheckWS]
  | Ok s0 =>
      ingest_setup new_client cfg = Ok s0 /\ checkers ops = [CheckWS; CheckPublisher] /\
      forall seen history, (forall c, trace ingest_step s0 (history c) (seen c)) ->
        Z.of_nat (length (history CheckPublisher)) < 2 ^ 63 ->
        ((report seen ops).1 = StatusServiceUnavailable <->
           down_symbols (seen CheckWS) <> [] \/ ping (WithTimeout ctx HttpServer.checkTimeout start) <> None \/
           trailing delivery_failed (deliveries (history CheckPublisher)) <> 0%nat) /\
        (h_Checks (report seen ops).2 !! wsHealth_Name = Some "ok"%string <-> down_symbols (seen CheckWS) = [])
  end.
Proof.
  intros Hrange svc. pose proof (ingest_Run_setup new_client cfg {| checkers := [] |}) as Hset. fold svc in Hset.
  destruct (ingest_Run new_client (Kafka cfg) svc) as [ops r] eqn:Hrun. cbn [snd] in Hset. subst r.
  set (symbols := normalizeSymbols (Symbols (Ingestion cfg))).
  assert (NoDup symbols) as Hnd by apply normalizeSymbols_NoDup.
  split; [done|split].
  - intros seen Hseen.
    pose proof (wsHealth_Check_down range symbols example_publisher [] (ingest_init symbols example_publisher) Hnd Hrange ltac:(constructor)) as Hws.
    rewrite fresh_down in Hws. cbn [ingest_init i_ws] in Hws. unfold ingest_checks.
    cbn [is_ops svc ingest_New registry_add checkers registry_snapshot app map].
    rewrite health_one. cbn [check_one r_err ingest_checker_in c_Check]. by rewrite Hseen.
  - unfold ingest_Run in Hrun. cbn [svc ingest_New is_symbols is_ws is_ops] in Hrun. fold symbols in Hrun.
    destruct (ingest_setup new_client cfg) as [s0|err] eqn:Hs.
    + case_bool_decide; [done|]. destruct (NewPublisher new_client (Kafka cfg)) as [p|] eqn:Hp; [|done].
      injection Hrun as <- <-. split; [done|]. split; [done|]. intros seen history Htr Hlen.
      assert (forall c, trace ingest_step (ingest_init symbols p) (history c) (seen c)) as Htr' by exact Htr.
      pose proof (wsHealth_Check_down range symbols p _ _ Hnd Hrange (Htr' CheckWS)) as Hws.
      pose proof (deliveryStatus_streak symbols new_client _ p _ _ now Hp (Htr' CheckPublisher) Hlen) as Hd.
      unfold ingest_checks. cbn [is_ops svc ingest_New registry_add checkers registry_snapshot app map].
      destruct (health_two (D := D) (check_one ctx start (ingest_checker_in range ping seen now CheckWS))
        (check_one ctx start (ingest_checker_in range ping seen now CheckPublisher))) as [Hcode Hck].
      rewrite Hcode. specialize (Hck ltac:(done)). cbn [check_one r_err r_name ingest_checker_in c_Check c_Name] in *.
      rewrite Hck, Hws, Publisher_Check_fails, Hd. split; [done|].
      pose proof (wsHealth_Check_text range (i_ws (seen CheckWS))) as Htext.
      destruct (wsHealth_Check range (i_ws (seen CheckWS))) as [err|].
      * split; [intros [= Ht]; by destruct (Htext err)|]. intros Hn. by destruct (proj1 Hws ltac:(done)).
      * split; [|done]. intros _. destruct (down_symbols (seen CheckWS)) as [|x xs]; [done|]. by destruct (proj2 Hws ltac:(done)).
    + split; [done|]. case_bool_decide; [by injection Hrun as <- _|]. destruct (NewPublisher new_client (Kafka cfg)); [done|].
      by injection Hrun as <- _.
Qed.

(** The readiness of the processor: once it is set up, the answer is 503 exactly if the time left of the two
    seconds is gone or the broker does not answer within it, or Redis does not answer; nothing the
    pipeline does, such as trades that are lost or writes that fail, makes the service unready. *)
Theorem processor_readiness {C R : Type} `{Redis R} `{BuildVars} {D : Type}
    (new_client : list string -> string -> string -> result error C) (dial_redis : RedisConfig -> R) (cfg : Config)
    (w : processor_wiring C R) (ping : Z -> option error) (redis : R) (ctx : Context) (start now : Z) :
  processor_setup new_client dial_redis cfg {| checkers := [] |} = Ok w ->
  let timeout := check_timeout (WithTimeout ctx HttpServer.checkTimeout start) now in
  (handleHealth (processor_checks (D := D) ping redis now (pw_ops w) ctx start)).1 = StatusServiceUnavailable <->
  timeout <= 0 \/ ping timeout <> None \/ redis_Ping redis <> None.
Proof.
  intros Hs timeout. unfold processor_setup in Hs. destruct (NewConsumer _ _); [|done].
  destruct (NewRedisWriter _ _); [|done]. injection Hs as <-. unfold processor_checks.
  cbn [pw_ops registry_add checkers registry_snapshot app map].
  match goal with |- context [handleHealth [?r; ?r']] => rewrite (proj1 (health_two r r')) end.
  cbn [check_one r_err processor_checker_in c_Check]. unfold Consumer_Check, RedisWriter_Check. fold timeout.
  unfold wrap. destruct (Z.leb_spec timeout 0).
  - split; [by left|]. intros _. by left.
  - assert (~ timeout <= 0) by lia. destruct (ping timeout), (redis_Ping redis); cbn; intuition (done || lia).
Qed.

(** ** Examples: the stack of docker-compose *)

Definition compose_ingest : ingest :=
  match @ingest_setup ascii_only (fun _ => None) compose_config with Ok s => s | Err _ => ingest_init [] example_publisher end.
Definition compose_readiness : Z * ops_healthResponse unit :=
  handleHealth (H := default_vars) (ingest_checks map_to_list (fun _ => None) (fun _ => compose_ingest) zero_Time
    {| checkers := [CheckWS; CheckPublisher] |} Background 0).

(** Both brokers answer, and no worker has dialled yet. *)
Lemma ingestion_readiness_witness :
  compose_readiness.1 = StatusServiceUnavailable /\ h_Checks compose_readiness.2 !! wsHealth_Name <> Some "ok"%string.
Proof.
  pose proof (@ingestion_readiness ascii_only default_vars unit (fun _ => None) compose_config map_to_list (fun _ => None)
    Background 0 zero_Time ltac:(done)) as Hr. cbv zeta in Hr.
  destruct (ingest_Run (fun _ => None) (Kafka compose_config) (@ingest_New ascii_only compose_config {| checkers := [] |}))
    as [ops [s0|err]] eqn:Hrun; [|vm_compute in Hrun; discriminate Hrun].
  destruct Hr as (_ & _ & Hset & Hops & Hreport).
  assert (ops = {| checkers := [CheckWS; CheckPublisher] |}) as -> by (destruct ops as [cs]; cbn [checkers] in Hops; by subst).
  assert (compose_ingest = s0) as <- by (unfold compose_ingest; by rewrite Hset).
  destruct (Hreport (fun _ => compose_ingest) (fun _ => []) ltac:(intros; constructor) ltac:(done)) as [Hcode Hok].
  assert (down_symbols compose_ingest <> []) as Hdown by (vm_compute; discriminate).
  split; [apply Hcode; left; exact Hdown|]. intros Hws. apply Hdown, Hok, Hws.
Defined.
