(* ===== verification/EndToEnd.v ===== *)
(** * From the exchange to the API: the services composed

    A message read by a WebSocket worker becomes a record of trades.raw, the pipeline of the
    processor hands it to the Redis writer, and the public server answers with it.  What joins the services is not
    code of the repository: the broker keeps the records it is given, and Redis what is set
    ([RedisLaws]). *)
From S2P Require Import Prelude GoBase Config Decimal Float64 Json GoTime GoTimeFacts Domain Wire Normalizer Runtime Retry Handlers FanOut Pool OrderBookStore RedisWriter Consumer Pipeline PipelineFacts SinkStores HttpServer Publisher Ingestion IngestionFacts Api ApiHealth HealthWire Routes.
#[local] Open Scope Z_scope.

Lemma decodable_cons rec recs :
  decodable (rec :: recs) = match decoded rec with Some ev => ev :: decodable recs | None => decodable recs end.
Proof. reflexivity. Qed.
(** A record as the pair of its partition and its value. *)
Definition read_pair (rec : kgo_Record) : Z * bytes := (Partition rec, RecValue rec).
Definition pair_trade (x : Z * bytes) : option TradeEvent :=
  match Unmarshal x.2 zero_TradeEvent with Ok ev => Some ev | Err _ => None end.
Lemma pair_trade_value x l ev : x.2 = l -> Unmarshal l zero_TradeEvent = Ok ev -> pair_trade x = Some ev.
Proof. intros Hv Hu. unfold pair_trade. by rewrite Hv, Hu. Qed.
Lemma pair_trade_read rec : pair_trade (read_pair rec) = decoded rec.
Proof. unfold pair_trade, read_pair, decoded. cbn [snd]. reflexivity. Qed.
#[local] Opaque decoded decodable pair_trade.

Section EndToEnd.
Context `{Unicode}.

(** The trades among the messages, in order. *)
Definition trade_of (m : bytes * Time) : option TradeEvent :=
  match normalizeTrade m.1 (UTC m.2) with Ok ev => Some ev | Err _ => None end.
Definition trades (ms : list (bytes * Time)) : list TradeEvent := omap trade_of ms.

(** A trade that JSON can carry, before and after enrichment. *)
Definition deliverable (ev : TradeEvent) : Prop :=
  trade_ok ev /\ f64_is_finite (f64_mul (Price ev) (Quantity ev)) = true.

Lemma trade_of_positive m ev :
  trade_of m = Some ev -> trade_ok ev -> positive (Price ev) /\ positive (Quantity ev).
Proof.
  unfold trade_of. destruct (normalizeTrade m.1 (UTC m.2)) as [ev'|] eqn:Hn; [|done]. intros [= ->] Hok.
  apply normalizeTrade_Ok in Hn as (msg & x & q & _ & _ & _ & Hp & Hq & _ & ->).
  apply parse_positive_spec in Hp as [_ Hp], Hq as [_ Hq].
  destruct (ok_price _ Hok) as [_ Hfp], (ok_quantity _ Hok) as [_ Hfq]. cbn [Price Quantity] in *.
  split; [by destruct Hp as [?| ->]|by destruct Hq as [?| ->]].
Qed.

Lemma outgoing_trade m rec :
  outgoing m = Some rec -> exists ev, trade_of m = Some ev /\ rec_Key rec = Symbol ev /\ Marshal ev = Ok (rec_Value rec).
Proof.
  unfold outgoing, trade_of. destruct (normalizeTrade m.1 (UTC m.2)) as [ev|]; [|done].
  destruct (Marshal ev) as [l|] eqn:Hl; [|done]. intros [= <-]. by exists ev.
Qed.
Lemma outgoing_none m ev : outgoing m = None -> trade_of m = Some ev -> trade_ok ev -> False.
Proof.
  unfold outgoing, trade_of. destruct (normalizeTrade m.1 (UTC m.2)) as [ev'|]; [|done]. intros Ho [= ->] Hok.
  destruct (marshal_total ev Hok) as [l Hl]. by rewrite Hl in Ho.
Qed.

(** ** The topic: an order within every partition *)

(** A reading of a topic, as Kafka promises it: whatever the order among its partitions, the records of
    each partition are those whose key the producer's partitioner assigns to it, in the order in
    which they were published. *)
Definition reads_topic (partition_of : string -> Z) (out : list ProducerRecord) (recs : list kgo_Record) : Prop :=
  forall q, map (fun rec => (RecKey rec, RecValue rec)) (filter (fun rec => Partition rec = q) recs) =
            map (fun o => (str (rec_Key o), rec_Value o)) (filter (fun o => partition_of (rec_Key o) = q) out).

Definition of_trades (symbol : string) (l : list TradeEvent) : list TradeEvent :=
  filter (fun ev => Symbol ev = symbol) l.

Section Topic.
Variable partition_of : string -> Z.

Definition published_pair (o : ProducerRecord) : Z * bytes := (partition_of (rec_Key o), rec_Value o).
(** A trade is on the partition of its symbol. *)
Definition pair_ok (x : Z * bytes) : Prop := forall ev, pair_trade x = Some ev -> partition_of (Symbol ev) = x.1.

Lemma reads_topic_pairs out recs q :
  reads_topic partition_of out recs ->
  filter (fun x => x.1 = q) (map read_pair recs) = filter (fun x => x.1 = q) (map published_pair out).
Proof.
  intros Hr. unfold read_pair, published_pair. rewrite !filter_keyed. f_equal.
  pose proof (f_equal (map snd) (Hr q)) as Hv. rewrite !map_map in Hv. exact Hv.
Qed.

Lemma decodable_pairs recs : decodable recs = omap pair_trade (map read_pair recs).
Proof.
  induction recs as [|rec recs IH]; [reflexivity|]. cbn [map]. 
  rewrite decodable_cons, omap_cons_eq, pair_trade_read, IH. reflexivity.
Qed.

Lemma published_pairs ms :
  Forall deliverable (trades ms) ->
  omap pair_trade (map published_pair (omap outgoing ms)) = trades ms /\
  Forall pair_ok (map published_pair (omap outgoing ms)).
Proof.
  unfold trades. induction ms as [|m ms IH]; [done|]. rewrite !omap_cons_eq. intros Hd.
  destruct (outgoing m) as [out|] eqn:Ho.
  - destruct (outgoing_trade m out Ho) as (ev & Hev & Hk & Hl). rewrite Hev in Hd |- *.
    apply Forall_cons in Hd as [[Hok _] Hd]. destruct (IH Hd) as [IHt IHok].
    pose proof (unmarshal_marshal (A := TradeEvent) ev _ zero_TradeEvent Hok eq_refl Hl) as Hu.
    pose proof (pair_trade_value (published_pair out) _ ev eq_refl Hu) as Hp.
    cbn [map]. rewrite omap_cons_eq, Hp, IHt. split; [done|]. constructor; [|done].
    intros ev' Hev'. rewrite Hp in Hev'. injection Hev' as <-. cbn [published_pair fst]. by rewrite Hk.
  - destruct (trade_of m) as [ev|] eqn:Hev; [|by apply IH].
    apply Forall_cons in Hd as [[Hok _] _]. destruct (outgoing_none m ev Ho Hev Hok).
Qed.

Lemma of_trades_pairs symbol l :
  Forall pair_ok l ->
  of_trades symbol (omap pair_trade l) =
  of_trades symbol (omap pair_trade (filter (fun x => x.1 = partition_of symbol) l)).
Proof.
  unfold of_trades. induction 1 as [|x l Hx Hl IH]; [done|]. rewrite filter_cons, omap_cons_eq.
  destruct (pair_trade x) as [ev|] eqn:Hp.
  - rewrite filter_cons. destruct (decide (Symbol ev = symbol)) as [Hs|Hs].
    + rewrite decide_True by (rewrite <- Hs; symmetry; by apply Hx). rewrite omap_cons_eq, Hp, filter_cons.
      rewrite decide_True by done. by rewrite IH.
    + destruct (decide _); [|done]. by rewrite omap_cons_eq, Hp, filter_cons, decide_False.
  - destruct (decide _); [|done]. by rewrite omap_cons_eq, Hp.
Qed.

(** What is read of the topic are the published trades, those of each symbol in their order. *)
Lemma decoded_topic ms recs :
  Forall deliverable (trades ms) -> reads_topic partition_of (omap outgoing ms) recs ->
  decodable recs ≡ₚ trades ms /\ forall symbol, of_trades symbol (decodable recs) = of_trades symbol (trades ms).
Proof.
  intros Hd Hr. destruct (published_pairs ms Hd) as [Ht Hok].
  assert (map read_pair recs ≡ₚ map published_pair (omap outgoing ms)) as Hperm.
  { apply (perm_by_key fst). intros q. by apply reads_topic_pairs. }
  rewrite decodable_pairs. split; [by rewrite Hperm, Ht|]. intros symbol.
  rewrite of_trades_pairs by (by rewrite Hperm). rewrite (reads_topic_pairs _ _ _ Hr).
  rewrite <- of_trades_pairs by done. by rewrite Ht.
Qed.
End Topic.

Lemma enriched_deliverable {P : Type} `{MetadataProvider P} (meta : P) ms :
  provider_ok meta -> Forall deliverable (trades ms) -> Forall trade_ok (map (enriched meta) (trades ms)).
Proof.
  intros Hm Hd. apply Forall_map. apply Forall_forall. intros ev Hin. rewrite Forall_forall in Hd.
  destruct (Hd ev Hin) as [Hok Hf]. unfold trades in Hin. apply list_elem_of_omap in Hin as (m & _ & Hm').
  destruct (trade_of_positive m ev Hm' Hok). by apply enriched_ok.
Qed.

Lemma find_last_trades symbol l : find_last (of_symbol symbol) l = last (of_trades symbol l).
Proof.
  induction l as [|ev l IH] using rev_ind; [done|]. unfold of_trades in *.
  rewrite find_last_snoc, filter_app, filter_cons, filter_nil. unfold of_symbol at 1.
  case_bool_decide; case_decide; try done; [by rewrite last_snoc|]. by rewrite app_nil_r.
Qed.

Lemma of_trades_enriched {P : Type} `{MetadataProvider P} (meta : P) symbol l :
  of_trades symbol (map (enriched meta) l) = map (enriched meta) (of_trades symbol l).
Proof.
  unfold of_trades. induction l as [|ev l IH]; [done|]. cbn [map]. rewrite !filter_cons.
  change (Symbol (enriched meta ev)) with (Symbol ev). case_decide; cbn [map]; by rewrite IH.
Qed.

Lemma of_trades_prefix symbol l l' : l `prefix_of` l' -> of_trades symbol l `prefix_of` of_trades symbol l'.
Proof. intros [k ->]. unfold of_trades. rewrite filter_app. by eexists. Qed.

Lemma of_trades_perm symbol l l' : l ≡ₚ l' -> of_trades symbol l ≡ₚ of_trades symbol l'.
Proof. unfold of_trades. by intros ->. Qed.

Lemma elem_of_last {A : Type} (l : list A) x : last l = Some x -> x ∈ l.
Proof. intros [k ->]%last_Some. apply elem_of_app. right. left. Qed.

Lemma elem_of_trades symbol l ev : ev ∈ of_trades symbol l <-> Symbol ev = symbol /\ ev ∈ l.
Proof. unfold of_trades. by rewrite list_elem_of_filter. Qed.

(** What the Redis sink of a live pipeline at rest has received. *)
Lemma quiet_received {P : Type} `{MetadataProvider P} (meta : P) psize fsize recs ls s k :
  trace (sys_step meta) (init psize fsize recs) ls s -> quiet s -> ctx (pool s) = None ->
  received_by k s ≡ₚ map (enriched meta) (decodable recs) /\
  (pool_size psize = 1%nat -> received_by k s = map (enriched meta) (decodable recs)).
Proof.
  intros Htr Hq Hc. split; [by eapply quiet_delivered; [by eapply sys_inv_trace|..]|]. intros H1.
  rewrite <- (in_line_trace meta k psize fsize recs ls s H1 Htr Hc).
  destruct Hq as (Ht & Hj & Hw & Hb). unfold in_line, into. destruct (idle_owes_nothing k _ Hw) as [-> _].
  rewrite Hb, Hj, Ht. cbn. by rewrite !app_nil_r.
Qed.
End EndToEnd.

(** A reading of what an ingestion run has published decodes to the trades its workers read. *)
Lemma topic_of_ingestion `{Unicode} partition_of syms new_client kafka p ils ing (recs : list kgo_Record) :
  NewPublisher new_client kafka = Ok p -> trace ingest_step (ingest_init syms p) ils ing ->
  Forall deliverable (trades (messages ils)) -> reads_topic partition_of (sent (i_pub ing)) recs ->
  decodable recs ≡ₚ trades (messages ils) /\
  forall symbol, of_trades symbol (decodable recs) = of_trades symbol (trades (messages ils)).
Proof.
  intros Hp Hing Hdel Hrecs. apply (decoded_topic partition_of); [done|].
  assert (ingest_history ils ing) as [Hsent _ _]; [|by rewrite <- Hsent].
  eapply (trace_history ingest_step ingest_history); [|by apply ingest_history_step|exact Hing].
  unfold NewPublisher in Hp. case_bool_decide; [done|]. destruct (new_client _); [done|].
  injection Hp as <-. by apply ingest_history_init.
Qed.

(** C1: the system, end to end: take any execution of the ingestion workers, a processor that reads the
    topic they published to, partition by partition, and, live, has come to rest, and a Redis
    writer that wrote what its sink received without an error.  If every trade can be carried by
    JSON, the API answers the request GET /api/v1/trades/<symbol> with 503 exactly if the read of
    the cached trade fails for another reason than a missing key, and else with 404 exactly if no
    message was a trade of the symbol, and else with a trade of the symbol that some worker read,
    enriched; if the processor has one worker, it is the last of the symbol that was read. *)
Theorem EndToEnd_serves {R P : Type} `{RedisLaws R} `{Unicode} `{MetadataProvider P} `{ChiLaws} `{BuildVars} (meta : P)
    (syms : list string) (new_client : list string -> option error) (kafka : KafkaConfig) (p : Publisher)
    (ils : list ingest_label) (ing : ingest) (partition_of : string -> Z)
    (psize fsize : Z) (recs : list kgo_Record) (ls : list sys_label) (s : system)
    (updates : list (option OrderBookStore * TradeEvent)) (r r' : R) (addr : string) (health : HealthHandler)
    (rctx : Context) (t1 t2 : Z) (param symbol : string) :
  provider_ok meta ->
  NewPublisher new_client kafka = Ok p -> trace ingest_step (ingest_init syms p) ils ing ->
  Forall deliverable (trades (messages ils)) ->
  reads_topic partition_of (sent (i_pub ing)) recs ->
  trace (sys_step meta) (init psize fsize recs) ls s -> quiet s -> ctx (pool s) = None ->
  map snd updates = received_by RedisSink s -> RedisWriter_Run updates r = (r', []) ->
  no_slash param = true -> normalizeSymbol param = symbol -> symbol <> ""%string ->
  db r (KeyLatestTrade symbol) = None ->
  let read := trades (messages ils) in
  exists rep,
    public_serve (NewPublicServer addr) r' health rctx t1 t2 "GET" ("/api/v1/trades/" ++ param) = PublicText (reply_text rep) /\
    (unavailable (KeyLatestTrade symbol) r' -> rep = writeError StatusServiceUnavailable "redis unavailable") /\
    (~ unavailable (KeyLatestTrade symbol) r' -> (forall ev, ev ∈ read -> Symbol ev <> symbol) ->
     rep = writeError StatusNotFound "trade not found") /\
    (~ unavailable (KeyLatestTrade symbol) r' -> (exists ev, ev ∈ read /\ Symbol ev = symbol) ->
     exists ev, ev ∈ read /\ Symbol ev = symbol /\
       rep = writeJSON StatusOK (BodyTrade {| tr_Symbol := symbol; tr_Trades := [enriched meta ev]; tr_Source := "redis" |}) /\
       (pool_size psize = 1%nat -> find_last (of_symbol symbol) read = Some ev)).
Proof.
  intros Hmeta Hp Hing Hdel Hrecs Htr Hq Hc Hup Hrun Hslash Hn Hs Hdb read.
  exists (LatestTrade param r'). split; [apply public_trade; [done|apply normalizeSymbol_nonempty; by rewrite Hn]|].
  destruct (topic_of_ingestion partition_of _ _ _ _ _ _ _ Hp Hing Hdel Hrecs) as [Hdec Hline]. fold read in Hdec, Hline.
  destruct (quiet_received meta _ _ _ _ _ RedisSink Htr Hq Hc) as [Hperm Hone].
  assert (received_by RedisSink s ≡ₚ map (enriched meta) read) as Hrec by (by rewrite Hperm, Hdec).
  assert (Forall trade_ok (map snd updates)) as Hok.
  { rewrite Hup. eapply Permutation_Forall; [symmetry; exact Hrec|]. by apply enriched_deliverable. }
  destruct (LatestTrade_after_run updates r r' param symbol Hok Hrun Hn Hs Hdb) as [Huse Hrep].
  split; [exact Huse|]. rewrite Hup, find_last_trades in Hrep.
  pose proof (of_trades_perm symbol _ _ Hrec) as Hmine. rewrite of_trades_enriched in Hmine.
  split.
  - intros Hav Hno. rewrite (Hrep Hav). enough (of_trades symbol read = []) as He.
    { rewrite He in Hmine. apply Permutation_nil_r in Hmine. by rewrite Hmine. }
    destruct (of_trades symbol read) as [|ev l] eqn:Ht; [done|]. exfalso.
    assert (ev ∈ of_trades symbol read) as [Hsym Hin]%elem_of_trades by (rewrite Ht; left). by destruct (Hno ev).
  - intros Hav (ev0 & Hin0 & Hsym0). destruct (last (of_trades symbol (received_by RedisSink s))) as [ev'|] eqn:Hl.
    2: { apply last_None in Hl. rewrite Hl in Hmine. apply Permutation_nil_l in Hmine; symmetry in Hmine; apply map_eq_nil in Hmine.
         assert (ev0 ∈ of_trades symbol read) as Hx by (by apply elem_of_trades). rewrite Hmine in Hx. by apply elem_of_nil in Hx. }
    destruct (decide (pool_size psize = 1%nat)) as [Hw|Hw].
    + rewrite (Hone Hw), of_trades_enriched, Hline, fmap_last in Hl.
      destruct (last (of_trades symbol read)) as [ev|] eqn:Hlast; [|done]. injection Hl as <-.
      exists ev. pose proof (elem_of_last _ _ Hlast) as [Hsym Hin]%elem_of_trades.
      split_and!; try done; [by apply Hrep|]. by rewrite find_last_trades.
    + pose proof (elem_of_last _ _ Hl) as Hin. rewrite Hmine in Hin.
      apply list_elem_of_fmap in Hin as (ev & -> & [Hsym Hin]%elem_of_trades).
      exists ev. split_and!; try done. by apply Hrep.
Qed.

(** ** The order book *)

Lemma book_after_ok symbol events book :
  Forall trade_ok events -> book_after symbol events = Some book -> book_ok book.
Proof.
  intros He Hb. rewrite <- Run_new_lookup in Hb.
  by apply (Run_store_ok events NewOrderBookStore He NewOrderBookStore_ok) in Hb as [_ ?].
Qed.

(** What the endpoint answers for the book after [events]. *)
Definition served_book (symbol : string) (events : list TradeEvent) (last_ev : TradeEvent) : reply :=
  writeJSON StatusOK (BodyBook {|
    ob_Symbol := symbol; ob_Bids := top SideSell symbol events; ob_Asks := top SideBuy symbol events;
    ob_BestBid := head (elems (top SideSell symbol events)); ob_BestAsk := head (elems (top SideBuy symbol events));
    ob_LastUpdate := EventTime last_ev; ob_Source := "redis" |}).

Lemma serves_cached_book {R : Type} `{RedisLaws R} `{Unicode} (events : list TradeEvent) (param symbol : string) (r : R) :
  Forall trade_ok events -> cached symbol events r -> normalizeSymbol param = symbol -> symbol <> ""%string ->
  (unavailable (KeyOrderBook symbol) r ->
   OrderBook_handler param r = writeError StatusServiceUnavailable "redis unavailable") /\
  (~ unavailable (KeyOrderBook symbol) r -> db r (KeyOrderBook symbol) = None ->
   OrderBook_handler param r = writeError StatusNotFound "order book not found") /\
  (~ unavailable (KeyOrderBook symbol) r -> is_Some (db r (KeyOrderBook symbol)) ->
   exists last_ev, find_last (of_symbol symbol) events = Some last_ev /\
    OrderBook_handler param r = served_book symbol events last_ev).
Proof.
  intros Hok Hc Hn Hs. unfold OrderBook_handler. rewrite Hn, bool_decide_eq_false_2 by done.
  split; [by intros (err & -> & ->)|].
  destruct (get_cases (KeyOrderBook symbol) r) as [Hu|[(err & -> & -> & Hdb)|(b & -> & Hdb)]];
    [by split|split; [done|]|split; [congruence|]]; intros _; [by rewrite Hdb; intros []|]. intros _.
  unfold cached in Hc. destruct (book_after symbol events) as [book|] eqn:Hbook; [|congruence].
  destruct Hc as (l & Hl & Hdb'). assert (b = l) as -> by congruence.
  rewrite (unmarshal_marshal (A := OrderBook) book l zero_OrderBook (book_after_ok _ _ _ Hok Hbook) eq_refl Hl).
  unfold book_after in Hbook. destruct (find_last (of_symbol symbol) events) as [last_ev|]; [|done].
  exists last_ev. split; [done|]. injection Hbook as <-. unfold served_book, book_response, BestBid, BestAsk.
  cbn [BookSymbol Bids Asks LastUpdate]. by rewrite !limit_top, !best_head.
Qed.

(** C2: the order book, end to end and at any time: take any execution of the ingestion workers and of
    the processor, which reads the topic partition by partition, with its order-book goroutine and
    its Redis writer, in the middle of a write or not, whatever writes have failed.  If every trade
    can be carried by JSON and no book of the symbol was cached at the start, the API answers
    GET /api/v1/orderbook/<symbol> with 503 exactly if the read of the cached book fails for
    another reason than a missing key, and else with 404 exactly if Redis has no book of the symbol
    yet, and else with exactly the book that a prefix of what the order-book sink received
    produces: trades the workers read, enriched, none of them twice, and with one pool worker those
    of the symbol in the order they were read, without a gap. *)
Theorem EndToEnd_serves_book {R P : Type} `{RedisLaws R} `{Unicode} `{MetadataProvider P} `{ChiLaws} `{BuildVars} (meta : P)
    (syms : list string) (new_client : list string -> option error) (kafka : KafkaConfig) (p : Publisher)
    (ils : list ingest_label) (ing : ingest) (partition_of : string -> Z)
    (psize fsize : Z) (recs : list kgo_Record) (r0 : R) (ls : list ps_label) (st : processor_state R)
    (addr : string) (health : HealthHandler) (rctx : Context) (t1 t2 : Z) (param symbol : string) :
  provider_ok meta ->
  NewPublisher new_client kafka = Ok p -> trace ingest_step (ingest_init syms p) ils ing ->
  Forall deliverable (trades (messages ils)) ->
  reads_topic partition_of (sent (i_pub ing)) recs ->
  trace (ps_step meta) (ps_init psize fsize recs r0) ls st ->
  no_slash param = true -> normalizeSymbol param = symbol -> symbol <> ""%string ->
  db r0 (KeyOrderBook symbol) = None ->
  let read := trades (messages ils) in
  let r := ps_redis st in
  exists rep,
    public_serve (NewPublicServer addr) r health rctx t1 t2 "GET" ("/api/v1/orderbook/" ++ param) =
      PublicText (reply_text rep) /\
    (unavailable (KeyOrderBook symbol) r -> rep = writeError StatusServiceUnavailable "redis unavailable") /\
    (~ unavailable (KeyOrderBook symbol) r -> db r (KeyOrderBook symbol) = None ->
     rep = writeError StatusNotFound "order book not found") /\
    (~ unavailable (KeyOrderBook symbol) r -> is_Some (db r (KeyOrderBook symbol)) ->
     exists events last_ev,
       events `prefix_of` received_by OrderBookSink (ps_sys st) /\
       events ⊆+ map (enriched meta) read /\
       (pool_size psize = 1%nat -> ctx (pool (ps_sys st)) = None ->
        of_trades symbol events `prefix_of` map (enriched meta) (of_trades symbol read)) /\
       find_last (of_symbol symbol) events = Some last_ev /\ rep = served_book symbol events last_ev).
Proof.
  intros Hmeta Hp Hing Hdel Hrecs Htr Hslash Hn Hs Hdb read r. exists (OrderBook_handler param r).
  split; [apply public_book; [done|apply normalizeSymbol_nonempty; by rewrite Hn]|].
  destruct (topic_of_ingestion partition_of _ _ _ _ _ _ _ Hp Hing Hdel Hrecs) as [Hdec Hline]. fold read in Hdec, Hline.
  destruct (ps_trace_sys meta _ _ _ _ _ _ Htr) as [ls' Htr'].
  pose proof (sys_inv_trace meta _ _ _ _ _ Htr') as Hinv.
  pose proof (delivered_at_most_once meta _ _ _ OrderBookSink Hinv) as Hsub.
  rewrite Hdec in Hsub.
  destruct (fresh_trace meta _ _ _ _ _ _ _ Htr (fresh_init symbol psize fsize recs r0 Hdb)) as (a & n & Hf).
  apply fresh_prefix in Hf as [_ Hc].
  set (events := take n (received_by OrderBookSink (ps_sys st))) in *.
  assert (events `prefix_of` received_by OrderBookSink (ps_sys st)) as Hpre by apply prefix_take.
  assert (events ⊆+ map (enriched meta) read) as Hev
    by (etransitivity; [by apply sublist_submseteq, sublist_take|exact Hsub]).
  assert (Forall trade_ok events) as Hok.
  { apply Forall_forall. intros ev Hin. pose proof (enriched_deliverable meta _ Hmeta Hdel) as Hall.
    rewrite Forall_forall in Hall. apply Hall. by eapply elem_of_submseteq. }
  destruct (serves_cached_book events param symbol r Hok Hc Hn Hs) as (H503 & H404 & H200).
  split; [exact H503|]. split; [exact H404|]. intros Hav Hsome.
  destruct (H200 Hav Hsome) as (last_ev & Hl & Hr).
  exists events, last_ev. split_and!; try done. intros Hone Hlive.
  rewrite <- Hline, <- of_trades_enriched, <- (in_line_trace meta OrderBookSink _ _ _ _ _ Hone Htr' Hlive).
  apply of_trades_prefix. etransitivity; [exact Hpre|]. unfold in_line, into. rewrite <- app_assoc. by eexists.
Qed.

(** ** An example: one message through all services *)

#[local] Instance example_unicode : Unicode := ascii_only.

Definition e2e_messages : list (bytes * Time) := messages example_live.
Definition e2e_recs : list kgo_Record :=
  map (fun rec => {| Partition := 0; Offset := 0; RecKey := str (rec_Key rec); RecValue := rec_Value rec |})
    (sent (i_pub (example_state example_live))).
Definition e2e_labels : list sys_label := [Enqueue; Pool (Take 0)] ++ accept_all 0 ++ receive_all.
Definition e2e_event : TradeEvent := default zero_TradeEvent (head (trades e2e_messages)).
Definition e2e_updates : list (option OrderBookStore * TradeEvent) :=
  [(None, enriched NewDefaultMetadataProvider e2e_event)].
Definition e2e_redis : mem_redis := (RedisWriter_Run e2e_updates empty_redis).1.

Lemma e2e_deliverable : Forall deliverable (trades e2e_messages).
Proof.
  assert (trades e2e_messages = [e2e_event]) as -> by (vm_compute; reflexivity).
  constructor; [|constructor]. split; [split|]; vm_compute; repeat first [reflexivity | discriminate | split].
Qed.

#[local] Instance example_chi : Chi := first_route.
#[local] Instance example_build : BuildVars := default_vars.
Definition e2e_get (r : mem_redis) (path : string) : public_reply :=
  public_serve (NewPublicServer ":8080") r example_handler Background 0 0 "GET" path.

Lemma filter_no {A : Type} (Q : A -> Prop) `{forall x, Decision (Q x)} l : Forall (fun x => ~ Q x) l -> filter Q l = [].
Proof. induction 1; [done|]. by rewrite filter_cons, decide_False. Qed.
Lemma e2e_trades : trades e2e_messages = [e2e_event].
Proof. vm_compute. reflexivity. Qed.
Lemma e2e_topic : reads_topic (fun _ => 0) (sent (i_pub (example_state example_live))) e2e_recs.
Proof.
  intros q. destruct (decide (q = 0)) as [->|Hq]; [vm_compute; reflexivity|].
  rewrite !filter_no; [reflexivity|..]; apply Forall_forall; [done|].
  intros rec Hin. apply list_elem_of_fmap in Hin as (o & -> & _). cbn. congruence.
Qed.
(** The map of the example answers a read. *)
Lemma up_available k (r : mem_redis) : up r = true -> ~ unavailable k r.
Proof.
  intros Hup (err & Hg & He). revert Hg He. cbn. rewrite Hup. destruct (mem r !! k); [done|]. intros [= <-]. by vm_compute.
Qed.

(** With one worker the lower-case request gets the trade of the raw message. *)
Lemma EndToEnd_serves_witness :
  exists s, run_system 1 1 e2e_recs e2e_labels = Some s /\
    exists rep, e2e_get e2e_redis "/api/v1/trades/btcusdt" = PublicText (reply_text rep) /\
      code rep = StatusOK /\
      rep = writeJSON StatusOK (BodyTrade {| tr_Symbol := "BTCUSDT";
              tr_Trades := [enriched NewDefaultMetadataProvider e2e_event]; tr_Source := "redis" |}).
Proof.
  destruct (run_ends_elim 1 1 e2e_recs e2e_labels (fun s => quiet_b s && live s &&
    bool_decide (map snd e2e_updates = received_by RedisSink s))) as (s & Hrun & [[Hq Hl]%andb_true_iff Hr]%andb_true_iff);
    [vm_compute; reflexivity|].
  apply bool_decide_eq_true in Hl, Hr. exists s. split; [exact Hrun|].
  destruct (EndToEnd_serves NewDefaultMetadataProvider (normalizeSymbols example_syms) (fun _ => None) example_kafka
    example_publisher example_live (example_state example_live) (fun _ => 0) 1 1 e2e_recs e2e_labels s e2e_updates empty_redis
    e2e_redis ":8080" example_handler Background 0 0 "btcusdt" "BTCUSDT" default_provider_ok eq_refl
    (example_trace example_live ltac:(vm_compute; eexists; reflexivity)) e2e_deliverable
    e2e_topic (run_system_trace _ _ _ _ _ Hrun) (quiet_b_sound s Hq) Hl Hr
    ltac:(vm_compute; reflexivity) eq_refl ltac:(vm_compute; reflexivity) ltac:(discriminate) ltac:(vm_compute; reflexivity))
    as (rep & Hget & _ & _ & Hserved).
  destruct Hserved as (ev & Hin & _ & Hrep & _).
  - apply up_available. vm_compute. reflexivity.
  - exists e2e_event. fold e2e_messages. rewrite e2e_trades. split; [left|vm_compute; reflexivity].
  - fold e2e_messages in Hin. rewrite e2e_trades in Hin. apply list_elem_of_singleton in Hin as ->.
    exists rep. split; [exact Hget|]. split; [rewrite Hrep; reflexivity|exact Hrep].
Defined.

(** The order book of the same message: its buy is the best ask. *)
Lemma EndToEnd_serves_book_witness :
  exists st, run_sinks 1 1 e2e_recs book_first = Some st /\
    exists rep, e2e_get (ps_redis st) "/api/v1/orderbook/btcusdt" = PublicText (reply_text rep) /\
      code rep = StatusOK /\
      exists events last_ev, events ⊆+ map (enriched NewDefaultMetadataProvider) [e2e_event] /\
        find_last (of_symbol "BTCUSDT") events = Some last_ev /\ rep = served_book "BTCUSDT" events last_ev.
Proof.
  destruct (run_sinks_elim 1 1 e2e_recs book_first
    (fun st => up (ps_redis st) && bool_decide (is_Some (db (ps_redis st) (KeyOrderBook "BTCUSDT")))))
    as (st & Hrun & [Hup Hsome]%andb_true_iff); [vm_compute; reflexivity|].
  apply bool_decide_eq_true in Hsome.
  assert (db empty_redis (KeyOrderBook "BTCUSDT") = None) as Hdb by (vm_compute; reflexivity).
  exists st. split; [exact Hrun|].
  destruct (EndToEnd_serves_book NewDefaultMetadataProvider (normalizeSymbols example_syms) (fun _ => None) example_kafka
    example_publisher example_live (example_state example_live) (fun _ => 0) 1 1 e2e_recs empty_redis book_first st
    ":8080" example_handler Background 0 0 "btcusdt" "BTCUSDT" default_provider_ok eq_refl
    (example_trace example_live ltac:(vm_compute; eexists; reflexivity)) e2e_deliverable
    e2e_topic (run_sinks_trace _ _ _ _ _ Hrun) eq_refl
    ltac:(vm_compute; reflexivity) ltac:(discriminate) Hdb)
    as (rep & Hget & _ & _ & Hserved).
  destruct (Hserved (up_available _ _ Hup) Hsome) as (events & last_ev & _ & Hsub & _ & Hlast & Hrep).
  fold e2e_messages in Hsub. rewrite e2e_trades in Hsub.
  exists rep. split; [exact Hget|]. split; [rewrite Hrep; reflexivity|].
  exists events, last_ev. split; [exact Hsub|]. split; [exact Hlast|exact Hrep].
Defined.
